(* ===== verification/_CoqProject ===== *)
-Q . S2P
Prelude.v
Ident.v
Text.v
Lifecycle.v
StoreModel.v
Api.v
MemStore.v
MemSpec.v
MemInv.v
Samples.v
MemLease.v
MemSweep.v
MemFrames.v
MemBudget.v
MemHistory.v
MemQueries.v
SqlStore.v
SqlRel.v
SqlRefine.v
SqlSweep.v
SqlSession.v
SqlDelivery.v
Artifacts.v
ArtifactSpec.v
ArtifactRefine.v
ArtifactFacts.v
RemoteResults.v
RemoteSpec.v
RemoteRefine.v
RemoteFacts.v
RelayRuntime.v
RelayInv.v
RelayDelivery.v
Policy.v
Security.v
Registry.v
Wire.v
Rpc.v
Program.v
ResultArtifacts.v
Daemon.v
WireSamples.v
LeaseIds.v
ProgramFacts.v
DaemonCalls.v
DaemonSession.v
DaemonFacts.v
DaemonClaims.v
QueueLock.v
QueueBound.v
Termination.v
DaemonResults.v
DaemonTransfers.v
ResultTransfer.v
RelayTrace.v
RelayMessages.v
RelayService.v
RelayLogic.v
RelayServiceFacts.v
RelayAlone.v
Routing.v
RoutingFacts.v
RelayNode.v
RelayNodeFacts.v
Federation.v
FederationFacts.v
Crossing.v
Incoming.v
IncomingFacts.v
FleetBridge.v
FleetBridgeFacts.v
Shutdown.v
