(* ===== verification/Prelude.v ===== *)
(** * Hermes Keryx: a verification library of the durable task runtime

    Keryx hands tasks from one agent node to another. A daemon keeps the tasks
    in a store: a task is accepted, leased to a worker, and ends completed,
    failed, dead-lettered or cancelled; its result waits in an outbox until it
    was delivered. A relay connects the nodes: it keeps a mailbox per node,
    replays what a node has not acknowledged, and lists which node offers
    which skill. This library models the store crate, the domain crate, the
    policy crate, the daemon's services and the relay's, as functions that can
    be evaluated, and proves what they guarantee. Source paths below are
    relative to src/crates.

    ** How the model reads

    - A Rust [Result] is [Result]; a method that changes shared state is a
      computation [ST S E A], a function from the state to its answer and the
      state it leaves, also when it fails. [let!] is sequencing with [?],
      [let?] the [?] of a pure function.
    - A Rust [String] is its UTF-8 bytes ([string]); [i64], [u64], [u32],
      [usize] are [Z] with the wrap-around, saturation or check of the source
      written out ([as_i64], [as_u64], [i64_saturating_add], ...).
    - A [HashMap] or [BTreeMap] is a [gmap]; where the source sorts what it
      iterated over, the model sorts with the same key ([sort_on]).
    - Every method takes its lock (or its one database connection) for the
      whole call, or for the critical sections its model names, so concurrent
      callers are sequences of calls; theorems about states quantify over all
      sequences of calls from the initial state.
    - An [async fn] is a program, a tree of the effects it asks for ([Prog] in
      the daemon, [RProg] in the relay), and a pool of programs is interleaved
      effect by effect, because other handlers run between two awaited calls.
      In the relay a handler can also be dropped where it awaits.
    - Clock readings, random identifiers and the answers of queues are
      arguments. A panic is a value of its own (an error, or [None]).

    ** The parts

    - Domain, keryx-core/src: Ident (identifiers, [validate_identifier], the
      error types), Lifecycle (task states, transitions, cancellation, legacy
      events, retry policy, limits).
    - Store, keryx-store/src/lib.rs and results.rs: StoreModel (records, text
      codecs, guards, replay), Api (the operations both stores offer, as the
      class [StoreApi]), MemStore ([InMemoryStore]), SqlStore
      ([SqliteStore]: rows, statements, transactions).
    - Daemon, keryx-daemon/src/lib.rs: Wire (messages, parsing, statuses), Rpc
      (requests and responses), Program (effects, metrics, interleaving),
      ResultArtifacts (artifacts of results), Daemon (authorization, the task
      handlers, the ticks of deadline_enforcement_loop.rs,
      lease_recovery_loop.rs and health_loop.rs), DaemonTransfers (the handlers
      of artifacts, result deliveries and remote results), Shutdown (the
      in-flight guard and the drain), Incoming (incoming.rs: tasks that come
      through a channel). Routing (routing.rs: peers, the
      capability policy, the publication to the relay, the router).
    - Relay, keryx-relay/src: RelayRuntime (runtime.rs), Registry (registry.rs
      and the handlers of registry_server.rs), Security (security.rs),
      RelayMessages (the control messages and their validation) and
      RelayService (the handlers) of health_server.rs. RelayNode (node.rs: the
      process that joins a daemon to the relay), FleetBridge
      (fleet_observation_bridge.rs: one of its handlers).
    - Between the nodes: Routing and RelayNode leave their network open, as
      the classes [RelayNetwork] and [EdgePeers]. Federation builds instances
      of both from the other parts: the relay's handlers behind a publisher,
      the relay's and the daemon's handlers behind a node, and a fate for each
      call, which may be lost on its way there or back.
    - Policy, keryx-policy/src/lib.rs: Policy. Text has the string functions
      of the standard library that Policy and Artifacts use.

    The daemon's programs call the store through the interface in Api, so they
    run on either store; the relay's handlers authenticate with Security before
    they change the Registry or the runtime, and wait for the answers that
    other handlers give to their frames.

    ** What is proved

    - The in-memory store. MemSpec states its contract, a state machine of
      tasks, leases and events, and shows that each call is a sequence of its
      steps. MemInv has the data-model invariant. MemLease: fencing of worker
      reports, exclusive leases, when a lease is granted, failures one after
      the other. MemSweep: the deadline and stale-lease sweeps. MemFrames: what
      a call appends to the logs, what a failing call writes, which calls leave
      the counters of failures alone. MemBudget: the retry budget over every
      history. MemHistory: reachable states, append-only history, failing calls
      take no step but one, replay returns the stored record, results are stored
      with their task and delivery, duplicate submissions, cancellation.
      MemQueries: which tasks a peer is offered.
    - The SQLite store. SqlRel represents an in-memory state in tables,
      SqlRefine and SqlSweep simulate each operation, SqlSession concludes for
      sessions: the same replies, errors included, as long as the calls satisfy
      [ops_ok] (tasks are submitted pending, a lease names its task and its
      worker, and no lease id is reused for another task); outside of it the
      two stores differ, which the findings record.
      SqlDelivery: the outbox as a state machine on rows.
    - Artifact storage. ArtifactSpec states the contract, a catalog from ids to
      contents; ArtifactRefine shows that both stores implement it and that the
      blob directory holds the large contents; ArtifactFacts concludes, and
      shows the two orders of events that break it. RemoteSpec decides on a
      report from the tasks and the artifacts, RemoteRefine shows that the
      ingestion carries the decision out, all or nothing, RemoteFacts that a
      result is applied once.
    - The daemon. ProgramFacts reasons about programs: what a program asks for
      under any answers, invariants and simulations along schedules. LeaseIds:
      lease ids name their task. DaemonCalls and DaemonSession: every handler
      keeps to the calls on which the two stores agree, so that a whole
      session of interleaved requests and ticks runs the same on both.
      DaemonFacts: authorization, and what becomes of a repeated submission.
      DaemonClaims: which task a claim takes. QueueLock: the submission lock
      excludes; QueueBound: so submissions keep the pending limit in every
      interleaving, as long as no failure report and no recovery returns tasks
      to the queue. Termination: every session under a fair schedule ends, when
      time passes for the claims that wait. DaemonResults:
      from an accepted completion to the look-up of its result, and to the
      checks of the origin. ResultTransfer joins the daemons of an executor and
      an origin: the result arrives whole, and what a second delivery is
      answered. IncomingFacts: every outcome of an incoming task. Shutdown: a
      store that is closed after a drain has no handler in it. RoutingFacts: a
      task for another peer is stored before it is sent, and what a retry
      meets.
    - The relay. RelayInv has the invariant of the runtime's tables.
      RelayDelivery: frames wait until they are settled and are replayed in
      order, only the owner acknowledges, typed control frames are settled by
      their completion, a waiter hears at most once, publication is
      idempotent, a replaced stream cannot end its successor. RelayTrace says
      what a call sends, opens and settles. RelayLogic is a program logic for
      handlers: a handler within its rights that waits for what it routed and
      abandons what it no longer waits for keeps the invariant of the pool,
      whatever the others do. RelayServiceFacts shows every handler sound for
      the rights its request's headers give it, and concludes: frames only go
      from authenticated sources to their authenticated target, success needs
      the word of the destination, nothing is left behind, every handler ends.
      RelayAlone runs a handler with nothing in between. RelayNodeFacts: the
      delays of a node, and that each frame kept for a node is settled by what
      the node does with it. FleetBridgeFacts: what the bridge asks the local
      process, and in whose name.
    - From node to node. FederationFacts says what a publisher's success, an
      accepted submission and a handled frame leave behind. Crossing joins
      them: a task that was sent reaches the store of its executor as it is
      in the sender's, and a task whose acknowledgement was lost after a
      worker took it blocks its node for ever.
    - Registry: the skill index is exact, discovery equals a scan, only the
      owner changes a registration. Security: reloading tokens is all or
      nothing. Policy: key round trip, authentication, rule precedence, what
      redaction leaves visible.

    Samples and WireSamples hold the concrete values of the witnesses;
    WireSamples has a wire format that satisfies what is assumed of protobuf
    ([WireLaws]). One definition needs fuel: a waiting claim
    ([claim_next_task]) looks again as often as it is woken until its deadline,
    so [claim_rounds] follows it for as many rounds as the request's [Waiting]
    has fuel, and Termination shows that enough fuel exists whenever the clock
    of the claim passes every instant. The other loops are over finite lists,
    as folds or structural recursion, and the search loops of the source
    ([while] over a queue) are recursion on the queue.

    ** Not modelled

    The daemon's listener, timers and reports, the relay's listeners, the
    configuration of the processes, the command line, the test kit and the
    Python SDK. Creating the blob directory, and errors of files other than a
    missing or an existing one. SQL schema migration, the TOML and JSON text
    formats, protobuf encoding (a parameter of the daemon's model), file
    permissions, logging and metrics export belong to libraries. Poisoned
    locks need a panic inside a critical section. Columns that no statement
    reads are left out. *)
From stdpp Require Export base gmap sets list strings sorting relations.
From stdpp Require Import options.
From Stdlib Require Export ZArith Lia.

#[global] Open Scope Z_scope.
#[export] Set Default Goal Selector "!".

(** ** Results: Rust's [Result<T, E>] *)

Inductive Result (T E : Type) : Type :=
| Ok (t : T)
| Err (e : E).
Arguments Ok {T E} t.
Arguments Err {T E} e.

#[export] Instance Result_eq_dec {T E} `{EqDecision T, EqDecision E} :
  EqDecision (Result T E).
Proof. solve_decision. Defined.

Declare Scope keryx_scope.
Delimit Scope keryx_scope with keryx.
#[global] Open Scope keryx_scope.

(** The [?] operator on a pure [Result]. *)
Notation "'let?' x := r 'in' k" :=
  (match r with Ok x => k | Err e => Err e end)
    (at level 10, x pattern, r at level 100, k at level 200) : keryx_scope.

Definition ok_or {T E} (o : option T) (e : E) : Result T E :=
  match o with Some t => Ok t | None => Err e end.

Definition map_err {T E E'} (f : E -> E') (r : Result T E) : Result T E' :=
  match r with Ok t => Ok t | Err e => Err (f e) end.

Definition result_map {T U E} (f : T -> U) (r : Result T E) : Result U E :=
  match r with Ok t => Ok (f t) | Err e => Err e end.

Definition is_ok {T E} (r : Result T E) : bool :=
  match r with Ok _ => true | Err _ => false end.

(** [Option<Result<T, E>>::transpose] after an [Option::map]. *)
Definition transpose {T E} (o : option (Result T E)) : Result (option T) E :=
  match o with
  | Some (Ok t) => Ok (Some t)
  | Some (Err e) => Err e
  | None => Ok None
  end.

(** [iter().map(f).collect::<Result<Vec<_>, _>>()]. *)
Fixpoint try_map {A B E} (f : A -> Result B E) (l : list A) : Result (list B) E :=
  match l with
  | [] => Ok []
  | a :: l => let? b := f a in let? bs := try_map f l in Ok (b :: bs)
  end.

(** ** Fallible state passing

    An operation under a mutex (or on a connection) takes the state and
    returns its result with the state it left behind, also when it fails: a
    Rust [?] does not undo what was written before it. *)

Definition ST (S E A : Type) : Type := S -> Result A E * S.

Definition ret {S E A} (a : A) : ST S E A := fun s => (Ok a, s).
Definition throw {S E A} (e : E) : ST S E A := fun s => (Err e, s).
Definition lift {S E A} (r : Result A E) : ST S E A := fun s => (r, s).
Definition get {S E} : ST S E S := fun s => (Ok s, s).
Definition modify {S E} (f : S -> S) : ST S E unit := fun s => (Ok tt, f s).
Definition bind {S E A B} (m : ST S E A) (k : A -> ST S E B) : ST S E B :=
  fun s => match m s with
           | (Ok a, s') => k a s'
           | (Err e, s') => (Err e, s')
           end.

Notation "'let!' x := m 'in' k" := (bind m (fun x => k))
  (at level 10, x pattern, m at level 100, k at level 200) : keryx_scope.
Notation "m ;;; k" := (bind m (fun _ => k))
  (at level 199, right associativity) : keryx_scope.

Section state_monad.
Context {S E : Type}.

Lemma bind_ret_l {A B} (a : A) (k : A -> ST S E B) s : bind (ret a) k s = k a s.
Proof. done. Qed.

Lemma bind_lift_ok {A B} (a : A) (k : A -> ST S E B) s :
  bind (lift (Ok a)) k s = k a s.
Proof. done. Qed.

Lemma bind_ok {A B} (m : ST S E A) (k : A -> ST S E B) s a s' :
  m s = (Ok a, s') -> bind m k s = k a s'.
Proof. unfold bind. by intros ->. Qed.

Lemma bind_err {A B} (m : ST S E A) (k : A -> ST S E B) s e s' :
  m s = (Err e, s') -> bind m k s = (Err e, s').
Proof. unfold bind. by intros ->. Qed.

Lemma bind_assoc {A B C} (m : ST S E A) (f : A -> ST S E B) (g : B -> ST S E C) s :
  bind (bind m f) g s = bind m (fun a => bind (f a) g) s.
Proof. unfold bind. by destruct (m s) as [[]]. Qed.

(** Inversion of a sequenced computation: the rule every proof about an
    operation's successful or failing runs goes through. *)
Lemma bind_inv {A B} (m : ST S E A) (k : A -> ST S E B) s r s' :
  bind m k s = (r, s') ->
  (exists a s1, m s = (Ok a, s1) /\ k a s1 = (r, s'))
  \/ (exists e, m s = (Err e, s') /\ r = Err e).
Proof. unfold bind. destruct (m s) as [[a|e] s1]; naive_solver. Qed.

Lemma bind_ok_inv {A B} (m : ST S E A) (k : A -> ST S E B) s b s' :
  bind m k s = (Ok b, s') -> exists a s1, m s = (Ok a, s1) /\ k a s1 = (Ok b, s').
Proof. unfold bind. destruct (m s) as [[a|e] s1]; naive_solver. Qed.
End state_monad.

(** A loop over a list that threads the state and stops at the first error. *)
Fixpoint for_each {S E A} (body : A -> ST S E unit) (l : list A) : ST S E unit :=
  match l with
  | [] => ret tt
  | a :: l => body a ;;; for_each body l
  end.

(** The same, collecting what the body pushes. *)
Fixpoint for_collect {S E A B} (body : A -> ST S E (list B)) (l : list A) : ST S E (list B) :=
  match l with
  | [] => ret []
  | a :: l =>
      let! bs := body a in
      let! rest := for_collect body l in
      ret (bs ++ rest)
  end.

(** ** Machine integers

    Integers are [Z] within the range of their Rust type; saturating and
    wrapping operations say so. *)

Definition u32_max : Z := 4294967295.
Definition u64_max : Z := 18446744073709551615.
Definition i64_max : Z := 9223372036854775807.
Definition i64_min : Z := -9223372036854775808.

Definition in_u32 (x : Z) : Prop := 0 <= x <= u32_max.
Definition in_u64 (x : Z) : Prop := 0 <= x <= u64_max.
Definition in_i64 (x : Z) : Prop := i64_min <= x <= i64_max.

Definition u32_saturating_add (x y : Z) : Z := Z.min (x + y) u32_max.
Definition u64_saturating_add (x y : Z) : Z := Z.min (x + y) u64_max.
Definition i64_saturating_add (x y : Z) : Z := Z.max i64_min (Z.min (x + y) i64_max).

(** [x as u32], [x as u64] and [x as i64]. *)
Definition as_u32 (x : Z) : Z := x mod 4294967296.
Definition as_u64 (x : Z) : Z := x mod 18446744073709551616.
Definition as_i64 (x : Z) : Z :=
  (x + 9223372036854775808) mod 18446744073709551616 - 9223372036854775808.

Ltac unfold_ints :=
  unfold in_u32, in_u64, in_i64, u32_saturating_add, u64_saturating_add,
    i64_saturating_add, as_u32, as_u64, as_i64, u32_max, u64_max, i64_max, i64_min in *.

Lemma as_u32_id x : in_u32 x -> as_u32 x = x.
Proof. unfold_ints. intros. apply Z.mod_small. lia. Qed.

Lemma as_i64_id x : in_i64 x -> as_i64 x = x.
Proof. unfold_ints. intros. rewrite Z.mod_small; lia. Qed.

Lemma u32_saturating_add_range x y : in_u32 x -> in_u32 y -> in_u32 (u32_saturating_add x y).
Proof. unfold_ints. lia. Qed.

Lemma u32_saturating_add_exact x y m :
  x + y <= m -> in_u32 m -> u32_saturating_add x y = x + y.
Proof. unfold_ints. lia. Qed.

Lemma u32_saturating_add_grows x : in_u32 x -> x <= u32_saturating_add x 1.
Proof. unfold_ints. lia. Qed.

Lemma in_u32_between x y m : in_u32 x -> in_u32 m -> x <= y <= m -> in_u32 y.
Proof. unfold_ints. lia. Qed.

Lemma in_u32_nonneg x : in_u32 x -> 0 <= x.
Proof. unfold_ints. lia. Qed.

(** ** Orders used by [sort_by]

    The stores sort on an integer key and break ties on a string. *)

Definition key_le (a b : Z * string) : Prop :=
  a.1 < b.1 \/ (a.1 = b.1 /\ String.le a.2 b.2).

#[export] Instance key_le_dec a b : Decision (key_le a b).
Proof. unfold key_le. apply _. Defined.

#[export] Instance key_le_total : Total key_le.
Proof.
  intros [x s] [y t]. unfold key_le; simpl.
  destruct (Z.lt_trichotomy x y) as [?|[->|?]]; [by auto| |by auto].
  destruct (total String.le s t); auto.
Qed.

#[export] Instance key_le_trans : Transitive key_le.
Proof.
  intros [x s] [y t] [z u]; unfold key_le; simpl.
  intros [?|[-> H1]] [?|[-> H2]]; [left; lia|left; lia|left; lia|].
  right; split; [done|]. by etrans.
Qed.

#[export] Instance key_le_antisymm : AntiSymm (=) key_le.
Proof.
  intros [x s] [y t]; unfold key_le; simpl.
  intros [?|[-> H1]] [?|[? H2]]; try lia.
  f_equal. by apply (anti_symm String.le).
Qed.

(** Two integers and a string, compared in that order. *)
Definition key3_le (a b : Z * (Z * string)) : Prop :=
  a.1 < b.1 \/ (a.1 = b.1 /\ key_le a.2 b.2).

#[export] Instance key3_le_dec a b : Decision (key3_le a b).
Proof. unfold key3_le. apply _. Defined.

#[export] Instance key3_le_total : Total key3_le.
Proof.
  intros [x s] [y t]. unfold key3_le; simpl.
  destruct (Z.lt_trichotomy x y) as [?|[->|?]]; [by auto| |by auto].
  destruct (total key_le s t); auto.
Qed.

#[export] Instance key3_le_trans : Transitive key3_le.
Proof.
  intros [x s] [y t] [z u]; unfold key3_le; simpl.
  intros [?|[-> H1]] [?|[-> H2]]; [left; lia|left; lia|left; lia|].
  right; split; [done|]. by etrans.
Qed.

#[export] Instance key3_le_antisymm : AntiSymm (=) key3_le.
Proof.
  intros [x s] [y t]; unfold key3_le; simpl.
  intros [?|[-> H1]] [?|[? H2]]; try lia.
  f_equal. by apply (anti_symm key_le).
Qed.

(** [sort_by] with a comparison on a projected key. *)
Section sort_on.
Context {K : Type} (R : relation K) `{!forall a b, Decision (R a b)}.
Context `{!Total R, !Transitive R, !AntiSymm (=) R}.
Context {A : Type} (key : A -> K).

Definition on_key (a b : A) : Prop := R (key a) (key b).

#[export] Instance on_key_dec a b : Decision (on_key a b).
Proof using Type*. unfold on_key. apply _. Defined.
#[export] Instance on_key_total : Total on_key.
Proof using Type*. intros a b. apply (total R). Qed.
#[export] Instance on_key_trans : Transitive on_key.
Proof using Type*. intros a b c. unfold on_key. by etrans. Qed.

Definition sort_on (l : list A) : list A := merge_sort on_key l.

Lemma sort_on_perm l : sort_on l ≡ₚ l.
Proof using Type*. apply merge_sort_Permutation. Qed.

Lemma sort_on_sorted l : StronglySorted on_key (sort_on l).
Proof using Type*. apply (StronglySorted_merge_sort on_key). Qed.

Lemma elem_of_sort_on x l : x ∈ sort_on l <-> x ∈ l.
Proof using Type*. by rewrite sort_on_perm. Qed.

(** Two sorted arrangements of elements that their keys identify are equal. *)
Lemma sorted_on_unique (l1 l2 : list A) :
  (forall a b, a ∈ l1 -> b ∈ l1 -> key a = key b -> a = b) ->
  StronglySorted on_key l1 -> StronglySorted on_key l2 -> l1 ≡ₚ l2 -> l1 = l2.
Proof using Type*.
  intros Hin S1 S2 Hp. revert l2 S2 Hp Hin.
  induction S1 as [|x l S1 IH Hx]; intros m S2 Hp Hin.
  - by apply Permutation_nil_l in Hp.
  - destruct S2 as [|y m S2 Hy]; [by apply Permutation_nil_r in Hp|].
    assert (x = y) as ->.
    { assert (y ∈ x :: l) as Hyin by (rewrite Hp; left).
      assert (x ∈ y :: m) as Hxin by (rewrite <- Hp; left).
      apply elem_of_cons in Hyin as [->|Hyin]; [done|].
      apply elem_of_cons in Hxin as [->|Hxin]; [done|].
      rewrite Forall_forall in Hx, Hy.
      apply Hin; [by left|by right|].
      apply (anti_symm R); [by apply Hx|by apply Hy]. }
    f_equal. apply IH; [done| |].
    + by apply Permutation_cons_inv in Hp.
    + intros a b Ha Hb. apply Hin; by right.
Qed.

(** With keys that identify the elements, sorting is determined by the
    elements alone: the order a hash map yields them in does not matter. *)
Lemma sort_on_unique (l1 l2 : list A) :
  (forall a b, a ∈ l1 -> b ∈ l1 -> key a = key b -> a = b) ->
  l1 ≡ₚ l2 -> sort_on l1 = sort_on l2.
Proof using Type*.
  intros Hinj Hperm. apply sorted_on_unique; try apply sort_on_sorted.
  - intros a b. rewrite !elem_of_sort_on. apply Hinj.
  - by rewrite !sort_on_perm.
Qed.
End sort_on.

Lemma filter_keeps_all {A} (P : A -> Prop) `{!forall x, Decision (P x)} (l : list A) :
  (forall x, x ∈ l -> P x) -> filter P l = l.
Proof.
  induction l as [|x l IH]; [done|]. intros HP. rewrite filter_cons_True by (apply HP; left).
  rewrite IH; [done|]. intros y Hy. apply HP. by right.
Qed.

Lemma StronglySorted_fmap {A B} (R : relation A) (S : relation B) (f : A -> B) l :
  (forall a b, a ∈ l -> b ∈ l -> R a b -> S (f a) (f b)) ->
  StronglySorted R l -> StronglySorted S (f <$> l).
Proof.
  intros Hf. induction 1 as [|a l Hs IH Ha]; [constructor|]. csimpl. constructor.
  - apply IH. intros x y Hx Hy. apply Hf; by right.
  - apply Forall_fmap. rewrite Forall_forall in *. intros b Hb. apply Hf; [left|by right|auto].
Qed.

(** Sorting the image of a list under a map that respects the keys. *)
Lemma sort_on_image {K A B} (R : relation K) `{!forall a b, Decision (R a b)}
    `{!Total R, !Transitive R, !AntiSymm (=) R}
    (kA : A -> K) (kB : B -> K) (f : A -> B) (l : list A) (m : list B) :
  m ≡ₚ f <$> l -> (forall a, a ∈ l -> kB (f a) = kA a) ->
  (forall a b, a ∈ l -> b ∈ l -> kA a = kA b -> a = b) ->
  sort_on R kB m = f <$> sort_on R kA l.
Proof.
  intros Hp Hk Hinj.
  apply (sorted_on_unique R kB); [|by apply sort_on_sorted| |].
  - intros x y. rewrite !elem_of_sort_on, !Hp, !list_elem_of_fmap.
    intros (a & -> & Ha) (b & -> & Hb). rewrite !Hk by done. intros Heq. f_equal. by apply Hinj.
  - apply (StronglySorted_fmap (on_key R kA)); [|by apply sort_on_sorted].
    intros a b. rewrite !elem_of_sort_on by done. intros Ha Hb. unfold on_key. by rewrite !Hk.
  - by rewrite !sort_on_perm, Hp.
Qed.

Abbreviation by_key := (on_key key_le).
Abbreviation sort_by_key := (sort_on key_le).

Create HintDb keryx.
#[export] Hint Resolve as_u32_id as_i64_id u32_saturating_add_range : keryx.

(** ** Tactics for runs of [ST] computations

    [run_inv H] takes apart [H : m s = (r, s')]: sequencing is inverted with
    [bind_inv], the primitives are evaluated, and a branch of the source
    becomes a case of the proof. *)

Lemma lift_inv {S E A} (x : Result A E) (s : S) r s' :
  lift x s = (r, s') -> r = x /\ s' = s.
Proof. unfold lift. naive_solver. Qed.

Ltac run_inv H :=
  lazymatch type of H with
  | bind _ _ _ = (_, _) =>
      apply bind_inv in H;
      let a := fresh "a" in let s1 := fresh "s" in let E := fresh "E" in
      let e := fresh "e" in let Hr := fresh "Hr" in
      destruct H as [(a & s1 & E & H)|(e & E & Hr)];
      [run_inv E; run_inv H|run_inv E; try subst]
  | lift _ _ = (_, _) =>
      apply lift_inv in H; let H' := fresh "Hs" in destruct H as [H H']; subst
  | ret _ _ = (_, _) => unfold ret in H; simplify_eq
  | throw _ _ = (_, _) => unfold throw in H; simplify_eq
  | get _ = (_, _) => unfold get in H; simplify_eq
  | modify _ _ = (_, _) => unfold modify in H; simplify_eq
  | (match ?x with _ => _ end) _ = (_, _) =>
      let C := fresh "C" in destruct x eqn:C; run_inv H
  | (let _ := _ in _) _ = (_, _) => cbv zeta in H; run_inv H
  | _ => idtac
  end.

(** The results of [?] on a pure value. *)
Lemma ok_or_ok {T E} (o : option T) (e : E) t : ok_or o e = Ok t <-> o = Some t.
Proof. destruct o; naive_solver. Qed.

Lemma ok_or_err {T E} (o : option T) (e e' : E) : ok_or o e = Err e' <-> o = None /\ e = e'.
Proof. destruct o; naive_solver. Qed.

#[export] Hint Rewrite @ok_or_ok @ok_or_err @bool_decide_eq_true @bool_decide_eq_false : keryx_inv.

(** Decoding the image of a list. *)
Lemma try_map_image {A B E X} (f : B -> Result A E) (h : X -> B) (g : X -> A) (l : list X) :
  (forall x, x ∈ l -> f (h x) = Ok (g x)) -> try_map f (h <$> l) = Ok (g <$> l).
Proof.
  induction l as [|x l IH]; intros Hl; [done|]. csimpl. rewrite Hl by left.
  rewrite IH; [done|]. intros y Hy. apply Hl. by right.
Qed.

(** What a successful [collect] of results went through. *)
Lemma try_map_inv {A B E} (f : A -> Result B E) l l' :
  try_map f l = Ok l' -> Forall2 (fun a b => f a = Ok b) l l'.
Proof.
  revert l'. induction l as [|a l IH]; intros l'; simpl; [by intros [= <-]|].
  destruct (f a) as [b|] eqn:Hf; [|done]. destruct (try_map f l) as [bs|]; [|done].
  intros [= <-]. constructor; auto.
Qed.
