(* ===== verification/Ident.v ===== *)
(** * Identifiers and domain errors (crates/keryx-core/src/error.rs)

    A Rust [String] is the list of its UTF-8 bytes, a [string] here. The
    validated identifier types ([TaskId], [LeaseId], ... : the macro
    [string_id_type!] and the hand-written copies of it) are one type indexed
    by the kind; a value carries the evidence that its text is a valid
    identifier, as a Rust value does by having a private field that only
    [new] fills. *)
From S2P Require Import Prelude.
From stdpp Require Import options.
From Stdlib Require Import Ascii.

(** ** [str::trim]

    [trim] removes characters with the Unicode property White_Space on both
    sides. In UTF-8 they take one, two or three bytes:
    U+0009..U+000D and U+0020; U+0085 and U+00A0; U+1680, U+2000..U+200A,
    U+2028, U+2029, U+202F, U+205F and U+3000. *)

Definition ws1 (c : ascii) : bool :=
  let n := nat_of_ascii c in
  (Nat.leb 9 n && Nat.leb n 13) || Nat.eqb n 32.

Definition ws2 (c1 c2 : ascii) : bool :=
  Nat.eqb (nat_of_ascii c1) 194
  && (Nat.eqb (nat_of_ascii c2) 133 || Nat.eqb (nat_of_ascii c2) 160).

Definition ws3 (c1 c2 c3 : ascii) : bool :=
  let a := nat_of_ascii c1 in
  let b := nat_of_ascii c2 in
  let c := nat_of_ascii c3 in
  (Nat.eqb a 225 && Nat.eqb b 154 && Nat.eqb c 128)
  || (Nat.eqb a 226 && Nat.eqb b 128
      && ((Nat.leb 128 c && Nat.leb c 138)
          || Nat.eqb c 168 || Nat.eqb c 169 || Nat.eqb c 175))
  || (Nat.eqb a 226 && Nat.eqb b 129 && Nat.eqb c 159)
  || (Nat.eqb a 227 && Nat.eqb b 128 && Nat.eqb c 128).

(** Drop leading whitespace characters; [rv] reads the bytes of a character
    from last to first, which is what the reversed string needs. *)
Fixpoint skip_ws (rv : bool) (l : list ascii) : list ascii :=
  match l with
  | [] => []
  | c1 :: l1 =>
      if ws1 c1 then skip_ws rv l1
      else match l1 with
           | [] => l
           | c2 :: l2 =>
               if (if rv then ws2 c2 c1 else ws2 c1 c2) then skip_ws rv l2
               else match l2 with
                    | [] => l
                    | c3 :: l3 =>
                        if (if rv then ws3 c3 c2 c1 else ws3 c1 c2 c3)
                        then skip_ws rv l3 else l
                    end
           end
  end.

Definition trim_bytes (l : list ascii) : list ascii :=
  rev (skip_ws true (rev (skip_ws false l))).

Definition bytes_of (s : string) : list ascii := String.list_ascii_of_string s.
Definition of_bytes (l : list ascii) : string := String.string_of_list_ascii l.

Definition trim (s : string) : string := of_bytes (trim_bytes (bytes_of s)).

(** ** Identifier validation *)

Definition MAX_ID_LEN : nat := 128.

Definition is_allowed_id_char (c : ascii) : bool :=
  let n := nat_of_ascii c in
  (Nat.leb 48 n && Nat.leb n 57)          (* 0-9 *)
  || (Nat.leb 65 n && Nat.leb n 90)       (* A-Z *)
  || (Nat.leb 97 n && Nat.leb n 122)      (* a-z *)
  || Nat.eqb n 45 || Nat.eqb n 95 || Nat.eqb n 46 || Nat.eqb n 58.

(** The lifecycle states (keryx-core/src/task.rs) are declared here because
    the error type mentions them. *)
Inductive TaskStatus : Type := Pending | Running | Completed | Failed.

#[export] Instance TaskStatus_eq_dec : EqDecision TaskStatus.
Proof. solve_decision. Defined.

Definition is_terminal (s : TaskStatus) : bool :=
  match s with Completed | Failed => true | Pending | Running => false end.

Inductive ValidationError : Type :=
| MissingIdValue (kind : string)
| InvalidIdValue (kind : string) (value : string)
| VArtifactTooLarge (byte_len limit_bytes : Z)
| InvalidDigest (value : string)
| VArtifactNotFound (id : string)
| LimitExceededError (kind : string) (current max : Z)
| InvalidTaskTransition (from to : TaskStatus)
| CancelNotApplicable (status : TaskStatus)
| TerminalTaskTransition (from to : TaskStatus).

#[export] Instance ValidationError_eq_dec : EqDecision ValidationError.
Proof. solve_decision. Defined.

Inductive KeryxCoreError : Type :=
| Validation (e : ValidationError)
| CoreTaskNotFound (id : string)
| PolicyDenied (message : string).

Definition validate_identifier (kind : string) (raw : string) : Result string ValidationError :=
  let trimmed := trim raw in
  if Nat.eqb (String.length trimmed) 0 then Err (MissingIdValue kind)
  else if negb (Nat.leb (String.length trimmed) MAX_ID_LEN)
          || negb (forallb is_allowed_id_char (bytes_of trimmed))
       then Err (InvalidIdValue kind raw)
       else Ok trimmed.

(** The texts an identifier value can hold. *)
Definition valid_id (s : string) : bool :=
  negb (Nat.eqb (String.length s) 0)
  && Nat.leb (String.length s) MAX_ID_LEN
  && forallb is_allowed_id_char (bytes_of s).

Lemma bytes_of_of_bytes l : bytes_of (of_bytes l) = l.
Proof. apply String.list_ascii_of_string_of_list_ascii. Qed.

Lemma of_bytes_bytes_of s : of_bytes (bytes_of s) = s.
Proof. apply String.string_of_list_ascii_of_string. Qed.

Lemma allowed_not_ws c : is_allowed_id_char c = true ->
  ws1 c = false /\ forall a b,
  ws2 c a = false /\ ws2 a c = false /\ ws3 c a b = false /\ ws3 a b c = false.
Proof.
  intros H.
  assert (Hn : (45 <= nat_of_ascii c <= 122)%nat /\ (nat_of_ascii c <> 13)%nat).
  { unfold is_allowed_id_char in H.
    repeat rewrite ?orb_true_iff, ?andb_true_iff, ?Nat.leb_le, ?Nat.eqb_eq in H. lia. }
  unfold ws1, ws2, ws3. split.
  - apply orb_false_iff; split; [apply andb_false_iff; right; apply Nat.leb_gt; lia|].
    apply Nat.eqb_neq; lia.
  - intros a b. revert Hn. generalize (nat_of_ascii c) as n.
    generalize (nat_of_ascii a) as x. generalize (nat_of_ascii b) as y. intros y x n Hn.
    repeat split;
      repeat match goal with
      | |- context [Nat.eqb n ?k] => rewrite (proj2 (Nat.eqb_neq n k)) by lia
      | |- context [Nat.leb ?k n] => rewrite (proj2 (Nat.leb_gt k n)) by lia
      end; rewrite ?andb_false_r; simpl; rewrite ?andb_false_r; done.
Qed.

Lemma skip_ws_allowed rv l :
  forallb is_allowed_id_char l = true -> skip_ws rv l = l.
Proof.
  destruct l as [|c1 l]; [done|]. simpl. intros [H1 Hl]%andb_true_iff.
  destruct (allowed_not_ws c1 H1) as [-> H].
  destruct l as [|c2 l]; [done|].
  destruct (H c2 c2) as (E1 & E2 & _ & _). rewrite E1, E2.
  destruct l as [|c3 l]; [by destruct rv|].
  destruct (H c2 c3) as (_ & _ & E3 & _). destruct (H c3 c2) as (_ & _ & _ & E4).
  rewrite E3, E4. by destruct rv.
Qed.

Lemma forallb_rev {A} (f : A -> bool) l : forallb f (rev l) = forallb f l.
Proof.
  induction l as [|a l IH]; [done|]. simpl. rewrite forallb_app, IH. simpl.
  rewrite andb_true_r. apply andb_comm.
Qed.

(** Trimming twice is trimming once. *)
Lemma skip_ws_suffix rv n : forall l, (length l <= n)%nat -> exists k, l = (k ++ skip_ws rv l)%list.
Proof.
  induction n as [|n IH]; intros l Hl; [destruct l; [by exists []|simpl in Hl; lia]|].
  assert (Hpre : forall (p : list ascii) m, (length m <= n)%nat ->
    exists k, (p ++ m = k ++ skip_ws rv m)%list).
  { intros p m Hm. destruct (IH m Hm) as [k Hk]. exists (p ++ k)%list. by rewrite <- app_assoc, <- Hk. }
  destruct l as [|c1 l1]; [by exists []|]. simpl in *.
  destruct (ws1 c1); [apply (Hpre [c1]); lia|].
  destruct l1 as [|c2 l2]; [by exists []|]. simpl in *.
  destruct (if rv then _ else _); [apply (Hpre [c1; c2]); lia|].
  destruct l2 as [|c3 l3]; [by exists []|]. simpl in *.
  destruct (if rv then _ else _); [apply (Hpre [c1; c2; c3]); lia|by exists []].
Qed.

Lemma skip_ws_idem rv n : forall l, (length l <= n)%nat ->
  skip_ws rv (skip_ws rv l) = skip_ws rv l.
Proof.
  induction n as [|n IH]; intros l Hl; [destruct l; [done|simpl in Hl; lia]|].
  destruct l as [|c1 l1]; [done|]. simpl in Hl |- *.
  destruct (ws1 c1) eqn:E1; [apply IH; lia|].
  destruct l1 as [|c2 l2]; simpl in *; [by rewrite E1|].
  destruct (if rv then _ else _) eqn:E2; [apply IH; lia|].
  destruct l2 as [|c3 l3]; simpl in *; [by rewrite E1, E2|].
  destruct (if rv then ws3 c3 c2 c1 else ws3 c1 c2 c3) eqn:E3; [apply IH; lia|].
  simpl. by rewrite E1, E2, E3.
Qed.

(** A text that starts with no whitespace keeps doing so when its end goes. *)
Lemma skip_ws_prefix rv l k : skip_ws rv (l ++ k) = (l ++ k)%list -> skip_ws rv l = l.
Proof.
  assert (Hshort : forall m (x : ascii) n, skip_ws rv m <> (x :: n ++ m)%list).
  { intros m x n Heq. destruct (skip_ws_suffix rv (length m) m ltac:(done)) as [p Hp].
    apply (f_equal length) in Hp. rewrite Heq, length_app in Hp. simpl in Hp.
    rewrite length_app in Hp. lia. }
  destruct l as [|c1 l1]; [done|]. simpl.
  destruct (ws1 c1); [intros H; by apply (Hshort _ c1 []) in H|].
  destruct l1 as [|c2 l2]; [done|]. simpl.
  destruct (if rv then _ else _); [intros H; by apply (Hshort _ c1 [c2]) in H|].
  destruct l2 as [|c3 l3]; [done|]. simpl.
  destruct (if rv then _ else _); [intros H; by apply (Hshort _ c1 [c2; c3]) in H|done].
Qed.

Lemma trim_trim s : trim (trim s) = trim s.
Proof.
  unfold trim. rewrite bytes_of_of_bytes. f_equal. set (l := bytes_of s). unfold trim_bytes.
  set (a := skip_ws false l).
  assert (Ha : skip_ws false a = a) by by apply (skip_ws_idem false (length l)).
  destruct (skip_ws_suffix true (length (rev a)) (rev a) ltac:(done)) as [k Hk].
  set (b := skip_ws true (rev a)) in *.
  assert (Hb : skip_ws true b = b) by by apply (skip_ws_idem true (length (rev a))).
  assert (Hfront : skip_ws false (rev b) = rev b).
  { apply (skip_ws_prefix _ _ (rev k)). rewrite <- rev_app_distr, <- Hk, rev_involutive. done. }
  rewrite Hfront, rev_involutive, Hb. done.
Qed.

(** Trimming leaves the text of an identifier alone. *)
Lemma trim_allowed s : forallb is_allowed_id_char (bytes_of s) = true -> trim s = s.
Proof.
  intros H. unfold trim, trim_bytes.
  rewrite (skip_ws_allowed false) by done.
  rewrite skip_ws_allowed by (by rewrite forallb_rev).
  by rewrite rev_involutive, of_bytes_bytes_of.
Qed.

Lemma valid_id_trim s : valid_id s = true -> trim s = s.
Proof. unfold valid_id. intros [_ H]%andb_true_iff. by apply trim_allowed. Qed.

Lemma validate_identifier_ok kind raw v :
  validate_identifier kind raw = Ok v <-> v = trim raw /\ valid_id v = true.
Proof.
  unfold validate_identifier, valid_id. simpl.
  destruct (Nat.eqb _ 0) eqn:E0.
  - split; [done|]. intros [-> H]. rewrite E0 in H. done.
  - destruct (Nat.leb _ _) eqn:E1; simpl.
    2:{ split; [done|]. intros [-> H]. rewrite E0, E1 in H. done. }
    destruct (forallb _ _) eqn:E2; simpl.
    + split; [intros [= <-]; by rewrite E0, E1, E2|]. by intros [-> _].
    + split; [done|]. intros [-> H]. rewrite E0, E1, E2 in H. done.
Qed.

(** Every text an identifier can hold is accepted and kept as it is. *)
Lemma validate_identifier_valid kind s :
  valid_id s = true -> validate_identifier kind s = Ok s.
Proof.
  intros H. apply validate_identifier_ok. by rewrite (valid_id_trim _ H).
Qed.

(** ** The identifier types *)

Record Id (kind : string) : Type := MkId {
  as_str : string;
  id_valid : Is_true (valid_id as_str);
}.
Arguments MkId {kind} as_str id_valid.
Arguments as_str {kind} i.
Arguments id_valid {kind} i.

Abbreviation TaskId := (Id "TaskId").
Abbreviation PeerId := (Id "PeerId").
Abbreviation AgentId := (Id "AgentId").
Abbreviation CapabilityId := (Id "CapabilityId").
Abbreviation IdempotencyKey := (Id "IdempotencyKey").
Abbreviation LeaseId := (Id "LeaseId").
Abbreviation ArtifactId := (Id "ArtifactId").

Lemma Id_eq {kind} (a b : Id kind) : as_str a = as_str b -> a = b.
Proof.
  destruct a as [s p], b as [t q]; simpl. intros ->.
  f_equal. apply proof_irrel.
Qed.

#[export] Instance as_str_inj {kind} : Inj (=) (=) (@as_str kind).
Proof. intros a b. apply Id_eq. Qed.

#[export] Instance Id_eq_dec {kind} : EqDecision (Id kind) := fun a b =>
  match decide (as_str a = as_str b) with
  | left H => left (Id_eq a b H)
  | right H => right (fun E => H (f_equal as_str E))
  end.

Definition id_of_valid {kind} (s : string) : option (Id kind) :=
  match decide (Is_true (valid_id s)) with
  | left H => Some (MkId s H)
  | right _ => None
  end.

Lemma id_of_valid_as_str {kind} (i : Id kind) : id_of_valid (as_str i) = Some i.
Proof.
  unfold id_of_valid. destruct (decide _) as [H|H].
  - f_equal. by apply Id_eq.
  - destruct H. apply id_valid.
Qed.

#[export] Instance Id_countable {kind} : Countable (Id kind) :=
  inj_countable as_str id_of_valid id_of_valid_as_str.

(** [TaskId::new] and its siblings. *)
Definition Id_new (kind : string) (raw : string) : Result (Id kind) ValidationError :=
  let? v := validate_identifier kind raw in
  ok_or (id_of_valid v) (InvalidIdValue kind raw).

Lemma Id_new_as_str {kind} (i : Id kind) : Id_new kind (as_str i) = Ok i.
Proof.
  unfold Id_new. rewrite validate_identifier_valid by (apply Is_true_true, id_valid).
  by rewrite id_of_valid_as_str.
Qed.

Lemma Id_new_ok {kind} raw (i : Id kind) : Id_new kind raw = Ok i <-> as_str i = trim raw.
Proof.
  unfold Id_new. split.
  - destruct (validate_identifier kind raw) as [v|] eqn:E; [|done].
    apply validate_identifier_ok in E as [-> _].
    unfold id_of_valid. destruct (decide _) as [H|H]; simpl; [|done]. by intros [= <-].
  - intros H. assert (validate_identifier kind raw = Ok (as_str i)) as ->.
    { apply validate_identifier_ok. split; [done|]. apply Is_true_true, id_valid. }
    by rewrite id_of_valid_as_str.
Qed.


