(* ===== verification/Text.v ===== *)
(** * Rust's byte and string functions

    What keryx-core, keryx-store and keryx-policy use of [u8] and [str]:
    [is_ascii_alphanumeric], [is_ascii_hexdigit], [to_ascii_lowercase],
    [starts_with], [contains], [strip_prefix], [split] and [split_once] on the UTF-8 bytes of a
    string. *)
From S2P Require Import Prelude Ident.
From stdpp Require Import options.
From Stdlib Require Import Ascii.

(** ** Bytes and strings *)

Definition byte_of (c : ascii) : Z := Z.of_nat (nat_of_ascii c).

Definition is_ascii_alphanumeric (c : ascii) : bool :=
  let b := byte_of c in
  ((48 <=? b) && (b <=? 57)) || ((65 <=? b) && (b <=? 90)) || ((97 <=? b) && (b <=? 122)).

Definition is_ascii_hexdigit (c : ascii) : bool :=
  let b := byte_of c in
  ((48 <=? b) && (b <=? 57)) || ((65 <=? b) && (b <=? 70)) || ((97 <=? b) && (b <=? 102)).

Definition ascii_lower (c : ascii) : ascii :=
  if (65 <=? byte_of c) && (byte_of c <=? 90) then ascii_of_nat (nat_of_ascii c + 32) else c.

Definition to_ascii_lowercase (s : string) : string := of_bytes (ascii_lower <$> bytes_of s).

Fixpoint starts_with (p s : list ascii) : bool :=
  match p, s with
  | [], _ => true
  | a :: p, b :: s => bool_decide (a = b) && starts_with p s
  | _ :: _, [] => false
  end.

(** [str::contains] with a text. *)
Fixpoint contains (p s : list ascii) : bool :=
  starts_with p s || match s with [] => false | _ :: s => contains p s end.

Definition strip_prefix (p s : string) : option string :=
  if starts_with (bytes_of p) (bytes_of s)
  then Some (of_bytes (drop (length (bytes_of p)) (bytes_of s))) else None.

(** [split_once] at an ASCII character. *)
Fixpoint split_once (c : ascii) (l : list ascii) : option (list ascii * list ascii) :=
  match l with
  | [] => None
  | a :: l => if bool_decide (a = c) then Some ([], l)
              else match split_once c l with
                   | Some (x, y) => Some (a :: x, y)
                   | None => None
                   end
  end.

(** [str::split] at an ASCII character: the pieces between its occurrences. *)
Fixpoint split_on (c : ascii) (l : list ascii) : list (list ascii) :=
  match l with
  | [] => [[]]
  | a :: l =>
      if bool_decide (a = c) then [] :: split_on c l
      else match split_on c l with
           | piece :: rest => (a :: piece) :: rest
           | [] => [[a]]
           end
  end.

(** ** Lemmas *)

Lemma bytes_of_app s t : bytes_of (s ++ t) = (bytes_of s ++ bytes_of t)%list.
Proof. induction s as [|c s IH]; [done|]. exact (f_equal (cons c) IH). Qed.

Lemma of_bytes_app l k : of_bytes (l ++ k) = (of_bytes l ++ of_bytes k)%string.
Proof. induction l as [|c l IH]; [done|]. exact (f_equal (String c) IH). Qed.

Lemma starts_with_app p s : starts_with p (p ++ s) = true.
Proof. induction p as [|a p IH]; [done|]. simpl. by rewrite bool_decide_true. Qed.

Lemma strip_prefix_app p s : strip_prefix p (p ++ s) = Some s.
Proof.
  unfold strip_prefix. rewrite bytes_of_app, starts_with_app, drop_app_length.
  by rewrite of_bytes_bytes_of.
Qed.

Lemma skip_ws_head rv c l : is_allowed_id_char c = true -> skip_ws rv (c :: l) = c :: l.
Proof.
  intros Hc. destruct (allowed_not_ws c Hc) as [H1 H]. simpl. rewrite H1.
  destruct l as [|c2 l]; [done|]. destruct (H c2 c2) as (E1 & E2 & _ & _). rewrite E1, E2.
  destruct l as [|c3 l]; [by destruct rv|].
  destruct (H c2 c3) as (_ & _ & E3 & _). destruct (H c3 c2) as (_ & _ & _ & E4).
  rewrite E3, E4. by destruct rv.
Qed.

(** A trailing newline goes. *)
Lemma trim_newline s :
  s <> ""%string -> forallb is_allowed_id_char (bytes_of s) = true ->
  trim (s ++ String "010"%char "") = s.
Proof.
  intros Hne Hs. unfold trim, trim_bytes. rewrite bytes_of_app.
  assert (Hh : skip_ws false (bytes_of s ++ ["010"%char]) = (bytes_of s ++ ["010"%char])%list).
  { destruct s as [|c s]; [done|]. simpl in Hs. apply andb_true_iff in Hs as [Hc _]. simpl.
    by apply skip_ws_head. }
  change (bytes_of (String "010" "")) with ["010"%char]. rewrite Hh, rev_app_distr. simpl.
  rewrite skip_ws_allowed by by rewrite forallb_rev.
  by rewrite rev_involutive, of_bytes_bytes_of.
Qed.
