(* ===== verification/Lifecycle.v ===== *)
(** * Task lifecycle, legacy events, retry policy and limits

    crates/keryx-core/src: task.rs, legacy.rs, retry_policy.rs, limits.rs. *)
From S2P Require Import Prelude Ident.
From stdpp Require Import options.

(** ** task.rs *)

Inductive KeryxEventType : Type :=
| TaskAccepted | TaskQueued | TaskApprovalRequested | TaskApprovalGranted
| TaskApprovalDenied | TaskLeased | TaskStarted | TaskAwaitingInput
| TaskCompleted | TaskFailed | TaskCanceled | TaskTimedOut | TaskDeadLettered
| RecoveryAction.

#[export] Instance KeryxEventType_eq_dec : EqDecision KeryxEventType.
Proof. solve_decision. Defined.

Record TaskTransition : Type := MkTransition {
  tt_from : TaskStatus;
  tt_to : TaskStatus;
  tt_event_type : KeryxEventType;
}.

#[export] Instance TaskTransition_eq_dec : EqDecision TaskTransition.
Proof. solve_decision. Defined.

Definition is_cancel_applicable (status : TaskStatus) : bool :=
  match status with Pending | Running => true | _ => false end.

Definition event_for_cancel_transition (from : TaskStatus)
    : Result KeryxEventType KeryxCoreError :=
  if is_cancel_applicable from then Ok TaskCanceled
  else Err (Validation (CancelNotApplicable from)).

Definition validate_cancel_transition (from : TaskStatus)
    : Result TaskTransition KeryxCoreError :=
  let? event_type := event_for_cancel_transition from in
  Ok (MkTransition from Failed event_type).

Definition is_legal_transition (from to : TaskStatus) : bool :=
  match from, to with
  | Pending, Running | Running, Completed | Running, Failed => true
  | _, _ => false
  end.

(** The last branch is the source's [unreachable!]; the guard above it
    excludes it, and [event_for_transition_total] below checks that. *)
Definition event_for_transition (from to : TaskStatus)
    : option (Result KeryxEventType KeryxCoreError) :=
  if negb (is_legal_transition from to) then
    Some (Err (Validation
      (if is_terminal from then TerminalTaskTransition from to
       else InvalidTaskTransition from to)))
  else
    match from, to with
    | Pending, Running => Some (Ok TaskStarted)
    | Running, Completed => Some (Ok TaskCompleted)
    | Running, Failed => Some (Ok TaskFailed)
    | _, _ => None
    end.

(** No pair of states reaches the [unreachable!]: the transition's error or
    event is always there to be read off. *)
Lemma event_for_transition_total from to : is_Some (event_for_transition from to).
Proof. destruct from, to; eexists; reflexivity. Qed.

Definition validate_transition (from to : TaskStatus)
    : Result TaskTransition KeryxCoreError :=
  match event_for_transition from to with
  | Some r => let? event_type := r in Ok (MkTransition from to event_type)
  | None => Err (Validation (InvalidTaskTransition from to))
  end.

(** [Task], the in-process task object. *)
Module Task.
Record Task : Type := MkTask {
  id : TaskId;
  status : TaskStatus;
  assignee : option PeerId;
  retry_count : Z;
  dead_lettered : bool;
}.

Definition new (i : TaskId) : Task := MkTask i Pending None 0 false.
Definition with_assignee (i : TaskId) (a : PeerId) : Task := MkTask i Pending (Some a) 0 false.

Definition with_status (t : Task) (s : TaskStatus) : Task :=
  MkTask (id t) s (assignee t) (retry_count t) (dead_lettered t).

Definition transition_to (next : TaskStatus) : ST Task KeryxCoreError TaskTransition :=
  let! self := get in
  let! transition := lift (validate_transition (status self) next) in
  modify (fun t => with_status t next) ;;;
  ret transition.

Definition mark_running := transition_to Running.
Definition mark_completed := transition_to Completed.
Definition mark_failed := transition_to Failed.

Definition request_cancel (t : Task) : Result (TaskId * TaskStatus) KeryxCoreError :=
  if is_cancel_applicable (status t) then Ok (id t, status t)
  else Err (Validation (CancelNotApplicable (status t))).

Definition mark_canceled : ST Task KeryxCoreError TaskTransition :=
  let! self := get in
  let! transition := lift (validate_cancel_transition (status self)) in
  modify (fun t => with_status t (tt_to transition)) ;;;
  ret transition.

Definition cancel : ST Task KeryxCoreError (TaskId * TaskTransition) :=
  let! self := get in
  let! transition := lift (validate_cancel_transition (status self)) in
  modify (fun t => with_status t (tt_to transition)) ;;;
  ret (id self, transition).
End Task.

(** ** legacy.rs *)

Inductive LegacyEventType : Type :=
| LTaskQueued | LTaskApprovalRequested | LTaskApprovalGranted | LTaskApprovalDenied
| LTaskLeased | LTaskStarted | LTaskAwaitingInput | LTaskCompleted | LTaskFailed
| LTaskCanceled | LTaskTimedOut | LTaskDeadLettered.

#[export] Instance LegacyEventType_eq_dec : EqDecision LegacyEventType.
Proof. solve_decision. Defined.

(** [CanonicalTransition] has the fields of [TaskTransition]; its
    [into_task_transition] copies them. *)
Definition CanonicalTransition : Type := TaskTransition.

Definition as_keryx_event_type (e : LegacyEventType) : KeryxEventType :=
  match e with
  | LTaskQueued => TaskQueued
  | LTaskApprovalRequested => TaskApprovalRequested
  | LTaskApprovalGranted => TaskApprovalGranted
  | LTaskApprovalDenied => TaskApprovalDenied
  | LTaskLeased => TaskLeased
  | LTaskStarted => TaskStarted
  | LTaskAwaitingInput => TaskAwaitingInput
  | LTaskCompleted => TaskCompleted
  | LTaskFailed => TaskFailed
  | LTaskCanceled => TaskCanceled
  | LTaskTimedOut => TaskTimedOut
  | LTaskDeadLettered => TaskDeadLettered
  end.

Definition from_keryx_event_type (e : KeryxEventType) : option LegacyEventType :=
  match e with
  | TaskQueued => Some LTaskQueued
  | TaskApprovalRequested => Some LTaskApprovalRequested
  | TaskApprovalGranted => Some LTaskApprovalGranted
  | TaskApprovalDenied => Some LTaskApprovalDenied
  | TaskLeased => Some LTaskLeased
  | TaskStarted => Some LTaskStarted
  | TaskAwaitingInput => Some LTaskAwaitingInput
  | TaskCompleted => Some LTaskCompleted
  | TaskFailed => Some LTaskFailed
  | TaskCanceled => Some LTaskCanceled
  | TaskTimedOut => Some LTaskTimedOut
  | TaskDeadLettered => Some LTaskDeadLettered
  | TaskAccepted | RecoveryAction => None
  end.

Definition normalize_legacy_transition (from_status : TaskStatus)
    (legacy_event : LegacyEventType) : option CanonicalTransition :=
  match from_status, legacy_event with
  | Pending, (LTaskLeased | LTaskStarted) => Some (MkTransition Pending Running TaskStarted)
  | Running, LTaskCompleted => Some (MkTransition Running Completed TaskCompleted)
  | Running, (LTaskFailed | LTaskCanceled | LTaskTimedOut | LTaskDeadLettered) =>
      Some (MkTransition Running Failed TaskFailed)
  | Pending, LTaskApprovalDenied => Some (MkTransition Pending Failed TaskFailed)
  | _, _ => None
  end.

Definition is_valid_operational_legacy (from_status : TaskStatus)
    (legacy_event : LegacyEventType) : bool :=
  match from_status, legacy_event with
  | Pending, (LTaskQueued | LTaskApprovalRequested | LTaskApprovalGranted) => true
  | Running, LTaskAwaitingInput => true
  | _, _ => false
  end.

(** ** retry_policy.rs *)

Record RetryPolicy : Type := MkRetryPolicy {
  max_retries : Z;        (* u32 *)
  backoff_ms : Z;         (* u64 *)
  dead_letter_after : Z;  (* u32 *)
}.

Definition no_retries : RetryPolicy := MkRetryPolicy 0 0 1.
Definition default_retry_policy : RetryPolicy := MkRetryPolicy 3 1000 4.

Definition should_retry_after_failure (p : RetryPolicy) (current_retry_count : Z) : bool :=
  (0 <? max_retries p) && (u32_saturating_add current_retry_count 1 <=? max_retries p).

Definition should_dead_letter_after_failure (p : RetryPolicy) (current_retry_count : Z) : bool :=
  let next := u32_saturating_add current_retry_count 1 in
  (max_retries p =? 0) || (max_retries p <? next) || (dead_letter_after p <=? next).

(** ** limits.rs *)

Definition DEFAULT_MAX_PENDING_TASKS : Z := 10000.
Definition DEFAULT_MAX_ENVELOPE_BYTES : Z := 4 * 1024 * 1024.
Definition DEFAULT_MAX_RETAINED_ENVELOPE_BYTES : Z := 256 * 1024 * 1024.

Inductive LimitKind : Type := PendingTasks | EnvelopeBytes | RetainedEnvelopeBytes.

Definition limit_kind_as_str (k : LimitKind) : string :=
  match k with
  | PendingTasks => "pending_tasks"
  | EnvelopeBytes => "envelope_bytes"
  | RetainedEnvelopeBytes => "retained_envelope_bytes"
  end.

Record LimitsConfig : Type := MkLimits {
  max_pending_tasks : Z;
  max_envelope_bytes : Z;
  max_retained_envelope_bytes : Z;
}.

Definition default_limits : LimitsConfig :=
  MkLimits DEFAULT_MAX_PENDING_TASKS DEFAULT_MAX_ENVELOPE_BYTES
    DEFAULT_MAX_RETAINED_ENVELOPE_BYTES.
Definition unlimited : LimitsConfig := MkLimits 0 0 0.

Record LimitExceeded : Type := MkLimitExceeded {
  le_kind : LimitKind;
  le_current : Z;
  le_max : Z;
}.

Definition check_pending_tasks (l : LimitsConfig) (current : Z) : Result unit LimitExceeded :=
  if (0 <? max_pending_tasks l) && (max_pending_tasks l <=? current)
  then Err (MkLimitExceeded PendingTasks current (max_pending_tasks l))
  else Ok tt.

Definition check_envelope_bytes (l : LimitsConfig) (byte_len : Z) : Result unit LimitExceeded :=
  if (0 <? max_envelope_bytes l) && (max_envelope_bytes l <? byte_len)
  then Err (MkLimitExceeded EnvelopeBytes byte_len (max_envelope_bytes l))
  else Ok tt.

Definition check_retained_envelope_bytes (l : LimitsConfig) (current incoming : Z)
    : Result unit LimitExceeded :=
  let after_accept := u64_saturating_add current incoming in
  if (0 <? max_retained_envelope_bytes l) && (max_retained_envelope_bytes l <? after_accept)
  then Err (MkLimitExceeded RetainedEnvelopeBytes after_accept (max_retained_envelope_bytes l))
  else Ok tt.

Definition limit_exceeded_into_validation (e : LimitExceeded) : ValidationError :=
  LimitExceededError (limit_kind_as_str (le_kind e)) (le_current e) (le_max e).
