(* ===== verification/StoreModel.v ===== *)
(** * The store's records, errors, guards and event replay

    crates/keryx-store/src/lib.rs and results.rs: the data and the functions
    that the in-memory store and the SQLite store share. *)
From S2P Require Import Prelude Ident Lifecycle.
From stdpp Require Import options.
From Stdlib Require Import Strings.Byte.

Abbreviation bytes := (list Byte.byte).

#[export] Instance byte_eq_dec : EqDecision Byte.byte := Byte.byte_eq_dec.

(** ** Data *)

Inductive RemoteResultTerminalReason : Type := DeadlineExpired | ReasonCanceled.

#[export] Instance RemoteResultTerminalReason_eq_dec : EqDecision RemoteResultTerminalReason.
Proof. solve_decision. Defined.

Module StoreError.
Inductive StoreError : Type :=
| TaskNotFound (task_id : TaskId)
| TaskAlreadyExists (task_id : TaskId)
| ArtifactNotFound (artifact_id : ArtifactId)
| ArtifactTooLarge (byte_len limit_bytes : Z)
| DigestMismatch (expected actual : string)
| ArtifactLengthMismatch (declared actual : Z)
| OriginResultArtifactIdMismatch (task_id : TaskId) (ordinal : Z)
| OriginResultArtifactOrdinalMismatch (expected actual : Z)
| OriginResultArtifactTaskMismatch (task_id artifact_task_id : TaskId)
| OriginResultArtifactConflict (artifact_id : ArtifactId)
| IdempotencyConflict (key : IdempotencyKey) (existing_task_id : TaskId)
| TaskEnvelopeNotFound (task_id : TaskId)
| TaskEnvelopeMismatch (task_id envelope_task_id : TaskId)
| TaskEnvelopeConflict (task_id : TaskId)
| TransportContextNotFound (task_id : TaskId)
| TransportContextConflict (task_id : TaskId)
| TaskExecutorMismatch (task_id : TaskId) (expected actual : PeerId)
| TransportContextTaskMismatch (task_id context_task_id : TaskId)
| TerminalResultNotFound (task_id : TaskId)
| TerminalResultConflict (task_id : TaskId)
| TerminalResultTaskMismatch (task_id result_task_id : TaskId)
| TerminalResultNotTerminal (task_id : TaskId)
| ResultDeliveryLeaseMismatch (delivery_id : string)
| RemoteResultExecutorMismatch (task_id : TaskId) (expected actual : PeerId)
| RemoteResultTerminallySettled (task_id : TaskId) (reason : RemoteResultTerminalReason)
| RemoteResultTerminalArtifactsRejected (task_id : TaskId)
    (reason : RemoteResultTerminalReason)
| Validation (error : ValidationError)
| CorruptEventStream (task_id : TaskId)
| LockPoisoned
| LeaseNotFound (task_id : TaskId)
| LeaseConflict (task_id : TaskId)
| TaskDeadlineExpired (task_id : TaskId) (deadline_ms attempted_lease_at_ms : Z)
| CancellationLeaseProofRequired (task_id : TaskId)
| LeaseMismatch (task_id : TaskId) (lease_id : LeaseId)
| LeaseOwnerMismatch (task_id : TaskId) (worker_id : AgentId)
| LeaseOwnerMissing (task_id : TaskId) (lease_id : LeaseId)
| InvalidLeaseExpiry (lease_id : LeaseId)
    (current_expires_at_ms requested_expires_at_ms now_ms : Z)
| UnsupportedSchema (found_version supported_version : Z)
| MigrationFailed (message : string)
| UnrepairedCorruption (corrupted_tasks : list TaskId)
| BlobDir (message : string)
| Database (message : string).
End StoreError.
Abbreviation StoreError := StoreError.StoreError.
Abbreviation StoreResult T := (Result T StoreError).

(** [impl From<KeryxCoreError> for StoreError]. *)
Definition store_error_from_core (value : KeryxCoreError) : StoreError :=
  match value with
  | Validation error => StoreError.Validation error
  | CoreTaskNotFound id =>
      match Id_new "TaskId" id with
      | Ok task_id => StoreError.TaskNotFound task_id
      | Err error => StoreError.Validation error
      end
  | PolicyDenied message => StoreError.Database message
  end.

Record TaskRecord : Type := MkTaskRecord {
  tr_id : TaskId;
  tr_status : TaskStatus;
  tr_idempotency_key : option IdempotencyKey;
  tr_deadline_ms : option Z;
  tr_retry_count : Z;
  tr_dead_lettered : bool;
  tr_dead_letter_reason : option string;
}.

#[export] Instance TaskRecord_eq_dec : EqDecision TaskRecord.
Proof. solve_decision. Defined.

(** [TaskRecord::new]. *)
Definition new_task_record (i : TaskId) (s : TaskStatus) (k : option IdempotencyKey)
    : TaskRecord := MkTaskRecord i s k None 0 false None.

Definition with_status (t : TaskRecord) (s : TaskStatus) : TaskRecord :=
  MkTaskRecord (tr_id t) s (tr_idempotency_key t) (tr_deadline_ms t)
    (tr_retry_count t) (tr_dead_lettered t) (tr_dead_letter_reason t).

Definition with_metadata (t : TaskRecord) (s : TaskStatus) (retry : Z) (dl : bool)
    (reason : option string) : TaskRecord :=
  MkTaskRecord (tr_id t) s (tr_idempotency_key t) (tr_deadline_ms t) retry dl reason.

Record TaskEnvelopeRecord : Type := MkEnvelope {
  en_task_id : TaskId;
  en_encoded_envelope : bytes;
  en_received_at_ms : Z;
}.

#[export] Instance TaskEnvelopeRecord_eq_dec : EqDecision TaskEnvelopeRecord.
Proof. solve_decision. Defined.

Record PendingTaskEnvelope : Type := MkPendingTaskEnvelope {
  pe_task : TaskRecord;
  pe_envelope : TaskEnvelopeRecord;
}.

Record TaskEventRecord : Type := MkEvent {
  ev_task_id : TaskId;
  ev_sequence : Z;
  ev_event_type : KeryxEventType;
  ev_from_status : option TaskStatus;
  ev_to_status : TaskStatus;
}.

#[export] Instance TaskEventRecord_eq_dec : EqDecision TaskEventRecord.
Proof. solve_decision. Defined.

Record RecoveryReport : Type := MkRecoveryReport {
  rr_recovered_tasks : list TaskRecord;
  rr_cleaned_terminal_leases : Z;
  rr_corrupted_tasks : list TaskId;
}.

Record LeaseRecord : Type := MkLease {
  lr_lease_id : LeaseId;
  lr_task_id : TaskId;
  lr_worker_id : option AgentId;
  lr_leased_at_ms : Z;
  lr_expires_at_ms : Z;
}.

#[export] Instance LeaseRecord_eq_dec : EqDecision LeaseRecord.
Proof. solve_decision. Defined.

(** [LeaseRecord::new]. *)
Definition new_lease (lid : LeaseId) (tid : TaskId) (w : AgentId) (at_ms exp_ms : Z)
    : LeaseRecord := MkLease lid tid (Some w) at_ms exp_ms.

Definition with_expiry (l : LeaseRecord) (expires_at_ms : Z) : LeaseRecord :=
  MkLease (lr_lease_id l) (lr_task_id l) (lr_worker_id l) (lr_leased_at_ms l) expires_at_ms.

Record TaskTransportContextRecord : Type := MkContext {
  tc_task_id : TaskId;
  tc_authenticated_sender_peer_id : option PeerId;
  tc_expected_executor_peer_id : option PeerId;
  tc_destination_peer_id : PeerId;
  tc_relay_frame_id : option string;
  tc_received_at_ms : Z;
}.

#[export] Instance TaskTransportContextRecord_eq_dec : EqDecision TaskTransportContextRecord.
Proof. solve_decision. Defined.

Record TerminalResultRecord : Type := MkTerminalResult {
  rs_task_id : TaskId;
  rs_encoded_result : bytes;
  rs_terminal_status : TaskStatus;
  rs_return_peer_id : option PeerId;
  rs_executor_peer_id : PeerId;
  rs_created_at_ms : Z;
}.

#[export] Instance TerminalResultRecord_eq_dec : EqDecision TerminalResultRecord.
Proof. solve_decision. Defined.

Inductive ResultDeliveryState : Type := DsPending | DsLeased | DsDelivered | DsDeadLettered.

#[export] Instance ResultDeliveryState_eq_dec : EqDecision ResultDeliveryState.
Proof. solve_decision. Defined.

Record ResultOutboxRecord : Type := MkOutbox {
  ob_delivery_id : string;
  ob_task_id : TaskId;
  ob_target_peer_id : PeerId;
  ob_state : ResultDeliveryState;
  ob_attempt_count : Z;
  ob_next_attempt_at_ms : Z;
  ob_lease_owner : option string;
  ob_lease_expires_at_ms : option Z;
  ob_last_error : option string;
  ob_created_at_ms : Z;
  ob_updated_at_ms : Z;
}.
#[export] Instance ResultOutboxRecord_eq_dec : EqDecision ResultOutboxRecord.
Proof. solve_decision. Defined.

(** ** Text encodings of the enumerations *)

Definition status_to_str (s : TaskStatus) : string :=
  match s with
  | Pending => "pending" | Running => "running"
  | Completed => "completed" | Failed => "failed"
  end.

Definition str_to_status (value : string) : StoreResult TaskStatus :=
  if bool_decide (value ∈ ["created"; "accepted"; "queued"; "pending"]) then Ok Pending
  else if bool_decide (value = "awaiting_approval") then
    Err (StoreError.Database
      "legacy awaiting_approval task status requires explicit approval migration")
  else if bool_decide (value ∈ ["leased"; "awaiting_input"; "running"]) then Ok Running
  else if bool_decide (value = "completed") then Ok Completed
  else if bool_decide (value ∈ ["failed"; "canceled"; "timed_out"; "rejected"; "dead_lettered"])
  then Ok Failed
  else Err (StoreError.Database ("unknown task status: " +:+ value)).

Definition event_type_to_str (e : KeryxEventType) : string :=
  match e with
  | TaskAccepted => "task_accepted"
  | TaskQueued => "task_queued"
  | TaskApprovalRequested => "task_approval_requested"
  | TaskApprovalGranted => "task_approval_granted"
  | TaskApprovalDenied => "task_approval_denied"
  | TaskLeased => "task_leased"
  | TaskStarted => "task_started"
  | TaskAwaitingInput => "task_awaiting_input"
  | TaskCompleted => "task_completed"
  | TaskFailed => "task_failed"
  | TaskCanceled => "task_canceled"
  | TaskTimedOut => "task_timed_out"
  | TaskDeadLettered => "task_dead_lettered"
  | RecoveryAction => "recovery_action"
  end.

Definition all_event_types : list KeryxEventType :=
  [TaskAccepted; TaskQueued; TaskApprovalRequested; TaskApprovalGranted;
   TaskApprovalDenied; TaskLeased; TaskStarted; TaskAwaitingInput; TaskCompleted;
   TaskFailed; TaskCanceled; TaskTimedOut; TaskDeadLettered; RecoveryAction].

Definition str_to_event_type (value : string) : StoreResult KeryxEventType :=
  if bool_decide (value = "task_accepted") then Ok TaskAccepted
  else if bool_decide (value = "task_queued") then Ok TaskQueued
  else if bool_decide (value = "task_approval_requested") then Ok TaskApprovalRequested
  else if bool_decide (value = "task_approval_granted") then Ok TaskApprovalGranted
  else if bool_decide (value = "task_approval_denied") then Ok TaskApprovalDenied
  else if bool_decide (value = "task_leased") then Ok TaskLeased
  else if bool_decide (value = "task_started") then Ok TaskStarted
  else if bool_decide (value = "task_awaiting_input") then Ok TaskAwaitingInput
  else if bool_decide (value = "task_completed") then Ok TaskCompleted
  else if bool_decide (value = "task_failed") then Ok TaskFailed
  else if bool_decide (value = "task_canceled") then Ok TaskCanceled
  else if bool_decide (value = "task_timed_out") then Ok TaskTimedOut
  else if bool_decide (value = "task_dead_lettered") then Ok TaskDeadLettered
  else if bool_decide (value = "recovery_action") then Ok RecoveryAction
  else Err (StoreError.Database ("unknown event type: " +:+ value)).

Definition delivery_state_as_str (s : ResultDeliveryState) : string :=
  match s with
  | DsPending => "pending" | DsLeased => "leased"
  | DsDelivered => "delivered" | DsDeadLettered => "dead_lettered"
  end.

Definition delivery_state_parse (value : string) : StoreResult ResultDeliveryState :=
  if bool_decide (value = "pending") then Ok DsPending
  else if bool_decide (value = "leased") then Ok DsLeased
  else if bool_decide (value = "delivered") then Ok DsDelivered
  else if bool_decide (value = "dead_lettered") then Ok DsDeadLettered
  else Err (StoreError.Database ("unknown result delivery state " +:+ value)).

(** ** Guards *)

Definition validate_accepted_task_status (task : TaskRecord) : StoreResult unit :=
  if bool_decide (tr_status task = Pending) then Ok tt
  else Err (StoreError.Validation (InvalidTaskTransition Pending (tr_status task))).

Definition ensure_pending_accept (task : TaskRecord) : StoreResult unit :=
  if bool_decide (tr_status task = Pending) then Ok tt
  else Err (StoreError.Validation (InvalidTaskTransition (tr_status task) Pending)).

Definition ensure_matching_envelope_task_id (task : TaskRecord) (envelope : TaskEnvelopeRecord)
    : StoreResult unit :=
  if bool_decide (tr_id task = en_task_id envelope) then Ok tt
  else Err (StoreError.TaskEnvelopeMismatch (tr_id task) (en_task_id envelope)).

Definition ensure_matching_task_id (task_id : TaskId) (lease : LeaseRecord) : StoreResult unit :=
  if bool_decide (lr_task_id lease = task_id) then Ok tt
  else Err (StoreError.Database
    ("lease task id mismatch: expected " +:+ as_str task_id +:+ ", got "
     +:+ as_str (lr_task_id lease))).

Definition ensure_lease_has_owner (lease : LeaseRecord) : StoreResult unit :=
  match lr_worker_id lease with
  | Some _ => Ok tt
  | None => Err (StoreError.LeaseOwnerMissing (lr_task_id lease) (lr_lease_id lease))
  end.

Definition require_status (current required : TaskStatus) : StoreResult unit :=
  if bool_decide (current = required) then Ok tt
  else if is_terminal current
       then Err (StoreError.Validation (TerminalTaskTransition current required))
       else Err (StoreError.Validation (InvalidTaskTransition current required)).

Definition ensure_matching_lease_id (task_id : TaskId) (active : LeaseRecord) (lease_id : LeaseId)
    : StoreResult unit :=
  if bool_decide (lr_lease_id active = lease_id) then Ok tt
  else Err (StoreError.LeaseMismatch task_id lease_id).

Definition ensure_matching_worker_id (task_id : TaskId) (active : LeaseRecord)
    (worker_id : AgentId) : StoreResult unit :=
  match lr_worker_id active with
  | Some active_worker_id =>
      if bool_decide (active_worker_id = worker_id) then Ok tt
      else Err (StoreError.LeaseOwnerMismatch task_id worker_id)
  | None => Err (StoreError.LeaseOwnerMissing task_id (lr_lease_id active))
  end.

Definition ensure_valid_lease_expiry (active : LeaseRecord) (now_ms new_expires_at_ms : Z)
    : StoreResult unit :=
  if (now_ms <? lr_expires_at_ms active) && (now_ms <? new_expires_at_ms)
     && (lr_expires_at_ms active <? new_expires_at_ms)
  then Ok tt
  else Err (StoreError.InvalidLeaseExpiry (lr_lease_id active) (lr_expires_at_ms active)
              new_expires_at_ms now_ms).

Definition ensure_active_lease_unexpired (active : LeaseRecord) (now_ms : Z) : StoreResult unit :=
  ensure_valid_lease_expiry active now_ms (i64_saturating_add (lr_expires_at_ms active) 1).

Definition validate_deadline_transition (from : TaskStatus) : StoreResult unit :=
  match from with
  | Pending | Running => Ok tt
  | Completed | Failed => Err (StoreError.Validation (TerminalTaskTransition from Failed))
  end.

(** [validate_transition] and [validate_cancel_transition] under [?] in a
    function that returns [StoreResult]. *)
Definition store_transition (from to : TaskStatus) : StoreResult TaskTransition :=
  map_err store_error_from_core (validate_transition from to).
Definition store_cancel_transition (from : TaskStatus) : StoreResult TaskTransition :=
  map_err store_error_from_core (validate_cancel_transition from).

Definition terminal_result_validate (r : TerminalResultRecord) : StoreResult unit :=
  if negb (is_terminal (rs_terminal_status r))
  then Err (StoreError.TerminalResultNotTerminal (rs_task_id r)) else Ok tt.

Definition ensure_result_task (r : TerminalResultRecord) (task_id : TaskId) : StoreResult unit :=
  let? _ := terminal_result_validate r in
  if bool_decide (rs_task_id r = task_id) then Ok tt
  else Err (StoreError.TerminalResultTaskMismatch task_id (rs_task_id r)).

Definition ensure_context_task (c : TaskTransportContextRecord) (task_id : TaskId)
    : StoreResult unit :=
  if bool_decide (tc_task_id c = task_id) then Ok tt
  else Err (StoreError.TransportContextTaskMismatch task_id (tc_task_id c)).

Definition same_delivered_envelope (left right : TaskEnvelopeRecord) : bool :=
  bool_decide (en_task_id left = en_task_id right)
  && bool_decide (en_encoded_envelope left = en_encoded_envelope right).

Definition same_transport_identity (left right : TaskTransportContextRecord) : bool :=
  bool_decide (tc_task_id left = tc_task_id right)
  && bool_decide (tc_authenticated_sender_peer_id left = tc_authenticated_sender_peer_id right)
  && bool_decide (tc_expected_executor_peer_id left = tc_expected_executor_peer_id right)
  && bool_decide (tc_destination_peer_id left = tc_destination_peer_id right).

Definition delivery_id (task_id : TaskId) : string := "result-" +:+ as_str task_id.

Definition make_outbox (r : TerminalResultRecord) : option ResultOutboxRecord :=
  (fun target =>
     MkOutbox (delivery_id (rs_task_id r)) (rs_task_id r) target DsPending 0
       (rs_created_at_ms r) None None None (rs_created_at_ms r) (rs_created_at_ms r))
  <$> rs_return_peer_id r.

(** ** Legacy appends *)

Inductive LegacyAppendPlan : Type :=
| PlanLifecycle (transition : CanonicalTransition)
| PlanOperational (event_type : KeryxEventType) (status : TaskStatus).

Definition plan_legacy_event_append (from_status : TaskStatus) (legacy_event : LegacyEventType)
    : StoreResult LegacyAppendPlan :=
  match normalize_legacy_transition from_status legacy_event with
  | Some transition => Ok (PlanLifecycle transition)
  | None =>
      if is_valid_operational_legacy from_status legacy_event
      then Ok (PlanOperational (as_keryx_event_type legacy_event) from_status)
      else Err (StoreError.Validation (InvalidTaskTransition from_status from_status))
  end.

Definition is_replayable_operational_legacy_event (e : KeryxEventType) : bool :=
  match e with
  | TaskQueued | TaskApprovalRequested | TaskApprovalGranted | TaskAwaitingInput => true
  | _ => false
  end.

(** ** Replay of an event stream against the stored snapshot *)

(** The status a [RecoveryAction] must lead to, and the one stale-lease
    recovery gives a task: running tasks go back to the queue. *)
Definition recovered_status (s : TaskStatus) : TaskStatus :=
  match s with
  | Running => Pending | Pending => Pending
  | Completed => Completed | Failed => Failed
  end.

(** One turn of the replay loop: from the status and dead-letter flag so far
    to the next ones, or [None] where the source returns
    [CorruptEventStream]. [index] is the event's position in the stream. *)
Definition replay_event (snapshot_id : TaskId) (index : nat)
    (current : TaskStatus) (dead : bool) (event : TaskEventRecord)
    : option (TaskStatus * bool) :=
  if negb (bool_decide (ev_task_id event = snapshot_id))
     || negb (bool_decide (ev_sequence event = Z.of_nat index + 1))
     || negb (bool_decide (ev_from_status event = Some current))
  then None
  else
    match ev_event_type event with
    | TaskStarted | TaskCompleted | TaskFailed =>
        match validate_transition current (ev_to_status event) with
        | Ok transition =>
            if bool_decide (tt_event_type transition = ev_event_type event)
            then Some (tt_to transition, dead) else None
        | Err _ => None
        end
    | TaskCanceled =>
        match validate_cancel_transition current with
        | Ok transition =>
            if bool_decide (tt_to transition = ev_to_status event)
            then Some (tt_to transition, dead) else None
        | Err _ => None
        end
    | TaskTimedOut =>
        match validate_deadline_transition current with
        | Ok _ =>
            if bool_decide (ev_to_status event = Failed)
            then Some (ev_to_status event, dead) else None
        | Err _ => None
        end
    | TaskLeased | TaskDeadLettered | TaskApprovalDenied =>
        match from_keryx_event_type (ev_event_type event) with
        | Some legacy =>
            match normalize_legacy_transition current legacy with
            | Some transition =>
                if bool_decide (tt_to transition = ev_to_status event)
                then Some (tt_to transition,
                           if bool_decide (ev_event_type event = TaskDeadLettered)
                           then true else dead)
                else None
            | None => None
            end
        | None => None
        end
    | RecoveryAction =>
        if bool_decide (ev_to_status event = recovered_status current)
        then Some (ev_to_status event, dead) else None
    | event_type =>
        if is_replayable_operational_legacy_event event_type
        then if bool_decide (ev_to_status event = current) then Some (current, dead) else None
        else None
    end.

Fixpoint replay_events (snapshot_id : TaskId) (index : nat)
    (current : TaskStatus) (dead : bool) (events : list TaskEventRecord)
    : option (TaskStatus * bool) :=
  match events with
  | [] => Some (current, dead)
  | event :: events =>
      match replay_event snapshot_id index current dead event with
      | Some (current', dead') => replay_events snapshot_id (S index) current' dead' events
      | None => None
      end
  end.

(** The whole loop, with the checks on the first event. *)
Definition replay_status (snapshot_id : TaskId) (events : list TaskEventRecord)
    : option (TaskStatus * bool) :=
  match events with
  | [] => None
  | first :: rest =>
      if negb (bool_decide (ev_task_id first = snapshot_id))
         || negb (bool_decide (ev_sequence first = 1))
         || negb (bool_decide (ev_event_type first = TaskAccepted))
         || negb (bool_decide (ev_from_status first = None))
         || negb (bool_decide (ev_to_status first = Pending))
      then None
      else replay_events snapshot_id 1 (ev_to_status first) false rest
  end.

Definition replay_task_from_snapshot_and_events (snapshot : TaskRecord)
    (events : list TaskEventRecord) : StoreResult TaskRecord :=
  let corrupt := Err (StoreError.CorruptEventStream (tr_id snapshot)) in
  match replay_status (tr_id snapshot) events with
  | None => corrupt
  | Some (current_status, replay_dead_lettered) =>
      if negb (bool_decide (tr_status snapshot = current_status)) then corrupt
      else if negb (bool_decide (tr_dead_lettered snapshot = replay_dead_lettered)) then corrupt
      else if tr_dead_lettered snapshot && bool_decide (tr_retry_count snapshot = 0) then corrupt
      else Ok (with_status snapshot current_status)
  end.

(** ** Result ordering keys *)

Definition pending_envelope_key (p : PendingTaskEnvelope) : Z * string :=
  (en_received_at_ms (pe_envelope p), as_str (tr_id (pe_task p))).
Definition lease_expiry_key (l : LeaseRecord) : Z * string :=
  (lr_expires_at_ms l, as_str (lr_task_id l)).
Definition deadline_key (p : Z * TaskId) : Z * string := (p.1, as_str p.2).
Definition outbox_due_key (o : ResultOutboxRecord) : Z * string :=
  (ob_next_attempt_at_ms o, ob_delivery_id o).
