(* ===== verification/Api.v ===== *)
(** * The interface of a task store

    The operations that [InMemoryStore] and [SqliteStore] have in common
    (trait [TaskStore] and the inherent methods with the same signatures, in
    crates/keryx-store/src/lib.rs and results.rs). A client is a sequence of
    [Op]s; [run_op] runs one against any implementation. *)
From S2P Require Import Prelude Ident Lifecycle StoreModel.
From stdpp Require Import options.

Class StoreApi (S : Type) : Type := {
  api_accept_task : TaskRecord -> ST S StoreError TaskRecord;
  api_accept_task_with_envelope :
    TaskRecord -> TaskEnvelopeRecord -> ST S StoreError TaskRecord;
  api_accept_task_with_envelope_and_context :
    TaskRecord -> TaskEnvelopeRecord -> TaskTransportContextRecord -> ST S StoreError TaskRecord;
  api_put_transport_context :
    TaskTransportContextRecord -> ST S StoreError TaskTransportContextRecord;
  api_lease_task : TaskId -> LeaseRecord -> ST S StoreError TaskRecord;
  api_lease_task_for_peer : TaskId -> LeaseRecord -> PeerId -> ST S StoreError TaskRecord;
  api_renew_lease : TaskId -> LeaseId -> AgentId -> Z -> Z -> ST S StoreError LeaseRecord;
  api_complete_task : TaskId -> LeaseId -> AgentId -> ST S StoreError TaskRecord;
  api_fail_task :
    TaskId -> LeaseId -> AgentId -> string -> RetryPolicy -> ST S StoreError TaskRecord;
  api_retry_task : TaskId -> LeaseId -> AgentId -> ST S StoreError TaskRecord;
  api_dead_letter_task : TaskId -> LeaseId -> AgentId -> string -> ST S StoreError TaskRecord;
  api_cancel_task : TaskId -> Z -> ST S StoreError TaskRecord;
  api_fail_expired_deadlines : Z -> option nat -> ST S StoreError (list TaskRecord);
  api_transition_task : TaskId -> TaskStatus -> ST S StoreError TaskRecord;
  api_accept_legacy_event : TaskId -> KeryxEventType -> ST S StoreError TaskRecord;
  api_recover_stale_leases : Z -> option nat -> ST S StoreError RecoveryReport;
  api_cancel_task_with_result :
    TaskId -> option LeaseId -> option AgentId -> Z -> TerminalResultRecord ->
    ST S StoreError TaskRecord;
  api_complete_task_with_result :
    TaskId -> LeaseId -> AgentId -> TerminalResultRecord -> ST S StoreError TaskRecord;
  api_fail_task_with_result :
    TaskId -> LeaseId -> AgentId -> string -> RetryPolicy -> TerminalResultRecord ->
    ST S StoreError TaskRecord;
  api_get_task : TaskId -> ST S StoreError TaskRecord;
  api_get_task_envelope : TaskId -> ST S StoreError TaskEnvelopeRecord;
  api_pending_task_envelopes : nat -> ST S StoreError (list PendingTaskEnvelope);
  api_claimable_pending_task_envelopes :
    PeerId -> nat -> ST S StoreError (list PendingTaskEnvelope);
  api_count_tasks_by_status : TaskStatus -> ST S StoreError Z;
  api_events_for_task : TaskId -> ST S StoreError (list TaskEventRecord);
  api_replay_task : TaskId -> ST S StoreError TaskRecord;
  api_active_lease : TaskId -> ST S StoreError (option LeaseRecord);
  api_get_transport_context : TaskId -> ST S StoreError TaskTransportContextRecord;
  api_get_terminal_result : TaskId -> ST S StoreError TerminalResultRecord;
}.

(** A call to the store. *)
Inductive Op : Type :=
| OpAccept (t : TaskRecord)
| OpAcceptEnvelope (t : TaskRecord) (e : TaskEnvelopeRecord)
| OpAcceptContext (t : TaskRecord) (e : TaskEnvelopeRecord) (c : TaskTransportContextRecord)
| OpPutContext (c : TaskTransportContextRecord)
| OpLease (i : TaskId) (l : LeaseRecord)
| OpLeaseForPeer (i : TaskId) (l : LeaseRecord) (p : PeerId)
| OpRenew (i : TaskId) (lid : LeaseId) (w : AgentId) (now exp : Z)
| OpComplete (i : TaskId) (lid : LeaseId) (w : AgentId)
| OpFail (i : TaskId) (lid : LeaseId) (w : AgentId) (reason : string) (policy : RetryPolicy)
| OpRetry (i : TaskId) (lid : LeaseId) (w : AgentId)
| OpDeadLetter (i : TaskId) (lid : LeaseId) (w : AgentId) (reason : string)
| OpCancel (i : TaskId) (now : Z)
| OpFailDeadlines (now : Z) (limit : option nat)
| OpTransition (i : TaskId) (to : TaskStatus)
| OpLegacy (i : TaskId) (e : KeryxEventType)
| OpRecover (now : Z) (limit : option nat)
| OpCancelResult (i : TaskId) (lid : option LeaseId) (w : option AgentId) (now : Z)
    (r : TerminalResultRecord)
| OpCompleteResult (i : TaskId) (lid : LeaseId) (w : AgentId) (r : TerminalResultRecord)
| OpFailResult (i : TaskId) (lid : LeaseId) (w : AgentId) (reason : string)
    (policy : RetryPolicy) (r : TerminalResultRecord)
| OpGet (i : TaskId)
| OpGetEnvelope (i : TaskId)
| OpPendingEnvelopes (limit : nat)
| OpClaimable (p : PeerId) (limit : nat)
| OpCount (st : TaskStatus)
| OpEvents (i : TaskId)
| OpReplay (i : TaskId)
| OpActiveLease (i : TaskId)
| OpGetContext (i : TaskId)
| OpGetResult (i : TaskId).

(** What a call returns. *)
Inductive Reply : Type :=
| RTask (t : TaskRecord)
| RTasks (l : list TaskRecord)
| RLease (l : LeaseRecord)
| RLeaseOpt (l : option LeaseRecord)
| RReport (r : RecoveryReport)
| REnvelope (e : TaskEnvelopeRecord)
| RPending (l : list PendingTaskEnvelope)
| RContext (c : TaskTransportContextRecord)
| RCount (n : Z)
| REvents (l : list TaskEventRecord)
| RResult (r : TerminalResultRecord).

Definition reply {S A} (f : A -> Reply) (m : ST S StoreError A) : ST S StoreError Reply :=
  let! a := m in ret (f a).

Definition run_op {S} `{StoreApi S} (op : Op) : ST S StoreError Reply :=
  match op with
  | OpAccept t => reply RTask (api_accept_task t)
  | OpAcceptEnvelope t e => reply RTask (api_accept_task_with_envelope t e)
  | OpAcceptContext t e c => reply RTask (api_accept_task_with_envelope_and_context t e c)
  | OpPutContext c => reply RContext (api_put_transport_context c)
  | OpLease i l => reply RTask (api_lease_task i l)
  | OpLeaseForPeer i l p => reply RTask (api_lease_task_for_peer i l p)
  | OpRenew i lid w now exp => reply RLease (api_renew_lease i lid w now exp)
  | OpComplete i lid w => reply RTask (api_complete_task i lid w)
  | OpFail i lid w reason policy => reply RTask (api_fail_task i lid w reason policy)
  | OpRetry i lid w => reply RTask (api_retry_task i lid w)
  | OpDeadLetter i lid w reason => reply RTask (api_dead_letter_task i lid w reason)
  | OpCancel i now => reply RTask (api_cancel_task i now)
  | OpFailDeadlines now limit => reply RTasks (api_fail_expired_deadlines now limit)
  | OpTransition i to => reply RTask (api_transition_task i to)
  | OpLegacy i e => reply RTask (api_accept_legacy_event i e)
  | OpRecover now limit => reply RReport (api_recover_stale_leases now limit)
  | OpCancelResult i lid w now r => reply RTask (api_cancel_task_with_result i lid w now r)
  | OpCompleteResult i lid w r => reply RTask (api_complete_task_with_result i lid w r)
  | OpFailResult i lid w reason policy r =>
      reply RTask (api_fail_task_with_result i lid w reason policy r)
  | OpGet i => reply RTask (api_get_task i)
  | OpGetEnvelope i => reply REnvelope (api_get_task_envelope i)
  | OpPendingEnvelopes n => reply RPending (api_pending_task_envelopes n)
  | OpClaimable p n => reply RPending (api_claimable_pending_task_envelopes p n)
  | OpCount st => reply RCount (api_count_tasks_by_status st)
  | OpEvents i => reply REvents (api_events_for_task i)
  | OpReplay i => reply RTask (api_replay_task i)
  | OpActiveLease i => reply RLeaseOpt (api_active_lease i)
  | OpGetContext i => reply RContext (api_get_transport_context i)
  | OpGetResult i => reply RResult (api_get_terminal_result i)
  end.

(** A session: the replies of a sequence of calls and the state it ends in. *)
Fixpoint run_ops {S} `{StoreApi S} (ops : list Op) (s : S)
    : list (Result Reply StoreError) * S :=
  match ops with
  | [] => ([], s)
  | op :: ops =>
      let (r, s1) := run_op op s in
      let (rs, s2) := run_ops ops s1 in
      (r :: rs, s2)
  end.

(** A task as its creators build it: pending tasks come from
    [TaskRecord::new], with no failures recorded and machine-sized fields. *)
Definition fresh_task (t : TaskRecord) : Prop :=
  tr_dead_lettered t = false /\ tr_dead_letter_reason t = None /\ in_u32 (tr_retry_count t).

(** The tasks that a call asks the store to accept are fresh. *)
Definition op_fresh (op : Op) : Prop :=
  match op with
  | OpAccept t | OpAcceptEnvelope t _ | OpAcceptContext t _ _ => fresh_task t
  | _ => True
  end.
