(* ===== verification/MemStore.v ===== *)
(** * The in-memory store

    crates/keryx-store/src/lib.rs and results.rs, [impl InMemoryStore] and
    [impl TaskStore for InMemoryStore]. A call holds the mutex from its first
    access to the state to its return, so an operation is a function from the
    state to its result and the state it leaves, also when it fails. A
    poisoned lock needs a panic inside a call and is not modelled. Hash maps
    are [gmap]s; where the source iterates over one and sorts, the list of
    entries is sorted with the source's key. The artifact maps are kept apart:
    no operation here reads or writes them. *)
From S2P Require Import Prelude Ident Lifecycle StoreModel Api.
From stdpp Require Import options.

Record InMemoryState : Type := MkMem {
  tasks : gmap TaskId TaskRecord;
  events : gmap TaskId (list TaskEventRecord);
  idempotency : gmap IdempotencyKey TaskId;
  leases : gmap TaskId LeaseRecord;
  envelopes : gmap TaskId TaskEnvelopeRecord;
  transport_contexts : gmap TaskId TaskTransportContextRecord;
  terminal_results : gmap TaskId TerminalResultRecord;
  result_outbox : gmap string ResultOutboxRecord;
}.

(** [InMemoryState::default()]. *)
Definition empty_state : InMemoryState := MkMem ∅ ∅ ∅ ∅ ∅ ∅ ∅ ∅.

Abbreviation M := (ST InMemoryState StoreError).

(** ** Writes to one map *)

Definition set_task (i : TaskId) (t : TaskRecord) (s : InMemoryState) : InMemoryState :=
  MkMem (<[i := t]> (tasks s)) (events s) (idempotency s) (leases s) (envelopes s)
    (transport_contexts s) (terminal_results s) (result_outbox s).
Definition set_events (i : TaskId) (l : list TaskEventRecord) (s : InMemoryState) : InMemoryState :=
  MkMem (tasks s) (<[i := l]> (events s)) (idempotency s) (leases s) (envelopes s)
    (transport_contexts s) (terminal_results s) (result_outbox s).
Definition set_idempotency (k : IdempotencyKey) (i : TaskId) (s : InMemoryState) : InMemoryState :=
  MkMem (tasks s) (events s) (<[k := i]> (idempotency s)) (leases s) (envelopes s)
    (transport_contexts s) (terminal_results s) (result_outbox s).
Definition set_lease (i : TaskId) (l : LeaseRecord) (s : InMemoryState) : InMemoryState :=
  MkMem (tasks s) (events s) (idempotency s) (<[i := l]> (leases s)) (envelopes s)
    (transport_contexts s) (terminal_results s) (result_outbox s).
Definition remove_lease (i : TaskId) (s : InMemoryState) : InMemoryState :=
  MkMem (tasks s) (events s) (idempotency s) (delete i (leases s)) (envelopes s)
    (transport_contexts s) (terminal_results s) (result_outbox s).
Definition set_envelope (i : TaskId) (e : TaskEnvelopeRecord) (s : InMemoryState) : InMemoryState :=
  MkMem (tasks s) (events s) (idempotency s) (leases s) (<[i := e]> (envelopes s))
    (transport_contexts s) (terminal_results s) (result_outbox s).
Definition set_context (i : TaskId) (c : TaskTransportContextRecord) (s : InMemoryState)
    : InMemoryState :=
  MkMem (tasks s) (events s) (idempotency s) (leases s) (envelopes s)
    (<[i := c]> (transport_contexts s)) (terminal_results s) (result_outbox s).
Definition set_result (i : TaskId) (r : TerminalResultRecord) (s : InMemoryState) : InMemoryState :=
  MkMem (tasks s) (events s) (idempotency s) (leases s) (envelopes s)
    (transport_contexts s) (<[i := r]> (terminal_results s)) (result_outbox s).
Definition set_outbox (k : string) (o : ResultOutboxRecord) (s : InMemoryState) : InMemoryState :=
  MkMem (tasks s) (events s) (idempotency s) (leases s) (envelopes s)
    (transport_contexts s) (terminal_results s) (<[k := o]> (result_outbox s)).

Definition set_idempotency_opt (k : option IdempotencyKey) (i : TaskId) (s : InMemoryState)
    : InMemoryState :=
  match k with Some key => set_idempotency key i s | None => s end.

(** [append_in_memory_event]. *)
Definition append_in_memory_event (task_id : TaskId) (event_type : KeryxEventType)
    (from_status : option TaskStatus) (to_status : TaskStatus) (s : InMemoryState)
    : InMemoryState :=
  let old := default [] (events s !! task_id) in
  let sequence := Z.of_nat (length old) + 1 in
  set_events task_id
    (old ++ [MkEvent task_id sequence event_type from_status to_status]) s.

(** ** Accepting tasks *)

(** The look-up that the two accepting operations share: a known idempotency
    key either returns the stored task or is a conflict. *)
Definition idempotent_hit (task : TaskRecord) (s : InMemoryState)
    : option (TaskId * StoreResult TaskRecord) :=
  match tr_idempotency_key task with
  | None => None
  | Some key =>
      match idempotency s !! key with
      | None => None
      | Some existing_task_id =>
          Some (existing_task_id,
            let? existing := ok_or (tasks s !! existing_task_id)
                               (StoreError.CorruptEventStream existing_task_id) in
            if bool_decide (existing = task) then Ok existing
            else Err (StoreError.IdempotencyConflict key existing_task_id))
      end
  end.

Definition accept_task (task : TaskRecord) : M TaskRecord :=
  let! _ := lift (ensure_pending_accept task) in
  let! state := get in
  match idempotent_hit task state with
  | Some (_, r) => lift r
  | None =>
      match tasks state !! tr_id task with
      | Some _ => throw (StoreError.TaskAlreadyExists (tr_id task))
      | None =>
          modify (set_idempotency_opt (tr_idempotency_key task) (tr_id task)) ;;;
          modify (append_in_memory_event (tr_id task) TaskAccepted None (tr_status task)) ;;;
          modify (set_task (tr_id task) task) ;;;
          ret task
      end
  end.

Definition accept_task_with_envelope (task : TaskRecord) (envelope : TaskEnvelopeRecord)
    : M TaskRecord :=
  let! _ := lift (validate_accepted_task_status task) in
  let! _ := lift (ensure_pending_accept task) in
  let! _ := lift (ensure_matching_envelope_task_id task envelope) in
  let! state := get in
  match idempotent_hit task state with
  | Some (existing_task_id, r) =>
      let! existing := lift r in
      match envelopes state !! existing_task_id with
      | Some existing_envelope =>
          if bool_decide (existing_envelope = envelope) then ret existing
          else throw (StoreError.TaskEnvelopeConflict existing_task_id)
      | None => throw (StoreError.TaskEnvelopeConflict existing_task_id)
      end
  | None =>
      match tasks state !! tr_id task with
      | Some _ => throw (StoreError.TaskAlreadyExists (tr_id task))
      | None =>
          modify (set_idempotency_opt (tr_idempotency_key task) (tr_id task)) ;;;
          modify (append_in_memory_event (tr_id task) TaskAccepted None (tr_status task)) ;;;
          modify (set_task (tr_id task) task) ;;;
          modify (set_envelope (tr_id task) envelope) ;;;
          ret task
      end
  end.

Definition accept_task_with_envelope_and_context (task : TaskRecord)
    (envelope : TaskEnvelopeRecord) (context : TaskTransportContextRecord) : M TaskRecord :=
  let! _ := lift (validate_accepted_task_status task) in
  let! _ := lift (ensure_pending_accept task) in
  let! _ := lift (ensure_matching_envelope_task_id task envelope) in
  let! _ := lift (ensure_context_task context (tr_id task)) in
  let! state := get in
  match tasks state !! tr_id task with
  | Some existing =>
      match envelopes state !! tr_id task, transport_contexts state !! tr_id task with
      | Some stored_envelope, Some stored_context =>
          if bool_decide (existing = task)
             && same_delivered_envelope stored_envelope envelope
             && same_transport_identity stored_context context
          then
            (if bool_decide (tc_relay_frame_id stored_context = tc_relay_frame_id context)
             then ret tt else modify (set_context (tr_id task) context)) ;;;
            ret existing
          else throw (StoreError.TransportContextConflict (tr_id task))
      | _, _ => throw (StoreError.TransportContextConflict (tr_id task))
      end
  | None =>
      match tr_idempotency_key task ≫= fun key =>
              pair key <$> idempotency state !! key with
      | Some (key, existing_task_id) =>
          throw (StoreError.IdempotencyConflict key existing_task_id)
      | None =>
          modify (set_idempotency_opt (tr_idempotency_key task) (tr_id task)) ;;;
          modify (append_in_memory_event (tr_id task) TaskAccepted None (tr_status task)) ;;;
          modify (set_task (tr_id task) task) ;;;
          modify (set_envelope (tr_id task) envelope) ;;;
          modify (set_context (tr_id task) context) ;;;
          ret task
      end
  end.

Definition put_transport_context (context : TaskTransportContextRecord)
    : M TaskTransportContextRecord :=
  let! state := get in
  match tasks state !! tc_task_id context with
  | None => throw (StoreError.TaskNotFound (tc_task_id context))
  | Some _ =>
      match transport_contexts state !! tc_task_id context with
      | Some existing =>
          if bool_decide (existing = context) then ret existing
          else throw (StoreError.TransportContextConflict (tc_task_id context))
      | None =>
          modify (set_context (tc_task_id context) context) ;;;
          ret context
      end
  end.

(** ** Queries *)

Definition get_task (task_id : TaskId) : M TaskRecord :=
  let! state := get in
  lift (ok_or (tasks state !! task_id) (StoreError.TaskNotFound task_id)).

Definition get_task_envelope (task_id : TaskId) : M TaskEnvelopeRecord :=
  let! state := get in
  lift (ok_or (envelopes state !! task_id) (StoreError.TaskEnvelopeNotFound task_id)).

Definition get_transport_context (task_id : TaskId) : M TaskTransportContextRecord :=
  let! state := get in
  lift (ok_or (transport_contexts state !! task_id)
          (StoreError.TransportContextNotFound task_id)).

Definition get_terminal_result (task_id : TaskId) : M TerminalResultRecord :=
  let! state := get in
  lift (ok_or (terminal_results state !! task_id)
          (StoreError.TerminalResultNotFound task_id)).

Definition active_lease (task_id : TaskId) : M (option LeaseRecord) :=
  let! state := get in ret (leases state !! task_id).

(** [tasks.values()]. *)
Definition task_values (s : InMemoryState) : list TaskRecord := (map_to_list (tasks s)).*2.
Definition lease_values (s : InMemoryState) : list LeaseRecord := (map_to_list (leases s)).*2.

Definition with_envelope (s : InMemoryState) (t : TaskRecord) : option PendingTaskEnvelope :=
  MkPendingTaskEnvelope t <$> envelopes s !! tr_id t.

(** Sort by arrival and keep the first [limit]: the tail of the two
    look-ups for pending envelopes. *)
Definition first_pending (limit : nat) (l : list PendingTaskEnvelope) : list PendingTaskEnvelope :=
  take limit (sort_by_key pending_envelope_key l).

Definition pending_task_envelopes (limit : nat) : M (list PendingTaskEnvelope) :=
  match limit with
  | O => ret []
  | _ =>
      let! state := get in
      ret (first_pending limit
        (omap (with_envelope state)
          (filter (fun t => tr_status t = Pending) (task_values state))))
  end.

(** The executor a task is reserved for, when its context names one. *)
Definition expected_executor (s : InMemoryState) (task_id : TaskId) : option PeerId :=
  transport_contexts s !! task_id ≫= tc_expected_executor_peer_id.

Definition executor_allows (s : InMemoryState) (local_peer_id : PeerId) (t : TaskRecord) : bool :=
  match expected_executor s (tr_id t) with
  | Some expected => bool_decide (expected = local_peer_id)
  | None => true
  end.

Definition claimable_pending_task_envelopes (local_peer_id : PeerId) (limit : nat)
    : M (list PendingTaskEnvelope) :=
  match limit with
  | O => ret []
  | _ =>
      let! state := get in
      ret (first_pending limit
        (omap (with_envelope state)
          (filter (fun t => executor_allows state local_peer_id t = true)
            (filter (fun t => tr_status t = Pending) (task_values state)))))
  end.

Definition count_tasks_by_status (status : TaskStatus) : M Z :=
  let! state := get in
  ret (Z.of_nat (length (filter (fun t => tr_status t = status) (task_values state)))).

Definition events_for_task (task_id : TaskId) : M (list TaskEventRecord) :=
  let! state := get in
  match events state !! task_id with
  | Some evs => ret evs
  | None =>
      match tasks state !! task_id with
      | Some _ => throw (StoreError.CorruptEventStream task_id)
      | None => throw (StoreError.TaskNotFound task_id)
      end
  end.

Definition replay_task (task_id : TaskId) : M TaskRecord :=
  let! state := get in
  let! snapshot := lift (ok_or (tasks state !! task_id) (StoreError.TaskNotFound task_id)) in
  let! evs := lift (ok_or (events state !! task_id) (StoreError.CorruptEventStream task_id)) in
  lift (replay_task_from_snapshot_and_events snapshot evs).

(** ** Leases *)

(** The task and the active lease that the worker operations start from. *)
Definition find_task (task_id : TaskId) : M TaskRecord := get_task task_id.

Definition find_lease (task_id : TaskId) : M LeaseRecord :=
  let! state := get in
  lift (ok_or (leases state !! task_id) (StoreError.LeaseNotFound task_id)).

Definition lease_task_with_peer_guard (task_id : TaskId) (lease : LeaseRecord)
    (local_peer_id : option PeerId) : M TaskRecord :=
  let! state := get in
  match local_peer_id ≫= fun local =>
          match expected_executor state task_id with
          | Some expected => if bool_decide (expected = local) then None else Some (expected, local)
          | None => None
          end with
  | Some (expected, actual) => throw (StoreError.TaskExecutorMismatch task_id expected actual)
  | None =>
      let! _ := lift (ensure_matching_task_id task_id lease) in
      let! _ := lift (ensure_lease_has_owner lease) in
      let! task := find_task task_id in
      match leases state !! task_id with
      | Some _ => throw (StoreError.LeaseConflict task_id)
      | None =>
          match tr_deadline_ms task ≫= fun d =>
                  if d <=? lr_leased_at_ms lease then Some d else None with
          | Some deadline_ms =>
              let! _ := lift (validate_deadline_transition (tr_status task)) in
              modify (append_in_memory_event task_id TaskTimedOut
                        (Some (tr_status task)) Failed) ;;;
              modify (set_task task_id (with_status task Failed)) ;;;
              throw (StoreError.TaskDeadlineExpired task_id deadline_ms (lr_leased_at_ms lease))
          | None =>
              let! transition := lift (store_transition (tr_status task) Running) in
              let updated := with_status task Running in
              modify (set_lease task_id lease) ;;;
              modify (append_in_memory_event task_id (tt_event_type transition)
                        (Some (tt_from transition)) (tt_to transition)) ;;;
              modify (set_task task_id updated) ;;;
              ret updated
          end
      end
  end.

Definition lease_task (task_id : TaskId) (lease : LeaseRecord) : M TaskRecord :=
  lease_task_with_peer_guard task_id lease None.

Definition lease_task_for_peer (task_id : TaskId) (lease : LeaseRecord) (local_peer_id : PeerId)
    : M TaskRecord :=
  lease_task_with_peer_guard task_id lease (Some local_peer_id).

Definition renew_lease (task_id : TaskId) (lease_id : LeaseId) (worker_id : AgentId)
    (now_ms new_expires_at_ms : Z) : M LeaseRecord :=
  let! task := find_task task_id in
  let! _ := lift (require_status (tr_status task) Running) in
  let! active := find_lease task_id in
  let! _ := lift (ensure_matching_lease_id task_id active lease_id) in
  let! _ := lift (ensure_matching_worker_id task_id active worker_id) in
  let! _ := lift (ensure_valid_lease_expiry active now_ms new_expires_at_ms) in
  modify (set_lease task_id (with_expiry active new_expires_at_ms)) ;;;
  ret (with_expiry active new_expires_at_ms).

(** ** Finishing, retrying, dead-lettering *)

Definition retry_task_in_state (task_id : TaskId) (active : LeaseRecord) (task : TaskRecord)
    : M TaskRecord :=
  let! _ := lift (ensure_matching_lease_id task_id active (lr_lease_id active)) in
  let! _ := lift (require_status (tr_status task) Running) in
  let task' := with_metadata task Pending (u32_saturating_add (tr_retry_count task) 1)
                 (tr_dead_lettered task) (tr_dead_letter_reason task) in
  modify (remove_lease task_id) ;;;
  modify (append_in_memory_event task_id RecoveryAction (Some Running) Pending) ;;;
  modify (set_task task_id task') ;;;
  ret task'.

Definition dead_letter_task_in_state (task_id : TaskId) (active : LeaseRecord)
    (task : TaskRecord) (reason : string) : M TaskRecord :=
  let! _ := lift (ensure_matching_lease_id task_id active (lr_lease_id active)) in
  let! _ := lift (require_status (tr_status task) Running) in
  let! transition := lift (store_transition (tr_status task) Failed) in
  let task' := with_metadata task Failed (u32_saturating_add (tr_retry_count task) 1)
                 true (Some reason) in
  modify (remove_lease task_id) ;;;
  modify (append_in_memory_event task_id TaskDeadLettered
            (Some (tt_from transition)) (tt_to transition)) ;;;
  modify (set_task task_id task') ;;;
  ret task'.

Definition finish_task_in_state (task_id : TaskId) (lease_id : LeaseId) (worker_id : AgentId)
    (to : TaskStatus) (retry_count : Z) (dead_lettered : bool)
    (dead_letter_reason : option string) : M TaskRecord :=
  let! task := find_task task_id in
  let! active := find_lease task_id in
  let! _ := lift (ensure_matching_lease_id task_id active lease_id) in
  let! _ := lift (ensure_matching_worker_id task_id active worker_id) in
  let! transition := lift (store_transition (tr_status task) to) in
  let updated := with_metadata task to retry_count dead_lettered dead_letter_reason in
  modify (remove_lease task_id) ;;;
  modify (append_in_memory_event task_id (tt_event_type transition)
            (Some (tt_from transition)) (tt_to transition)) ;;;
  modify (set_task task_id updated) ;;;
  ret updated.

Definition finish_task (task_id : TaskId) (lease_id : LeaseId) (worker_id : AgentId)
    (to : TaskStatus) : M TaskRecord :=
  let! task := find_task task_id in
  finish_task_in_state task_id lease_id worker_id to (tr_retry_count task)
    (tr_dead_lettered task) (tr_dead_letter_reason task).

Definition complete_task (task_id : TaskId) (lease_id : LeaseId) (worker_id : AgentId)
    : M TaskRecord := finish_task task_id lease_id worker_id Completed.

Definition fail_task (task_id : TaskId) (lease_id : LeaseId) (worker_id : AgentId)
    (error_reason : string) (policy : RetryPolicy) : M TaskRecord :=
  let! task := find_task task_id in
  let! active := find_lease task_id in
  let! _ := lift (ensure_matching_lease_id task_id active lease_id) in
  let! _ := lift (ensure_matching_worker_id task_id active worker_id) in
  let! _ := lift (require_status (tr_status task) Running) in
  if max_retries policy =? 0 then
    finish_task_in_state task_id lease_id worker_id Failed (tr_retry_count task) false None
  else if should_retry_after_failure policy (tr_retry_count task) then
    retry_task_in_state task_id active task
  else dead_letter_task_in_state task_id active task error_reason.

Definition retry_task (task_id : TaskId) (lease_id : LeaseId) (worker_id : AgentId)
    : M TaskRecord :=
  let! task := find_task task_id in
  let! active := find_lease task_id in
  let! _ := lift (ensure_matching_lease_id task_id active lease_id) in
  let! _ := lift (ensure_matching_worker_id task_id active worker_id) in
  retry_task_in_state task_id active task.

Definition dead_letter_task (task_id : TaskId) (lease_id : LeaseId) (worker_id : AgentId)
    (reason : string) : M TaskRecord :=
  let! task := find_task task_id in
  let! active := find_lease task_id in
  let! _ := lift (ensure_matching_lease_id task_id active lease_id) in
  let! _ := lift (ensure_matching_worker_id task_id active worker_id) in
  dead_letter_task_in_state task_id active task reason.

(** ** Cancellation and deadlines *)

Definition cancel_task (task_id : TaskId) (now_ms : Z) : M TaskRecord :=
  let! task := find_task task_id in
  if is_terminal (tr_status task) then ret task
  else
    (if bool_decide (tr_status task = Running) then
       let! active := find_lease task_id in
       lift (ensure_active_lease_unexpired active now_ms)
     else ret tt) ;;;
    let! transition := lift (store_cancel_transition (tr_status task)) in
    let updated := with_status task (tt_to transition) in
    modify (remove_lease task_id) ;;;
    modify (append_in_memory_event task_id (tt_event_type transition)
              (Some (tt_from transition)) (tt_to transition)) ;;;
    modify (set_task task_id updated) ;;;
    ret updated.

(** The tasks past their deadline, earliest deadline first. *)
Definition expired_deadlines (now_ms : Z) (s : InMemoryState) : list (Z * TaskId) :=
  sort_by_key deadline_key
    (omap (fun t => tr_deadline_ms t ≫= fun d =>
                      if d <=? now_ms then Some (d, tr_id t) else None)
      (filter (fun t => is_terminal (tr_status t) = false) (task_values s))).

Definition truncate {A} (limit : option nat) (l : list A) : list A :=
  match limit with Some n => take n l | None => l end.

Definition fail_deadline (expired : Z * TaskId) : M (list TaskRecord) :=
  let expired_task_id := expired.2 in
  let! task := find_task expired_task_id in
  let! _ := lift (validate_deadline_transition (tr_status task)) in
  let updated := with_status task Failed in
  modify (remove_lease expired_task_id) ;;;
  modify (append_in_memory_event expired_task_id TaskTimedOut
            (Some (tr_status task)) Failed) ;;;
  modify (set_task expired_task_id updated) ;;;
  ret [updated].

Definition fail_expired_deadlines (now_ms : Z) (limit : option nat) : M (list TaskRecord) :=
  let! state := get in
  for_collect fail_deadline (truncate limit (expired_deadlines now_ms state)).

(** ** Status transitions and legacy events *)

Definition transition_task (task_id : TaskId) (to : TaskStatus) : M TaskRecord :=
  let! task := find_task task_id in
  let! transition := lift (store_transition (tr_status task) to) in
  let updated := with_status task to in
  (if is_terminal to then modify (remove_lease task_id) else ret tt) ;;;
  modify (append_in_memory_event task_id (tt_event_type transition)
            (Some (tt_from transition)) (tt_to transition)) ;;;
  modify (set_task task_id updated) ;;;
  ret updated.

Definition accept_legacy_event (task_id : TaskId) (event_type : KeryxEventType) : M TaskRecord :=
  let! legacy_event := lift (ok_or (from_keryx_event_type event_type)
                         (StoreError.Validation (InvalidTaskTransition Pending Pending))) in
  let! task := find_task task_id in
  let! plan := lift (plan_legacy_event_append (tr_status task) legacy_event) in
  match plan with
  | PlanLifecycle transition =>
      let updated := with_status task (tt_to transition) in
      (if is_terminal (tt_to transition) then modify (remove_lease task_id) else ret tt) ;;;
      modify (append_in_memory_event task_id (tt_event_type transition)
                (Some (tt_from transition)) (tt_to transition)) ;;;
      modify (set_task task_id updated) ;;;
      ret updated
  | PlanOperational preserved status =>
      modify (append_in_memory_event task_id preserved (Some status) status) ;;;
      ret task
  end.

(** ** Stale-lease recovery *)

Definition task_is_corrupt (s : InMemoryState) (task_id : TaskId) : bool :=
  match tasks s !! task_id with
  | None => false
  | Some task =>
      match events s !! task_id with
      | None => true
      | Some evs =>
          match replay_task_from_snapshot_and_events task evs with
          | Err (StoreError.CorruptEventStream _) => true
          | _ => false
          end
      end
  end.

(** Task ids in ascending order ([TaskId]'s derived [Ord] compares the text). *)
Definition sorted_task_ids (s : InMemoryState) : list TaskId :=
  sort_by_key (fun i => (0, as_str i)) (map_to_list (tasks s)).*1.

Definition collect_corrupt_in_memory_tasks (s : InMemoryState) : list TaskId :=
  filter (fun i => task_is_corrupt s i = true) (sorted_task_ids s).

Definition stale_leases (now_ms : Z) (s : InMemoryState) : list LeaseRecord :=
  sort_by_key lease_expiry_key (filter (fun l => lr_expires_at_ms l <= now_ms) (lease_values s)).

(** One turn of the recovery loop; it reports the tasks it requeued and how
    many leases of finished tasks it cleaned. *)
Definition recover_lease (lease : LeaseRecord) : M (list (TaskRecord + unit)) :=
  modify (remove_lease (lr_task_id lease)) ;;;
  let! state := get in
  match tasks state !! lr_task_id lease with
  | None => ret []
  | Some task =>
      let to_status := recovered_status (tr_status task) in
      let should_requeue := bool_decide (tr_status task = Running) in
      let updated := with_status task to_status in
      modify (append_in_memory_event (lr_task_id lease) RecoveryAction
                (Some (tr_status task)) to_status) ;;;
      modify (set_task (lr_task_id lease) updated) ;;;
      ret (if should_requeue then [inl updated]
           else if is_terminal (tr_status task) then [inr tt] else [])
  end.

Definition recovered_of (l : list (TaskRecord + unit)) : list TaskRecord :=
  omap (fun x => match x with inl t => Some t | inr _ => None end) l.
Definition cleaned_of (l : list (TaskRecord + unit)) : Z :=
  Z.of_nat (length (filter (fun x => x = inr tt) l)).

Definition recover_stale_leases (now_ms : Z) (limit : option nat) : M RecoveryReport :=
  let! state := get in
  let! outcomes := for_collect recover_lease (truncate limit (stale_leases now_ms state)) in
  let! state' := get in
  ret (MkRecoveryReport (recovered_of outcomes) (cleaned_of outcomes)
         (collect_corrupt_in_memory_tasks state')).

(** ** Terminal results (results.rs) *)

(** Store a terminal result and, when it has a return peer, its delivery. *)
Definition store_result (task_id : TaskId) (r : TerminalResultRecord) : M unit :=
  match make_outbox r with
  | Some outbox => modify (set_outbox (ob_delivery_id outbox) outbox)
  | None => ret tt
  end ;;;
  modify (set_result task_id r).

(** What [complete_task_with_result] and [fail_task_with_result] answer when
    the task already has a result. *)
Definition existing_result (task_id : TaskId) (r : TerminalResultRecord) (s : InMemoryState)
    : option (StoreResult TaskRecord) :=
  match terminal_results s !! task_id with
  | None => None
  | Some existing => Some (
      if bool_decide (existing = r)
      then ok_or (tasks s !! task_id) (StoreError.TaskNotFound task_id)
      else Err (StoreError.TerminalResultConflict task_id))
  end.

Definition cancel_task_with_result (task_id : TaskId) (lease_id : option LeaseId)
    (worker_id : option AgentId) (now_ms : Z) (result : TerminalResultRecord) : M TaskRecord :=
  let! _ := lift (ensure_result_task result task_id) in
  let! _ := lift (terminal_result_validate result) in
  let! task := find_task task_id in
  (if bool_decide (tr_status task = Running) then
     let! active := find_lease task_id in
     let! lease_id := lift (ok_or lease_id (StoreError.CancellationLeaseProofRequired task_id)) in
     let! worker_id := lift (ok_or worker_id (StoreError.CancellationLeaseProofRequired task_id)) in
     let! _ := lift (ensure_matching_lease_id task_id active lease_id) in
     let! _ := lift (ensure_matching_worker_id task_id active worker_id) in
     lift (ensure_active_lease_unexpired active now_ms)
   else ret tt) ;;;
  let! transition := lift (store_cancel_transition (tr_status task)) in
  let! state := get in
  match terminal_results state !! task_id with
  | Some _ => throw (StoreError.TerminalResultConflict task_id)
  | None =>
      if negb (bool_decide (rs_terminal_status result = tt_to transition))
      then throw (StoreError.TerminalResultNotTerminal task_id)
      else
        let updated := with_status task (tt_to transition) in
        modify (remove_lease task_id) ;;;
        modify (append_in_memory_event task_id (tt_event_type transition)
                  (Some (tt_from transition)) (tt_to transition)) ;;;
        modify (set_task task_id updated) ;;;
        store_result task_id result ;;;
        ret updated
  end.

Definition complete_task_with_result (task_id : TaskId) (lease_id : LeaseId)
    (worker_id : AgentId) (result : TerminalResultRecord) : M TaskRecord :=
  let! _ := lift (ensure_result_task result task_id) in
  let! state := get in
  match existing_result task_id result state with
  | Some r => lift r
  | None =>
      let! task := find_task task_id in
      let! updated := finish_task_in_state task_id lease_id worker_id Completed
                        (tr_retry_count task) (tr_dead_lettered task)
                        (tr_dead_letter_reason task) in
      store_result task_id result ;;;
      ret updated
  end.

Definition fail_task_with_result (task_id : TaskId) (lease_id : LeaseId) (worker_id : AgentId)
    (error_reason : string) (policy : RetryPolicy) (result : TerminalResultRecord)
    : M TaskRecord :=
  let! _ := lift (ensure_result_task result task_id) in
  let! state := get in
  match existing_result task_id result state with
  | Some r => lift r
  | None =>
      let! task := find_task task_id in
      let! active := find_lease task_id in
      let! _ := lift (ensure_matching_lease_id task_id active lease_id) in
      let! _ := lift (ensure_matching_worker_id task_id active worker_id) in
      if max_retries policy =? 0 then
        let! updated := finish_task_in_state task_id lease_id worker_id Failed
                          (tr_retry_count task) false None in
        store_result task_id result ;;;
        ret updated
      else if should_retry_after_failure policy (tr_retry_count task) then
        retry_task_in_state task_id active task
      else
        let! updated := dead_letter_task_in_state task_id active task error_reason in
        store_result task_id result ;;;
        ret updated
  end.

Definition outbox_values (s : InMemoryState) : list ResultOutboxRecord :=
  (map_to_list (result_outbox s)).*2.

Definition result_delivery_for_task (task_id : TaskId) : M (option ResultOutboxRecord) :=
  let! state := get in
  ret (head (filter (fun o => ob_task_id o = task_id) (outbox_values state))).

Definition pending_result_deliveries (limit : nat) : M (list ResultOutboxRecord) :=
  let! state := get in
  ret (take limit (sort_by_key outbox_due_key
         (filter (fun o => ob_state o = DsPending) (outbox_values state)))).

#[export] Instance mem_api : StoreApi InMemoryState := {
  api_accept_task := accept_task;
  api_accept_task_with_envelope := accept_task_with_envelope;
  api_accept_task_with_envelope_and_context := accept_task_with_envelope_and_context;
  api_put_transport_context := put_transport_context;
  api_lease_task := lease_task;
  api_lease_task_for_peer := lease_task_for_peer;
  api_renew_lease := renew_lease;
  api_complete_task := complete_task;
  api_fail_task := fail_task;
  api_retry_task := retry_task;
  api_dead_letter_task := dead_letter_task;
  api_cancel_task := cancel_task;
  api_fail_expired_deadlines := fail_expired_deadlines;
  api_transition_task := transition_task;
  api_accept_legacy_event := accept_legacy_event;
  api_recover_stale_leases := recover_stale_leases;
  api_cancel_task_with_result := cancel_task_with_result;
  api_complete_task_with_result := complete_task_with_result;
  api_fail_task_with_result := fail_task_with_result;
  api_get_task := get_task;
  api_get_task_envelope := get_task_envelope;
  api_pending_task_envelopes := pending_task_envelopes;
  api_claimable_pending_task_envelopes := claimable_pending_task_envelopes;
  api_count_tasks_by_status := count_tasks_by_status;
  api_events_for_task := events_for_task;
  api_replay_task := replay_task;
  api_active_lease := active_lease;
  api_get_transport_context := get_transport_context;
  api_get_terminal_result := get_terminal_result;
}.
