(* ===== verification/MemSpec.v ===== *)
(** * What the store promises: a state machine of tasks, leases and events *)
From S2P Require Import Prelude Ident Lifecycle StoreModel Api MemStore.
From stdpp Require Import options.

(** ** The lifecycle of one task

    [lifecycle i t l e t' l']: the task [i], recorded as [t] with active lease [l] may take the
    event [e] to become [t'] with active lease [l']. *)
Inductive lifecycle (i : TaskId) (t : TaskRecord) (l : option LeaseRecord)
    : KeryxEventType -> TaskRecord -> option LeaseRecord -> Prop :=
| lc_lease lease :
    tr_status t = Pending -> l = None ->
    lr_task_id lease = i -> is_Some (lr_worker_id lease) ->
    (forall d, tr_deadline_ms t = Some d -> lr_leased_at_ms lease < d) ->
    lifecycle i t l TaskStarted (with_status t Running) (Some lease)
| lc_start :
    tr_status t = Pending -> lifecycle i t l TaskStarted (with_status t Running) l
| lc_complete :
    tr_status t = Running -> lifecycle i t l TaskCompleted (with_status t Completed) None
| lc_fail dl reason :
    tr_status t = Running ->
    (dl = tr_dead_lettered t /\ reason = tr_dead_letter_reason t) \/ (dl = false /\ reason = None) ->
    lifecycle i t l TaskFailed (with_metadata t Failed (tr_retry_count t) dl reason) None
| lc_cancel :
    is_terminal (tr_status t) = false ->
    lifecycle i t l TaskCanceled (with_status t Failed) None
| lc_timeout :
    is_terminal (tr_status t) = false ->
    lifecycle i t l TaskTimedOut (with_status t Failed) None
| lc_dead_letter reason :
    tr_status t = Running ->
    lifecycle i t l TaskDeadLettered
      (with_metadata t Failed (u32_saturating_add (tr_retry_count t) 1) true (Some reason)) None
| lc_retry :
    tr_status t = Running ->
    lifecycle i t l RecoveryAction
      (with_metadata t Pending (u32_saturating_add (tr_retry_count t) 1)
         (tr_dead_lettered t) (tr_dead_letter_reason t)) None
| lc_recover :
    lifecycle i t l RecoveryAction (with_status t (recovered_status (tr_status t))) None
| lc_note e legacy :
    from_keryx_event_type e = Some legacy ->
    is_valid_operational_legacy (tr_status t) legacy = true ->
    lifecycle i t l e t l
| lc_denied :
    tr_status t = Pending -> lifecycle i t l TaskFailed (with_status t Failed) None.

(** ** The store's state machine *)

Definition put_lease (i : TaskId) (l : option LeaseRecord) (s : InMemoryState) : InMemoryState :=
  match l with Some lease => set_lease i lease s | None => remove_lease i s end.

(** Record one lifecycle event of the task [i]. *)
Definition commit (i : TaskId) (from : TaskStatus) (e : KeryxEventType) (t' : TaskRecord)
    (l' : option LeaseRecord) (s : InMemoryState) : InMemoryState :=
  set_task i t' (append_in_memory_event i e (Some from) (tr_status t') (put_lease i l' s)).

Definition put_envelope (i : TaskId) (o : option TaskEnvelopeRecord) (s : InMemoryState) :=
  match o with Some e => set_envelope i e s | None => s end.
Definition put_context (i : TaskId) (o : option TaskTransportContextRecord) (s : InMemoryState) :=
  match o with Some c => set_context i c s | None => s end.

Definition accepted (t : TaskRecord) (e : option TaskEnvelopeRecord)
    (c : option TaskTransportContextRecord) (s : InMemoryState) : InMemoryState :=
  put_context (tr_id t) c (put_envelope (tr_id t) e (set_task (tr_id t) t
    (append_in_memory_event (tr_id t) TaskAccepted None (tr_status t)
      (set_idempotency_opt (tr_idempotency_key t) (tr_id t) s)))).

Definition put_result (i : TaskId) (r : TerminalResultRecord) (s : InMemoryState) : InMemoryState :=
  set_result i r
    match make_outbox r with
    | Some o => set_outbox (ob_delivery_id o) o s
    | None => s
    end.

Inductive step (s : InMemoryState) : InMemoryState -> Prop :=
| step_accept t e c :
    fresh_task t -> tr_status t = Pending -> tasks s !! tr_id t = None ->
    (forall k, tr_idempotency_key t = Some k -> idempotency s !! k = None) ->
    (forall env, e = Some env -> en_task_id env = tr_id t) ->
    (forall ctx, c = Some ctx -> tc_task_id ctx = tr_id t) ->
    step s (accepted t e c s)
| step_task i t e t' l' :
    tasks s !! i = Some t -> lifecycle i t (leases s !! i) e t' l' ->
    step s (commit i (tr_status t) e t' l' s)
| step_renew i t l exp :
    tasks s !! i = Some t -> tr_status t = Running -> leases s !! i = Some l ->
    lr_expires_at_ms l < exp -> step s (set_lease i (with_expiry l exp) s)
| step_context i t c :
    tasks s !! i = Some t -> tc_task_id c = i -> step s (set_context i c s)
| step_result i t r :
    tasks s !! i = Some t -> is_terminal (tr_status t) = true ->
    rs_task_id r = i -> terminal_results s !! i = None ->
    step s (put_result i r s)
| step_orphan_lease i :
    tasks s !! i = None -> step s (remove_lease i s).

Abbreviation steps := (rtc step).

(** ** Guards, as propositions *)

Lemma require_status_ok a b u : require_status a b = Ok u <-> a = b.
Proof. unfold require_status. destruct u. repeat case_bool_decide; try case_match; naive_solver. Qed.

Lemma ensure_matching_lease_id_ok i l lid u :
  ensure_matching_lease_id i l lid = Ok u <-> lr_lease_id l = lid.
Proof. unfold ensure_matching_lease_id. destruct u. case_bool_decide; naive_solver. Qed.

Lemma ensure_matching_worker_id_ok i l w u :
  ensure_matching_worker_id i l w = Ok u <-> lr_worker_id l = Some w.
Proof.
  unfold ensure_matching_worker_id. destruct u. case_match; [case_bool_decide|]; naive_solver.
Qed.

Lemma ensure_valid_lease_expiry_ok l now e u :
  ensure_valid_lease_expiry l now e = Ok u <->
  now < lr_expires_at_ms l /\ now < e /\ lr_expires_at_ms l < e.
Proof.
  unfold ensure_valid_lease_expiry. destruct u.
  destruct (_ && _) eqn:C; rewrite ?andb_true_iff, ?andb_false_iff, ?Z.ltb_lt, ?Z.ltb_ge in C;
    split; try done; lia.
Qed.

Lemma ensure_matching_task_id_ok i l u :
  ensure_matching_task_id i l = Ok u <-> lr_task_id l = i.
Proof. unfold ensure_matching_task_id. destruct u. case_bool_decide; naive_solver. Qed.

Lemma ensure_lease_has_owner_ok l u : ensure_lease_has_owner l = Ok u <-> is_Some (lr_worker_id l).
Proof. unfold ensure_lease_has_owner, is_Some. destruct u. case_match; naive_solver. Qed.

Lemma ensure_pending_accept_ok t u : ensure_pending_accept t = Ok u <-> tr_status t = Pending.
Proof. unfold ensure_pending_accept. destruct u. case_bool_decide; naive_solver. Qed.

Lemma validate_accepted_task_status_ok t u :
  validate_accepted_task_status t = Ok u <-> tr_status t = Pending.
Proof. unfold validate_accepted_task_status. destruct u. case_bool_decide; naive_solver. Qed.

Lemma ensure_matching_envelope_task_id_ok t e u :
  ensure_matching_envelope_task_id t e = Ok u <-> en_task_id e = tr_id t.
Proof.
  unfold ensure_matching_envelope_task_id. destruct u. case_bool_decide; naive_solver.
Qed.

Lemma ensure_context_task_ok c i u : ensure_context_task c i = Ok u <-> tc_task_id c = i.
Proof. unfold ensure_context_task. destruct u. case_bool_decide; naive_solver. Qed.

Lemma ensure_result_task_ok r i u :
  ensure_result_task r i = Ok u <-> is_terminal (rs_terminal_status r) = true /\ rs_task_id r = i.
Proof.
  unfold ensure_result_task, terminal_result_validate. destruct u.
  destruct (is_terminal _); simpl; [case_bool_decide|]; naive_solver.
Qed.

Lemma validate_deadline_transition_ok s u :
  validate_deadline_transition s = Ok u <-> is_terminal s = false.
Proof. destruct s, u; naive_solver. Qed.

Lemma store_transition_ok from to tr :
  store_transition from to = Ok tr <->
  (from = Pending /\ to = Running /\ tr = MkTransition Pending Running TaskStarted)
  \/ (from = Running /\ to = Completed /\ tr = MkTransition Running Completed TaskCompleted)
  \/ (from = Running /\ to = Failed /\ tr = MkTransition Running Failed TaskFailed).
Proof. destruct from, to; cbn; naive_solver. Qed.

Lemma store_cancel_transition_ok from tr :
  store_cancel_transition from = Ok tr <->
  is_terminal from = false /\ tr = MkTransition from Failed TaskCanceled.
Proof. destruct from; cbn; naive_solver. Qed.

#[export] Hint Rewrite require_status_ok ensure_matching_lease_id_ok
  ensure_matching_worker_id_ok ensure_valid_lease_expiry_ok ensure_matching_task_id_ok
  ensure_lease_has_owner_ok ensure_pending_accept_ok validate_accepted_task_status_ok
  ensure_matching_envelope_task_id_ok ensure_context_task_ok ensure_result_task_ok
  validate_deadline_transition_ok store_transition_ok store_cancel_transition_ok : keryx_inv.

(** Symbolic execution of a store operation, with the guards it passed turned
    into propositions. *)
Ltac op_inv H :=
  run_inv H;
  repeat match goal with
         | E : Err _ = Ok _ |- _ => discriminate E
         | E : Ok _ = ?r |- _ => symmetry in E
         end;
  autorewrite with keryx_inv in *; simplify_eq/=.

(** ** Every operation runs steps of the state machine *)

Lemma put_lease_id i s : put_lease i (leases s !! i) s = s.
Proof.
  destruct s as [ts es ids ls envs ctxs rs ob]; simpl. destruct (ls !! i) eqn:E; simpl.
  - unfold set_lease; simpl. by rewrite insert_id.
  - unfold remove_lease; simpl. by rewrite delete_id.
Qed.

Lemma put_lease_none i s : leases s !! i = None -> put_lease i None s = s.
Proof. intros H. rewrite <- H. apply put_lease_id. Qed.

Lemma set_task_id i t s : tasks s !! i = Some t -> set_task i t s = s.
Proof. destruct s; simpl; intros H. unfold set_task; simpl. by rewrite insert_id. Qed.

Lemma with_status_metadata t s :
  with_metadata t s (tr_retry_count t) (tr_dead_lettered t) (tr_dead_letter_reason t)
  = with_status t s.
Proof. done. Qed.

Lemma get_task_ok i s r s' :
  get_task i s = (r, s') ->
  s' = s /\ r = ok_or (tasks s !! i) (StoreError.TaskNotFound i).
Proof. intros H. unfold get_task in H. run_inv H. by simplify_eq. Qed.

Lemma find_lease_ok i s r s' :
  find_lease i s = (r, s') ->
  s' = s /\ r = ok_or (leases s !! i) (StoreError.LeaseNotFound i).
Proof. intros H. unfold find_lease in H. run_inv H. by simplify_eq. Qed.

(** Resolve the look-ups that [run_inv] leaves as runs of their own. *)
Ltac lookups :=
  repeat match goal with
         | E : find_task ?i ?s = _ |- _ => apply get_task_ok in E as [? E]; subst
         | E : get_task ?i ?s = _ |- _ => apply get_task_ok in E as [? E]; subst
         | E : find_lease ?i ?s = _ |- _ => apply find_lease_ok in E as [? E]; subst
         end.

Ltac op_run H :=
  run_inv H; lookups;
  repeat match goal with
         | E : Err _ = Ok _ |- _ => discriminate E
         | E : Ok _ = ?r |- _ => is_var r; subst r
         | E : Ok _ = ?r |- _ => symmetry in E
         end;
  autorewrite with keryx_inv in *; destruct_and?; simplify_eq/=.

(** *** The operations on one task

    [task_effect i s r s']: what a call about the task [i] may do in the
    state [s]. It fails and writes nothing; it finds the task as it should be
    and writes nothing; it commits one lifecycle event and returns the record
    it stored; or it finds the deadline passed, records that, and fails. *)
Inductive task_effect (i : TaskId) (s : InMemoryState)
    : StoreResult TaskRecord -> InMemoryState -> Prop :=
| te_err e : task_effect i s (Err e) s
| te_keep t : tasks s !! i = Some t -> task_effect i s (Ok t) s
| te_commit t e t' l' :
    tasks s !! i = Some t -> lifecycle i t (leases s !! i) e t' l' ->
    task_effect i s (Ok t') (commit i (tr_status t) e t' l' s)
| te_deadline t d at_ms :
    tasks s !! i = Some t -> leases s !! i = None ->
    is_terminal (tr_status t) = false -> tr_deadline_ms t = Some d -> d <= at_ms ->
    task_effect i s (Err (StoreError.TaskDeadlineExpired i d at_ms))
      (commit i (tr_status t) TaskTimedOut (with_status t Failed) None s).

Lemma task_effect_commit i s t e t' l' s' :
  tasks s !! i = Some t -> lifecycle i t (leases s !! i) e t' l' ->
  s' = commit i (tr_status t) e t' l' s -> task_effect i s (Ok t') s'.
Proof. intros ? ? ->. by eapply te_commit. Qed.

Lemma task_effect_deadline i s t d at_ms s' :
  tasks s !! i = Some t -> leases s !! i = None ->
  is_terminal (tr_status t) = false -> tr_deadline_ms t = Some d -> d <= at_ms ->
  s' = commit i (tr_status t) TaskTimedOut (with_status t Failed) None s ->
  task_effect i s (Err (StoreError.TaskDeadlineExpired i d at_ms)) s'.
Proof. intros ? ? ? ? ? ->. by eapply te_deadline. Qed.

Lemma task_effect_steps i s r s' : task_effect i s r s' -> steps s s'.
Proof.
  intros [|t|t e t' l' Ht Hl|t d at_ms Ht Hl Hs Hd Hat]; [apply rtc_refl|apply rtc_refl| |].
  - apply rtc_once. by eapply step_task.
  - apply rtc_once. eapply step_task; [done|]. by apply lc_timeout.
Qed.

Ltac commit_eq :=
  unfold commit; simpl; rewrite ?put_lease_id; simpl;
  repeat match goal with E : tr_status _ = _ |- _ => rewrite E end; simpl;
  rewrite ?set_task_id by done; reflexivity.

(** Close a run: it failed before writing, or it committed one event by the
    given lifecycle rule. *)
Ltac commits rule :=
  destruct_or?; destruct_and?; simplify_eq/=;
  try apply te_err;
  try (eapply task_effect_commit;
       [eassumption
       |first [apply rule; solve [eauto] | rewrite <- ?with_status_metadata; apply rule; solve [eauto]]
       |commit_eq]).

(** [worker_effect i lid w s r s']: a call in which the worker [w] reports on
    its lease [lid]. It changes the store only when that lease is the active
    one and names that worker, and then it ends the lease. *)
Inductive worker_effect (i : TaskId) (lid : LeaseId) (w : AgentId) (s : InMemoryState)
    : StoreResult TaskRecord -> InMemoryState -> Prop :=
| we_err e : worker_effect i lid w s (Err e) s
| we_commit t l e t' :
    tasks s !! i = Some t -> tr_status t = Running ->
    leases s !! i = Some l -> lr_lease_id l = lid -> lr_worker_id l = Some w ->
    lifecycle i t (Some l) e t' None ->
    worker_effect i lid w s (Ok t') (commit i Running e t' None s).

Lemma worker_effect_task i lid w s r s' : worker_effect i lid w s r s' -> task_effect i s r s'.
Proof.
  intros [|t l e t' Ht Hs Hl ? ? Hc]; [apply te_err|].
  rewrite <- Hs. eapply te_commit; [done|by rewrite Hl].
Qed.

Lemma worker_effect_commit i lid w s t l e t' s' :
  tasks s !! i = Some t -> tr_status t = Running ->
  leases s !! i = Some l -> lr_lease_id l = lid -> lr_worker_id l = Some w ->
  lifecycle i t (Some l) e t' None -> s' = commit i Running e t' None s ->
  worker_effect i lid w s (Ok t') s'.
Proof. intros ? ? ? ? ? ? ->. by eapply we_commit. Qed.

Ltac worker_commits rule :=
  destruct_or?; destruct_and?; simplify_eq/=;
  try apply we_err;
  try (eapply worker_effect_commit;
       [eassumption|eassumption|eassumption|reflexivity|eassumption
       |first [apply rule; solve [eauto] | rewrite <- ?with_status_metadata; apply rule; solve [eauto]]
       |commit_eq]).

Lemma retry_effect i w l t s r s' :
  tasks s !! i = Some t -> leases s !! i = Some l -> lr_worker_id l = Some w ->
  retry_task_in_state i l t s = (r, s') -> worker_effect i (lr_lease_id l) w s r s'.
Proof.
  intros Ht Hl Hw H. unfold retry_task_in_state in H. op_run H; worker_commits lc_retry.
Qed.

Lemma dead_letter_effect i w l t reason s r s' :
  tasks s !! i = Some t -> leases s !! i = Some l -> lr_worker_id l = Some w ->
  dead_letter_task_in_state i l t reason s = (r, s') ->
  worker_effect i (lr_lease_id l) w s r s'.
Proof.
  intros Ht Hl Hw H. unfold dead_letter_task_in_state in H.
  op_run H; worker_commits lc_dead_letter.
Qed.

(** [finish_task_in_state] as its callers use it. *)
Lemma finish_effect i lid w to dl reason t s r s' :
  tasks s !! i = Some t ->
  (to = Completed /\ dl = tr_dead_lettered t /\ reason = tr_dead_letter_reason t)
  \/ (to = Failed /\ ((dl = tr_dead_lettered t /\ reason = tr_dead_letter_reason t)
                      \/ (dl = false /\ reason = None))) ->
  finish_task_in_state i lid w to (tr_retry_count t) dl reason s = (r, s') ->
  worker_effect i lid w s r s'.
Proof.
  intros Ht Hto H. unfold finish_task_in_state in H.
  destruct Hto as [(-> & -> & ->)|(-> & Hdl)]; op_run H;
    worker_commits lc_complete; worker_commits lc_fail.
Qed.

Ltac finished H := eapply finish_effect; [eassumption| |exact H]; auto.

#[local] Hint Resolve we_err retry_effect dead_letter_effect : core.

Lemma complete_task_effect i lid w s r s' :
  complete_task i lid w s = (r, s') -> worker_effect i lid w s r s'.
Proof.
  intros H. unfold complete_task, finish_task in H. op_run H; [|auto]. finished H.
Qed.

Lemma fail_task_effect i lid w reason p s r s' :
  fail_task i lid w reason p s = (r, s') -> worker_effect i lid w s r s'.
Proof. intros H. unfold fail_task in H. op_run H; try solve [eauto|finished H]. Qed.

Lemma retry_task_effect i lid w s r s' :
  retry_task i lid w s = (r, s') -> worker_effect i lid w s r s'.
Proof. intros H. unfold retry_task in H. op_run H; eauto. Qed.

Lemma dead_letter_task_effect i lid w reason s r s' :
  dead_letter_task i lid w reason s = (r, s') -> worker_effect i lid w s r s'.
Proof. intros H. unfold dead_letter_task in H. op_run H; eauto. Qed.

Lemma transition_task_effect i to s r s' :
  transition_task i to s = (r, s') -> task_effect i s r s'.
Proof.
  intros H. unfold transition_task in H.
  op_run H; commits lc_start; commits lc_complete; commits lc_fail.
Qed.

Lemma cancel_task_effect i now s r s' :
  cancel_task i now s = (r, s') -> task_effect i s r s'.
Proof.
  intros H. unfold cancel_task in H.
  op_run H; eauto using te_keep; commits lc_cancel.
Qed.

Lemma lease_task_effect i l p s r s' :
  lease_task_with_peer_guard i l p s = (r, s') -> task_effect i s r s'.
Proof.
  intros H. unfold lease_task_with_peer_guard in H.
  op_run H; try apply te_err.
  - match goal with C : tr_deadline_ms ?t ≫= _ = Some ?d |- _ =>
      destruct (tr_deadline_ms t) as [d'|] eqn:Hd; simplify_eq/=
    end.
    case_match; simplify_eq. eapply task_effect_deadline; try done; [lia|].
    unfold commit. by rewrite put_lease_none.
  - destruct_or!; destruct_and!; simplify_eq/=.
    eapply task_effect_commit; [eassumption|apply lc_lease|commit_eq]; try done.
    intros d Hd. rewrite Hd in *. simplify_eq/=. case_match; [done|lia].
Qed.

Lemma plan_lifecycle_inv from e tr :
  plan_legacy_event_append from e = Ok (PlanLifecycle tr) ->
  tt_from tr = from /\
  ((from = Pending /\ tr = MkTransition Pending Running TaskStarted)
   \/ (from = Running /\ tr = MkTransition Running Completed TaskCompleted)
   \/ (from = Running /\ tr = MkTransition Running Failed TaskFailed)
   \/ (from = Pending /\ tr = MkTransition Pending Failed TaskFailed)).
Proof. destruct from, e; cbn; naive_solver. Qed.

Lemma plan_operational_inv from e e' st :
  plan_legacy_event_append from e = Ok (PlanOperational e' st) ->
  st = from /\ e' = as_keryx_event_type e /\ is_valid_operational_legacy from e = true.
Proof. destruct from, e; cbn; naive_solver. Qed.

Lemma as_from_keryx_event_type e a : from_keryx_event_type e = Some a -> as_keryx_event_type a = e.
Proof. destruct e; naive_solver. Qed.

Lemma legacy_effect i e s r s' :
  accept_legacy_event i e s = (r, s') -> task_effect i s r s'.
Proof.
  intros H. unfold accept_legacy_event in H. op_run H; try apply te_err.
  all: match goal with
       | E : plan_legacy_event_append _ _ = Ok (PlanLifecycle _) |- _ =>
           apply plan_lifecycle_inv in E as (? & [[? ->]|[[? ->]|[[? ->]|[? ->]]]]); simplify_eq/=;
           first [commits lc_complete; fail | commits lc_fail; fail | commits lc_denied; fail
                 | commits lc_start; fail]
       | E : plan_legacy_event_append _ _ = Ok (PlanOperational _ _) |- _ =>
           apply plan_operational_inv in E as (-> & -> & ?)
       end.
  match goal with E : from_keryx_event_type _ = Some _ |- _ =>
    rewrite (as_from_keryx_event_type _ _ E) in *;
    eapply task_effect_commit; [eassumption|by eapply lc_note|]
  end.
  commit_eq.
Qed.

(** *** Accepting a task and storing its context *)

(** The checks [idempotent_hit] did not report are the ones [step_accept]
    asks for. *)
Lemma no_hit_fresh_key t s k :
  idempotent_hit t s = None -> tr_idempotency_key t = Some k -> idempotency s !! k = None.
Proof. unfold idempotent_hit. intros H Hk. rewrite Hk in H. by case_match. Qed.

Ltac accepts :=
  lazymatch goal with
  | |- steps ?s ?s => apply rtc_refl
  | |- steps ?s ?s' => apply rtc_once
  end.

Lemma accept_task_steps t s r s' :
  fresh_task t -> accept_task t s = (r, s') -> steps s s'.
Proof.
  intros Hf H. unfold accept_task in H. op_run H; accepts.
  apply (step_accept _ _ None None); try done; eauto using no_hit_fresh_key.
Qed.

Lemma accept_task_with_envelope_steps t e s r s' :
  fresh_task t -> accept_task_with_envelope t e s = (r, s') -> steps s s'.
Proof.
  intros Hf H. unfold accept_task_with_envelope in H. op_run H; accepts.
  apply (step_accept _ _ (Some e) None); try done; eauto using no_hit_fresh_key.
  by intros ? [= <-].
Qed.

Lemma accept_task_with_context_steps t e c s r s' :
  fresh_task t -> accept_task_with_envelope_and_context t e c s = (r, s') -> steps s s'.
Proof.
  intros Hf H. unfold accept_task_with_envelope_and_context in H. op_run H; accepts.
  - by eapply step_context.
  - apply (step_accept _ _ (Some e) (Some c)); try done; try by intros ? [= <-].
    intros k Hk. match goal with C : _ ≫= _ = None |- _ => rewrite Hk in C; simpl in C end.
    by destruct (idempotency _ !! k).
Qed.

Lemma put_transport_context_steps c s r s' :
  put_transport_context c s = (r, s') -> steps s s'.
Proof.
  intros H. unfold put_transport_context in H. op_run H; accepts. by eapply step_context.
Qed.

Lemma renew_lease_steps i lid w now e s r s' :
  renew_lease i lid w now e s = (r, s') -> steps s s'.
Proof.
  intros H. unfold renew_lease in H. op_run H; accepts.
  eapply step_renew; [eassumption|done|eassumption|lia].
Qed.

(** *** Operations that store a terminal result *)

(** [result_effect i res s r s']: a call that reports the result [res] of the
    task [i]. The result is stored exactly when the same call takes the task
    to a terminal status. *)
Inductive result_effect (i : TaskId) (res : TerminalResultRecord) (s : InMemoryState)
    : StoreResult TaskRecord -> InMemoryState -> Prop :=
| re_err e : result_effect i res s (Err e) s
| re_again t :
    terminal_results s !! i = Some res -> tasks s !! i = Some t ->
    result_effect i res s (Ok t) s
| re_requeued t e t' :
    terminal_results s !! i = None ->
    tasks s !! i = Some t -> lifecycle i t (leases s !! i) e t' None ->
    is_terminal (tr_status t') = false ->
    result_effect i res s (Ok t') (commit i (tr_status t) e t' None s)
| re_stored t e t' :
    terminal_results s !! i = None ->
    rs_task_id res = i -> is_terminal (rs_terminal_status res) = true ->
    tasks s !! i = Some t -> is_terminal (tr_status t) = false ->
    lifecycle i t (leases s !! i) e t' None -> is_terminal (tr_status t') = true ->
    result_effect i res s (Ok t') (put_result i res (commit i (tr_status t) e t' None s)).

Lemma put_result_tasks i r s : tasks (put_result i r s) = tasks s.
Proof. unfold put_result. by destruct (make_outbox r). Qed.

Lemma store_result_run i res s :
  store_result i res s = (Ok tt, put_result i res s).
Proof. unfold store_result, put_result, bind. by destruct (make_outbox res). Qed.

Lemma store_result_inv i res s r s' :
  store_result i res s = (r, s') -> r = Ok tt /\ s' = put_result i res s.
Proof. rewrite store_result_run. naive_solver. Qed.

Lemma existing_result_none i res s : existing_result i res s = None -> terminal_results s !! i = None.
Proof. unfold existing_result. by case_match. Qed.

Lemma existing_result_effect i res s r :
  existing_result i res s = Some r -> result_effect i res s r s.
Proof.
  unfold existing_result. case_match; [|done]. intros [= <-].
  case_bool_decide; [subst|apply re_err].
  destruct (tasks s !! i) eqn:E; [by apply re_again|apply re_err].
Qed.

(** A worker's report followed by storing its result. *)
Lemma worker_result_effect i lid w res s t s1 :
  terminal_results s !! i = None ->
  rs_task_id res = i -> is_terminal (rs_terminal_status res) = true ->
  worker_effect i lid w s (Ok t) s1 -> is_terminal (tr_status t) = true ->
  result_effect i res s (Ok t) (put_result i res s1).
Proof.
  intros Hn Hi Hr Hw Ht. inversion Hw as [|t0 l e t' Ht0 Hs Hl ? ? Hc]; subst.
  rewrite <- Hs. eapply re_stored; try done; [by rewrite Hs|by rewrite Hl].
Qed.

Lemma finish_terminal i lid w to n dl reason s t s' :
  is_terminal to = true -> finish_task_in_state i lid w to n dl reason s = (Ok t, s') ->
  is_terminal (tr_status t) = true.
Proof. intros Hto H. unfold finish_task_in_state in H. op_run H; done. Qed.

Lemma dead_letter_terminal i l t reason s t' s' :
  dead_letter_task_in_state i l t reason s = (Ok t', s') -> is_terminal (tr_status t') = true.
Proof. intros H. unfold dead_letter_task_in_state in H. op_run H; done. Qed.

Lemma retry_pending i l t s t' s' :
  retry_task_in_state i l t s = (Ok t', s') -> tr_status t' = Pending.
Proof. intros H. unfold retry_task_in_state in H. op_run H; done. Qed.

Lemma worker_effect_err i lid w s e s' : worker_effect i lid w s (Err e) s' -> s' = s.
Proof. by inversion 1. Qed.

(** Settle a run of a [..._with_result] operation. *)
Ltac result_cases :=
  repeat match goal with
         | E : store_result _ _ _ = _ |- _ =>
             apply store_result_inv in E as [? ?]; simplify_eq
         end;
  first
    [ apply re_err
    | match goal with E : existing_result _ _ _ = Some _ |- _ =>
        exact (existing_result_effect _ _ _ _ E) end
    | match goal with
      | E : finish_task_in_state _ _ _ _ _ _ _ _ = (Err _, _) |- _ =>
          eapply finish_effect in E; [apply worker_effect_err in E as ->; apply re_err|eassumption|by auto]
      | E : dead_letter_task_in_state _ _ _ _ _ = (Err _, _) |- _ =>
          eapply dead_letter_effect in E; try eassumption;
          apply worker_effect_err in E as ->; apply re_err
      end
    | eapply worker_result_effect;
      [by eapply existing_result_none|done|done
      |first [eapply finish_effect; [eassumption| |eassumption]; by auto
             |eapply dead_letter_effect; eassumption]
      |first [eapply finish_terminal; [|eassumption]; done|eapply dead_letter_terminal; eassumption]] ].

Lemma complete_task_with_result_effect i lid w res s r s' :
  complete_task_with_result i lid w res s = (r, s') -> result_effect i res s r s'.
Proof.
  intros H. unfold complete_task_with_result in H. op_run H; result_cases.
Qed.

Lemma fail_task_with_result_effect i lid w reason p res s r s' :
  fail_task_with_result i lid w reason p res s = (r, s') -> result_effect i res s r s'.
Proof.
  intros H. unfold fail_task_with_result in H. op_run H; try result_cases.
  destruct r as [t'|e].
  - pose proof (retry_pending _ _ _ _ _ _ H) as Hp.
    eapply retry_effect in H; try eassumption. inversion H as [|? ? ? ? ? Hs]; simplify_eq.
    rewrite <- Hs. eapply re_requeued; try done.
    + by eapply existing_result_none.
    + by match goal with Hl : leases _ !! _ = _ |- _ => rewrite Hl end.
    + by rewrite Hp.
  - eapply retry_effect in H; try eassumption. apply worker_effect_err in H as ->. apply re_err.
Qed.

Lemma cancel_task_with_result_effect i lid w now res s r s' :
  cancel_task_with_result i lid w now res s = (r, s') -> result_effect i res s r s'.
Proof.
  intros H. unfold cancel_task_with_result in H. op_run H; try result_cases.
  all: match goal with E : store_result _ _ _ = _ |- _ => apply store_result_inv in E as [_ ->] end.
  all: eapply (re_stored _ _ _ _ TaskCanceled); try done; by apply lc_cancel.
Qed.

Lemma result_effect_steps i res s r s' : result_effect i res s r s' -> steps s s'.
Proof.
  intros [|t|t e t' _ Ht Hl _|t e t' Hn Hi Hr Ht Hs Hl Ht']; try apply rtc_refl.
  - apply rtc_once. by eapply step_task.
  - eapply rtc_l; [by eapply step_task|]. apply rtc_once.
    eapply step_result; [|exact Ht'|done|done]. simpl. by simplify_map_eq.
Qed.

(** *** The sweeping operations *)

Lemma for_collect_steps {A B} (body : A -> M (list B)) :
  (forall a s r s', body a s = (r, s') -> steps s s') ->
  forall l s r s', for_collect body l s = (r, s') -> steps s s'.
Proof.
  intros Hb l. induction l as [|a l IH]; intros s r s' H; simpl in H.
  - run_inv H. apply rtc_refl.
  - run_inv H; try (etrans; [by eapply Hb|]); by eauto.
Qed.

Lemma fail_deadline_steps x s r s' : fail_deadline x s = (r, s') -> steps s s'.
Proof.
  intros H. unfold fail_deadline in H. op_run H; try apply rtc_refl.
  apply rtc_once. match goal with E : tasks s !! _ = Some ?t |- _ =>
    apply (step_task _ _ t TaskTimedOut (with_status t Failed) None) end; [done|by apply lc_timeout].
Qed.

Lemma recover_lease_steps l s r s' : recover_lease l s = (r, s') -> steps s s'.
Proof.
  intros H. unfold recover_lease in H. op_run H; apply rtc_once.
  - match goal with E : tasks s !! _ = Some ?t |- _ =>
      apply (step_task _ _ t RecoveryAction (with_status t (recovered_status (tr_status t))) None)
    end; [done|apply lc_recover].
  - by apply step_orphan_lease.
Qed.

#[local] Hint Resolve task_effect_steps worker_effect_task result_effect_steps
  accept_task_steps accept_task_with_envelope_steps accept_task_with_context_steps
  put_transport_context_steps renew_lease_steps lease_task_effect legacy_effect
  complete_task_effect fail_task_effect retry_task_effect dead_letter_task_effect
  cancel_task_effect transition_task_effect cancel_task_with_result_effect
  complete_task_with_result_effect fail_task_with_result_effect : steps.

Lemma fail_expired_deadlines_steps now n s r s' :
  fail_expired_deadlines now n s = (r, s') -> steps s s'.
Proof.
  intros H. unfold fail_expired_deadlines in H. run_inv H.
  eapply for_collect_steps; [|exact H]. apply fail_deadline_steps.
Qed.

Lemma recover_stale_leases_steps now n s r s' :
  recover_stale_leases now n s = (r, s') -> steps s s'.
Proof.
  intros H. unfold recover_stale_leases in H. run_inv H.
  all: eapply for_collect_steps; [|eassumption]; apply recover_lease_steps.
Qed.

Lemma reply_inv {S A} (f : A -> Reply) (m : ST S StoreError A) s r s' :
  reply f m s = (r, s') -> exists r0, m s = (r0, s') /\ r = result_map f r0.
Proof. unfold reply. intros H. run_inv H; eauto. Qed.

Definition is_query (op : Op) : bool :=
  match op with
  | OpGet _ | OpGetEnvelope _ | OpPendingEnvelopes _ | OpClaimable _ _ | OpCount _
  | OpEvents _ | OpReplay _ | OpActiveLease _ | OpGetContext _ | OpGetResult _ => true
  | _ => false
  end.

Lemma query_readonly op s r s' : is_query op = true -> run_op op s = (r, s') -> s' = s.
Proof.
  intros Hq H. destruct op; try discriminate Hq; simpl in H; apply reply_inv in H as (q & H & _);
    unfold get_task, get_task_envelope, get_terminal_result, get_transport_context,
      events_for_task, replay_task, count_tasks_by_status, active_lease,
      pending_task_envelopes, claimable_pending_task_envelopes in H;
    op_run H; done.
Qed.

Lemma run_op_steps op s r s' : op_fresh op -> run_op op s = (r, s') -> steps s s'.
Proof.
  intros Hf H. destruct (is_query op) eqn:Hq.
  { rewrite (query_readonly _ _ _ _ Hq H). apply rtc_refl. }
  destruct op; try discriminate Hq; simpl in H, Hf; apply reply_inv in H as (q & H & _);
    eauto using fail_expired_deadlines_steps, recover_stale_leases_steps with steps.
Qed.

Lemma run_ops_steps ops s rs s' : Forall op_fresh ops -> run_ops ops s = (rs, s') -> steps s s'.
Proof.
  intros Hf. revert s rs. induction Hf as [|op ops Ho _ IH]; intros s rs H; simpl in H.
  - simplify_eq. apply rtc_refl.
  - destruct (run_op op s) as [r s1] eqn:E1. destruct (run_ops ops s1) as [rs' s2] eqn:E2.
    simplify_eq. etrans; [by eapply run_op_steps|by eapply IH].
Qed.
