(* ===== verification/MemInv.v ===== *)
(** * Invariants of the in-memory store

    [Inv] holds in every state that the operations of the store reach from
    [empty_state]; the safety properties are consequences of it and of the
    step relation of MemSpec. *)
From S2P Require Import Prelude Ident Lifecycle StoreModel Api MemStore MemSpec.
From stdpp Require Import options.

(** ** Well-formed event logs *)

(** The event by which [accept_legacy_event] records that approval was denied:
    a pending task fails without having run. *)
Definition denied_event (e : TaskEventRecord) : bool :=
  bool_decide (ev_event_type e = TaskFailed) && bool_decide (ev_from_status e = Some Pending).

Definition denied (evs : list TaskEventRecord) : bool := existsb denied_event evs.

(** [log_ok i t evs]: [evs] is the log of the task [i], now recorded as [t].
    Its events are numbered from 1 and belong to [i], it ends in the task's
    status, and replaying it gives back the task's status and dead-letter
    flag, unless it holds a denial. *)
Record log_ok (i : TaskId) (t : TaskRecord) (evs : list TaskEventRecord) : Prop := {
  log_numbered : forall n e, evs !! n = Some e ->
    ev_sequence e = Z.of_nat n + 1 /\ ev_task_id e = i;
  log_last : ev_to_status <$> last evs = Some (tr_status t);
  log_replay : replay_status i evs =
    if denied evs then None else Some (tr_status t, tr_dead_lettered t);
}.

Record Inv (s : InMemoryState) : Prop := {
  inv_id i t : tasks s !! i = Some t -> tr_id t = i;
  inv_retry i t : tasks s !! i = Some t -> in_u32 (tr_retry_count t);
  inv_dead i t : tasks s !! i = Some t -> tr_dead_lettered t = true ->
    tr_status t = Failed /\ 1 <= tr_retry_count t;
  inv_reason i t : tasks s !! i = Some t -> tr_dead_lettered t = false ->
    tr_dead_letter_reason t = None;
  inv_lease i l : leases s !! i = Some l ->
    lr_task_id l = i /\ is_Some (lr_worker_id l)
    /\ exists t, tasks s !! i = Some t /\ tr_status t = Running;
  inv_key k i : idempotency s !! k = Some i <->
    exists t, tasks s !! i = Some t /\ tr_idempotency_key t = Some k;
  inv_envelope i e : envelopes s !! i = Some e ->
    en_task_id e = i /\ is_Some (tasks s !! i);
  inv_context i c : transport_contexts s !! i = Some c ->
    tc_task_id c = i /\ is_Some (tasks s !! i);
  inv_result i r : terminal_results s !! i = Some r ->
    rs_task_id r = i
    /\ exists t, tasks s !! i = Some t /\ is_terminal (tr_status t) = true;
  inv_outbox k o : result_outbox s !! k = Some o <->
    exists r, terminal_results s !! ob_task_id o = Some r
              /\ make_outbox r = Some o /\ k = ob_delivery_id o;
  inv_events i : is_Some (events s !! i) <-> is_Some (tasks s !! i);
  inv_log i t evs : tasks s !! i = Some t -> events s !! i = Some evs -> log_ok i t evs;
}.

(** ** Logs grow by replayable events *)

Lemma replay_events_app i n st dead evs evs' :
  replay_events i n st dead (evs ++ evs') =
  match replay_events i n st dead evs with
  | Some (st', dead') => replay_events i (n + length evs) st' dead' evs'
  | None => None
  end.
Proof.
  revert n st dead. induction evs as [|e evs IH]; intros n st dead; simpl.
  - by rewrite Nat.add_0_r.
  - destruct (replay_event i n st dead e) as [[st' dead']|]; [|done].
    by rewrite IH, Nat.add_succ_r.
Qed.

Lemma replay_status_snoc i evs e :
  evs <> [] ->
  replay_status i (evs ++ [e]) =
  match replay_status i evs with
  | Some (st, dead) => replay_event i (length evs) st dead e
  | None => None
  end.
Proof.
  destruct evs as [|f evs]; [done|]. intros _. simpl.
  destruct (_ || _); [done|]. rewrite replay_events_app. simpl.
  destruct (replay_events _ _ _ _ evs) as [[st dead]|]; [|done]. simpl.
  by destruct (replay_event _ _ _ _ _) as [[? ?]|].
Qed.

(** Each lifecycle event replays to the state it leads to; the denial is the
    one that does not. *)
Lemma lifecycle_replays i t l e t' l' n :
  lifecycle i t l e t' l' ->
  (tr_dead_lettered t = true -> tr_status t = Failed) ->
  let ev := MkEvent i (Z.of_nat n + 1) e (Some (tr_status t)) (tr_status t') in
  replay_event i n (tr_status t) (tr_dead_lettered t) ev =
  if denied_event ev then None else Some (tr_status t', tr_dead_lettered t').
Proof.
  intros H Hd ev. unfold ev, replay_event, denied_event; simpl.
  rewrite !bool_decide_true by done. simpl.
  destruct H as [lease Hs|Hs|Hs|dl reason Hs Hdl|Hs|Hs|reason Hs|Hs| |e legacy Hl Hv|Hs]; simpl.
  all: try (rewrite Hs; simpl in *; try done).
  - destruct Hdl as [[-> _]|[-> _]]; [done|]. destruct (tr_dead_lettered t); [by rewrite Hd in Hs|done].
  - by destruct (tr_status t).
  - by destruct (tr_status t).
  - by rewrite bool_decide_true.
  - destruct (tr_status t), e; simpl in *; simplify_eq/=; done.
Qed.

(** What a lifecycle event leaves alone, and how it moves the rest. *)
Lemma lifecycle_record i t l e t' l' :
  lifecycle i t l e t' l' ->
  tr_id t' = tr_id t /\ tr_idempotency_key t' = tr_idempotency_key t
  /\ tr_deadline_ms t' = tr_deadline_ms t
  /\ (tr_retry_count t' = tr_retry_count t
      \/ tr_retry_count t' = u32_saturating_add (tr_retry_count t) 1).
Proof. destruct 1; naive_solver. Qed.

Lemma lifecycle_dead i t l e t' l' :
  lifecycle i t l e t' l' -> in_u32 (tr_retry_count t) ->
  (tr_dead_lettered t = true -> tr_status t = Failed /\ 1 <= tr_retry_count t) ->
  tr_dead_lettered t' = true -> tr_status t' = Failed /\ 1 <= tr_retry_count t'.
Proof.
  intros H Hr Hd Ht'. destruct H; simpl in *;
    try (destruct (Hd Ht') as [Hf Hn]; rewrite ?Hf in *; naive_solver).
  - destruct_or?; destruct_and?; simplify_eq. destruct (Hd Ht') as [Hf ?]. by rewrite Hf in *.
  - split; [done|]. unfold_ints. lia.
Qed.

Lemma lifecycle_reason i t l e t' l' :
  lifecycle i t l e t' l' ->
  (tr_dead_lettered t = false -> tr_dead_letter_reason t = None) ->
  tr_dead_lettered t' = false -> tr_dead_letter_reason t' = None.
Proof. destruct 1; simpl; naive_solver. Qed.

Lemma lifecycle_lease i t l e t' l' :
  lifecycle i t l e t' l' ->
  (forall le, l = Some le -> tr_status t = Running) ->
  forall le, l' = Some le ->
    tr_status t' = Running /\ (l = Some le \/ lr_task_id le = i /\ is_Some (lr_worker_id le)).
Proof. intros H Hl le Hl'. destruct H; naive_solver. Qed.

(** A terminal record never changes. *)
Lemma lifecycle_terminal i t l e t' l' :
  lifecycle i t l e t' l' -> is_terminal (tr_status t) = true -> t' = t.
Proof.
  intros H Ht. destruct H; try (by destruct (tr_status t)); [].
  destruct t as [? [] ? ? ? ? ?]; try done.
Qed.

Lemma log_ok_nonempty i t evs : log_ok i t evs -> evs <> [].
Proof. intros [_ H _] ->. done. Qed.

Lemma log_ok_first i t :
  tr_status t = Pending -> tr_dead_lettered t = false ->
  log_ok i t [MkEvent i 1 TaskAccepted None Pending].
Proof.
  intros Hs Hd. split.
  - intros [|n] e H; simplify_eq/=. done.
  - by rewrite Hs.
  - simpl. rewrite !bool_decide_true by done. by rewrite Hs, Hd.
Qed.

Lemma log_ok_snoc i t l e t' l' evs :
  log_ok i t evs -> lifecycle i t l e t' l' ->
  (tr_dead_lettered t = true -> tr_status t = Failed) ->
  log_ok i t' (evs ++ [MkEvent i (Z.of_nat (length evs) + 1) e (Some (tr_status t)) (tr_status t')]).
Proof.
  intros Hlog Hl Hd. pose proof (log_ok_nonempty _ _ _ Hlog) as Hne.
  destruct Hlog as [Hn Hlast Hr]. split.
  - intros n ev [H|[Hge H]]%lookup_app_Some; [by apply Hn|].
    apply list_lookup_singleton_Some in H as [Hz <-]. simpl. split; [lia|done].
  - by rewrite last_snoc.
  - rewrite replay_status_snoc by done. rewrite Hr. unfold denied in *. rewrite existsb_app.
    destruct (existsb denied_event evs); [done|]. simpl. rewrite orb_false_r.
    apply (lifecycle_replays i t l e t' l' (length evs) Hl Hd).
Qed.

(** ** The initial state and the steps keep the invariant *)

Lemma Inv_empty : Inv empty_state.
Proof.
  split; simpl; intros *; rewrite ?lookup_empty; try done.
  all: naive_solver.
Qed.

Lemma commit_tasks i st e t' l' s : tasks (commit i st e t' l' s) = <[i := t']> (tasks s).
Proof. by destruct l'. Qed.

Lemma commit_events i st e t' l' s :
  let old := default [] (events s !! i) in
  events (commit i st e t' l' s) =
  <[i := old ++ [MkEvent i (Z.of_nat (length old) + 1) e (Some st) (tr_status t')]]> (events s).
Proof. by destruct l'. Qed.

Lemma commit_leases i st e t' l' s :
  leases (commit i st e t' l' s) = partial_alter (fun _ => l') i (leases s).
Proof. by destruct l'. Qed.

Lemma commit_idempotency i st e t' l' s : idempotency (commit i st e t' l' s) = idempotency s.
Proof. by destruct l'. Qed.
Lemma commit_envelopes i st e t' l' s : envelopes (commit i st e t' l' s) = envelopes s.
Proof. by destruct l'. Qed.
Lemma commit_contexts i st e t' l' s :
  transport_contexts (commit i st e t' l' s) = transport_contexts s.
Proof. by destruct l'. Qed.
Lemma commit_results i st e t' l' s :
  terminal_results (commit i st e t' l' s) = terminal_results s.
Proof. by destruct l'. Qed.
Lemma commit_outbox i st e t' l' s : result_outbox (commit i st e t' l' s) = result_outbox s.
Proof. by destruct l'. Qed.

#[export] Hint Rewrite commit_tasks commit_events commit_leases commit_idempotency
  commit_envelopes commit_contexts commit_results commit_outbox : commit.

Lemma Inv_commit s i t e t' l' :
  Inv s -> tasks s !! i = Some t -> lifecycle i t (leases s !! i) e t' l' ->
  Inv (commit i (tr_status t) e t' l' s).
Proof.
  intros HI Ht Hl.
  destruct (lifecycle_record _ _ _ _ _ _ Hl) as (Hid & Hkey & _ & Hretry).
  assert (Hsome : forall j, is_Some (<[i := t']> (tasks s) !! j) <-> is_Some (tasks s !! j)).
  { intros j. rewrite lookup_insert_is_Some. destruct (decide (i = j)) as [<-|]; naive_solver. }
  split; autorewrite with commit; cbv zeta.
  - intros j u [[<- <-]|[Hj Hu]]%lookup_insert_Some; [|by eapply inv_id].
    rewrite Hid. by eapply inv_id.
  - intros j u [[<- <-]|[Hj Hu]]%lookup_insert_Some; [|by eapply inv_retry].
    pose proof (inv_retry _ HI _ _ Ht). destruct Hretry as [->| ->]; [done|].
    apply u32_saturating_add_range; [done|]. by unfold_ints.
  - intros j u [[<- <-]|[Hj Hu]]%lookup_insert_Some; [|by eapply inv_dead].
    eapply lifecycle_dead; [done|by eapply inv_retry|by eapply inv_dead].
  - intros j u [[<- <-]|[Hj Hu]]%lookup_insert_Some; [|by eapply inv_reason].
    eapply lifecycle_reason; [done|by eapply inv_reason].
  - intros j le. destruct (decide (i = j)) as [<-|Hj].
    + rewrite lookup_partial_alter_eq, lookup_insert_eq. intros Hle.
      destruct (lifecycle_lease _ _ _ _ _ _ Hl) with le as (Hs & Hor); [|done|].
      { intros le' Hle'. destruct (inv_lease _ HI _ _ Hle') as (_ & _ & u & Hu & Hs). congruence. }
      destruct Hor as [Hle'|[? ?]]; [|naive_solver].
      destruct (inv_lease _ HI _ _ Hle') as (? & ? & _). eauto.
    + rewrite lookup_partial_alter_ne, lookup_insert_ne by done. by apply inv_lease.
  - intros k j. rewrite (inv_key _ HI). destruct (decide (i = j)) as [<-|Hj].
    + rewrite lookup_insert_eq, Ht. split; intros (u & [= <-] & Hu); eexists; (split; [done|]); congruence.
    + by rewrite lookup_insert_ne.
  - intros j en Hen. rewrite Hsome. by apply inv_envelope.
  - intros j c Hc. rewrite Hsome. by apply inv_context.
  - intros j r Hr. destruct (inv_result _ HI _ _ Hr) as (? & u & Hu & Hs). split; [done|].
    destruct (decide (i = j)) as [<-|Hj]; [|rewrite lookup_insert_ne by done; eauto].
    rewrite lookup_insert_eq. simplify_eq. eexists; split; [done|].
    by rewrite (lifecycle_terminal _ _ _ _ _ _ Hl).
  - apply (inv_outbox _ HI).
  - intros j. rewrite Hsome, lookup_insert_is_Some, (inv_events _ HI).
    destruct (decide (i = j)) as [<-|]; naive_solver.
  - intros j u evs. destruct (decide (i = j)) as [<-|Hj].
    + rewrite !lookup_insert_eq. intros [= <-] [= <-].
      destruct (proj2 (inv_events _ HI i)) as [old Hold]; [by eexists|]. rewrite Hold. simpl.
      eapply log_ok_snoc; [by eapply inv_log|done|]. intros Hd. by eapply inv_dead.
    + rewrite !lookup_insert_ne by done. by apply inv_log.
Qed.

Lemma make_outbox_inv r o :
  make_outbox r = Some o ->
  ob_task_id o = rs_task_id r /\ ob_delivery_id o = delivery_id (rs_task_id r).
Proof. unfold make_outbox. destruct (rs_return_peer_id r); naive_solver. Qed.

#[export] Instance delivery_id_inj : Inj (=) (=) delivery_id.
Proof. intros i j H. apply Id_eq. by apply (inj (String.app "result-")) in H. Qed.

Lemma Inv_put_result s i t r :
  Inv s -> tasks s !! i = Some t -> is_terminal (tr_status t) = true ->
  rs_task_id r = i -> terminal_results s !! i = None -> Inv (put_result i r s).
Proof.
  intros HI Ht Hs Hi Hn.
  assert (E : put_result i r s =
    MkMem (tasks s) (events s) (idempotency s) (leases s) (envelopes s) (transport_contexts s)
      (<[i := r]> (terminal_results s))
      (match make_outbox r with
       | Some o => <[ob_delivery_id o := o]> (result_outbox s) | None => result_outbox s end)).
  { unfold put_result. by destruct (make_outbox r). }
  rewrite E. clear E. split; simpl; try apply HI.
  - intros j q [[<- <-]|[Hj Hq]]%lookup_insert_Some; [eauto|by apply inv_result].
  - intros k o. destruct (decide (ob_task_id o = i)) as [Ho|Ho].
    + rewrite Ho, lookup_insert_eq.
      assert (Hnew : forall k', result_outbox s !! k' = Some o -> False).
      { intros k' Hk. apply (inv_outbox _ HI) in Hk as (q & Hq & _). congruence. }
      destruct (make_outbox r) as [o'|] eqn:Ho'.
      * rewrite lookup_insert_Some. naive_solver.
      * split; [by intros ?%Hnew|naive_solver].
    + rewrite lookup_insert_ne by done. rewrite <- (inv_outbox _ HI).
      destruct (make_outbox r) as [o'|] eqn:Ho'; [|done].
      destruct (make_outbox_inv _ _ Ho') as [Hid Hdid].
      rewrite lookup_insert_Some. split; [naive_solver|]. intros Hk. right. split; [|done].
      intros <-. apply (inv_outbox _ HI) in Hk as (q & Hq & Hmk & Hdk).
      destruct (make_outbox_inv _ _ Hmk) as [Hid' Hdid']. rewrite Hdid, Hdid' in Hdk.
      apply (inj delivery_id) in Hdk. congruence.
Qed.

Lemma no_task_no_log s i : Inv s -> tasks s !! i = None -> events s !! i = None.
Proof.
  intros HI Hn. apply eq_None_not_Some. rewrite (inv_events _ HI), Hn. by intros [? ?].
Qed.

Lemma accepted_eq s t e c :
  Inv s -> tr_status t = Pending -> tasks s !! tr_id t = None ->
  accepted t e c s =
    MkMem (<[tr_id t := t]> (tasks s))
      (<[tr_id t := [MkEvent (tr_id t) 1 TaskAccepted None Pending]]> (events s))
      (match tr_idempotency_key t with
       | Some k => <[k := tr_id t]> (idempotency s) | None => idempotency s end)
      (leases s)
      (match e with Some en => <[tr_id t := en]> (envelopes s) | None => envelopes s end)
      (match c with
       | Some ctx => <[tr_id t := ctx]> (transport_contexts s)
       | None => transport_contexts s end)
      (terminal_results s) (result_outbox s).
Proof.
  intros HI Hs Hn. pose proof (no_task_no_log _ _ HI Hn) as Hev.
  unfold accepted, append_in_memory_event, set_idempotency_opt.
  rewrite Hs. destruct (tr_idempotency_key t), e, c; simpl; by rewrite Hev.
Qed.

Lemma Inv_accepted s t e c :
  Inv s -> fresh_task t -> tr_status t = Pending -> tasks s !! tr_id t = None ->
  (forall k, tr_idempotency_key t = Some k -> idempotency s !! k = None) ->
  (forall env, e = Some env -> en_task_id env = tr_id t) ->
  (forall ctx, c = Some ctx -> tc_task_id ctx = tr_id t) ->
  Inv (accepted t e c s).
Proof.
  intros HI (Hd & Hreason & Hr) Hs Hn Hk He Hc.
  rewrite (accepted_eq _ _ _ _ HI Hs Hn).
  assert (Hother : forall j u, tasks s !! j = Some u -> <[tr_id t := t]> (tasks s) !! j = Some u).
  { intros j u Hu. rewrite lookup_insert_ne; [done|]. congruence. }
  split; simpl.
  - intros j u [[<- <-]|[Hj Hu]]%lookup_insert_Some; [done|by eapply inv_id].
  - intros j u [[<- <-]|[Hj Hu]]%lookup_insert_Some; [done|by eapply inv_retry].
  - intros j u [[<- <-]|[Hj Hu]]%lookup_insert_Some; [congruence|by eapply inv_dead].
  - intros j u [[<- <-]|[Hj Hu]]%lookup_insert_Some; [done|by eapply inv_reason].
  - intros j l Hl. destruct (inv_lease _ HI _ _ Hl) as (? & ? & u & ? & ?). eauto 6.
  - intros k j. transitivity (tr_idempotency_key t = Some k /\ tr_id t = j
      \/ exists u, tasks s !! j = Some u /\ tr_idempotency_key u = Some k).
    + rewrite <- (inv_key _ HI). destruct (tr_idempotency_key t) as [k'|] eqn:Hk'; [|naive_solver].
      rewrite lookup_insert_Some. pose proof (Hk k' eq_refl).
      destruct (decide (k' = k)) as [->|]; naive_solver.
    + split.
      * intros [[Hkt <-]|(u & Hu & ?)]; [exists t; by rewrite lookup_insert_eq|eauto].
      * intros (u & [[<- <-]|[Hj Hu]]%lookup_insert_Some & ?); eauto.
  - intros j en Hen. assert (en_task_id en = j /\ (j = tr_id t \/ is_Some (tasks s !! j))) as [? Hj].
    { destruct e as [en'|]; [apply lookup_insert_Some in Hen as [[<- <-]|[_ Hen]]|]; eauto;
        destruct (inv_envelope _ HI _ _ Hen); eauto. }
    split; [done|]. rewrite lookup_insert_is_Some. destruct (decide (tr_id t = j)); naive_solver.
  - intros j ct Hct. assert (tc_task_id ct = j /\ (j = tr_id t \/ is_Some (tasks s !! j))) as [? Hj].
    { destruct c as [ct'|]; [apply lookup_insert_Some in Hct as [[<- <-]|[_ Hct]]|]; eauto;
        destruct (inv_context _ HI _ _ Hct); eauto. }
    split; [done|]. rewrite lookup_insert_is_Some. destruct (decide (tr_id t = j)); naive_solver.
  - intros j r Hres. destruct (inv_result _ HI _ _ Hres) as (? & u & ? & ?). eauto 6.
  - apply (inv_outbox _ HI).
  - intros j. rewrite !lookup_insert_is_Some, (inv_events _ HI). done.
  - intros j u evs. destruct (decide (tr_id t = j)) as [<-|Hj].
    + rewrite !lookup_insert_eq. intros [= <-] [= <-]. by apply log_ok_first.
    + rewrite !lookup_insert_ne by done. by apply inv_log.
Qed.

Lemma Inv_step s s' : Inv s -> step s s' -> Inv s'.
Proof.
  intros HI [t e c|i t e t' l' Ht Hl|i t l exp Ht Hs Hl _|i t c Ht Hc|i t r Ht Hs Hi Hn|i Hn].
  - by apply Inv_accepted.
  - by apply Inv_commit.
  - assert (Hle : lr_task_id l = i /\ is_Some (lr_worker_id l)) by (by destruct (inv_lease _ HI _ _ Hl) as (? & ? & _)).
    split; simpl; try apply HI.
    intros j le [[<- <-]|[Hj Hle']]%lookup_insert_Some; [naive_solver|by apply inv_lease].
  - split; simpl; try apply HI.
    intros j ct [[<- <-]|[Hj Hct]]%lookup_insert_Some; [eauto|by apply inv_context].
  - by eapply Inv_put_result.
  - assert (Hno : leases s !! i = None).
    { destruct (leases s !! i) eqn:E; [|done].
      destruct (inv_lease _ HI _ _ E) as (_ & _ & u & Hu & _). congruence. }
    by rewrite <- (put_lease_none i s Hno) in HI.
Qed.

Lemma Inv_steps s s' : Inv s -> steps s s' -> Inv s'.
Proof. intros HI H. induction H; eauto using Inv_step. Qed.

Lemma Inv_run_ops ops s rs s' :
  Forall op_fresh ops -> Inv s -> run_ops ops s = (rs, s') -> Inv s'.
Proof. eauto using Inv_steps, run_ops_steps. Qed.

(** ** What no sequence of calls can undo *)

(** Fields fixed at acceptance, the retry counter that only grows, and the
    whole record of a finished task. *)
Record task_evolves (t t' : TaskRecord) : Prop := {
  te_id : tr_id t' = tr_id t;
  te_key : tr_idempotency_key t' = tr_idempotency_key t;
  te_deadline_ms : tr_deadline_ms t' = tr_deadline_ms t;
  te_retry : tr_retry_count t <= tr_retry_count t';
  te_terminal : is_terminal (tr_status t) = true -> t' = t;
}.

#[export] Instance task_evolves_preorder : PreOrder task_evolves.
Proof.
  split.
  - intros t. by split.
  - intros a b c [? ? ? ? Hb] [? ? ? ? Hc]. split; try congruence; [lia|].
    intros Ha. assert (b = a) as -> by auto. auto.
Qed.

(** [extends s s']: every task of [s] is still there and has only evolved,
    its log is a prefix of the new log, and what is written once (envelopes,
    idempotency keys, terminal results) is as it was. *)
Record extends (s s' : InMemoryState) : Prop := {
  ex_tasks i t : tasks s !! i = Some t ->
    exists t', tasks s' !! i = Some t' /\ task_evolves t t';
  ex_events i evs : events s !! i = Some evs ->
    exists more, events s' !! i = Some (evs ++ more);
  ex_envelopes : envelopes s ⊆ envelopes s';
  ex_idempotency : idempotency s ⊆ idempotency s';
  ex_results : terminal_results s ⊆ terminal_results s';
}.

#[export] Instance extends_preorder : PreOrder extends.
Proof.
  split.
  - intros s. split; try done; [by intros j u ?; exists u|]. intros i evs ?. exists []. by rewrite app_nil_r.
  - intros a b c [T E En Id R] [T' E' En' Id' R']. split; [| |by etrans..].
    + intros i t (t' & Ht' & ?)%T. apply T' in Ht' as (t'' & ? & ?). eexists; split; [done|by etrans].
    + intros i evs (more & Hm)%E. apply E' in Hm as (more' & Hm').
      exists (more ++ more'). by rewrite app_assoc.
Qed.

Lemma lifecycle_evolves i t l e t' l' :
  in_u32 (tr_retry_count t) -> lifecycle i t l e t' l' -> task_evolves t t'.
Proof.
  intros Hr Hl. destruct (lifecycle_record _ _ _ _ _ _ Hl) as (? & ? & ? & Hn).
  split; [done|done|done| |].
  - destruct Hn as [->| ->]; [done|]. by apply u32_saturating_add_grows.
  - intros Ht. exact (lifecycle_terminal _ _ _ _ _ _ Hl Ht).
Qed.

Lemma extends_commit s i t e t' l' :
  Inv s -> tasks s !! i = Some t -> lifecycle i t (leases s !! i) e t' l' ->
  extends s (commit i (tr_status t) e t' l' s).
Proof.
  intros HI Ht Hl. split; autorewrite with commit; cbv zeta; try done.
  - intros j u Hu. destruct (decide (i = j)) as [<-|Hj].
    + rewrite lookup_insert_eq. simplify_eq. eexists; split; [done|].
      eapply lifecycle_evolves; [|done]. by eapply inv_retry.
    + rewrite lookup_insert_ne by done. eexists; split; [done|]. done.
  - intros j evs Hevs. destruct (decide (i = j)) as [<-|Hj].
    + rewrite lookup_insert_eq, Hevs. simpl. eauto.
    + rewrite lookup_insert_ne by done. exists []. by rewrite app_nil_r.
Qed.

Lemma extends_step s s' : Inv s -> step s s' -> extends s s'.
Proof.
  intros HI [t e c Hf Hs Hn Hk He Hc|i t e t' l' Ht Hl|i t l exp Ht Hs Hl _|i t c Ht Hc|i t r Ht Hs Hi Hn|i Hn].
  - assert (Hen : envelopes s !! tr_id t = None).
    { destruct (envelopes s !! tr_id t) eqn:E; [|done].
      destruct (inv_envelope _ HI _ _ E) as [_ [? ?]]. congruence. }
    pose proof (no_task_no_log _ _ HI Hn) as Hev.
    rewrite (accepted_eq _ _ _ _ HI Hs Hn). split; simpl.
    + intros i u Hu. exists u. split; [|done]. rewrite lookup_insert_ne; [done|congruence].
    + intros i evs Hevs. exists []. rewrite app_nil_r, lookup_insert_ne; [done|congruence].
    + destruct e; [by apply insert_subseteq|done].
    + destruct (tr_idempotency_key t); [by apply insert_subseteq, Hk|done].
    + done.
  - by apply extends_commit.
  - split; simpl; try done; [by intros j u ?; exists u|]. intros j evs ?. exists []. by rewrite app_nil_r.
  - split; simpl; try done; [by intros j u ?; exists u|]. intros j evs ?. exists []. by rewrite app_nil_r.
  - unfold put_result.
    split; destruct (make_outbox r); simpl; try done; try by apply insert_subseteq.
    all: try by intros j u ?; exists u.
    all: intros j evs ?; exists []; by rewrite app_nil_r.
  - split; simpl; try done; [by intros j u ?; exists u|]. intros j evs ?. exists []. by rewrite app_nil_r.
Qed.

Lemma extends_steps s s' : Inv s -> steps s s' -> extends s s'.
Proof.
  intros HI H. induction H as [s|s s1 s' Hst _ IH]; [done|].
  etrans; [by apply extends_step|]. apply IH. by eapply Inv_step.
Qed.

Lemma extends_run_op op s r s' :
  op_fresh op -> Inv s -> run_op op s = (r, s') -> extends s s'.
Proof. eauto using extends_steps, run_op_steps. Qed.

(** ** Replay on a reachable store *)

Lemma with_status_same t : with_status t (tr_status t) = t.
Proof. by destruct t. Qed.

(** Replaying a log reproduces the record it belongs to, unless it holds a
    denial. *)
Lemma replay_reachable s i t evs :
  Inv s -> tasks s !! i = Some t -> events s !! i = Some evs ->
  replay_task_from_snapshot_and_events t evs =
  if denied evs then Err (StoreError.CorruptEventStream i) else Ok t.
Proof.
  intros HI Ht He. unfold replay_task_from_snapshot_and_events.
  rewrite (inv_id _ HI _ _ Ht), (log_replay _ _ _ (inv_log _ HI _ _ _ Ht He)).
  destruct (denied evs); [done|].
  rewrite !bool_decide_true by done. simpl. rewrite with_status_same.
  destruct (tr_dead_lettered t) eqn:Hd; [|done]. simpl.
  destruct (inv_dead _ HI _ _ Ht Hd) as [_ Hr].
  by rewrite bool_decide_false by lia.
Qed.

Lemma task_is_corrupt_iff s i :
  Inv s -> task_is_corrupt s i = true <-> exists evs, events s !! i = Some evs /\ denied evs = true.
Proof.
  intros HI. unfold task_is_corrupt. destruct (tasks s !! i) as [t|] eqn:Ht.
  - destruct (proj2 (inv_events _ HI i)) as [evs He]; [by eexists|]. rewrite He.
    rewrite (replay_reachable s i t evs) by done. destruct (denied evs) eqn:D; naive_solver.
  - rewrite (no_task_no_log _ _ HI Ht). naive_solver.
Qed.
