(* ===== verification/Samples.v ===== *)
(** * Concrete values

    Identifiers, records and store states that the witnesses evaluate the
    theorems on. *)
From S2P Require Import Prelude Ident Lifecycle StoreModel Api MemStore.
From stdpp Require Import options.
From Stdlib Require Import Strings.Byte.

Definition task_a : TaskId := MkId "task-a" I.
Definition task_b : TaskId := MkId "task-b" I.
Definition key_a : IdempotencyKey := MkId "dispatch-1" I.
Definition peer_a : PeerId := MkId "peer-a" I.
Definition peer_b : PeerId := MkId "peer-b" I.
Definition worker_a : AgentId := MkId "worker-a" I.
Definition worker_b : AgentId := MkId "worker-b" I.
Definition lease_1 : LeaseId := MkId "lease-1" I.
Definition lease_2 : LeaseId := MkId "lease-2" I.

Definition record_a : TaskRecord := new_task_record task_a Pending (Some key_a).
Definition record_b : TaskRecord := MkTaskRecord task_b Pending None (Some 500) 0 false None.
Definition envelope_a : TaskEnvelopeRecord := MkEnvelope task_a [x01; x02] 100.
Definition envelope_b : TaskEnvelopeRecord := MkEnvelope task_b [x03] 90.
Definition context_a : TaskTransportContextRecord :=
  MkContext task_a (Some peer_b) (Some peer_a) peer_a (Some "frame-1") 100.
Definition lease_a : LeaseRecord := new_lease lease_1 task_a worker_a 200 1000.
Definition lease_a2 : LeaseRecord := new_lease lease_2 task_a worker_b 1500 2000.
Definition result_a : TerminalResultRecord :=
  MkTerminalResult task_a [x0a] Completed (Some peer_b) peer_a 300.
Definition failure_a : TerminalResultRecord :=
  MkTerminalResult task_a [x0b] Failed (Some peer_b) peer_a 300.
Definition policy_2 : RetryPolicy := MkRetryPolicy 2 1000 3.

(** A run with a known result, as a pair. *)
Lemma pair_of_fst {A B} (p : A * B) a : p.1 = a -> p = (a, p.2).
Proof. by intros <-; destruct p. Qed.

(** The state after the calls [ops] on the empty store. *)
Definition mem_after (ops : list Op) : InMemoryState := (run_ops ops empty_state).2.

Definition accept_ops : list Op :=
  [OpAcceptContext record_a envelope_a context_a; OpAcceptEnvelope record_b envelope_b].
Definition queued : InMemoryState := mem_after accept_ops.
Definition running_ops : list Op := accept_ops ++ [OpLease task_a lease_a].
Definition running : InMemoryState := mem_after running_ops.

(** Each call of these sessions succeeds, so the states are the ones meant. *)
Example running_replies :
  (run_ops running_ops empty_state).1 =
  [Ok (RTask record_a); Ok (RTask record_b); Ok (RTask (with_status record_a Running))].
Proof. vm_compute. reflexivity. Qed.

Lemma accept_ops_fresh : Forall op_fresh accept_ops.
Proof. repeat constructor; by intros [=]. Qed.

Lemma running_ops_fresh : Forall op_fresh running_ops.
Proof. repeat constructor; by intros [=]. Qed.
