(* ===== verification/MemLease.v ===== *)
(** * Leases and worker reports of the in-memory store

    Fencing of the calls in which a worker reports on its lease, when a lease
    is granted, mutual exclusion, and the retry budget that [fail_task]
    enforces. *)
From S2P Require Import Prelude Ident Lifecycle StoreModel Api MemStore MemSpec MemInv Samples.
From stdpp Require Import options.

(** The worker [w] holds the active lease [lid] of a running task [i]. *)
Definition holds_lease (s : InMemoryState) (i : TaskId) (lid : LeaseId) (w : AgentId) : Prop :=
  exists t l, tasks s !! i = Some t /\ tr_status t = Running
    /\ leases s !! i = Some l /\ lr_lease_id l = lid /\ lr_worker_id l = Some w.

(** The calls by which a worker reports on its lease. *)
Definition reports_on (op : Op) : option (TaskId * LeaseId * AgentId) :=
  match op with
  | OpRenew i lid w _ _ | OpComplete i lid w | OpFail i lid w _ _ | OpRetry i lid w
  | OpDeadLetter i lid w _ | OpCompleteResult i lid w _ | OpFailResult i lid w _ _ _ =>
      Some (i, lid, w)
  | _ => None
  end.

Lemma worker_effect_holds i lid w s r s' :
  worker_effect i lid w s r s' -> s' = s \/ holds_lease s i lid w.
Proof.
  intros [|t l e t' Ht Hs Hl ? ? _]; [by left|]. right. exists t, l. auto.
Qed.

Lemma renew_holds i lid w now exp s r s' :
  renew_lease i lid w now exp s = (r, s') -> s' = s \/ holds_lease s i lid w.
Proof.
  intros H. unfold renew_lease in H. op_run H; auto. right. eexists _, _. eauto.
Qed.

Lemma worker_effect_ok_holds i lid w s t s' :
  worker_effect i lid w s (Ok t) s' -> holds_lease s i lid w.
Proof. inversion 1; subst. eexists _, _. eauto. Qed.

(** Read the helper's run off as a [worker_effect]; a failed one left the
    state alone, a successful one shows the lease. *)
Ltac by_worker_effect :=
  match goal with
  | E : finish_task_in_state _ _ _ _ _ _ _ _ = _ |- _ => eapply finish_effect in E; [|eassumption|by auto]
  | E : retry_task_in_state _ _ _ _ = _ |- _ => eapply retry_effect in E; try eassumption
  | E : dead_letter_task_in_state _ _ _ _ _ = _ |- _ => eapply dead_letter_effect in E; try eassumption
  end;
  match goal with
  | E : worker_effect _ _ _ _ (Ok _) _ |- _ => right; by apply worker_effect_ok_holds in E
  | E : worker_effect _ _ _ _ (Err _) _ |- _ => left; by apply worker_effect_err in E
  | E : worker_effect _ _ _ _ _ _ |- _ => by apply worker_effect_holds in E
  end.

Lemma complete_with_result_holds i lid w res s r s' :
  complete_task_with_result i lid w res s = (r, s') -> s' = s \/ holds_lease s i lid w.
Proof.
  intros H. unfold complete_task_with_result in H. op_run H; auto; by_worker_effect.
Qed.

Lemma fail_with_result_holds i lid w reason p res s r s' :
  fail_task_with_result i lid w reason p res s = (r, s') -> s' = s \/ holds_lease s i lid w.
Proof.
  intros H. unfold fail_task_with_result in H. op_run H; auto; by_worker_effect.
Qed.

(** C19: fencing. A renewal or a report (complete, fail, retry, dead-letter,
    with or without a result) changes the store only if it names the task's
    active lease and that lease's worker, and the task is running: a worker
    whose lease was recovered, expired away or handed on can do nothing. *)
Theorem worker_reports_are_fenced op i lid w s r s' :
  reports_on op = Some (i, lid, w) -> run_op op s = (r, s') ->
  s' = s \/ holds_lease s i lid w.
Proof.
  intros Hop H. destruct op; simplify_eq/=; apply reply_inv in H as (q & H & _);
    eauto using renew_holds, complete_with_result_holds, fail_with_result_holds,
      worker_effect_holds, complete_task_effect, fail_task_effect, retry_task_effect,
      dead_letter_task_effect.
Qed.

Lemma worker_reports_are_fenced_witness :
  exists r s', run_op (OpComplete task_a lease_2 worker_b) running = (r, s')
    /\ (s' = running \/ holds_lease running task_a lease_2 worker_b).
Proof.
  eexists _, _. split; [apply surjective_pairing|].
  eapply worker_reports_are_fenced; [|apply surjective_pairing]. reflexivity.
Defined.

(** ** Leasing *)

(** Symbolic evaluation of an operation from known look-ups: the guards are
    opened and every fact in the context is used. *)
Ltac op_eval :=
  unfold find_task, get_task, find_lease, bind, get, lift, modify, ret, throw, ok_or,
    ensure_matching_task_id, ensure_lease_has_owner, ensure_matching_lease_id,
    ensure_matching_worker_id, require_status, store_transition, store_cancel_transition,
    validate_deadline_transition; simpl;
  repeat (match goal with
          | |- context [bool_decide ?P] =>
              first [rewrite (bool_decide_true P) by done|rewrite (bool_decide_false P) by done]
          | H : ?x = _ |- context [?x] => progress rewrite H
          end; simpl).

Definition deadline_passed (t : TaskRecord) (at_ms : Z) : bool :=
  match tr_deadline_ms t with Some d => d <=? at_ms | None => false end.

(** The peer guard of [lease_task_for_peer]. *)
Definition peer_allowed (s : InMemoryState) (i : TaskId) (p : option PeerId) : bool :=
  match p, expected_executor s i with
  | Some local, Some expected => bool_decide (expected = local)
  | _, _ => true
  end.

(** The state a granted lease leaves. *)
Definition leased (i : TaskId) (t : TaskRecord) (l : LeaseRecord) (s : InMemoryState)
    : InMemoryState := commit i Pending TaskStarted (with_status t Running) (Some l) s.

Lemma peer_guard_passes s i p :
  peer_allowed s i p = true ->
  (p ≫= fun local =>
     match expected_executor s i with
     | Some expected => if bool_decide (expected = local) then None else Some (expected, local)
     | None => None
     end) = None.
Proof.
  unfold peer_allowed. destruct p; simpl; [|done]. case_match; [|done]. by intros ->.
Qed.

Lemma lease_task_granted i l p s t w :
  tasks s !! i = Some t -> tr_status t = Pending -> leases s !! i = None ->
  lr_task_id l = i -> lr_worker_id l = Some w -> peer_allowed s i p = true ->
  deadline_passed t (lr_leased_at_ms l) = false ->
  lease_task_with_peer_guard i l p s = (Ok (with_status t Running), leased i t l s).
Proof.
  intros Ht Hs Hl <- Hw Hp%peer_guard_passes Hd. unfold lease_task_with_peer_guard.
  assert (Hd' : (tr_deadline_ms t ≫= fun d => if d <=? lr_leased_at_ms l then Some d else None) = None).
  { unfold deadline_passed in Hd. destruct (tr_deadline_ms t); simpl; [|done]. by rewrite Hd. }
  op_eval. done.
Qed.

(** A lease that comes after the deadline ends the task instead. *)
Lemma lease_task_overdue i l p s t w :
  tasks s !! i = Some t -> tr_status t = Pending -> leases s !! i = None ->
  lr_task_id l = i -> lr_worker_id l = Some w -> peer_allowed s i p = true ->
  deadline_passed t (lr_leased_at_ms l) = true ->
  lease_task_with_peer_guard i l p s =
  (Err (StoreError.TaskDeadlineExpired i (default 0 (tr_deadline_ms t)) (lr_leased_at_ms l)),
   commit i Pending TaskTimedOut (with_status t Failed) None s).
Proof.
  intros Ht Hs Hl <- Hw Hp%peer_guard_passes Hd. unfold lease_task_with_peer_guard.
  unfold deadline_passed in Hd. destruct (tr_deadline_ms t) as [d|] eqn:Hdl; [|done].
  assert (Hd' : (Some d ≫= fun d => if d <=? lr_leased_at_ms l then Some d else None) = Some d).
  { simpl. by rewrite Hd. }
  op_eval. unfold commit. by rewrite put_lease_none.
Qed.

Lemma pending_not_leased s i t :
  Inv s -> tasks s !! i = Some t -> tr_status t <> Running -> leases s !! i = None.
Proof.
  intros HI Ht Hs. destruct (leases s !! i) eqn:E; [|done].
  destruct (inv_lease _ HI _ _ E) as (_ & _ & u & Hu & ?). congruence.
Qed.

Lemma lease_task_inv i l p s t' s' :
  lease_task_with_peer_guard i l p s = (Ok t', s') ->
  exists t w, tasks s !! i = Some t /\ tr_status t = Pending /\ leases s !! i = None
    /\ lr_task_id l = i /\ lr_worker_id l = Some w /\ peer_allowed s i p = true
    /\ deadline_passed t (lr_leased_at_ms l) = false.
Proof.
  intros H. unfold lease_task_with_peer_guard in H. op_run H.
  destruct_or!; destruct_and!; simplify_eq/=.
  match goal with E : is_Some _ |- _ => destruct E as [w Hw] end.
  match goal with E : tasks _ !! _ = Some ?t |- _ => exists t, w end.
  repeat split; try done.
  - unfold peer_allowed. destruct p; [|done]. simpl in *. case_match; [|done].
    by case_bool_decide.
  - unfold deadline_passed. destruct (tr_deadline_ms _); [|done]. simpl in *. by case_match.
Qed.

(** Leasing. A lease is granted exactly to a pending task, on a lease
    record that names the task and its worker, at a peer the task is reserved
    for (or to any peer when it is not reserved), before its deadline; the
    task is then running under that lease and has a [TaskStarted] event. *)
Theorem lease_granted_iff i l p s t' s' :
  Inv s ->
  lease_task_with_peer_guard i l p s = (Ok t', s') <->
  exists t w, tasks s !! i = Some t /\ tr_status t = Pending
    /\ lr_task_id l = i /\ lr_worker_id l = Some w
    /\ peer_allowed s i p = true /\ deadline_passed t (lr_leased_at_ms l) = false
    /\ t' = with_status t Running /\ s' = leased i t l s.
Proof.
  intros HI. split.
  - intros H. destruct (lease_task_inv _ _ _ _ _ _ H) as (t & w & Ht & Hs & Hl & Hi & Hw & Hp & Hd).
    rewrite (lease_task_granted i l p s t w) in H by done. simplify_eq. eauto 10.
  - intros (t & w & Ht & Hs & Hi & Hw & Hp & Hd & -> & ->).
    apply (lease_task_granted i l p s t w); try done.
    eapply pending_not_leased; [done..|]. by rewrite Hs.
Qed.

Lemma Inv_mem_after ops : Forall op_fresh ops -> Inv (mem_after ops).
Proof.
  intros Hf. unfold mem_after. destruct (run_ops ops empty_state) as [rs s] eqn:E.
  eapply Inv_run_ops; [exact Hf|apply Inv_empty|exact E].
Qed.

Lemma Inv_queued : Inv queued.
Proof. exact (Inv_mem_after accept_ops accept_ops_fresh). Qed.

Lemma Inv_running : Inv running.
Proof. exact (Inv_mem_after running_ops running_ops_fresh). Qed.

Lemma lease_granted_iff_witness :
  lease_task_with_peer_guard task_a lease_a (Some peer_a) queued =
  (Ok (with_status record_a Running), leased task_a record_a lease_a queued).
Proof.
  apply (lease_granted_iff task_a lease_a (Some peer_a) queued); [exact Inv_queued|].
  exists record_a, worker_a. repeat (split; [vm_compute; reflexivity|]). split; reflexivity.
Defined.

(** C21: mutual exclusion. While a task is leased, no further lease on it is
    granted and the attempt changes nothing. *)
Theorem lease_is_exclusive i l0 l p s r s' :
  Inv s -> leases s !! i = Some l0 -> lease_task_with_peer_guard i l p s = (r, s') ->
  s' = s /\ is_ok r = false.
Proof.
  intros HI Hl H. destruct r as [t'|e].
  - destruct (lease_task_inv _ _ _ _ _ _ H) as (t & w & ? & ? & ? & _). congruence.
  - split; [|done]. apply lease_task_effect in H. inversion H; subst; congruence.
Qed.

Lemma lease_is_exclusive_witness :
  exists r s', lease_task_with_peer_guard task_a lease_a2 None running = (r, s')
    /\ s' = running /\ is_ok r = false.
Proof.
  eexists _, _. split; [apply surjective_pairing|].
  apply (lease_is_exclusive task_a lease_a lease_a2 None running);
    [exact Inv_running|by vm_compute|apply surjective_pairing].
Defined.

(** ** Failing and retrying *)

(** Everything a worker's report needs. *)
Record reporting (s : InMemoryState) (i : TaskId) (t : TaskRecord) (l : LeaseRecord)
    (w : AgentId) : Prop := {
  rp_task : tasks s !! i = Some t;
  rp_running : tr_status t = Running;
  rp_lease : leases s !! i = Some l;
  rp_worker : lr_worker_id l = Some w;
}.

Definition requeued (t : TaskRecord) : TaskRecord :=
  with_metadata t Pending (u32_saturating_add (tr_retry_count t) 1)
    (tr_dead_lettered t) (tr_dead_letter_reason t).

Definition dead_lettered (t : TaskRecord) (reason : string) : TaskRecord :=
  with_metadata t Failed (u32_saturating_add (tr_retry_count t) 1) true (Some reason).

(** What [fail_task] does with a running task whose lease the worker
    holds, on each of its three branches. Without retries the task fails;
    while the next attempt is within [max_retries] it goes back to the queue
    with its counter raised; after that it is dead-lettered with the reason.
    The lease is released and exactly one event is logged in each case.
    [dead_letter_after] has no part in it. *)
Lemma fail_task_run s i t l w reason p :
  reporting s i t l w ->
  fail_task i (lr_lease_id l) w reason p s =
    let n := u32_saturating_add (tr_retry_count t) 1 in
    let '(e, t') :=
      if max_retries p =? 0 then
        (TaskFailed, with_metadata t Failed (tr_retry_count t) false None)
      else if (0 <? max_retries p) && (n <=? max_retries p) then (RecoveryAction, requeued t)
      else (TaskDeadLettered, dead_lettered t reason) in
    (Ok t', commit i Running e t' None s).
Proof.
  intros [Ht Hs Hl Hw]. unfold fail_task, finish_task_in_state, retry_task_in_state,
    dead_letter_task_in_state, should_retry_after_failure. op_eval.
  destruct (max_retries p =? 0); [by op_eval|].
  destruct (_ && _); by op_eval.
Qed.

(** One failed attempt: a worker leases the task and reports its failure. *)
Definition attempt (i : TaskId) (w : AgentId) (reason : string) (p : RetryPolicy)
    (l : LeaseRecord) : M TaskRecord :=
  lease_task i l ;;;
  fail_task i (lr_lease_id l) w reason p.

(** Failed attempts under a list of leases, one after the other, and the
    task's record after them. *)
Fixpoint attempts (i : TaskId) (w : AgentId) (reason : string) (p : RetryPolicy)
    (ls : list LeaseRecord) : M TaskRecord :=
  match ls with
  | [] => find_task i
  | l :: ls => attempt i w reason p l ;;; attempts i w reason p ls
  end.

(** A lease that the task [t] can be given at its turn. *)
Definition lease_usable (i : TaskId) (t : TaskRecord) (w : AgentId) (l : LeaseRecord) : Prop :=
  lr_task_id l = i /\ lr_worker_id l = Some w
  /\ deadline_passed t (lr_leased_at_ms l) = false.

Lemma attempt_run i w reason p l s t :
  tasks s !! i = Some t -> tr_status t = Pending -> leases s !! i = None ->
  lease_usable i t w l -> 0 < max_retries p ->
  exists e t', t' = (if u32_saturating_add (tr_retry_count t) 1 <=? max_retries p
              then requeued t else dead_lettered t reason)
    /\ attempt i w reason p l s = (Ok t', commit i Running e t' None (leased i t l s)).
Proof.
  intros Ht Hs Hl (Hi & Hw & Hd) Hp. unfold attempt, bind, lease_task.
  rewrite (lease_task_granted i l None s t w) by done.
  rewrite (fail_task_run _ i (with_status t Running) l w).
  2:{ split; try done; simpl; by rewrite lookup_insert_eq. }
  rewrite (proj2 (Z.eqb_neq (max_retries p) 0)) by lia.
  rewrite (proj2 (Z.ltb_lt 0 (max_retries p))) by lia. simpl.
  destruct (_ <=? _); eauto.
Qed.

Lemma attempts_within_budget i w reason p ls : forall s t,
  tasks s !! i = Some t -> tr_status t = Pending -> leases s !! i = None ->
  Forall (lease_usable i t w) ls -> in_u32 (tr_retry_count t) -> in_u32 (max_retries p) ->
  tr_retry_count t + Z.of_nat (length ls) <= max_retries p ->
  let t' := with_metadata t Pending (tr_retry_count t + Z.of_nat (length ls))
              (tr_dead_lettered t) (tr_dead_letter_reason t) in
  exists s', attempts i w reason p ls s = (Ok t', s')
    /\ tasks s' !! i = Some t' /\ leases s' !! i = None.
Proof.
  induction ls as [|l ls IH]; intros s t Ht Hs Hl Hls Hr Hp Hn; simpl in *.
  - exists s. replace (with_metadata _ _ _ _ _) with t; [by op_eval|].
    destruct t; simpl in *. rewrite Z.add_0_r. by subst.
  - apply Forall_cons in Hls as [Hu Hls].
    destruct (attempt_run i w reason p l s t) as (e & t' & Ht' & Hrun);
      [done..|apply in_u32_nonneg in Hr; lia|].
    assert (Hsat : u32_saturating_add (tr_retry_count t) 1 = tr_retry_count t + 1)
      by (eapply u32_saturating_add_exact; [|exact Hp]; lia).
    rewrite Hsat, (proj2 (Z.leb_le (tr_retry_count t + 1) _)) in Ht' by lia.
    unfold bind. rewrite Hrun.
    destruct (IH (commit i Running e t' None (leased i t l s)) t') as (s' & Hs' & Htk & Hlk).
    + simpl. by rewrite lookup_insert_eq.
    + by subst.
    + simpl. by rewrite lookup_delete_eq.
    + subst. done.
    + subst. simpl. rewrite Hsat. eapply in_u32_between; [exact Hr|exact Hp|lia].
    + done.
    + subst. simpl. rewrite Hsat. lia.
    + exists s'. rewrite Hs'. subst. simpl in *. unfold requeued in *. simpl in *.
      rewrite Hsat in *.
      replace (tr_retry_count t + Z.of_nat (S (length ls)))
        with (tr_retry_count t + 1 + Z.of_nat (length ls)) by lia. done.
Qed.

Lemma attempts_snoc i w reason p ls l : forall s t s1,
  attempts i w reason p ls s = (Ok t, s1) ->
  attempts i w reason p (ls ++ [l]) s = attempts i w reason p [l] s1.
Proof.
  induction ls as [|l' ls IH]; intros s t s1 H; simpl in *.
  - apply get_task_ok in H as [-> _]. done.
  - unfold bind in H |- * at 1. destruct (attempt i w reason p l' s) as [[u|] s2]; [|done].
    by apply IH in H.
Qed.

(** Failures one after the other. A pending task that has not failed yet, leased
    and failed again and again by one worker with nothing in between, is
    requeued after each of the first [max_retries] attempts, with its counter
    at the number of attempts made, and the attempt after those dead-letters
    it with the worker's reason. *)
Theorem consecutive_failures i w reason p ls s t :
  Inv s -> tasks s !! i = Some t -> tr_status t = Pending -> tr_retry_count t = 0 ->
  0 < max_retries p < u32_max ->
  Forall (lease_usable i t w) ls -> Z.of_nat (length ls) <= max_retries p + 1 ->
  exists s', attempts i w reason p ls s =
    (Ok (if Z.of_nat (length ls) <=? max_retries p
         then with_metadata t Pending (Z.of_nat (length ls)) (tr_dead_lettered t)
                (tr_dead_letter_reason t)
         else with_metadata t Failed (u32_saturating_add (max_retries p) 1) true (Some reason)),
     s').
Proof.
  intros HI Ht Hs Hr Hp Hls Hn.
  assert (Hpr : in_u32 (max_retries p)) by (unfold_ints; lia).
  assert (Hl : leases s !! i = None) by (eapply pending_not_leased; [done..|by rewrite Hs]).
  assert (H0 : in_u32 (tr_retry_count t)) by (by rewrite Hr).
  destruct (Z.leb_spec (Z.of_nat (length ls)) (max_retries p)) as [Hle|Hgt].
  - destruct (attempts_within_budget i w reason p ls s t) as (s' & Hrun & _); try done; [lia|].
    rewrite Hr in Hrun. eauto.
  - destruct ls as [|l ls _] using rev_ind; [simpl in Hgt; lia|].
    rewrite length_app in Hn, Hgt. simpl in Hn, Hgt.
    apply Forall_app in Hls as [Hls Hu]. apply Forall_cons in Hu as [Hu _].
    destruct (attempts_within_budget i w reason p ls s t) as (s1 & Hrun & Ht1 & Hl1);
      try done; [lia|].
    set (t1 := with_metadata t Pending _ _ _) in *.
    destruct (attempt_run i w reason p l s1 t1) as (e & t' & Ht' & Hrun');
      [done..|lia|].
    assert (Hcount : tr_retry_count t1 = max_retries p) by (simpl; lia).
    assert (Hsat : max_retries p < u32_saturating_add (max_retries p) 1)
      by (unfold u32_saturating_add; lia).
    rewrite Hcount, (proj2 (Z.leb_gt _ _) Hsat) in Ht'.
    rewrite (attempts_snoc _ _ _ _ _ _ _ _ _ Hrun). simpl. unfold bind. rewrite Hrun'.
    rewrite Ht'. eexists. unfold find_task, get_task, bind, get, lift; simpl.
    rewrite lookup_insert_eq. unfold dead_lettered. rewrite Hcount. done.
Qed.

Lemma consecutive_failures_witness :
  exists s', attempts task_a worker_a "boom" policy_2
    [lease_a; new_lease lease_2 task_a worker_a 300 900; lease_a] queued =
  (Ok (with_metadata record_a Failed 3 true (Some "boom")), s').
Proof.
  apply (consecutive_failures task_a worker_a "boom" policy_2 [lease_a; _; lease_a] queued record_a);
    [exact Inv_queued|vm_compute; reflexivity|reflexivity|reflexivity|by vm_compute|
    |by vm_compute].
  repeat constructor.
Defined.
