(* ===== verification/MemSweep.v ===== *)
(** * The sweeping operations of the in-memory store

    [fail_expired_deadlines] and [recover_stale_leases] visit a sorted list of
    tasks or leases, change each of them and stop at the first error. Here:
    what each visits, that neither fails on a well-formed store, and the state
    and the report they leave. *)
From S2P Require Import Prelude Ident Lifecycle StoreModel Api MemStore MemSpec MemInv Samples.
From S2P Require Import MemLease.
From stdpp Require Import options.

(** ** What the sweeps visit *)

Lemma elem_of_task_values s t :
  Inv s -> t ∈ task_values s <-> tasks s !! tr_id t = Some t.
Proof.
  intros HI. unfold task_values. rewrite list_elem_of_fmap. split.
  - intros ([i u] & -> & Hu%elem_of_map_to_list). simpl. by rewrite (inv_id _ HI _ _ Hu).
  - intros Ht. exists (tr_id t, t). by rewrite elem_of_map_to_list.
Qed.

Lemma elem_of_lease_values s l :
  Inv s -> l ∈ lease_values s <-> leases s !! lr_task_id l = Some l.
Proof.
  intros HI. unfold lease_values. rewrite list_elem_of_fmap. split.
  - intros ([i u] & -> & Hu%elem_of_map_to_list). simpl.
    by destruct (inv_lease _ HI _ _ Hu) as [-> _].
  - intros Hl. exists (lr_task_id l, l). by rewrite elem_of_map_to_list.
Qed.

Lemma elem_of_expired_deadlines now s d i :
  Inv s ->
  (d, i) ∈ expired_deadlines now s <->
  exists t, tasks s !! i = Some t /\ is_terminal (tr_status t) = false
    /\ tr_deadline_ms t = Some d /\ d <= now.
Proof.
  intros HI. unfold expired_deadlines.
  rewrite elem_of_sort_on, list_elem_of_omap. split.
  - intros (t & [Ht Hin]%list_elem_of_filter & Hd).
    apply elem_of_task_values in Hin; [|done].
    destruct (tr_deadline_ms t) as [d'|] eqn:E; simplify_eq/=.
    destruct (Z.leb_spec d' now); simplify_eq/=. eauto.
  - intros (t & Ht & Hs & Hd & Hle). exists t. pose proof (inv_id _ HI _ _ Ht) as Hi.
    split; [apply list_elem_of_filter; split; [done|]|].
    + apply elem_of_task_values; [done|]. by rewrite Hi.
    + rewrite Hd. simpl. rewrite (proj2 (Z.leb_le d now)) by done. by rewrite Hi.
Qed.

Lemma elem_of_stale_leases now s l :
  Inv s -> l ∈ stale_leases now s <-> leases s !! lr_task_id l = Some l /\ lr_expires_at_ms l <= now.
Proof.
  intros HI. unfold stale_leases.
  rewrite elem_of_sort_on, list_elem_of_filter, elem_of_lease_values by done. tauto.
Qed.

(** No task is visited twice. *)
Lemma NoDup_task_values s : Inv s -> NoDup (tr_id <$> task_values s).
Proof.
  intros HI. unfold task_values.
  replace (tr_id <$> (map_to_list (tasks s)).*2) with (map_to_list (tasks s)).*1.
  { apply NoDup_fst_map_to_list. }
  rewrite <- list_fmap_compose. apply list_fmap_ext. intros _ [i t] H%list_elem_of_lookup_2.
  apply elem_of_map_to_list in H. simpl. by rewrite (inv_id _ HI _ _ H).
Qed.

Lemma NoDup_lease_values s : Inv s -> NoDup (lr_task_id <$> lease_values s).
Proof.
  intros HI. unfold lease_values.
  replace (lr_task_id <$> (map_to_list (leases s)).*2) with (map_to_list (leases s)).*1.
  { apply NoDup_fst_map_to_list. }
  rewrite <- list_fmap_compose. apply list_fmap_ext. intros _ [i l] H%list_elem_of_lookup_2.
  apply elem_of_map_to_list in H. simpl. by destruct (inv_lease _ HI _ _ H) as [-> _].
Qed.

(** [filter] and [omap] keep the visited ids distinct. *)
Lemma NoDup_fmap_filter {A B} (f : A -> B) (P : A -> Prop) `{!forall x, Decision (P x)} l :
  NoDup (f <$> l) -> NoDup (f <$> filter P l).
Proof.
  intros Hnd. eapply sublist_NoDup; [exact Hnd|]. apply fmap_sublist, sublist_filter.
Qed.

Lemma NoDup_fmap_omap {A B C} (f : A -> C) (g : B -> C) (h : A -> option B) l :
  (forall a b, h a = Some b -> g b = f a) ->
  NoDup (f <$> l) -> NoDup (g <$> omap h l).
Proof.
  intros Hh. induction l as [|a l IH]; [done|]. simpl. intros [Ha Hl]%NoDup_cons.
  destruct (h a) as [b|] eqn:E; [|by apply IH]. simpl. apply NoDup_cons. split; [|by apply IH].
  rewrite (Hh _ _ E). intros (b' & Hf & (a' & Ha' & Hb')%list_elem_of_omap)%list_elem_of_fmap.
  rewrite (Hh _ _ Hb') in Hf. apply Ha. rewrite Hf. by apply list_elem_of_fmap_2.
Qed.

Lemma omap_fmap {A B C} (f : B -> option C) (g : A -> B) (l : list A) :
  omap f (g <$> l) = omap (fun x => f (g x)) l.
Proof. induction l as [|a l IH]; [done|]. csimpl. by rewrite IH. Qed.

Lemma truncate_sublist {A} n (l : list A) : sublist (truncate n l) l.
Proof. destruct n; [apply sublist_take|done]. Qed.

Lemma NoDup_expired_deadlines now n s :
  Inv s -> NoDup (snd <$> truncate n (expired_deadlines now s)).
Proof.
  intros HI. eapply sublist_NoDup; [|apply fmap_sublist, truncate_sublist].
  unfold expired_deadlines. rewrite sort_on_perm.
  eapply (NoDup_fmap_omap tr_id); [|by apply NoDup_fmap_filter, NoDup_task_values].
  intros t [d i]. destruct (tr_deadline_ms t); simpl; [case_match|]; naive_solver.
Qed.

Lemma NoDup_stale_leases now n s :
  Inv s -> NoDup (lr_task_id <$> truncate n (stale_leases now s)).
Proof.
  intros HI. eapply sublist_NoDup; [|apply fmap_sublist, truncate_sublist].
  unfold stale_leases. rewrite sort_on_perm. by apply NoDup_fmap_filter, NoDup_lease_values.
Qed.

(** ** One pass of a sweep

    [sweep mark ev ids s]: the state after the tasks [ids] each took the event
    [ev] into the status [mark], losing their lease. *)
Fixpoint sweep (ev : KeryxEventType) (mark : TaskStatus) (ids : list TaskId) (s : InMemoryState)
    : InMemoryState :=
  match ids with
  | [] => s
  | i :: ids =>
      match tasks s !! i with
      | Some t => sweep ev mark ids (commit i (tr_status t) ev (with_status t mark) None s)
      | None => sweep ev mark ids s
      end
  end.

Lemma bool_decide_cons_eq (i : TaskId) ids : bool_decide (i ∈ i :: ids) = true.
Proof. apply bool_decide_true. left. Qed.

Lemma bool_decide_cons_ne (i j : TaskId) ids :
  i <> j -> bool_decide (j ∈ i :: ids) = bool_decide (j ∈ ids).
Proof.
  intros Hne. apply bool_decide_ext. rewrite elem_of_cons. naive_solver.
Qed.

Lemma sweep_tasks ev mark ids s j :
  NoDup ids ->
  tasks (sweep ev mark ids s) !! j =
  if bool_decide (j ∈ ids) then (fun t => with_status t mark) <$> tasks s !! j else tasks s !! j.
Proof.
  revert s. induction ids as [|i ids IH]; intros s Hnd; [done|]. simpl sweep.
  apply NoDup_cons in Hnd as [Hi Hnd].
  destruct (decide (i = j)) as [->|Hne].
  - rewrite bool_decide_cons_eq. destruct (tasks s !! j) as [t|] eqn:Ht; rewrite IH by done;
      rewrite (bool_decide_false (j ∈ ids)) by done; [|done].
    by rewrite commit_tasks, lookup_insert_eq.
  - rewrite bool_decide_cons_ne by done. destruct (tasks s !! i) as [t|] eqn:Ht; rewrite IH by done; [|done].
    by rewrite commit_tasks, lookup_insert_ne.
Qed.

Lemma sweep_leases ev mark ids s j :
  (forall i, i ∈ ids -> is_Some (tasks s !! i)) ->
  leases (sweep ev mark ids s) !! j = if bool_decide (j ∈ ids) then None else leases s !! j.
Proof.
  revert s. induction ids as [|i ids IH]; intros s Hs; [done|]. simpl sweep.
  destruct (Hs i) as [t Ht]; [left|]. rewrite Ht, IH.
  - rewrite commit_leases. destruct (decide (i = j)) as [->|Hne].
    + rewrite lookup_partial_alter_eq, bool_decide_cons_eq. by case_bool_decide.
    + by rewrite lookup_partial_alter_ne, bool_decide_cons_ne.
  - intros k Hk. rewrite commit_tasks. apply lookup_insert_is_Some'. right. apply Hs. by right.
Qed.

(** Only the visited tasks get an event. *)
Lemma sweep_events ev mark ids s j :
  j ∉ ids -> events (sweep ev mark ids s) !! j = events s !! j.
Proof.
  revert s. induction ids as [|i ids IH]; intros s Hj; [done|].
  apply not_elem_of_cons in Hj as [Hne Hj]. simpl sweep. destruct (tasks s !! i); rewrite IH by done; [|done].
  by rewrite commit_events, lookup_insert_ne.
Qed.

(** ** Deadlines *)

Lemma fail_deadline_run d i t s :
  tasks s !! i = Some t -> is_terminal (tr_status t) = false ->
  fail_deadline (d, i) s =
  (Ok [with_status t Failed], commit i (tr_status t) TaskTimedOut (with_status t Failed) None s).
Proof. intros Ht Hs. unfold fail_deadline. op_eval. by destruct (tr_status t). Qed.

Lemma fail_deadlines_run (l : list (Z * TaskId)) : forall s,
  NoDup (snd <$> l) ->
  (forall d i, (d, i) ∈ l -> exists t, tasks s !! i = Some t /\ is_terminal (tr_status t) = false) ->
  for_collect fail_deadline l s =
  (Ok (omap (fun x => (fun t => with_status t Failed) <$> tasks s !! x.2) l),
   sweep TaskTimedOut Failed (snd <$> l) s).
Proof.
  induction l as [|[d i] l IH]; intros s Hnd Hl; [done|].
  apply NoDup_cons in Hnd as [Hi Hnd].
  destruct (Hl d i) as (t & Ht & Hs); [left|].
  simpl. unfold bind at 1. rewrite (fail_deadline_run d i t) by done.
  unfold bind. rewrite IH; [|done|].
  - rewrite Ht. simpl. unfold ret. do 3 f_equal.
    apply list_omap_ext. apply Forall_Forall2_diag, Forall_forall. intros [d' j] Hj. simpl.
    rewrite lookup_insert_ne; [done|]. intros ->. apply Hi.
    apply list_elem_of_fmap. by exists (d', j).
  - intros d' j Hj. rewrite commit_tasks, lookup_insert_ne; [eapply Hl; by right|].
    intros ->. apply Hi. apply list_elem_of_fmap. by exists (d', j).
Qed.

Lemma overdue_are_unfinished now n s d i :
  Inv s -> (d, i) ∈ truncate n (expired_deadlines now s) ->
  exists t, tasks s !! i = Some t /\ is_terminal (tr_status t) = false.
Proof.
  intros HI Hin. eapply elem_of_sublist in Hin; [|apply truncate_sublist].
  apply elem_of_expired_deadlines in Hin; [|done]. naive_solver.
Qed.

Lemma fail_expired_deadlines_run now n s :
  Inv s ->
  let due := snd <$> truncate n (expired_deadlines now s) in
  fail_expired_deadlines now n s =
  (Ok (omap (fun i => (fun t => with_status t Failed) <$> tasks s !! i) due),
   sweep TaskTimedOut Failed due s).
Proof.
  intros HI due. unfold fail_expired_deadlines, bind, get.
  rewrite fail_deadlines_run; [|by apply NoDup_expired_deadlines|].
  - f_equal. f_equal. unfold due. by rewrite omap_fmap.
  - intros d i. by apply overdue_are_unfinished.
Qed.

(** The deadline sweep. It never fails on a reachable store. It fails
    exactly the first [limit] of the unfinished tasks whose deadline has
    passed, in the order of their deadlines, and returns their records; every
    other task is untouched, and a timed-out task holds no lease. *)
Theorem fail_expired_deadlines_spec now n s :
  Inv s ->
  let due := snd <$> truncate n (expired_deadlines now s) in
  exists s',
    fail_expired_deadlines now n s =
      (Ok (omap (fun i => (fun t => with_status t Failed) <$> tasks s !! i) due), s')
    /\ (forall i, tasks s' !! i =
          if bool_decide (i ∈ due) then (fun t => with_status t Failed) <$> tasks s !! i
          else tasks s !! i)
    /\ (forall i, leases s' !! i = if bool_decide (i ∈ due) then None else leases s !! i)
    /\ (forall d i, (d, i) ∈ expired_deadlines now s <->
          exists t, tasks s !! i = Some t /\ is_terminal (tr_status t) = false
            /\ tr_deadline_ms t = Some d /\ d <= now)
    /\ StronglySorted (by_key deadline_key) (expired_deadlines now s).
Proof.
  intros HI due. exists (sweep TaskTimedOut Failed due s).
  split; [|split; [|split; [|split]]].
  - by apply fail_expired_deadlines_run.
  - intros i. apply sweep_tasks. by apply NoDup_expired_deadlines.
  - intros i. apply sweep_leases. intros j Hj.
    apply list_elem_of_fmap in Hj as ([d j'] & -> & Hj). simpl.
    destruct (overdue_are_unfinished _ _ _ _ _ HI Hj) as (t & ? & _). by exists t.
  - intros d i. by apply elem_of_expired_deadlines.
  - apply (sort_on_sorted key_le).
Qed.

Lemma fail_expired_deadlines_spec_witness :
  Inv queued /\ exists s', fail_expired_deadlines 600 None queued = (Ok [with_status record_b Failed], s').
Proof.
  split; [exact Inv_queued|].
  destruct (fail_expired_deadlines_spec 600 None queued Inv_queued) as (s' & H & _).
  exists s'. rewrite H. vm_compute. reflexivity.
Defined.

(** ** Stale leases *)

Lemma recover_lease_run l t s :
  tasks s !! lr_task_id l = Some t -> tr_status t = Running ->
  recover_lease l s =
  (Ok [inl (with_status t Pending)],
   commit (lr_task_id l) Running RecoveryAction (with_status t Pending) None s).
Proof. intros Ht Hs. unfold recover_lease. op_eval. done. Qed.

Lemma recover_leases_run (l : list LeaseRecord) : forall s,
  NoDup (lr_task_id <$> l) ->
  (forall le, le ∈ l -> exists t, tasks s !! lr_task_id le = Some t /\ tr_status t = Running) ->
  for_collect recover_lease l s =
  (Ok (omap (fun le => (fun t => inl (with_status t Pending)) <$> tasks s !! lr_task_id le) l),
   sweep RecoveryAction Pending (lr_task_id <$> l) s).
Proof.
  induction l as [|le l IH]; intros s Hnd Hl; [done|].
  apply NoDup_cons in Hnd as [Hi Hnd].
  destruct (Hl le) as (t & Ht & Hs); [left|].
  simpl. unfold bind at 1. rewrite (recover_lease_run le t) by done.
  unfold bind. rewrite IH; [|done|].
  - rewrite Ht, Hs. simpl. unfold ret. do 3 f_equal.
    apply list_omap_ext. apply Forall_Forall2_diag, Forall_forall. intros le' Hj.
    rewrite lookup_insert_ne; [done|]. intros E. apply Hi. rewrite E. by apply list_elem_of_fmap_2.
  - intros le' Hj. rewrite commit_tasks, lookup_insert_ne; [eapply Hl; by right|].
    intros E. apply Hi. rewrite E. by apply list_elem_of_fmap_2.
Qed.

Lemma recovered_of_requeued (f : LeaseRecord -> option TaskRecord) ls :
  recovered_of (omap (fun le => inl <$> f le) ls) = omap f ls
  /\ cleaned_of (omap (fun le => inl <$> f le) ls) = 0.
Proof.
  unfold recovered_of, cleaned_of. induction ls as [|le ls [IH1 IH2]]; [done|].
  csimpl. destruct (f le); csimpl; [|done]. split; [by rewrite IH1|].
  by rewrite filter_cons_False.
Qed.

(** Stale-lease recovery. It never fails on a reachable store. The tasks
    of the first [limit] expired leases go back to the queue and lose their
    lease, in the order of expiry, and are what the report lists; every other
    task and lease is untouched; no lease of a finished task is found; the
    corrupted tasks it reports are those whose log holds a denied approval. *)
Theorem recover_stale_leases_spec now n s :
  Inv s ->
  let stale := truncate n (stale_leases now s) in
  exists s' corrupted,
    recover_stale_leases now n s =
      (Ok (MkRecoveryReport
             (omap (fun l => (fun t => with_status t Pending) <$> tasks s !! lr_task_id l) stale)
             0 corrupted), s')
    /\ (forall i, tasks s' !! i =
          if bool_decide (i ∈ lr_task_id <$> stale)
          then (fun t => with_status t Pending) <$> tasks s !! i else tasks s !! i)
    /\ (forall i, leases s' !! i =
          if bool_decide (i ∈ lr_task_id <$> stale) then None else leases s !! i)
    /\ (forall l, l ∈ stale_leases now s <->
          leases s !! lr_task_id l = Some l /\ lr_expires_at_ms l <= now)
    /\ (forall i, i ∈ corrupted <-> exists evs, events s' !! i = Some evs /\ denied evs = true).
Proof.
  intros HI stale.
  assert (Hstale : forall l, l ∈ stale ->
            exists t, tasks s !! lr_task_id l = Some t /\ tr_status t = Running).
  { intros l Hin. eapply elem_of_sublist in Hin; [|apply truncate_sublist].
    apply elem_of_stale_leases in Hin as [Hl _]; [|done].
    by destruct (inv_lease _ HI _ _ Hl) as (_ & _ & ?). }
  pose proof (NoDup_stale_leases now n s HI) as Hnd.
  set (s' := sweep RecoveryAction Pending (lr_task_id <$> stale) s).
  assert (Hrun : recover_stale_leases now n s =
      (Ok (MkRecoveryReport
             (omap (fun l => (fun t => with_status t Pending) <$> tasks s !! lr_task_id l) stale)
             0 (collect_corrupt_in_memory_tasks s')), s')).
  { unfold recover_stale_leases, bind, get. fold stale.
    rewrite recover_leases_run by done. unfold ret.
    destruct (recovered_of_requeued (fun le => (fun t => with_status t Pending) <$>
                tasks s !! lr_task_id le) stale) as [E1 E2].
    rewrite <- E1, <- E2. unfold s'. do 4 f_equal.
    all: apply list_omap_ext, Forall_Forall2_diag, Forall_forall; intros le _.
    all: by destruct (tasks s !! lr_task_id le). }
  exists s', (collect_corrupt_in_memory_tasks s'). split; [done|].
  split; [|split; [|split]].
  - intros i. by apply sweep_tasks.
  - intros i. apply sweep_leases. intros j Hj.
    apply list_elem_of_fmap in Hj as (le & -> & Hj).
    destruct (Hstale _ Hj) as (t & ? & _). by exists t.
  - intros l. by apply elem_of_stale_leases.
  - assert (HI' : Inv s') by (eapply Inv_steps; [done|by eapply recover_stale_leases_steps]).
    intros i. unfold collect_corrupt_in_memory_tasks, sorted_task_ids.
    rewrite list_elem_of_filter, elem_of_sort_on, task_is_corrupt_iff by done.
    split; [by intros [? _]|]. intros (evs & He & Hd). split; [eauto|].
    destruct (proj1 (inv_events _ HI' i)) as [t Ht]; [by eexists|].
    apply list_elem_of_fmap. exists (i, t). by rewrite elem_of_map_to_list.
Qed.

Lemma recover_stale_leases_spec_witness :
  Inv running /\ exists s',
    recover_stale_leases 1000 None running = (Ok (MkRecoveryReport [record_a] 0 []), s').
Proof.
  split; [exact Inv_running|].
  destruct (recover_stale_leases_spec 1000 None running Inv_running) as (s' & c & H & _).
  exists s'. assert (c = []) as ->; [|rewrite H; vm_compute; reflexivity].
  assert (E : result_map rr_corrupted_tasks (recover_stale_leases 1000 None running).1 = Ok [])
    by (vm_compute; reflexivity).
  rewrite H in E. by injection E.
Defined.
