(* ===== verification/MemFrames.v ===== *)
(** * What each call leaves as it was

    Frame lemmas of the store's calls: what they append to the event logs,
    what a failing call writes, and which calls leave the counters of failed
    attempts alone. *)
From S2P Require Import Prelude Ident Lifecycle StoreModel Api MemStore MemSpec MemInv Samples.
From S2P Require Import MemLease MemSweep.
From stdpp Require Import options.
#[local] Open Scope Z_scope.

(** ** Event logs *)

Definition log_of (s : InMemoryState) (i : TaskId) : list TaskEventRecord := default [] (events s !! i).

Definition undenied (s s' : InMemoryState) : Prop :=
  forall i, exists more, log_of s' i = (log_of s i ++ more)%list /\ denied more = false.

#[export] Instance undenied_preorder : PreOrder undenied.
Proof.
  split.
  - intros s i. exists []. by rewrite app_nil_r.
  - intros a b c H1 H2 i. destruct (H1 i) as (m & E1 & D1), (H2 i) as (n & E2 & D2).
    exists (m ++ n)%list. rewrite E2, E1, app_assoc. split; [done|].
    unfold denied in *. by rewrite existsb_app, D1, D2.
Qed.

Lemma undenied_same s s' : events s' = events s -> undenied s s'.
Proof. intros E i. exists []. unfold log_of. by rewrite E, app_nil_r. Qed.

Lemma undenied_event i e from to s s' :
  events s' = events (append_in_memory_event i e from to s) ->
  e <> TaskFailed \/ from <> Some Pending -> undenied s s'.
Proof.
  intros E Hd j. unfold log_of. rewrite E. simpl. destruct (decide (i = j)) as [<-|Hj].
  - rewrite lookup_insert_eq. simpl. eexists; split; [done|]. unfold denied, denied_event; simpl.
    rewrite orb_false_r, andb_false_iff, !bool_decide_eq_false. exact Hd.
  - rewrite lookup_insert_ne by done. exists []. by rewrite app_nil_r.
Qed.

Lemma undenied_result i res s r s1 s' :
  undenied s s1 -> store_result i res s1 = (r, s') -> undenied s s'.
Proof.
  intros Hd [_ ->]%store_result_inv. etrans; [done|]. apply undenied_same.
  unfold put_result. by destruct (make_outbox res).
Qed.

Lemma events_set_idempotency k i s : events (set_idempotency_opt k i s) = events s.
Proof. by destruct k. Qed.

Ltac undeny1 :=
  first [ reflexivity
        | apply undenied_same; reflexivity
        | eapply undenied_event;
          [simpl; rewrite ?events_set_idempotency; reflexivity
          |simpl; first [by left|by right; congruence]] ].
Ltac undeny := first [undeny1|destruct_or?; destruct_and?; simplify_eq/=; undeny1].

Lemma undenied_worker i lid w s r s' : worker_effect i lid w s r s' -> undenied s s'.
Proof. intros [|t l e t' Ht Hs Hl ? ? Hc]; undeny. Qed.

Lemma undenied_collect {A B} (body : A -> M (list B)) :
  (forall a s r s', body a s = (r, s') -> undenied s s') ->
  forall l s r s', for_collect body l s = (r, s') -> undenied s s'.
Proof.
  intros Hb l. induction l as [|a l IH]; intros s r s' H; simpl in H; run_inv H;
    [reflexivity|..]; try (etrans; [by eapply Hb|]); by eauto.
Qed.

Ltac undenied_results :=
  try undeny; match goal with E : store_result _ _ _ = _ |- _ => eapply undenied_result; [|exact E]; undeny end.

(** A denial that was granted. *)
Definition denies (i : TaskId) (op : Op) (r : Result Reply StoreError) : bool :=
  match op, r with
  | OpLegacy j TaskApprovalDenied, Ok _ => bool_decide (j = i)
  | _, _ => false
  end.

(** A legacy event other than a denial is not logged as one. *)
Definition plan_denies (plan : LegacyAppendPlan) : Prop :=
  match plan with
  | PlanLifecycle tr => tt_event_type tr = TaskFailed /\ tt_from tr = Pending
  | PlanOperational e st => e = TaskFailed /\ st = Pending
  end.

Lemma legacy_plan_denies from e legacy plan :
  from_keryx_event_type e = Some legacy -> plan_legacy_event_append from legacy = Ok plan ->
  plan_denies plan -> from = Pending /\ e = TaskApprovalDenied.
Proof. destruct e; intros [= <-]; destruct from; cbn; intros [= <-]; cbn; naive_solver. Qed.

Lemma undenied_legacy i e s r s' :
  e <> TaskApprovalDenied -> accept_legacy_event i e s = (r, s') -> undenied s s'.
Proof.
  intros He H. unfold accept_legacy_event in H. op_run H; try undeny.
  all: match goal with
       | E : plan_legacy_event_append _ _ = Ok ?plan, F : from_keryx_event_type _ = _ |- _ =>
           assert (Hn : ~ plan_denies plan) by (intros D; by destruct (legacy_plan_denies _ _ _ _ F E D))
       end.
  all: eapply undenied_event; [reflexivity|]; simpl in Hn; simpl;
    match goal with |- ?x <> _ \/ _ => destruct (decide (x = TaskFailed)); [right; naive_solver|by left] end.
Qed.

(** A granted denial logs one; a refused one nothing. *)
Lemma denial_logged i s r s' :
  accept_legacy_event i TaskApprovalDenied s = (r, s') ->
  match r with
  | Ok _ => exists more, log_of s' i = (log_of s i ++ more)%list /\ denied more = true
      /\ forall j, j <> i -> log_of s' j = log_of s j
  | Err _ => s' = s
  end.
Proof.
  intros H. unfold accept_legacy_event in H. op_run H; try done.
  all: match goal with a : TaskRecord |- _ => destruct (tr_status a) eqn:?; cbn in *; simplify_eq/= end.
  eexists. unfold log_of; simpl. rewrite lookup_insert_eq. simpl. split; [done|]. split; [done|].
  intros j Hj. by rewrite lookup_insert_ne.
Qed.

Lemma undenied_op op s r s' :
  (forall j, op <> OpLegacy j TaskApprovalDenied) -> run_op op s = (r, s') -> undenied s s'.
Proof.
  intros Hop H. destruct (is_query op) eqn:Hq.
  { by rewrite (query_readonly _ _ _ _ Hq H). }
  destruct op; try discriminate Hq; simpl in H; apply reply_inv in H as (q & H & _).
  - unfold accept_task in H. op_run H; undeny.
  - unfold accept_task_with_envelope in H. op_run H; undeny.
  - unfold accept_task_with_envelope_and_context in H. op_run H; undeny.
  - unfold put_transport_context in H. op_run H; undeny.
  - unfold lease_task, lease_task_with_peer_guard in H. op_run H; undeny.
  - unfold lease_task_for_peer, lease_task_with_peer_guard in H. op_run H; undeny.
  - unfold renew_lease in H. op_run H; undeny.
  - by eapply undenied_worker, complete_task_effect.
  - by eapply undenied_worker, fail_task_effect.
  - by eapply undenied_worker, retry_task_effect.
  - by eapply undenied_worker, dead_letter_task_effect.
  - unfold cancel_task in H. op_run H; undeny.
  - unfold fail_expired_deadlines in H. run_inv H. eapply undenied_collect; [|exact H].
    clear. intros x s r s' H. unfold fail_deadline in H. op_run H; undeny.
  - unfold transition_task in H. op_run H; undeny.
  - eapply undenied_legacy; [|exact H]. intros ->. by eapply Hop.
  - unfold recover_stale_leases in H. run_inv H; (eapply undenied_collect; [|eassumption]);
    clear; intros x s r s' H; unfold recover_lease in H; op_run H; undeny.
  - unfold cancel_task_with_result in H. op_run H; undenied_results.
  - unfold complete_task_with_result, finish_task_in_state in H. op_run H; undenied_results.
  - unfold fail_task_with_result, finish_task_in_state, retry_task_in_state, dead_letter_task_in_state in H. op_run H; undenied_results.
Qed.

Lemma log_after_op op s r s' i :
  run_op op s = (r, s') ->
  exists more, log_of s' i = (log_of s i ++ more)%list /\ denied more = denies i op r.
Proof.
  intros H. assert (Hc : (exists j, op = OpLegacy j TaskApprovalDenied) \/ forall j, op <> OpLegacy j TaskApprovalDenied)
    by (destruct op; try (by right); destruct e; try (by right); left; by eexists).
  destruct Hc as [(j & ->)|Hn].
  - simpl in H. apply reply_inv in H as (q & H & ->). apply denial_logged in H.
    destruct q as [t|e]; simpl; [|subst; exists []; by rewrite app_nil_r].
    destruct H as (more & Hj & Hd & Ho). case_bool_decide as E; [subst; by exists more|].
    exists []. by rewrite app_nil_r, Ho.
  - destruct (undenied_op op s r s') with (i := i) as (more & ? & Hd); [done|done|].
    exists more. split; [done|]. rewrite Hd. destruct op; try done. destruct e; try done. naive_solver.
Qed.

(** The task [i] was denied approval in a session of calls and replies. *)
Definition approval_denied (i : TaskId) (ops : list Op) (rs : list (Result Reply StoreError)) : bool :=
  existsb (fun p => denies i p.1 p.2) (zip ops rs).

Lemma log_after_ops ops : forall s rs s' i,
  run_ops ops s = (rs, s') ->
  exists more, log_of s' i = (log_of s i ++ more)%list /\ denied more = approval_denied i ops rs.
Proof.
  induction ops as [|op ops IH]; intros s rs s' i H; simpl in H; simplify_eq.
  - exists []. by rewrite app_nil_r.
  - destruct (run_op op s) as [r s1] eqn:E1, (run_ops ops s1) as [rs' s2] eqn:E2. simplify_eq.
    destruct (log_after_op _ _ _ _ i E1) as (m1 & L1 & D1), (IH _ _ _ i E2) as (m2 & L2 & D2).
    exists (m1 ++ m2)%list. rewrite L2, L1, app_assoc. split; [done|].
    unfold denied, approval_denied in *. simpl. by rewrite existsb_app, D1, D2.
Qed.

(** ** What a failing call writes *)

(** A lease that came after the deadline: the call fails, and so does the task. *)
Definition overdue_lease (op : Op) (e : StoreError) (s s' : InMemoryState) : Prop :=
  exists i l t d,
    (op = OpLease i l \/ exists p, op = OpLeaseForPeer i l p)
    /\ tasks s !! i = Some t /\ is_terminal (tr_status t) = false /\ leases s !! i = None
    /\ tr_deadline_ms t = Some d /\ d <= lr_leased_at_ms l
    /\ e = StoreError.TaskDeadlineExpired i d (lr_leased_at_ms l)
    /\ s' = commit i (tr_status t) TaskTimedOut (with_status t Failed) None s.

Lemma failed_lease i l p s e s' :
  lease_task_with_peer_guard i l p s = (Err e, s') ->
  s' = s \/ exists t d,
    tasks s !! i = Some t /\ is_terminal (tr_status t) = false /\ leases s !! i = None
    /\ tr_deadline_ms t = Some d /\ d <= lr_leased_at_ms l
    /\ e = StoreError.TaskDeadlineExpired i d (lr_leased_at_ms l)
    /\ s' = commit i (tr_status t) TaskTimedOut (with_status t Failed) None s.
Proof.
  intros H. unfold lease_task_with_peer_guard in H. op_run H; try by left.
  all: try (destruct_or?; destruct_and?; by simplify_eq).
  right. match goal with C : tr_deadline_ms ?t ≫= _ = Some ?d |- _ =>
    destruct (tr_deadline_ms t) as [d'|] eqn:Hd; simplify_eq/=; exists t, d end.
  case_match; simplify_eq. repeat split; try done; [lia|]. unfold commit. by rewrite put_lease_none.
Qed.

Lemma failed_result i res s e s' : result_effect i res s (Err e) s' -> s' = s.
Proof. by inversion 1. Qed.

Lemma collect_total {A B} (body : A -> M (list B)) :
  (forall a s, exists b s', body a s = (Ok b, s')) ->
  forall l s, exists b s', for_collect body l s = (Ok b, s').
Proof.
  intros Hb l. induction l as [|a l IH]; intros s; simpl; [by eexists _, _|]. unfold bind.
  destruct (Hb a s) as (b & s1 & ->), (IH s1) as (c & s2 & ->). by eexists _, _.
Qed.

Lemma recover_succeeds now n s : exists r s', recover_stale_leases now n s = (Ok r, s').
Proof.
  unfold recover_stale_leases, bind, get.
  destruct (collect_total recover_lease) with (l := truncate n (stale_leases now s)) (s := s)
    as (b & s1 & ->); [|by eexists _, _].
  intros l s0. unfold recover_lease, bind, get, modify. simpl. case_match; by eexists _, _.
Qed.

Lemma failed_call op s e s' :
  Inv s -> run_op op s = (Err e, s') -> s' = s \/ overdue_lease op e s s'.
Proof.
  intros HI H. destruct (is_query op) eqn:Hq; [left; by eapply query_readonly|].
  destruct op; try discriminate Hq; simpl in H; apply reply_inv in H as ([x|x] & H & E);
    simplify_eq/=.
  - left. unfold accept_task in H. op_run H; done.
  - left. unfold accept_task_with_envelope in H. op_run H; done.
  - left. unfold accept_task_with_envelope_and_context in H. op_run H; done.
  - left. unfold put_transport_context in H. op_run H; done.
  - apply failed_lease in H as [->|(t & d & H)]; [by left|right]. exists i, l, t, d. split; [by left|done].
  - apply failed_lease in H as [->|(t & d & H)]; [by left|right].
    exists i, l, t, d. split; [right; by eexists|done].
  - left. unfold renew_lease in H. op_run H; done.
  - left. by eapply worker_effect_err, complete_task_effect.
  - left. by eapply worker_effect_err, fail_task_effect.
  - left. by eapply worker_effect_err, retry_task_effect.
  - left. by eapply worker_effect_err, dead_letter_task_effect.
  - left. unfold cancel_task in H. op_run H; done.
  - by rewrite fail_expired_deadlines_run in H.
  - left. unfold transition_task in H. op_run H; done.
  - left. unfold accept_legacy_event in H. op_run H; done.
  - destruct (recover_succeeds now limit s) as (r' & s1 & E). congruence.
  - left. by eapply failed_result, cancel_task_with_result_effect.
  - left. by eapply failed_result, complete_task_with_result_effect.
  - left. by eapply failed_result, fail_task_with_result_effect.
Qed.

(** ** Failed attempts *)

(** The counters of failed attempts stand where they stood. *)
Definition same_attempts (s s' : InMemoryState) : Prop :=
  forall i t, tasks s !! i = Some t -> exists t', tasks s' !! i = Some t'
    /\ tr_retry_count t' = tr_retry_count t /\ tr_dead_lettered t' = tr_dead_lettered t.

#[export] Instance same_attempts_preorder : PreOrder same_attempts.
Proof.
  split.
  - intros s i t Ht. by exists t.
  - intros a b c H1 H2 i t Ht. destruct (H1 i t Ht) as (t1 & Ht1 & R1 & D1).
    destruct (H2 i t1 Ht1) as (t2 & Ht2 & R2 & D2). exists t2. split; [done|]. split; congruence.
Qed.

Lemma same_attempts_same s s' : tasks s' = tasks s -> same_attempts s s'.
Proof. intros E i t Ht. exists t. by rewrite E. Qed.

Lemma same_attempts_update i t t' s s' :
  tasks s' = <[i := t']> (tasks s) -> tasks s !! i = Some t ->
  tr_retry_count t' = tr_retry_count t -> tr_dead_lettered t' = tr_dead_lettered t ->
  same_attempts s s'.
Proof.
  intros E Ht Hr Hd j u Hu. rewrite E. destruct (decide (i = j)) as [<-|Hj].
  - rewrite lookup_insert_eq. simplify_eq. by eexists.
  - rewrite lookup_insert_ne by done. by exists u.
Qed.

Lemma same_attempts_new i t' s s' :
  tasks s' = <[i := t']> (tasks s) -> tasks s !! i = None -> same_attempts s s'.
Proof. intros E Hn j u Hu. rewrite E, lookup_insert_ne by congruence. by exists u. Qed.

Lemma same_attempts_collect {A B} (body : A -> M (list B)) :
  (forall a s r s', body a s = (r, s') -> same_attempts s s') ->
  forall l s r s', for_collect body l s = (r, s') -> same_attempts s s'.
Proof.
  intros Hb l. induction l as [|a l IH]; intros s r s' H; simpl in H; run_inv H;
    [reflexivity|..]; try (etrans; [by eapply Hb|]); by eauto.
Qed.

Lemma tasks_set_idempotency k i s : tasks (set_idempotency_opt k i s) = tasks s.
Proof. by destruct k. Qed.

Lemma same_attempts_result i res s r s1 s' :
  same_attempts s s1 -> store_result i res s1 = (r, s') -> same_attempts s s'.
Proof.
  intros Hd [_ ->]%store_result_inv. etrans; [done|]. apply same_attempts_same, put_result_tasks.
Qed.

Ltac keep1 :=
  first [ reflexivity
        | apply same_attempts_same; reflexivity
        | eapply same_attempts_update; [reflexivity|eassumption|reflexivity|reflexivity]
        | eapply same_attempts_new; [simpl; rewrite ?tasks_set_idempotency; reflexivity|eassumption] ].
Ltac keep := first [keep1|destruct_or?; destruct_and?; simplify_eq/=; keep1].
Ltac keep_results :=
  try keep; match goal with E : store_result _ _ _ = _ |- _ =>
    eapply same_attempts_result; [|exact E]; keep end.

(** The calls that raise the counter of the task [i]. *)
Definition counts_attempt (i : TaskId) (op : Op) : bool :=
  match op with
  | OpFail j _ _ _ _ | OpFailResult j _ _ _ _ _ | OpRetry j _ _ | OpDeadLetter j _ _ _ =>
      bool_decide (j = i)
  | _ => false
  end.

Definition any_attempt (op : Op) : bool :=
  match op with
  | OpFail _ _ _ _ _ | OpFailResult _ _ _ _ _ _ | OpRetry _ _ _ | OpDeadLetter _ _ _ _ => true
  | _ => false
  end.

Lemma same_attempts_op op s r s' :
  any_attempt op = false -> run_op op s = (r, s') -> same_attempts s s'.
Proof.
  intros Hop H. destruct (is_query op) eqn:Hq.
  { by rewrite (query_readonly _ _ _ _ Hq H). }
  destruct op; try discriminate Hq; try discriminate Hop; simpl in H; apply reply_inv in H as (q & H & _).
  - unfold accept_task in H. op_run H; keep.
  - unfold accept_task_with_envelope in H. op_run H; keep.
  - unfold accept_task_with_envelope_and_context in H. op_run H; keep.
  - unfold put_transport_context in H. op_run H; keep.
  - unfold lease_task, lease_task_with_peer_guard in H. op_run H; keep.
  - unfold lease_task_for_peer, lease_task_with_peer_guard in H. op_run H; keep.
  - unfold renew_lease in H. op_run H; keep.
  - unfold complete_task, finish_task, finish_task_in_state in H. op_run H; keep.
  - unfold cancel_task in H. op_run H; keep.
  - unfold fail_expired_deadlines in H. run_inv H. eapply same_attempts_collect; [|exact H].
    clear. intros x s r s' H. unfold fail_deadline in H. op_run H; keep.
  - unfold transition_task in H. op_run H; keep.
  - unfold accept_legacy_event in H. op_run H; keep.
  - unfold recover_stale_leases in H. run_inv H; (eapply same_attempts_collect; [|eassumption]);
    clear; intros x s r s' H; unfold recover_lease in H; op_run H; keep.
  - unfold cancel_task_with_result in H. op_run H; keep_results.
  - unfold complete_task_with_result, finish_task_in_state in H. op_run H; keep_results.
Qed.

(** A call about one task leaves the others. *)
Lemma others_keep op s r s' i :
  any_attempt op = true -> counts_attempt i op = false -> run_op op s = (r, s') ->
  tasks s' !! i = tasks s !! i.
Proof.
  intros Ha Hi H. destruct op; try discriminate Ha; simpl in H, Hi; apply reply_inv in H as (q & H & _);
    apply bool_decide_eq_false in Hi.
  1: apply fail_task_effect in H. 2: apply retry_task_effect in H. 3: apply dead_letter_task_effect in H.
  1-3: inversion H; subst; [done|]; rewrite commit_tasks; by apply lookup_insert_ne.
  apply fail_task_with_result_effect in H. inversion H; subst; [done|done|..];
    rewrite ?put_result_tasks, commit_tasks; by apply lookup_insert_ne.
Qed.
