(* ===== verification/MemBudget.v ===== *)
(** * The retry budget

    What becomes of a task whose attempts fail, whatever happens in between. *)
From S2P Require Import Prelude Ident Lifecycle StoreModel Api MemStore MemSpec MemInv Samples.
From S2P Require Import MemLease MemFrames.
From stdpp Require Import options.
#[local] Open Scope Z_scope.

(** What a worker's report of a failure makes of a running task under a
    policy with [max_retries] retries. *)
Definition after_failure (max_retries : Z) (reason : string) (t : TaskRecord) : TaskRecord :=
  if max_retries =? 0 then with_metadata t Failed (tr_retry_count t) false None
  else if u32_saturating_add (tr_retry_count t) 1 <=? max_retries then requeued t
  else dead_lettered t reason.

Definition reports_failure (op : Op) : option (TaskId * string * RetryPolicy) :=
  match op with
  | OpFail i _ _ reason p | OpFailResult i _ _ reason p _ => Some (i, reason, p)
  | _ => None
  end.

Ltac failure_decided :=
  repeat match goal with E : store_result _ _ _ = _ |- _ => apply store_result_inv in E as [? ->] end;
  rewrite ?put_result_tasks;
  destruct_or?; destruct_and?; simplify_eq/=;
  right; eexists; split; [eassumption|]; split; [done|];
  simpl; rewrite lookup_insert_eq; unfold after_failure, requeued, dead_lettered;
  repeat match goal with
         | |- context [?x =? ?y] => destruct (Z.eqb_spec x y); try lia
         | |- context [?x <=? ?y] => destruct (Z.leb_spec x y); try lia
         end; by split.

(** A report of a failure is refused, or repeats the report of an ended task, or
    ends the attempt as the policy says. *)
Lemma failure_report op i reason p s r s' :
  Inv s -> reports_failure op = Some (i, reason, p) -> run_op op s = (r, s') ->
  in_u32 (max_retries p) ->
  (s' = s /\ forall t, r = Ok (RTask t) -> is_terminal (tr_status t) = true)
  \/ exists t, tasks s !! i = Some t /\ tr_status t = Running
     /\ r = Ok (RTask (after_failure (max_retries p) reason t))
     /\ tasks s' !! i = Some (after_failure (max_retries p) reason t).
Proof.
  intros HI Hop H Hp. apply in_u32_nonneg in Hp.
  destruct op; simplify_eq/=; apply reply_inv in H as (q & H & ->).
  - unfold fail_task, finish_task_in_state, retry_task_in_state, dead_letter_task_in_state,
      should_retry_after_failure in H.
    op_run H; try (left; by split).
    all: failure_decided.
  - unfold fail_task_with_result, finish_task_in_state, retry_task_in_state, dead_letter_task_in_state,
      should_retry_after_failure in H.
    op_run H; try (left; by split).
    all: try (failure_decided; fail).
    all: try by match goal with E : store_result _ _ _ = _ |- _ => apply store_result_inv in E as [? ->] end.
    left. split; [done|]. intros t Ht. destruct r as [t0|]; simplify_eq/=.
    match goal with C : existing_result _ _ _ = _ |- _ => rename C into Hex end.
    unfold existing_result in Hex. destruct (terminal_results _ !! _) as [res|] eqn:Hres; [|done].
    simplify_eq. case_bool_decide; [|done]. destruct (inv_result _ HI _ _ Hres) as (_ & u & Hu & Hterm).
    rewrite Hu in Hex. by simplify_eq/=.
Qed.

(** How often a report of a failure sent the task [i] back to the queue. *)
Definition requeue (i : TaskId) (op : Op) (r : Result Reply StoreError) : Z :=
  match reports_failure op, r with
  | Some (j, _, _), Ok (RTask t) =>
      if bool_decide (j = i) && bool_decide (tr_status t = Pending) then 1 else 0
  | _, _ => 0
  end.

Definition requeues (i : TaskId) (ops : list Op) (rs : list (Result Reply StoreError)) : Z :=
  foldr (fun p n => requeue i p.1 p.2 + n) 0 (zip ops rs).

(** The failures of the task [i] are reported under policies with [m]
    retries, and nothing else raises its counter. *)
Definition policed (i : TaskId) (m : Z) (op : Op) : Prop :=
  match op with
  | OpFail j _ _ _ p | OpFailResult j _ _ _ p _ => j = i -> max_retries p = m
  | OpRetry j _ _ | OpDeadLetter j _ _ _ => j <> i
  | _ => True
  end.

(** The counter of a task that was requeued [n] times. *)
Definition budgeted (m n : Z) (t : TaskRecord) : Prop :=
  n <= m /\ tr_retry_count t = n + (if tr_dead_lettered t then 1 else 0)
  /\ (tr_dead_lettered t = true -> 0 < m /\ n = m).

Lemma budgeted_failure m n reason t :
  0 <= n -> 0 <= m < u32_max -> tr_dead_lettered t = false -> budgeted m n t ->
  budgeted m (n + if bool_decide (tr_status (after_failure m reason t) = Pending) then 1 else 0)
    (after_failure m reason t).
Proof.
  intros Hn Hm Hd (Hle & Hc & _). rewrite Hd in Hc.
  assert (Hs : u32_saturating_add (tr_retry_count t) 1 = tr_retry_count t + 1)
    by (unfold u32_saturating_add; lia).
  unfold after_failure, budgeted, requeued, dead_lettered. rewrite Hs.
  destruct (Z.eqb_spec m 0); [simpl; repeat split; try done; lia|].
  destruct (Z.leb_spec (tr_retry_count t + 1) m); simpl; rewrite ?Hd; repeat split; try done; lia.
Qed.

Lemma budget_op i m n op s t r s' :
  Inv s -> 0 <= n -> 0 <= m < u32_max -> policed i m op -> run_op op s = (r, s') ->
  tasks s !! i = Some t -> budgeted m n t ->
  exists t', tasks s' !! i = Some t' /\ budgeted m (n + requeue i op r) t'.
Proof.
  intros HI Hn Hm Hp H Ht Hb. destruct (any_attempt op) eqn:Ha.
  - destruct (counts_attempt i op) eqn:Hi.
    + assert (exists reason p, reports_failure op = Some (i, reason, p) /\ max_retries p = m)
        as (reason & p & Hf & Hpm).
      { destruct op; try discriminate Ha; simpl in Hi, Hp; apply bool_decide_eq_true in Hi as ->;
          try done; eexists _, _; eauto. }
      unfold requeue. rewrite Hf, bool_decide_true by done. simpl.
      destruct (failure_report op i reason p s r s' HI Hf H) as [[-> Hr]|(u & Hu & Hs & -> & Hu')].
      { unfold in_u32, u32_max in *. lia. }
      * exists t. split; [done|]. destruct r as [[]|]; rewrite ?Z.add_0_r; try done.
        pose proof (Hr _ eq_refl) as Hterm. rewrite bool_decide_false by (by intros E; rewrite E in Hterm).
        by rewrite Z.add_0_r.
      * assert (u = t) as -> by congruence. subst m. eexists. split; [done|].
        apply budgeted_failure; try done. destruct (tr_dead_lettered t) eqn:Hd; [|done].
        destruct (inv_dead _ HI _ _ Hu Hd). congruence.
    + exists t. rewrite (others_keep _ _ _ _ _ Ha Hi H). split; [done|].
      unfold requeue. destruct op; try discriminate Ha; simpl in *; rewrite ?Hi; simpl;
        try (destruct r as [[]|]); by rewrite Z.add_0_r.
  - destruct (same_attempts_op _ _ _ _ Ha H _ _ Ht) as (t' & Ht' & Hr & Hd).
    exists t'. split; [done|]. unfold requeue. destruct op; try discriminate Ha; simpl;
      rewrite Z.add_0_r; unfold budgeted in *; by rewrite Hr, Hd.
Qed.

Lemma requeue_nonneg i op r : 0 <= requeue i op r.
Proof. unfold requeue. repeat case_match; lia. Qed.

Lemma requeues_nonneg i ops rs : 0 <= requeues i ops rs.
Proof.
  unfold requeues. induction (zip ops rs) as [|[op r] l IH]; simpl; [lia|].
  pose proof (requeue_nonneg i op r). lia.
Qed.

Lemma budget_ops i m ops : forall n s t rs s',
  Inv s -> 0 <= n -> 0 <= m < u32_max -> Forall op_fresh ops -> Forall (policed i m) ops ->
  run_ops ops s = (rs, s') -> tasks s !! i = Some t -> budgeted m n t ->
  exists t', tasks s' !! i = Some t' /\ budgeted m (n + requeues i ops rs) t'.
Proof.
  induction ops as [|op ops IH]; intros n s t rs s' HI Hn Hm Hf Hp H Ht Hb; simpl in H.
  - simplify_eq. exists t. by rewrite Z.add_0_r.
  - destruct (run_op op s) as [r s1] eqn:E1, (run_ops ops s1) as [rs' s2] eqn:E2. simplify_eq.
    apply Forall_cons in Hf as [Hf Hfs]. apply Forall_cons in Hp as [Hp Hps].
    destruct (budget_op _ _ _ _ _ _ _ _ HI Hn Hm Hp E1 Ht Hb) as (t1 & Ht1 & Hb1).
    pose proof (requeue_nonneg i op r).
    destruct (IH (n + requeue i op r) s1 t1 rs' s') as (t2 & Ht2 & Hb2); try done; [|lia|].
    + eapply Inv_steps; [done|]. by eapply run_op_steps.
    + exists t2. split; [done|]. unfold requeues in *. simpl. by rewrite Z.add_assoc.
Qed.

(** C29: the retry budget, over every history. Take a task that has not failed
    yet, and any calls after it: leases, renewals, sweeps, recoveries,
    transitions, reports by any workers, with any reasons, of this task or
    others. As long as the failures of this task are reported under policies
    with [m] retries and no call asks for a retry or a dead letter by name, the
    task is sent back to the queue by a failure at most [m] times; its counter
    is the number of those times, and one more once it is dead-lettered; it is
    dead-lettered only after all [m] retries were used. The next report of a
    failure by the holder of its lease fails the task without a dead letter
    if [m] is 0, requeues it while fewer than [m] retries were used, and
    dead-letters it with its reason otherwise. *)
Theorem retry_budget i m ops s t rs s' :
  Inv s -> tasks s !! i = Some t -> tr_retry_count t = 0 -> tr_dead_lettered t = false ->
  0 <= m < u32_max -> Forall op_fresh ops -> Forall (policed i m) ops ->
  run_ops ops s = (rs, s') ->
  let n := requeues i ops rs in
  exists t', tasks s' !! i = Some t'
    /\ n <= m
    /\ tr_retry_count t' = n + (if tr_dead_lettered t' then 1 else 0)
    /\ (tr_dead_lettered t' = true -> 0 < m /\ n = m)
    /\ forall l w reason p, reporting s' i t' l w -> max_retries p = m ->
       (fail_task i (lr_lease_id l) w reason p s').1 =
       Ok (if m =? 0 then with_metadata t' Failed 0 false None
           else if n <? m
                then with_metadata t' Pending (n + 1) (tr_dead_lettered t') (tr_dead_letter_reason t')
                else with_metadata t' Failed (m + 1) true (Some reason)).
Proof.
  intros HI Ht Hr Hd Hm Hf Hp H n.
  destruct (budget_ops i m ops 0 s t rs s') as (t' & Ht' & Hle & Hc & Hdl); try done.
  { unfold budgeted. rewrite Hd. repeat split; try done; lia. }
  rewrite Z.add_0_l in *. exists t'. repeat (split; [done|]). intros l w reason p Hrep Hpm.
  assert (HI' : Inv s') by by eapply Inv_run_ops.
  assert (Hdf : tr_dead_lettered t' = false).
  { destruct (tr_dead_lettered t') eqn:E; [|done]. destruct (inv_dead _ HI' _ _ Ht' E).
    pose proof (rp_running _ _ _ _ _ Hrep). congruence. }
  rewrite Hdf in Hc. rewrite (fail_task_run _ _ _ _ _ _ _ Hrep), Hpm. cbv zeta.
  assert (Hs : u32_saturating_add (tr_retry_count t') 1 = n + 1)
    by (unfold u32_saturating_add, n in *; lia).
  pose proof (requeues_nonneg i ops rs) as Hn.
  rewrite Hs. destruct (Z.eqb_spec m 0); [simpl; repeat f_equal; unfold n in *; lia|].
  rewrite (proj2 (Z.ltb_lt 0 m)) by lia. simpl. unfold requeued, dead_lettered. rewrite Hs.
  destruct (Z.leb_spec (n + 1) m), (Z.ltb_spec n m); try lia; [done|].
  simpl. repeat f_equal. unfold n in *. lia.
Qed.

Definition failing_ops : list Op :=
  [OpFail task_a lease_1 worker_a "boom" policy_2;
   OpLease task_a (new_lease lease_2 task_a worker_b 300 900);
   OpRenew task_a lease_2 worker_b 400 950;
   OpFailResult task_a lease_2 worker_b "bang" policy_2 failure_a;
   OpLease task_a lease_a].

Lemma retry_budget_witness :
  let s' := (run_ops failing_ops running).2 in
  (fail_task task_a lease_1 worker_a "crash" policy_2 s').1
  = Ok (with_metadata record_a Failed 3 true (Some "crash")).
Proof.
  intros s'.
  destruct (retry_budget task_a 2 failing_ops running (with_status record_a Running)
    (run_ops failing_ops running).1 s') as (t' & Ht' & _ & _ & _ & Hnext);
    [exact Inv_running|vm_compute; reflexivity|reflexivity|reflexivity|by vm_compute
    |repeat constructor|repeat constructor|apply surjective_pairing|].
  vm_compute in Ht'. injection Ht' as <-.
  etrans; [apply (Hnext lease_a worker_a "crash" policy_2); [split; vm_compute; reflexivity|reflexivity]|].
  vm_compute. reflexivity.
Defined.
