(* ===== verification/MemHistory.v ===== *)
(** * Histories of the in-memory store

    What holds of every sequence of calls on the store from its initial
    state: the invariant, what later calls cannot undo, what replay returns,
    and what accepting, cancelling and reporting results guarantee. *)
From S2P Require Import Prelude Ident Lifecycle StoreModel Api MemStore MemSpec MemInv Samples.
From S2P Require Import MemLease MemSweep MemFrames.
From stdpp Require Import options.
From Stdlib Require Import Strings.Byte.

(** C1: every state that a sequence of calls reaches is well formed: records
    are stored under their own ids, a lease exists only for a running task and
    names its worker, idempotency keys index exactly the tasks that carry
    them, a terminal result exists only for a finished task and each result
    with a return peer has exactly its outbox entry, and each task's log is
    numbered from 1, ends in the task's status and replays to it. *)
Theorem reachable_states_are_well_formed ops rs s :
  Forall op_fresh ops -> run_ops ops empty_state = (rs, s) -> Inv s.
Proof. intros Hf. apply Inv_run_ops; [done|apply Inv_empty]. Qed.

Lemma reachable_states_are_well_formed_witness : Inv (run_ops running_ops empty_state).2.
Proof.
  apply (reachable_states_are_well_formed running_ops (run_ops running_ops empty_state).1);
    [exact running_ops_fresh|apply surjective_pairing].
Defined.

(** C39: no sequence of calls undoes what is durable. Tasks stay, with their
    id, idempotency key and deadline, a retry counter that never falls and,
    once completed or failed, their whole record; logs only grow at the end;
    envelopes, idempotency keys and terminal results never change. *)
Theorem history_is_append_only ops s rs s' :
  Forall op_fresh ops -> Inv s -> run_ops ops s = (rs, s') -> extends s s'.
Proof. eauto using extends_steps, run_ops_steps. Qed.

Lemma history_is_append_only_witness :
  exists rs s', run_ops [OpComplete task_a lease_1 worker_a; OpCancel task_a 0] running = (rs, s')
    /\ extends running s'.
Proof.
  eexists _, _. split; [apply surjective_pairing|].
  eapply (history_is_append_only [OpComplete task_a lease_1 worker_a; OpCancel task_a 0]);
    [repeat constructor|exact Inv_running|apply surjective_pairing].
Defined.

(** C15: every call moves the store along the state machine of MemSpec: what
    it did is a sequence of steps, each of them an acceptance, one lifecycle
    event of one task, a renewal, a context, a result of a finished task or
    the removal of an orphaned lease. A call that fails on a well-formed store
    takes no step at all, with one exception: a lease that comes at or after
    the task's deadline is refused and takes exactly the step that fails the
    task. *)
Theorem calls_refine_the_state_machine op s r s' :
  op_fresh op -> run_op op s = (r, s') ->
  steps s s'
  /\ forall e, r = Err e -> Inv s -> s' = s \/ overdue_lease op e s s'.
Proof.
  intros Hf H. split; [by eapply run_op_steps|]. intros e -> HI. by apply failed_call.
Qed.

(** A lease at 700 of a task that was due at 500, and a claim with a foreign lease id. *)
Lemma calls_refine_the_state_machine_witness :
  let late := OpLease task_b (new_lease lease_2 task_b worker_b 700 900) in
  let s' := (run_op late running).2 in
  (steps running s' /\ (s' = running \/ overdue_lease late
     (StoreError.TaskDeadlineExpired task_b 500 700) running s') /\ tr_status <$> tasks s' !! task_b = Some Failed)
  /\ (run_op (OpComplete task_a lease_2 worker_a) running).2 = running.
Proof.
  intros late s'. split.
  - destruct (calls_refine_the_state_machine late running
      (Err (StoreError.TaskDeadlineExpired task_b 500 700)) s' I) as [Hs He];
      [apply pair_of_fst; vm_compute; reflexivity|].
    split; [exact Hs|]. split; [exact (He _ eq_refl Inv_running)|vm_compute; reflexivity].
  - destruct (calls_refine_the_state_machine (OpComplete task_a lease_2 worker_a) running
      (run_op (OpComplete task_a lease_2 worker_a) running).1
      (run_op (OpComplete task_a lease_2 worker_a) running).2 I (surjective_pairing _)) as [_ He].
    destruct (run_op _ running).1 as [t|e] eqn:E; [vm_compute in E; discriminate E|].
    destruct (He e eq_refl Inv_running) as [H|(i & l & t & d & [Ho|(p & Ho)] & _)];
      [exact H|discriminate Ho|discriminate Ho].
Defined.

(** ** Replay *)

(** C36: replay. After any calls from the empty store, replaying the event
    log of a task gives back exactly its stored record, unless one of the
    calls denied the task's approval and was granted: then replay reports the
    stream as corrupt. Nothing else makes it fail. *)
Theorem replay_returns_the_record ops rs s i t :
  Forall op_fresh ops -> run_ops ops empty_state = (rs, s) -> tasks s !! i = Some t ->
  replay_task i s =
  (if approval_denied i ops rs then Err (StoreError.CorruptEventStream i) else Ok t, s).
Proof.
  intros Hf H Ht. pose proof (Inv_run_ops _ _ _ _ Hf Inv_empty H) as HI.
  destruct (proj2 (inv_events _ HI i)) as [evs He]; [by eexists|].
  destruct (log_after_ops _ _ _ _ i H) as (more & Hlog & <-).
  unfold log_of in Hlog. simpl in Hlog. rewrite He, lookup_empty in Hlog. simpl in Hlog. subst more.
  unfold replay_task, bind, get, lift, ok_or. rewrite Ht, He. by rewrite (replay_reachable s i t evs).
Qed.

(** A task that is leased and then cancelled is replayed; one whose approval was denied is not. *)
Lemma replay_returns_the_record_witness :
  let ops := running_ops ++ [OpLegacy task_b TaskApprovalDenied; OpCancel task_a 500] in
  let s := (run_ops ops empty_state).2 in
  (replay_task task_a s).1 = Ok (with_status record_a Failed)
  /\ (replay_task task_b s).1 = Err (StoreError.CorruptEventStream task_b).
Proof.
  intros ops s.
  assert (Hf : Forall op_fresh ops)
    by (apply Forall_app; split; [exact running_ops_fresh|repeat constructor]).
  split.
  - rewrite (replay_returns_the_record ops (run_ops ops empty_state).1 s task_a (with_status record_a Failed)
      Hf (surjective_pairing _)); vm_compute; reflexivity.
  - rewrite (replay_returns_the_record ops (run_ops ops empty_state).1 s task_b (with_status record_b Failed)
      Hf (surjective_pairing _)); vm_compute; reflexivity.
Defined.

(** A denied approval leaves the task failed and its log unreplayable: the
    store accepts the event on any pending task, and from then on, whatever
    calls follow, replay reports that task's stream as corrupt. *)
Theorem denied_approval_corrupts_replay s i t ops rs s' :
  Inv s -> tasks s !! i = Some t -> tr_status t = Pending -> Forall op_fresh ops ->
  let s1 := (accept_legacy_event i TaskApprovalDenied s).2 in
  run_ops ops s1 = (rs, s') ->
  (accept_legacy_event i TaskApprovalDenied s).1 = Ok (with_status t Failed)
  /\ replay_task i s' = (Err (StoreError.CorruptEventStream i), s').
Proof.
  intros HI Ht Hs Hf s1 Hrun.
  assert (Hl : leases s !! i = None) by (eapply pending_not_leased; [done..|by rewrite Hs]).
  assert (Hacc : accept_legacy_event i TaskApprovalDenied s =
    (Ok (with_status t Failed), commit i Pending TaskFailed (with_status t Failed) None s)).
  { unfold accept_legacy_event, plan_legacy_event_append. op_eval. done. }
  unfold s1 in Hrun. rewrite Hacc in Hrun |- *. simpl in Hrun. split; [done|].
  set (s2 := commit _ _ _ _ _ s) in *.
  assert (HI2 : Inv s2).
  { unfold s2. rewrite <- Hs. apply Inv_commit; [done|done|]. by apply lc_denied. }
  pose proof (extends_steps _ _ HI2 (run_ops_steps _ _ _ _ Hf Hrun)) as Hext.
  pose proof (Inv_run_ops _ _ _ _ Hf HI2 Hrun) as HI'.
  destruct (ex_tasks _ _ Hext i (with_status t Failed)) as (t' & Ht' & _).
  { unfold s2. by rewrite commit_tasks, lookup_insert_eq. }
  assert (He : exists evs, events s2 !! i = Some evs /\ denied evs = true).
  { unfold s2. rewrite commit_events, lookup_insert_eq. eexists; split; [done|].
    unfold denied. rewrite existsb_app. simpl. by rewrite orb_true_r. }
  destruct He as (evs & He & Hd). destruct (ex_events _ _ Hext _ _ He) as (more & Hm).
  unfold replay_task, bind, get, lift, ok_or. rewrite Ht', Hm.
  rewrite (replay_reachable s' i t' (evs ++ more)) by done.
  unfold denied in *. by rewrite existsb_app, Hd.
Qed.

Lemma denied_approval_corrupts_replay_witness :
  exists s', replay_task task_a s' = (Err (StoreError.CorruptEventStream task_a), s')
    /\ s' = (run_ops [OpRecover 0 None] (accept_legacy_event task_a TaskApprovalDenied queued).2).2.
Proof.
  eexists. split; [|reflexivity].
  eapply (denied_approval_corrupts_replay queued task_a record_a [OpRecover 0 None]);
    [exact Inv_queued|vm_compute; reflexivity|reflexivity|repeat constructor
    |apply surjective_pairing].
Defined.

(** ** Accepting twice *)

Lemma accept_with_envelope_post t e s t0 s1 :
  Inv s -> accept_task_with_envelope t e s = (Ok t0, s1) ->
  tr_status t = Pending /\ tasks s1 !! tr_id t = Some t /\ envelopes s1 !! tr_id t = Some e
  /\ (forall k, tr_idempotency_key t = Some k -> idempotency s1 !! k = Some (tr_id t)).
Proof.
  intros HI H. unfold accept_task_with_envelope in H. op_run H.
  - match goal with C : idempotent_hit ?t _ = Some _ |- _ => unfold idempotent_hit in C;
      destruct (tr_idempotency_key t) as [k|] eqn:Hk; [|done];
      destruct (idempotency _ !! k) as [j|] eqn:Hj; [|done]; simplify_eq/= end.
    destruct (tasks _ !! _) as [u|] eqn:Hu; simplify_eq/=.
    case_bool_decide; simplify_eq. pose proof (inv_id _ HI _ _ Hu) as Hid. subst.
    repeat split; try done. by intros ? [= <-].
  - unfold set_idempotency_opt. rewrite !lookup_insert_eq. repeat split; try done.
    intros k Hk. rewrite Hk. simpl. by rewrite lookup_insert_eq.
Qed.

(** What a second submission with the same idempotency key is answered, when
    the task is now recorded as [t'] with the envelope [e]. *)
Definition duplicate_reply (k : IdempotencyKey) (t t' : TaskRecord) (e e' : TaskEnvelopeRecord)
    : StoreResult TaskRecord :=
  if bool_decide (t' = t) then
    if bool_decide (e = e') then Ok t else Err (StoreError.TaskEnvelopeConflict (tr_id t))
  else Err (StoreError.IdempotencyConflict k (tr_id t)).

(** A task submitted again under its idempotency key, after any calls in
    between, never creates a second task and never logs a second event. It
    gets the stored record back only while that record is exactly the one
    submitted and the envelope agrees in every field; an envelope that
    differs only in its arrival time is an envelope conflict, and once the
    task has been leased (or has otherwise moved) the same submission is an
    idempotency conflict. *)
Theorem duplicate_submission t e e' k ops s t0 s1 rs s2 :
  Inv s -> op_fresh (OpAcceptEnvelope t e) -> Forall op_fresh ops ->
  tr_idempotency_key t = Some k -> en_task_id e' = tr_id t ->
  accept_task_with_envelope t e s = (Ok t0, s1) -> run_ops ops s1 = (rs, s2) ->
  exists t', tasks s2 !! tr_id t = Some t'
    /\ accept_task_with_envelope t e' s2 = (duplicate_reply k t t' e e', s2).
Proof.
  intros HI Hf Hfs Hk He' Hacc Hrun.
  destruct (accept_with_envelope_post _ _ _ _ _ HI Hacc) as (Hs & Ht & He & Hidem).
  assert (HI1 : Inv s1) by (eapply Inv_steps; [done|by eapply accept_task_with_envelope_steps]).
  pose proof (extends_steps _ _ HI1 (run_ops_steps _ _ _ _ Hfs Hrun)) as Hext.
  destruct (ex_tasks _ _ Hext _ _ Ht) as (t' & Ht' & _). exists t'. split; [done|].
  pose proof (lookup_weaken _ _ _ _ (Hidem _ Hk) (ex_idempotency _ _ Hext)) as Hidem'.
  pose proof (lookup_weaken _ _ _ _ He (ex_envelopes _ _ Hext)) as Hen'.
  unfold accept_task_with_envelope, validate_accepted_task_status, ensure_pending_accept,
    ensure_matching_envelope_task_id, idempotent_hit, duplicate_reply, bind, lift, get.
  rewrite Hs, He', !bool_decide_true by done. rewrite Hk, Hidem', Ht'. simpl.
  destruct (bool_decide (t' = t)) eqn:Et; [|done]. apply bool_decide_eq_true in Et as ->.
  rewrite Hen'. by destruct (bool_decide (e = e')).
Qed.

(** The same submission five milliseconds later, and after the task was leased. *)
Lemma duplicate_submission_witness :
  let s1 := (accept_task_with_envelope record_a envelope_a empty_state).2 in
  let s2 := (run_ops [OpLease task_a lease_a] s1).2 in
  (accept_task_with_envelope record_a (MkEnvelope task_a [x01; x02] 105) s1).1
    = Err (StoreError.TaskEnvelopeConflict task_a)
  /\ (accept_task_with_envelope record_a envelope_a s2).1
    = Err (StoreError.IdempotencyConflict key_a task_a).
Proof.
  intros s1 s2.
  assert (Hacc : accept_task_with_envelope record_a envelope_a empty_state = (Ok record_a, s1))
    by (apply pair_of_fst; vm_compute; reflexivity).
  assert (Hf : op_fresh (OpAcceptEnvelope record_a envelope_a)) by (repeat constructor; by intros [=]).
  split.
  - destruct (duplicate_submission record_a envelope_a (MkEnvelope task_a [x01; x02] 105) key_a []
      empty_state record_a s1 [] s1 Inv_empty Hf (Forall_nil_2 _) eq_refl eq_refl Hacc eq_refl)
      as (t' & Ht' & H).
    vm_compute in Ht'. injection Ht' as <-. rewrite H. vm_compute. reflexivity.
  - destruct (duplicate_submission record_a envelope_a envelope_a key_a [OpLease task_a lease_a]
      empty_state record_a s1 (run_ops [OpLease task_a lease_a] s1).1 s2 Inv_empty Hf
      (Forall_cons_2 op_fresh (OpLease task_a lease_a) [] I (Forall_nil_2 _)) eq_refl eq_refl Hacc (surjective_pairing _))
      as (t' & Ht' & H).
    vm_compute in Ht'. injection Ht' as <-. rewrite H. vm_compute. reflexivity.
Defined.

(** ** Cancelling *)

(** Cancelling a running task. The store grants it while the lease is
    alive, with one exception: it asks whether the expiry could be raised by
    one millisecond, and a lease that expires at the largest [i64] never can,
    so such a task cannot be cancelled at any time. A granted cancellation
    fails the task, releases the lease and logs one [TaskCanceled] event; a
    refused one changes nothing. *)
Theorem cancel_running_task i now s t l :
  tasks s !! i = Some t -> tr_status t = Running -> leases s !! i = Some l ->
  in_i64 (lr_expires_at_ms l) ->
  cancel_task i now s =
    if (now <? lr_expires_at_ms l) && (lr_expires_at_ms l <? i64_max)
    then (Ok (with_status t Failed), commit i Running TaskCanceled (with_status t Failed) None s)
    else (Err (StoreError.InvalidLeaseExpiry (lr_lease_id l) (lr_expires_at_ms l)
                 (i64_saturating_add (lr_expires_at_ms l) 1) now), s).
Proof.
  intros Ht Hs Hl Hr.
  assert (Hguard : ensure_active_lease_unexpired l now =
    if (now <? lr_expires_at_ms l) && (lr_expires_at_ms l <? i64_max) then Ok tt
    else Err (StoreError.InvalidLeaseExpiry (lr_lease_id l) (lr_expires_at_ms l)
                (i64_saturating_add (lr_expires_at_ms l) 1) now)).
  { unfold ensure_active_lease_unexpired, ensure_valid_lease_expiry.
    replace (_ && _ && _) with ((now <? lr_expires_at_ms l) && (lr_expires_at_ms l <? i64_max));
      [done|].
    apply eq_true_iff_eq. rewrite !andb_true_iff, !Z.ltb_lt. unfold_ints. lia. }
  unfold cancel_task, find_task, get_task, find_lease. unfold bind, get, lift, ok_or.
  rewrite Ht, Hs. simpl. rewrite Hl, Hguard. by destruct (_ && _).
Qed.

Lemma cancel_running_task_witness :
  (cancel_task task_a 500 running).1 = Ok (with_status record_a Failed)
  /\ let s := set_lease task_a (with_expiry lease_a i64_max) running in
     is_ok (cancel_task task_a 500 s).1 = false.
Proof.
  split.
  - rewrite (cancel_running_task task_a 500 running (with_status record_a Running) lease_a);
      [vm_compute; reflexivity|vm_compute; reflexivity|reflexivity|vm_compute; reflexivity|].
    by vm_compute.
  - cbv zeta. rewrite (cancel_running_task task_a 500 _ (with_status record_a Running)
      (with_expiry lease_a i64_max));
      [vm_compute; reflexivity|vm_compute; reflexivity|reflexivity|vm_compute; reflexivity|].
    by vm_compute.
Defined.

(** ** Results *)

(** The calls that report a result, with the task they are about. *)
Definition reports_result (op : Op) : option (TaskId * TerminalResultRecord) :=
  match op with
  | OpCancelResult i _ _ _ r | OpCompleteResult i _ _ r | OpFailResult i _ _ _ _ r => Some (i, r)
  | _ => None
  end.

Lemma put_result_results i r s :
  terminal_results (put_result i r s) = <[i := r]> (terminal_results s).
Proof. unfold put_result. by destruct (make_outbox r). Qed.

Lemma result_effect_atomic i res s r s' :
  Inv s -> result_effect i res s r s' ->
  match r with
  | Ok t =>
      tasks s' !! i = Some t
      /\ terminal_results s' !! i = (if is_terminal (tr_status t) then Some res else None)
  | Err _ => s' = s
  end.
Proof.
  intros HI [e|t Hres Ht|t e t' Hn Ht Hl Hnt|t e t' Hn Hi Hr Ht Hs Hl Hterm].
  - done.
  - destruct (inv_result _ HI _ _ Hres) as (_ & u & Hu & Hterm). simplify_eq. by rewrite Hterm.
  - rewrite commit_tasks, commit_results, Hnt. by rewrite lookup_insert_eq.
  - rewrite put_result_tasks, put_result_results, commit_tasks, Hterm. by rewrite !lookup_insert_eq.
Qed.

(** Results and transitions are atomic. A call that reports a result
    either fails and changes nothing, or returns the task as it is now stored;
    the result is stored if that task is finished, and there is none if the
    task was sent back to the queue. In every reachable store the outbox then
    holds the result's delivery. *)
Theorem results_are_atomic op i res s r s' :
  Inv s -> reports_result op = Some (i, res) -> run_op op s = (r, s') ->
  match r with
  | Ok (RTask t) =>
      tasks s' !! i = Some t
      /\ terminal_results s' !! i = (if is_terminal (tr_status t) then Some res else None)
      /\ (is_terminal (tr_status t) = true ->
          forall o, make_outbox res = Some o -> result_outbox s' !! delivery_id i = Some o)
  | Ok _ => False
  | Err _ => s' = s
  end.
Proof.
  intros HI Hop H.
  assert (Heff : exists q, r = result_map RTask q /\ result_effect i res s q s').
  { destruct op; simplify_eq/=; apply reply_inv in H as (q & H & ->); exists q;
      eauto using cancel_task_with_result_effect, complete_task_with_result_effect,
        fail_task_with_result_effect. }
  destruct Heff as (q & -> & Heff). pose proof (result_effect_atomic _ _ _ _ _ HI Heff) as Hq.
  destruct q as [t|e]; simpl; [|done]. destruct Hq as [Ht Hres]. split; [done|]. split; [done|].
  intros Hterm o Ho. rewrite Hterm in Hres.
  assert (HI' : Inv s') by (eapply Inv_steps; [done|by eapply result_effect_steps]).
  destruct (inv_result _ HI' _ _ Hres) as [Hid _].
  destruct (make_outbox_inv _ _ Ho) as [Hoi Hod].
  apply (inv_outbox _ HI'). exists res. by rewrite Hoi, Hod, Hid.
Qed.

Lemma results_are_atomic_witness :
  let s' := (run_op (OpCompleteResult task_a lease_1 worker_a result_a) running).2 in
  terminal_results s' !! task_a = Some result_a
  /\ is_Some (result_outbox s' !! delivery_id task_a).
Proof.
  intros s'.
  pose proof (results_are_atomic (OpCompleteResult task_a lease_1 worker_a result_a) task_a result_a
    running (Ok (RTask (with_status record_a Completed))) s' Inv_running eq_refl) as H.
  destruct H as (_ & Hr & Ho).
  - apply pair_of_fst. vm_compute. reflexivity.
  - split; [exact Hr|]. eexists. apply (Ho eq_refl). reflexivity.
Defined.
