(* ===== verification/MemQueries.v ===== *)
(** * Claiming work from the in-memory store

    What [claimable_pending_task_envelopes] offers a peer: which entries, in
    which order, and which it leaves out when the limit cuts the list. *)
From S2P Require Import Prelude Ident Lifecycle StoreModel Api MemStore MemSpec MemInv Samples.
From S2P Require Import MemLease MemSweep.
From stdpp Require Import options.

(** An entry that the peer [p] may claim: a pending task with its envelope,
    reserved for [p] or for nobody. *)
Definition claimable (s : InMemoryState) (p : PeerId) (x : PendingTaskEnvelope) : Prop :=
  let i := tr_id (pe_task x) in
  tasks s !! i = Some (pe_task x) /\ tr_status (pe_task x) = Pending
  /\ envelopes s !! i = Some (pe_envelope x)
  /\ (forall e, expected_executor s i = Some e -> e = p).

Definition claimable_list (s : InMemoryState) (p : PeerId) : list PendingTaskEnvelope :=
  omap (with_envelope s)
    (filter (fun t => executor_allows s p t = true)
      (filter (fun t => tr_status t = Pending) (task_values s))).

Lemma elem_of_claimable_list s p x : Inv s -> x ∈ claimable_list s p <-> claimable s p x.
Proof.
  intros HI. unfold claimable_list, claimable. rewrite list_elem_of_omap.
  setoid_rewrite list_elem_of_filter. setoid_rewrite list_elem_of_filter.
  setoid_rewrite (elem_of_task_values s); [|done].
  unfold with_envelope, executor_allows. split.
  - intros (t & (Ha & Hp & Ht) & Hx). destruct (envelopes s !! tr_id t) eqn:He; simplify_eq/=.
    repeat split; try done. intros e Hexp. rewrite Hexp in Ha. by apply bool_decide_eq_true in Ha.
  - intros (Ht & Hp & He & Ha). exists (pe_task x). rewrite He. destruct x; simpl in *.
    repeat split; try done. case_match; [|done]. apply bool_decide_eq_true. by apply Ha.
Qed.

Lemma NoDup_claimable_list s p : Inv s -> NoDup ((fun x => tr_id (pe_task x)) <$> claimable_list s p).
Proof.
  intros HI. unfold claimable_list.
  apply (NoDup_fmap_omap tr_id); [|by do 2 apply NoDup_fmap_filter; apply NoDup_task_values].
  intros t x. unfold with_envelope. destruct (envelopes s !! tr_id t); naive_solver.
Qed.

(** The first [n] of a sorted list come before all the others. *)
Lemma take_sorted_before {A} (key : A -> Z * string) n l x y :
  StronglySorted (by_key key) l -> x ∈ take n l -> y ∈ l -> y ∉ take n l -> by_key key x y.
Proof.
  intros Hs Hx Hy Hny. rewrite <- (take_drop n l) in Hs, Hy.
  apply elem_of_app in Hy as [Hy|Hy]; [done|].
  by eapply StronglySorted_app_1_elem_of.
Qed.

(** Claiming. The store offers a peer its claimable tasks, oldest arrival
    first and by task id among equals, each at most once, as many as there are
    up to the limit; every offered entry is a pending task with its stored
    envelope that is not reserved for another peer, and one left out arrived
    no earlier than any that is offered. The look-up changes nothing. *)
Theorem claimable_tasks_in_arrival_order s p limit :
  Inv s -> (0 < limit)%nat ->
  exists l, claimable_pending_task_envelopes p limit s = (Ok l, s)
    /\ NoDup ((fun x => tr_id (pe_task x)) <$> l)
    /\ StronglySorted (by_key pending_envelope_key) l
    /\ (forall x, x ∈ l -> claimable s p x)
    /\ (forall y, claimable s p y -> y ∉ l ->
          length l = limit /\ forall x, x ∈ l -> by_key pending_envelope_key x y).
Proof.
  intros HI Hlimit. exists (first_pending limit (claimable_list s p)).
  set (sorted := sort_by_key pending_envelope_key (claimable_list s p)).
  assert (Hsub : sublist (take limit sorted) sorted) by apply sublist_take.
  split; [by destruct limit; [lia|]|]. unfold first_pending. fold sorted.
  split; [|split; [|split]].
  - eapply sublist_NoDup; [|by apply fmap_sublist].
    unfold sorted. rewrite sort_on_perm. by apply NoDup_claimable_list.
  - pose proof (sort_on_sorted key_le pending_envelope_key (claimable_list s p)) as Hs.
    fold sorted in Hs. rewrite <- (take_drop limit sorted) in Hs.
    by apply StronglySorted_app_1_l in Hs.
  - intros x Hx. apply elem_of_claimable_list; [done|].
    eapply elem_of_sublist in Hx; [|done]. by apply elem_of_sort_on in Hx.
  - intros y Hy Hny.
    assert (Hin : y ∈ sorted) by (by apply elem_of_sort_on, elem_of_claimable_list).
    split.
    + apply length_take_le. destruct (decide (limit <= length sorted)%nat) as [|Hgt]; [done|].
      destruct Hny. by rewrite take_ge by lia.
    + intros x Hx. eapply take_sorted_before; [apply (sort_on_sorted key_le)|done|done|done].
Qed.

Lemma claimable_tasks_in_arrival_order_witness :
  exists l, claimable_pending_task_envelopes peer_b 1 queued = (Ok l, queued)
    /\ l = [MkPendingTaskEnvelope record_b envelope_b].
Proof.
  destruct (claimable_tasks_in_arrival_order queued peer_b 1 Inv_queued) as (l & H & _); [lia|].
  exists l. split; [exact H|]. apply (f_equal fst) in H. vm_compute in H. by injection H.
Defined.
