(* ===== verification/SqlStore.v ===== *)
(** * The SQLite store

    crates/keryx-store/src/lib.rs and results.rs, [impl SqliteStore]: tables,
    statements, row decoders and operations. The tables are finite maps keyed
    by their primary key and hold text and integers as the columns do; values
    are parsed again when a row is read. The columns that no statement reads
    back ([created_at] of tasks and events, [updated_at] of tasks) are left
    out, and with them [touch_task_updated_at_with_executor], which writes
    nothing else.

    The pool has one connection, so a transaction runs alone. [begin] takes
    the committed database as the working one, the statements of the
    transaction change the working one, [commit] makes it the committed one. A
    transaction that is dropped by an early return is rolled back: its working
    database is never committed and the next [begin] replaces it. A statement
    that violates a constraint fails with a database error, whose message is
    SQLite's: the parameter [violation]. I/O errors are not modelled. *)
From S2P Require Import Prelude Ident Lifecycle StoreModel Api.
From stdpp Require Import options.

(** ** Tables *)

Record TaskRow : Type := MkTaskRow {
  r_status : string;
  r_idempotency_key : option string;
  r_retry_count : option Z;
  r_dead_lettered : option Z;
  r_dead_letter_reason : option string;
  r_deadline_ms : option Z;
}.

Record EventRow : Type := MkEventRow {
  r_event_type : string;
  r_from_status : option string;
  r_to_status : string;
}.

Record LeaseRow : Type := MkLeaseRow {
  r_task_id : string;
  r_worker_id : option string;
  r_leased_at_ms : Z;
  r_expires_at_ms : Z;
  r_active : Z;
}.

Record EnvelopeRow : Type := MkEnvelopeRow {
  r_encoded_envelope : bytes;
  r_received_at_ms : Z;
}.

Record ContextRow : Type := MkContextRow {
  r_authenticated_sender_peer_id : option string;
  r_expected_executor_peer_id : option string;
  r_destination_peer_id : string;
  r_relay_frame_id : option string;
  r_context_received_at_ms : Z;
}.

Record ResultRow : Type := MkResultRow {
  r_encoded_result : bytes;
  r_terminal_status : string;
  r_return_peer_id : option string;
  r_executor_peer_id : string;
  r_created_at_ms : Z;
}.

Record OutboxRow : Type := MkOutboxRow {
  o_task_id : string;
  o_target_peer_id : string;
  o_state : string;
  o_attempt_count : Z;
  o_next_attempt_at_ms : Z;
  o_lease_owner : option string;
  o_lease_expires_at_ms : option Z;
  o_last_error : option string;
  o_created_at_ms : Z;
  o_updated_at_ms : Z;
}.

Record ArtifactRow : Type := MkArtifactRow {
  a_task_id : string;
  a_digest : string;
  a_media_type : string;
  a_byte_len : Z;
  a_inline : Z;
  a_inline_blob : option bytes;
  a_created_at : string;
}.

Record BlobRow : Type := MkBlobRow {
  b_ref_count : Z;
  b_byte_len : Z;
}.

Record Db : Type := MkDb {
  t_tasks : gmap string TaskRow;
  t_idempotency_keys : gmap string string;
  t_task_events : gmap (string * Z) EventRow;
  t_leases : gmap string LeaseRow;
  t_task_envelopes : gmap string EnvelopeRow;
  t_transport_context : gmap string ContextRow;
  t_terminal_results : gmap string ResultRow;
  t_result_outbox : gmap string OutboxRow;
  t_artifacts : gmap string ArtifactRow;
  t_blobs : gmap string BlobRow;
}.

Definition empty_db : Db := MkDb ∅ ∅ ∅ ∅ ∅ ∅ ∅ ∅ ∅ ∅.

Definition on_tasks (f : gmap string TaskRow -> gmap string TaskRow) (d : Db) : Db :=
  MkDb (f (t_tasks d)) (t_idempotency_keys d) (t_task_events d) (t_leases d)
    (t_task_envelopes d) (t_transport_context d) (t_terminal_results d) (t_result_outbox d)
    (t_artifacts d) (t_blobs d).
Definition on_keys (f : gmap string string -> gmap string string) (d : Db) : Db :=
  MkDb (t_tasks d) (f (t_idempotency_keys d)) (t_task_events d) (t_leases d)
    (t_task_envelopes d) (t_transport_context d) (t_terminal_results d) (t_result_outbox d)
    (t_artifacts d) (t_blobs d).
Definition on_events (f : gmap (string * Z) EventRow -> gmap (string * Z) EventRow) (d : Db) : Db :=
  MkDb (t_tasks d) (t_idempotency_keys d) (f (t_task_events d)) (t_leases d)
    (t_task_envelopes d) (t_transport_context d) (t_terminal_results d) (t_result_outbox d)
    (t_artifacts d) (t_blobs d).
Definition on_leases (f : gmap string LeaseRow -> gmap string LeaseRow) (d : Db) : Db :=
  MkDb (t_tasks d) (t_idempotency_keys d) (t_task_events d) (f (t_leases d))
    (t_task_envelopes d) (t_transport_context d) (t_terminal_results d) (t_result_outbox d)
    (t_artifacts d) (t_blobs d).
Definition on_envelopes (f : gmap string EnvelopeRow -> gmap string EnvelopeRow) (d : Db) : Db :=
  MkDb (t_tasks d) (t_idempotency_keys d) (t_task_events d) (t_leases d)
    (f (t_task_envelopes d)) (t_transport_context d) (t_terminal_results d) (t_result_outbox d)
    (t_artifacts d) (t_blobs d).
Definition on_contexts (f : gmap string ContextRow -> gmap string ContextRow) (d : Db) : Db :=
  MkDb (t_tasks d) (t_idempotency_keys d) (t_task_events d) (t_leases d)
    (t_task_envelopes d) (f (t_transport_context d)) (t_terminal_results d) (t_result_outbox d)
    (t_artifacts d) (t_blobs d).
Definition on_results (f : gmap string ResultRow -> gmap string ResultRow) (d : Db) : Db :=
  MkDb (t_tasks d) (t_idempotency_keys d) (t_task_events d) (t_leases d)
    (t_task_envelopes d) (t_transport_context d) (f (t_terminal_results d)) (t_result_outbox d)
    (t_artifacts d) (t_blobs d).
Definition on_outbox (f : gmap string OutboxRow -> gmap string OutboxRow) (d : Db) : Db :=
  MkDb (t_tasks d) (t_idempotency_keys d) (t_task_events d) (t_leases d)
    (t_task_envelopes d) (t_transport_context d) (t_terminal_results d) (f (t_result_outbox d))
    (t_artifacts d) (t_blobs d).
Definition on_artifacts (f : gmap string ArtifactRow -> gmap string ArtifactRow) (d : Db) : Db :=
  MkDb (t_tasks d) (t_idempotency_keys d) (t_task_events d) (t_leases d)
    (t_task_envelopes d) (t_transport_context d) (t_terminal_results d) (t_result_outbox d)
    (f (t_artifacts d)) (t_blobs d).
Definition on_blobs (f : gmap string BlobRow -> gmap string BlobRow) (d : Db) : Db :=
  MkDb (t_tasks d) (t_idempotency_keys d) (t_task_events d) (t_leases d)
    (t_task_envelopes d) (t_transport_context d) (t_terminal_results d) (t_result_outbox d)
    (t_artifacts d) (f (t_blobs d)).

(** ** Row decoders *)

Definition id_new (kind : string) (s : string) : StoreResult (Id kind) :=
  map_err StoreError.Validation (Id_new kind s).

Definition opt_id_new (kind : string) (s : option string) : StoreResult (option (Id kind)) :=
  transpose (id_new kind <$> s).

(** [.unwrap_or(0).max(0) as u32]. *)
Definition column_u32 (x : option Z) : Z := as_u32 (Z.max (default 0 x) 0).

Definition row_to_task (row : string * TaskRow) : StoreResult TaskRecord :=
  let (key, r) := row in
  let? task_id := id_new "TaskId" key in
  let? status := str_to_status (r_status r) in
  let? idempotency_key := opt_id_new "IdempotencyKey" (r_idempotency_key r) in
  Ok (MkTaskRecord task_id status idempotency_key (r_deadline_ms r) (column_u32 (r_retry_count r))
        (negb (default 0 (r_dead_lettered r) =? 0)) (r_dead_letter_reason r)).

Definition row_to_task_envelope (row : string * EnvelopeRow) : StoreResult TaskEnvelopeRecord :=
  let (key, r) := row in
  let? task_id := id_new "TaskId" key in
  Ok (MkEnvelope task_id (r_encoded_envelope r) (r_received_at_ms r)).

(** A row of [tasks t INNER JOIN task_envelopes e]. *)
Definition JoinedRow : Type := (string * TaskRow) * EnvelopeRow.

Definition row_to_pending_task_envelope (row : JoinedRow) : StoreResult PendingTaskEnvelope :=
  let '((key, r), e) := row in
  let? task_id := id_new "TaskId" key in
  let? status := str_to_status (r_status r) in
  let? idempotency_key := opt_id_new "IdempotencyKey" (r_idempotency_key r) in
  Ok (MkPendingTaskEnvelope
        (MkTaskRecord task_id status idempotency_key (r_deadline_ms r)
           (column_u32 (r_retry_count r)) (negb (default 0 (r_dead_lettered r) =? 0))
           (r_dead_letter_reason r))
        (MkEnvelope task_id (r_encoded_envelope e) (r_received_at_ms e))).

Definition row_to_lease (row : string * LeaseRow) : StoreResult LeaseRecord :=
  let (key, r) := row in
  let? lease_id := id_new "LeaseId" key in
  let? task_id := id_new "TaskId" (r_task_id r) in
  let? worker_id := opt_id_new "AgentId" (r_worker_id r) in
  Ok (MkLease lease_id task_id worker_id (r_leased_at_ms r) (r_expires_at_ms r)).

Definition row_to_event (row : (string * Z) * EventRow) : StoreResult TaskEventRecord :=
  let '((key, sequence), r) := row in
  let? task_id := id_new "TaskId" key in
  let? event_type := str_to_event_type (r_event_type r) in
  let? from_status := transpose (str_to_status <$> r_from_status r) in
  let? to_status := str_to_status (r_to_status r) in
  Ok (MkEvent task_id (as_u64 sequence) event_type from_status to_status).

Definition row_to_transport_context (row : string * ContextRow)
    : StoreResult TaskTransportContextRecord :=
  let (key, r) := row in
  let? task_id := id_new "TaskId" key in
  let? sender := opt_id_new "PeerId" (r_authenticated_sender_peer_id r) in
  let? expected := opt_id_new "PeerId" (r_expected_executor_peer_id r) in
  let? destination := id_new "PeerId" (r_destination_peer_id r) in
  Ok (MkContext task_id sender expected destination (r_relay_frame_id r)
        (r_context_received_at_ms r)).

Definition row_to_terminal_result (row : string * ResultRow) : StoreResult TerminalResultRecord :=
  let (key, r) := row in
  let? task_id := id_new "TaskId" key in
  let? status := str_to_status (r_terminal_status r) in
  let? return_peer := opt_id_new "PeerId" (r_return_peer_id r) in
  let? executor := id_new "PeerId" (r_executor_peer_id r) in
  Ok (MkTerminalResult task_id (r_encoded_result r) status return_peer executor
        (r_created_at_ms r)).

Definition row_to_outbox (row : string * OutboxRow) : StoreResult ResultOutboxRecord :=
  let (key, r) := row in
  let? task_id := id_new "TaskId" (o_task_id r) in
  let? target := id_new "PeerId" (o_target_peer_id r) in
  let? state := delivery_state_parse (o_state r) in
  Ok (MkOutbox key task_id target state (as_u32 (Z.max (o_attempt_count r) 0))
        (o_next_attempt_at_ms r) (o_lease_owner r) (o_lease_expires_at_ms r) (o_last_error r)
        (o_created_at_ms r) (o_updated_at_ms r)).

(** ** Column values bound by the inserts *)

Definition task_row (t : TaskRecord) : TaskRow :=
  MkTaskRow (status_to_str (tr_status t)) (as_str <$> tr_idempotency_key t)
    (Some (tr_retry_count t)) (Some (Z.b2z (tr_dead_lettered t))) (tr_dead_letter_reason t)
    (tr_deadline_ms t).

Definition event_row (e : KeryxEventType) (from : option TaskStatus) (to : TaskStatus) : EventRow :=
  MkEventRow (event_type_to_str e) (status_to_str <$> from) (status_to_str to).

Definition lease_row (task_id : TaskId) (l : LeaseRecord) (active : Z) : LeaseRow :=
  MkLeaseRow (as_str task_id) (as_str <$> lr_worker_id l) (lr_leased_at_ms l)
    (lr_expires_at_ms l) active.

Definition envelope_row (e : TaskEnvelopeRecord) : EnvelopeRow :=
  MkEnvelopeRow (en_encoded_envelope e) (en_received_at_ms e).

Definition context_row (c : TaskTransportContextRecord) : ContextRow :=
  MkContextRow (as_str <$> tc_authenticated_sender_peer_id c)
    (as_str <$> tc_expected_executor_peer_id c) (as_str (tc_destination_peer_id c))
    (tc_relay_frame_id c) (tc_received_at_ms c).

Definition result_row (r : TerminalResultRecord) : ResultRow :=
  MkResultRow (rs_encoded_result r) (status_to_str (rs_terminal_status r))
    (as_str <$> rs_return_peer_id r) (as_str (rs_executor_peer_id r)) (rs_created_at_ms r).

Definition outbox_row (o : ResultOutboxRecord) : OutboxRow :=
  MkOutboxRow (as_str (ob_task_id o)) (as_str (ob_target_peer_id o))
    (delivery_state_as_str (ob_state o)) (ob_attempt_count o) (ob_next_attempt_at_ms o)
    (ob_lease_owner o) (ob_lease_expires_at_ms o) (ob_last_error o) (ob_created_at_ms o)
    (ob_updated_at_ms o).

(** ** Queries *)

(** [LIMIT ?] with a count bound [as i64]: a negative limit is no limit. *)
Definition sql_limit {A} (limit : nat) (l : list A) : list A :=
  let n := as_i64 (Z.of_nat limit) in
  if n <? 0 then l else take (Z.to_nat n) l.

Definition sql_limit_opt {A} (limit : option nat) (l : list A) : list A :=
  match limit with Some n => sql_limit n l | None => l end.

Definition with_key {A} (key : string) (r : A) : string * A := (key, r).

Definition select_task (key : string) (d : Db) : option (string * TaskRow) :=
  with_key key <$> t_tasks d !! key.

Definition select_envelope (key : string) (d : Db) : option (string * EnvelopeRow) :=
  with_key key <$> t_task_envelopes d !! key.

Definition select_context (key : string) (d : Db) : option (string * ContextRow) :=
  with_key key <$> t_transport_context d !! key.

Definition select_result (key : string) (d : Db) : option (string * ResultRow) :=
  with_key key <$> t_terminal_results d !! key.

(** [... FROM leases WHERE task_id = ? AND active = 1], the first row. *)
Definition select_active_lease (key : string) (d : Db) : option (string * LeaseRow) :=
  head (filter (fun kr => r_task_id kr.2 = key /\ r_active kr.2 = 1) (map_to_list (t_leases d))).

Definition event_key (kr : (string * Z) * EventRow) : Z * string := (kr.1.2, kr.1.1).

(** [... FROM task_events WHERE task_id = ? ORDER BY sequence ASC]. *)
Definition select_events (key : string) (d : Db) : list ((string * Z) * EventRow) :=
  sort_by_key event_key (filter (fun kr => kr.1.1 = key) (map_to_list (t_task_events d))).

(** [COALESCE(MAX(sequence), 0) + 1]. *)
Definition select_next_sequence (key : string) (d : Db) : Z :=
  match (fun kr => kr.1.2) <$> filter (fun kr => kr.1.1 = key) (map_to_list (t_task_events d)) with
  | [] => 0
  | n :: l => foldr Z.max n l
  end + 1.

Definition joined_key (j : JoinedRow) : Z * string := (r_received_at_ms j.2, j.1.1).

(** [tasks t INNER JOIN task_envelopes e ... WHERE t.status = 'pending']. *)
Definition pending_rows (d : Db) : list JoinedRow :=
  omap (fun kr => pair kr <$> t_task_envelopes d !! kr.1)
    (filter (fun kr => r_status kr.2 = "pending") (map_to_list (t_tasks d))).

Definition select_pending (limit : nat) (d : Db) : list JoinedRow :=
  sql_limit limit (sort_by_key joined_key (pending_rows d)).

(** [... LEFT JOIN task_transport_context c ... AND (c.expected_executor_peer_id
    IS NULL OR c.expected_executor_peer_id = ?)]. *)
Definition row_executor_allows (d : Db) (peer : string) (key : string) : bool :=
  match t_transport_context d !! key ≫= r_expected_executor_peer_id with
  | None => true
  | Some expected => bool_decide (expected = peer)
  end.

Definition select_claimable (peer : string) (limit : nat) (d : Db) : list JoinedRow :=
  sql_limit limit (sort_by_key joined_key
    (filter (fun j => row_executor_allows d peer j.1.1 = true) (pending_rows d))).

Definition count_status (status : string) (d : Db) : Z :=
  Z.of_nat (length (filter (fun kr => r_status kr.2 = status) (map_to_list (t_tasks d)))).

Definition retained_bytes (d : Db) : Z :=
  foldr Z.add 0 ((fun kr => Z.of_nat (length (r_encoded_envelope kr.2)))
                   <$> map_to_list (t_task_envelopes d)).

Definition row_deadline_key (kr : string * TaskRow) : Z * string :=
  (default 0 (r_deadline_ms kr.2), kr.1).

(** [WHERE deadline_ms IS NOT NULL AND deadline_ms <= ? AND status IN
    ('pending', 'running') ORDER BY deadline_ms ASC, task_id ASC]. *)
Definition row_past_deadline (now_ms : Z) (r : TaskRow) : bool :=
  match r_deadline_ms r with Some d => d <=? now_ms | None => false end
  && bool_decide (r_status r ∈ ["pending"; "running"]).

Definition select_expired (now_ms : Z) (limit : option nat) (d : Db) : list (string * TaskRow) :=
  sql_limit_opt limit (sort_by_key row_deadline_key
    (filter (fun kr => row_past_deadline now_ms kr.2 = true) (map_to_list (t_tasks d)))).

Definition row_lease_key (kr : string * LeaseRow) : Z * string :=
  (r_expires_at_ms kr.2, r_task_id kr.2).

Definition select_stale (now_ms : Z) (limit : option nat) (d : Db) : list (string * LeaseRow) :=
  sql_limit_opt limit (sort_by_key row_lease_key
    (filter (fun kr => r_active kr.2 = 1 /\ r_expires_at_ms kr.2 <= now_ms)
       (map_to_list (t_leases d)))).

(** [SELECT task_id FROM tasks ORDER BY task_id ASC]. *)
Definition select_task_ids (d : Db) : list string :=
  sort_by_key (fun k => (0, k)) (map_to_list (t_tasks d)).*1.

Definition outbox_row_key (kr : string * OutboxRow) : Z * (Z * string) :=
  (o_next_attempt_at_ms kr.2, (o_created_at_ms kr.2, kr.1)).

(** [ORDER BY next_attempt_at_ms ASC, created_at_ms ASC, delivery_id ASC]. *)
Definition select_outbox (P : OutboxRow -> bool) (d : Db) : list (string * OutboxRow) :=
  sort_on key3_le outbox_row_key (filter (fun kr => P kr.2 = true) (map_to_list (t_result_outbox d))).

(** ** Updates

    A statement that would break a constraint gives [None]. *)

Definition unique_key (key : option string) (m : gmap string TaskRow) : bool :=
  match key with
  | None => true
  | Some k => bool_decide (map_Forall (fun _ r => r_idempotency_key r <> Some k) m)
  end.

Definition insert_task_row (key : string) (r : TaskRow) (d : Db) : option Db :=
  match t_tasks d !! key with
  | Some _ => None
  | None =>
      if unique_key (r_idempotency_key r) (t_tasks d)
      then Some (on_tasks (insert key r) d) else None
  end.

Definition insert_key_row (key task_id : string) (d : Db) : option Db :=
  match t_idempotency_keys d !! key, t_tasks d !! task_id with
  | None, Some _ =>
      if bool_decide (map_Forall (fun _ i => i <> task_id) (t_idempotency_keys d))
      then Some (on_keys (insert key task_id) d) else None
  | _, _ => None
  end.

Definition insert_event_row (key : string) (sequence : Z) (r : EventRow) (d : Db) : option Db :=
  match t_task_events d !! (key, sequence), t_tasks d !! key with
  | None, Some _ => Some (on_events (insert (key, sequence) r) d)
  | _, _ => None
  end.

(** [INSERT OR REPLACE]: a row with the same lease id or the same task goes. *)
Definition replace_lease_row (lease_id : string) (r : LeaseRow) (d : Db) : option Db :=
  match t_tasks d !! r_task_id r with
  | Some _ =>
      Some (on_leases (fun m =>
        <[lease_id := r]> (filter (fun kr => r_task_id kr.2 <> r_task_id r) m)) d)
  | None => None
  end.

Definition insert_envelope_row (key : string) (r : EnvelopeRow) (d : Db) : option Db :=
  match t_task_envelopes d !! key, t_tasks d !! key with
  | None, Some _ => Some (on_envelopes (insert key r) d)
  | _, _ => None
  end.

Definition insert_context_row (key : string) (r : ContextRow) (d : Db) : option Db :=
  match t_transport_context d !! key, t_tasks d !! key with
  | None, Some _ => Some (on_contexts (insert key r) d)
  | _, _ => None
  end.

Definition insert_result_row (key : string) (r : ResultRow) (d : Db) : option Db :=
  match t_terminal_results d !! key, t_tasks d !! key with
  | None, Some _ => Some (on_results (insert key r) d)
  | _, _ => None
  end.

Definition insert_outbox_row (key : string) (r : OutboxRow) (d : Db) : option Db :=
  match t_result_outbox d !! key, t_terminal_results d !! o_task_id r with
  | None, Some _ =>
      if bool_decide (map_Forall (fun _ o => o_task_id o <> o_task_id r) (t_result_outbox d))
      then Some (on_outbox (insert key r) d) else None
  | _, _ => None
  end.

Definition row_with_status (s : TaskStatus) (r : TaskRow) : TaskRow :=
  MkTaskRow (status_to_str s) (r_idempotency_key r) (r_retry_count r) (r_dead_lettered r)
    (r_dead_letter_reason r) (r_deadline_ms r).

Definition row_with_metadata (s : TaskStatus) (n : Z) (dead : bool) (reason : option string)
    (r : TaskRow) : TaskRow :=
  MkTaskRow (status_to_str s) (r_idempotency_key r) (Some n) (Some (Z.b2z dead)) reason
    (r_deadline_ms r).

Definition row_with_active (active : Z) (r : LeaseRow) : LeaseRow :=
  MkLeaseRow (r_task_id r) (r_worker_id r) (r_leased_at_ms r) (r_expires_at_ms r) active.

(** [UPDATE leases SET active = 0 WHERE task_id = ? AND active = 1]. *)
Definition deactivate_leases (key : string) : Db -> Db :=
  on_leases (fmap (fun r =>
    if bool_decide (r_task_id r = key /\ r_active r = 1) then row_with_active 0 r else r)).

(** [UPDATE leases SET expires_at_ms = ?, active = 1 WHERE task_id = ? AND
    lease_id = ? AND worker_id = ?]. *)
Definition renew_leases (expires : Z) (task_id lease_id worker_id : string) : Db -> Db :=
  on_leases (alter (fun r =>
    if bool_decide (r_task_id r = task_id /\ r_worker_id r = Some worker_id)
    then MkLeaseRow (r_task_id r) (r_worker_id r) (r_leased_at_ms r) expires 1 else r) lease_id).

(** ** The connection and its transactions *)

Record Conn : Type := MkConn {
  committed : Db;
  working : Db;
}.

Definition empty_conn : Conn := MkConn empty_db empty_db.

Abbreviation C := (ST Conn StoreError).

Definition begin : C unit := modify (fun c => MkConn (committed c) (committed c)).
Definition commit_tx : C unit := modify (fun c => MkConn (working c) (working c)).
Definition rollback : C unit := modify (fun c => MkConn (committed c) (committed c)).

(** A query inside the transaction, and one on the pool outside of it. *)
Definition query {A} (q : Db -> A) : C A := let! c := get in ret (q (working c)).
Definition pool_query {A} (q : Db -> A) : C A := let! c := get in ret (q (committed c)).

Section sqlite_store.
(** SQLite's message for a violated constraint. *)
Context (violation : string).

Definition execute (u : Db -> option Db) : C unit :=
  let! c := get in
  match u (working c) with
  | Some d => modify (fun c => MkConn (committed c) d)
  | None => throw (StoreError.Database violation)
  end.

Definition update (u : Db -> Db) : C unit := execute (fun d => Some (u d)).

(** *** Statements of the transaction helpers *)

Definition fetch_task_optional_with_executor (task_id : TaskId) : C (option TaskRecord) :=
  let! row := query (select_task (as_str task_id)) in
  lift (transpose (row_to_task <$> row)).

Definition fetch_task_with_executor (task_id : TaskId) : C TaskRecord :=
  let! task := fetch_task_optional_with_executor task_id in
  lift (ok_or task (StoreError.TaskNotFound task_id)).

Definition fetch_active_lease_with_executor (task_id : TaskId) : C (option LeaseRecord) :=
  let! row := query (select_active_lease (as_str task_id)) in
  lift (transpose (row_to_lease <$> row)).

(** The active lease that a worker's report requires. *)
Definition require_active_lease (task_id : TaskId) : C LeaseRecord :=
  let! active := fetch_active_lease_with_executor task_id in
  lift (ok_or active (StoreError.LeaseNotFound task_id)).

Definition fetch_task_envelope_optional_with_executor (task_id : TaskId)
    : C (option TaskEnvelopeRecord) :=
  let! row := query (select_envelope (as_str task_id)) in
  lift (transpose (row_to_task_envelope <$> row)).

Definition fetch_transport_context_optional (task_id : TaskId)
    : C (option TaskTransportContextRecord) :=
  let! row := query (select_context (as_str task_id)) in
  lift (transpose (row_to_transport_context <$> row)).

Definition fetch_terminal_result_optional (task_id : TaskId)
    : C (option TerminalResultRecord) :=
  let! row := query (select_result (as_str task_id)) in
  lift (transpose (row_to_terminal_result <$> row)).

Definition next_sequence_with_executor (task_id : TaskId) : C Z :=
  let! n := query (select_next_sequence (as_str task_id)) in
  ret (as_u64 n).

Definition events_for_task_with_executor (task_id : TaskId) : C (list TaskEventRecord) :=
  let! rows := query (select_events (as_str task_id)) in
  match rows with
  | [] => throw (StoreError.CorruptEventStream task_id)
  | _ => lift (try_map row_to_event rows)
  end.

Definition update_task_status_with_executor (task_id : TaskId) (status : TaskStatus) : C unit :=
  update (on_tasks (alter (row_with_status status) (as_str task_id))).

Definition update_task_metadata_with_executor (task_id : TaskId) (status : TaskStatus)
    (retry_count : Z) (dead_lettered : bool) (dead_letter_reason : option string) : C unit :=
  update (on_tasks (alter (row_with_metadata status retry_count dead_lettered
                             dead_letter_reason) (as_str task_id))).

Definition touch_task_updated_at_with_executor (task_id : TaskId) : C unit :=
  update (on_tasks (alter (fun r => r) (as_str task_id))).

Definition deactivate_lease_for_task_with_executor (task_id : TaskId) : C unit :=
  update (deactivate_leases (as_str task_id)).

Definition insert_event (task_id : TaskId) (sequence : Z) (event_type : KeryxEventType)
    (from_status : option TaskStatus) (to_status : TaskStatus) : C unit :=
  execute (insert_event_row (as_str task_id) (as_i64 sequence)
             (event_row event_type from_status to_status)).

Definition insert_transport_context (context : TaskTransportContextRecord) : C unit :=
  execute (insert_context_row (as_str (tc_task_id context)) (context_row context)).

Definition insert_terminal_result_only (result : TerminalResultRecord) : C unit :=
  execute (insert_result_row (as_str (rs_task_id result)) (result_row result)).

Definition insert_terminal_result_and_outbox (result : TerminalResultRecord) : C unit :=
  insert_terminal_result_only result ;;;
  match make_outbox result with
  | Some outbox => execute (insert_outbox_row (ob_delivery_id outbox) (outbox_row outbox))
  | None => ret tt
  end.

(** *** Queries of the store *)

Definition get_task (task_id : TaskId) : C TaskRecord :=
  let! row := pool_query (select_task (as_str task_id)) in
  let! row := lift (ok_or row (StoreError.TaskNotFound task_id)) in
  lift (row_to_task row).

Definition get_task_envelope (task_id : TaskId) : C TaskEnvelopeRecord :=
  let! row := pool_query (select_envelope (as_str task_id)) in
  let! envelope := lift (transpose (row_to_task_envelope <$> row)) in
  lift (ok_or envelope (StoreError.TaskEnvelopeNotFound task_id)).

Definition pending_task_envelopes (limit : nat) : C (list PendingTaskEnvelope) :=
  match limit with
  | O => ret []
  | _ =>
      let! rows := pool_query (select_pending limit) in
      lift (try_map row_to_pending_task_envelope rows)
  end.

Definition claimable_pending_task_envelopes (local_peer_id : PeerId) (limit : nat)
    : C (list PendingTaskEnvelope) :=
  match limit with
  | O => ret []
  | _ =>
      let! rows := pool_query (select_claimable (as_str local_peer_id) limit) in
      lift (try_map row_to_pending_task_envelope rows)
  end.

Definition count_tasks_by_status (status : TaskStatus) : C Z :=
  let! n := pool_query (count_status (status_to_str status)) in
  ret (as_u64 n).

Definition retained_task_envelope_bytes : C Z :=
  let! n := pool_query retained_bytes in
  ret (as_u64 n).

Definition events_for_task (task_id : TaskId) : C (list TaskEventRecord) :=
  let! rows := pool_query (select_events (as_str task_id)) in
  match rows with
  | [] =>
      let! c := get in
      match (get_task task_id c).1 with
      | Ok _ => throw (StoreError.CorruptEventStream task_id)
      | Err (StoreError.TaskNotFound _) => throw (StoreError.TaskNotFound task_id)
      | Err error => throw error
      end
  | _ => lift (try_map row_to_event rows)
  end.

Definition replay_task (task_id : TaskId) : C TaskRecord :=
  let! task := get_task task_id in
  let! events := events_for_task task_id in
  lift (replay_task_from_snapshot_and_events task events).

Definition active_lease (task_id : TaskId) : C (option LeaseRecord) :=
  let! row := pool_query (select_active_lease (as_str task_id)) in
  lift (transpose (row_to_lease <$> row)).

Definition get_transport_context (task_id : TaskId) : C TaskTransportContextRecord :=
  begin ;;;
  let! value := fetch_transport_context_optional task_id in
  let! value := lift (ok_or value (StoreError.TransportContextNotFound task_id)) in
  commit_tx ;;;
  ret value.

Definition get_terminal_result (task_id : TaskId) : C TerminalResultRecord :=
  begin ;;;
  let! value := fetch_terminal_result_optional task_id in
  let! value := lift (ok_or value (StoreError.TerminalResultNotFound task_id)) in
  commit_tx ;;;
  ret value.

(** *** Accepting tasks *)

(** [SELECT task_id FROM idempotency_keys WHERE key = ?]. *)
Definition select_key (key : option IdempotencyKey) : C (option (IdempotencyKey * TaskId)) :=
  match key with
  | None => ret None
  | Some key =>
      let! row := query (fun d => t_idempotency_keys d !! as_str key) in
      match row with
      | None => ret None
      | Some task_id =>
          let! existing := lift (id_new "TaskId" task_id) in
          ret (Some (key, existing))
      end
  end.

(** The inserts of an accepted task: its row, its idempotency key and its
    first event. *)
Definition insert_accepted_task (task : TaskRecord) : C unit :=
  execute (insert_task_row (as_str (tr_id task)) (task_row task)) ;;;
  match tr_idempotency_key task with
  | Some key => execute (insert_key_row (as_str key) (as_str (tr_id task)))
  | None => ret tt
  end ;;;
  insert_event (tr_id task) 1 TaskAccepted None (tr_status task).

Definition accept_task (task : TaskRecord) : C TaskRecord :=
  let! _ := lift (validate_accepted_task_status task) in
  begin ;;;
  let! _ := lift (ensure_pending_accept task) in
  let! hit := select_key (tr_idempotency_key task) in
  match hit with
  | Some (key, existing_task_id) =>
      let! existing := fetch_task_with_executor existing_task_id in
      if bool_decide (existing = task) then commit_tx ;;; ret existing
      else throw (StoreError.IdempotencyConflict key existing_task_id)
  | None =>
      let! existing := query (fun d => t_tasks d !! as_str (tr_id task)) in
      match existing with
      | Some _ => throw (StoreError.TaskAlreadyExists (tr_id task))
      | None =>
          insert_accepted_task task ;;;
          commit_tx ;;;
          ret task
      end
  end.

Definition accept_task_with_envelope (task : TaskRecord) (envelope : TaskEnvelopeRecord)
    : C TaskRecord :=
  let! _ := lift (validate_accepted_task_status task) in
  let! _ := lift (ensure_pending_accept task) in
  let! _ := lift (ensure_matching_envelope_task_id task envelope) in
  begin ;;;
  let! hit := select_key (tr_idempotency_key task) in
  match hit with
  | Some (key, existing_task_id) =>
      let! existing := fetch_task_with_executor existing_task_id in
      if bool_decide (existing = task) then
        let! existing_envelope :=
          fetch_task_envelope_optional_with_executor existing_task_id in
        if bool_decide (existing_envelope = Some envelope) then commit_tx ;;; ret existing
        else throw (StoreError.TaskEnvelopeConflict existing_task_id)
      else throw (StoreError.IdempotencyConflict key existing_task_id)
  | None =>
      let! existing := query (fun d => t_tasks d !! as_str (tr_id task)) in
      match existing with
      | Some _ => throw (StoreError.TaskAlreadyExists (tr_id task))
      | None =>
          insert_accepted_task task ;;;
          execute (insert_envelope_row (as_str (en_task_id envelope)) (envelope_row envelope)) ;;;
          commit_tx ;;;
          ret task
      end
  end.

(** [UPDATE task_transport_context SET relay_frame_id = ?, received_at_ms = ?]. *)
Definition context_with_frame (frame : option string) (at_ms : Z) (r : ContextRow) : ContextRow :=
  MkContextRow (r_authenticated_sender_peer_id r) (r_expected_executor_peer_id r)
    (r_destination_peer_id r) frame at_ms.

Definition accept_task_with_envelope_and_context (task : TaskRecord)
    (envelope : TaskEnvelopeRecord) (context : TaskTransportContextRecord) : C TaskRecord :=
  let! _ := lift (validate_accepted_task_status task) in
  let! _ := lift (ensure_pending_accept task) in
  let! _ := lift (ensure_matching_envelope_task_id task envelope) in
  let! _ := lift (ensure_context_task context (tr_id task)) in
  begin ;;;
  let! existing := fetch_task_optional_with_executor (tr_id task) in
  match existing with
  | Some existing =>
      let! existing_envelope := fetch_task_envelope_optional_with_executor (tr_id task) in
      let! existing_context := fetch_transport_context_optional (tr_id task) in
      match existing_envelope, existing_context with
      | Some stored_envelope, Some stored_context =>
          if bool_decide (existing = task)
             && same_delivered_envelope stored_envelope envelope
             && same_transport_identity stored_context context
          then
            (if bool_decide (tc_relay_frame_id stored_context = tc_relay_frame_id context)
             then ret tt
             else update (on_contexts (alter
                    (context_with_frame (tc_relay_frame_id context) (tc_received_at_ms context))
                    (as_str (tr_id task))))) ;;;
            commit_tx ;;;
            ret existing
          else throw (StoreError.TransportContextConflict (tr_id task))
      | _, _ => throw (StoreError.TransportContextConflict (tr_id task))
      end
  | None =>
      let! hit := select_key (tr_idempotency_key task) in
      match hit with
      | Some (key, existing_task_id) =>
          throw (StoreError.IdempotencyConflict key existing_task_id)
      | None =>
          insert_accepted_task task ;;;
          execute (insert_envelope_row (as_str (en_task_id envelope)) (envelope_row envelope)) ;;;
          insert_transport_context context ;;;
          commit_tx ;;;
          ret task
      end
  end.

Definition put_transport_context (context : TaskTransportContextRecord)
    : C TaskTransportContextRecord :=
  begin ;;;
  let! _ := fetch_task_with_executor (tc_task_id context) in
  let! existing := fetch_transport_context_optional (tc_task_id context) in
  match existing with
  | Some existing =>
      if bool_decide (existing = context) then commit_tx ;;; ret existing
      else throw (StoreError.TransportContextConflict (tc_task_id context))
  | None =>
      insert_transport_context context ;;;
      commit_tx ;;;
      ret context
  end.

(** *** Leases *)

(** The peer guard: the executor the stored context names, unless it is
    this peer. *)
Definition check_executor (task_id : TaskId) (local_peer_id : option PeerId) : C unit :=
  match local_peer_id with
  | None => ret tt
  | Some local =>
      let! row := query (select_context (as_str task_id)) in
      match (row ≫= fun kr => r_expected_executor_peer_id kr.2) with
      | Some expected =>
          if bool_decide (expected = as_str local) then ret tt
          else
            let! expected := lift (id_new "PeerId" expected) in
            throw (StoreError.TaskExecutorMismatch task_id expected local)
      | None => ret tt
      end
  end.

Definition lease_task_with_peer_guard (task_id : TaskId) (lease : LeaseRecord)
    (local_peer_id : option PeerId) : C TaskRecord :=
  begin ;;;
  let! _ := lift (ensure_matching_task_id task_id lease) in
  let! _ := lift (ensure_lease_has_owner lease) in
  check_executor task_id local_peer_id ;;;
  let! task := fetch_task_with_executor task_id in
  let! active := fetch_active_lease_with_executor task_id in
  match active with
  | Some _ => throw (StoreError.LeaseConflict task_id)
  | None =>
      match tr_deadline_ms task ≫= fun d =>
              if d <=? lr_leased_at_ms lease then Some d else None with
      | Some deadline_ms =>
          let! _ := lift (validate_deadline_transition (tr_status task)) in
          let! sequence := next_sequence_with_executor task_id in
          update_task_status_with_executor task_id Failed ;;;
          insert_event task_id sequence TaskTimedOut (Some (tr_status task)) Failed ;;;
          commit_tx ;;;
          throw (StoreError.TaskDeadlineExpired task_id deadline_ms (lr_leased_at_ms lease))
      | None =>
          let! transition := lift (store_transition (tr_status task) Running) in
          let! sequence := next_sequence_with_executor task_id in
          execute (replace_lease_row (as_str (lr_lease_id lease)) (lease_row task_id lease 1)) ;;;
          update_task_status_with_executor task_id Running ;;;
          insert_event task_id sequence (tt_event_type transition)
            (Some (tt_from transition)) (tt_to transition) ;;;
          commit_tx ;;;
          get_task task_id
      end
  end.

Definition lease_task (task_id : TaskId) (lease : LeaseRecord) : C TaskRecord :=
  lease_task_with_peer_guard task_id lease None.

Definition lease_task_for_peer (task_id : TaskId) (lease : LeaseRecord)
    (local_peer_id : PeerId) : C TaskRecord :=
  lease_task_with_peer_guard task_id lease (Some local_peer_id).

Definition renew_lease (task_id : TaskId) (lease_id : LeaseId) (worker_id : AgentId)
    (now_ms new_expires_at_ms : Z) : C LeaseRecord :=
  begin ;;;
  let! task := fetch_task_with_executor task_id in
  let! _ := lift (require_status (tr_status task) Running) in
  let! active := require_active_lease task_id in
  let! _ := lift (ensure_matching_lease_id task_id active lease_id) in
  let! _ := lift (ensure_matching_worker_id task_id active worker_id) in
  let! _ := lift (ensure_valid_lease_expiry active now_ms new_expires_at_ms) in
  update (renew_leases new_expires_at_ms (as_str task_id) (as_str lease_id)
            (as_str worker_id)) ;;;
  touch_task_updated_at_with_executor task_id ;;;
  commit_tx ;;;
  ret (MkLease (lr_lease_id active) (lr_task_id active) (lr_worker_id active)
         (lr_leased_at_ms active) new_expires_at_ms).

(** *** Finishing, retrying, dead-lettering *)

Definition sqlite_retry_task_in_tx (task_id : TaskId) (task : TaskRecord) : C TaskRecord :=
  let! _ := lift (require_status (tr_status task) Running) in
  let retry_count := u32_saturating_add (tr_retry_count task) 1 in
  let! sequence := next_sequence_with_executor task_id in
  deactivate_lease_for_task_with_executor task_id ;;;
  update_task_metadata_with_executor task_id Pending retry_count false None ;;;
  insert_event task_id sequence RecoveryAction (Some Running) Pending ;;;
  fetch_task_with_executor task_id.

Definition sqlite_dead_letter_task_in_tx (task_id : TaskId) (task : TaskRecord)
    (reason : string) : C TaskRecord :=
  let! _ := lift (require_status (tr_status task) Running) in
  let retry_count := u32_saturating_add (tr_retry_count task) 1 in
  let! transition := lift (store_transition (tr_status task) Failed) in
  let! sequence := next_sequence_with_executor task_id in
  deactivate_lease_for_task_with_executor task_id ;;;
  update_task_metadata_with_executor task_id Failed retry_count true (Some reason) ;;;
  insert_event task_id sequence TaskDeadLettered
    (Some (tt_from transition)) (tt_to transition) ;;;
  fetch_task_with_executor task_id.

Definition finish_task_in_tx (task_id : TaskId) (lease_id : LeaseId) (worker_id : AgentId)
    (to : TaskStatus) (retry_count : Z) (dead_lettered : bool)
    (dead_letter_reason : option string) : C TaskRecord :=
  let! task := fetch_task_with_executor task_id in
  let! active := require_active_lease task_id in
  let! _ := lift (ensure_matching_lease_id task_id active lease_id) in
  let! _ := lift (ensure_matching_worker_id task_id active worker_id) in
  let! transition := lift (store_transition (tr_status task) to) in
  let! sequence := next_sequence_with_executor task_id in
  deactivate_lease_for_task_with_executor task_id ;;;
  update_task_metadata_with_executor task_id to retry_count dead_lettered
    dead_letter_reason ;;;
  insert_event task_id sequence (tt_event_type transition)
    (Some (tt_from transition)) (tt_to transition) ;;;
  fetch_task_with_executor task_id.

Definition finish_task (task_id : TaskId) (lease_id : LeaseId) (worker_id : AgentId)
    (to : TaskStatus) : C TaskRecord :=
  begin ;;;
  let! task := fetch_task_with_executor task_id in
  let! updated := finish_task_in_tx task_id lease_id worker_id to (tr_retry_count task)
                    (tr_dead_lettered task) (tr_dead_letter_reason task) in
  commit_tx ;;;
  ret updated.

Definition complete_task (task_id : TaskId) (lease_id : LeaseId) (worker_id : AgentId)
    : C TaskRecord := finish_task task_id lease_id worker_id Completed.

Definition fail_task (task_id : TaskId) (lease_id : LeaseId) (worker_id : AgentId)
    (error_reason : string) (policy : RetryPolicy) : C TaskRecord :=
  begin ;;;
  let! task := fetch_task_with_executor task_id in
  let! active := require_active_lease task_id in
  let! _ := lift (ensure_matching_lease_id task_id active lease_id) in
  let! _ := lift (ensure_matching_worker_id task_id active worker_id) in
  let! _ := lift (require_status (tr_status task) Running) in
  let! updated :=
    if max_retries policy =? 0 then
      finish_task_in_tx task_id lease_id worker_id Failed (tr_retry_count task) false None
    else if should_retry_after_failure policy (tr_retry_count task) then
      sqlite_retry_task_in_tx task_id task
    else sqlite_dead_letter_task_in_tx task_id task error_reason in
  commit_tx ;;;
  ret updated.

Definition retry_task (task_id : TaskId) (lease_id : LeaseId) (worker_id : AgentId)
    : C TaskRecord :=
  begin ;;;
  let! task := fetch_task_with_executor task_id in
  let! active := require_active_lease task_id in
  let! _ := lift (ensure_matching_lease_id task_id active lease_id) in
  let! _ := lift (ensure_matching_worker_id task_id active worker_id) in
  let! updated := sqlite_retry_task_in_tx task_id task in
  commit_tx ;;;
  ret updated.

Definition dead_letter_task (task_id : TaskId) (lease_id : LeaseId) (worker_id : AgentId)
    (reason : string) : C TaskRecord :=
  begin ;;;
  let! task := fetch_task_with_executor task_id in
  let! active := require_active_lease task_id in
  let! _ := lift (ensure_matching_lease_id task_id active lease_id) in
  let! _ := lift (ensure_matching_worker_id task_id active worker_id) in
  let! updated := sqlite_dead_letter_task_in_tx task_id task reason in
  commit_tx ;;;
  ret updated.

(** *** Cancellation, deadlines, transitions, legacy events *)

Definition cancel_task (task_id : TaskId) (now_ms : Z) : C TaskRecord :=
  begin ;;;
  let! task := fetch_task_with_executor task_id in
  if is_terminal (tr_status task) then commit_tx ;;; ret task
  else
    (if bool_decide (tr_status task = Running) then
       let! active := require_active_lease task_id in
       lift (ensure_active_lease_unexpired active now_ms)
     else ret tt) ;;;
    let! transition := lift (store_cancel_transition (tr_status task)) in
    let! sequence := next_sequence_with_executor task_id in
    deactivate_lease_for_task_with_executor task_id ;;;
    update_task_status_with_executor task_id (tt_to transition) ;;;
    insert_event task_id sequence (tt_event_type transition)
      (Some (tt_from transition)) (tt_to transition) ;;;
    commit_tx ;;;
    get_task task_id.

Definition fail_deadline_row (row : string * TaskRow) : C (list TaskRecord) :=
  let! task := lift (row_to_task row) in
  let! _ := lift (validate_deadline_transition (tr_status task)) in
  let! sequence := next_sequence_with_executor (tr_id task) in
  deactivate_lease_for_task_with_executor (tr_id task) ;;;
  update_task_status_with_executor (tr_id task) Failed ;;;
  insert_event (tr_id task) sequence TaskTimedOut (Some (tr_status task)) Failed ;;;
  ret [with_status task Failed].

Definition fail_expired_deadlines (now_ms : Z) (limit : option nat) : C (list TaskRecord) :=
  begin ;;;
  let! rows := query (select_expired now_ms limit) in
  let! failed := for_collect fail_deadline_row rows in
  commit_tx ;;;
  ret failed.

Definition transition_task (task_id : TaskId) (to : TaskStatus) : C TaskRecord :=
  begin ;;;
  let! task := fetch_task_with_executor task_id in
  let! transition := lift (store_transition (tr_status task) to) in
  let! sequence := next_sequence_with_executor task_id in
  (if is_terminal to then deactivate_lease_for_task_with_executor task_id else ret tt) ;;;
  update_task_status_with_executor task_id to ;;;
  insert_event task_id sequence (tt_event_type transition)
    (Some (tt_from transition)) (tt_to transition) ;;;
  commit_tx ;;;
  get_task task_id.

Definition accept_legacy_event (task_id : TaskId) (event_type : KeryxEventType)
    : C TaskRecord :=
  let! legacy_event := lift (ok_or (from_keryx_event_type event_type)
                         (StoreError.Validation (InvalidTaskTransition Pending Pending))) in
  begin ;;;
  let! task := fetch_task_with_executor task_id in
  let! plan := lift (plan_legacy_event_append (tr_status task) legacy_event) in
  let! sequence := next_sequence_with_executor task_id in
  match plan with
  | PlanLifecycle transition =>
      (if is_terminal (tt_to transition) then deactivate_lease_for_task_with_executor task_id
       else ret tt) ;;;
      update_task_status_with_executor task_id (tt_to transition) ;;;
      insert_event task_id sequence (tt_event_type transition)
        (Some (tt_from transition)) (tt_to transition)
  | PlanOperational preserved status =>
      insert_event task_id sequence preserved (Some status) status
  end ;;;
  commit_tx ;;;
  get_task task_id.

(** *** Stale-lease recovery *)

Definition recover_lease_row (row : string * LeaseRow) : C (list (TaskRecord + unit)) :=
  let! lease := lift (row_to_lease row) in
  let! task := fetch_task_optional_with_executor (lr_task_id lease) in
  deactivate_lease_for_task_with_executor (lr_task_id lease) ;;;
  match task with
  | None => ret []
  | Some task =>
      let to_status := recovered_status (tr_status task) in
      let should_requeue := bool_decide (tr_status task = Running) in
      (if bool_decide (to_status = tr_status task)
       then touch_task_updated_at_with_executor (lr_task_id lease)
       else update_task_status_with_executor (lr_task_id lease) to_status) ;;;
      let! sequence := next_sequence_with_executor (lr_task_id lease) in
      insert_event (lr_task_id lease) sequence RecoveryAction (Some (tr_status task)) to_status ;;;
      ret (if should_requeue then [inl (with_status task to_status)]
           else if is_terminal (tr_status task) then [inr tt] else [])
  end.

(** [recover_sqlite_leases_with_executor]. *)
Definition recover_sqlite_leases_with_executor (rows : list (string * LeaseRow))
    : C (list (TaskRecord + unit)) := for_collect recover_lease_row rows.

(** One turn of [collect_corrupt_sqlite_tasks_with_executor]. *)
Definition corrupt_task (key : string) : C (list TaskId) :=
  let! task_id := lift (id_new "TaskId" key) in
  let! task := fetch_task_with_executor task_id in
  let! c := get in
  match (events_for_task_with_executor task_id c).1 with
  | Ok events =>
      match replay_task_from_snapshot_and_events task events with
      | Err (StoreError.CorruptEventStream _) => ret [task_id]
      | _ => ret []
      end
  | Err (StoreError.CorruptEventStream _) => ret [task_id]
  | Err error => throw error
  end.

Definition collect_corrupt_sqlite_tasks_with_executor : C (list TaskId) :=
  let! rows := query select_task_ids in
  for_collect corrupt_task rows.

Definition recover_stale_leases (now_ms : Z) (limit : option nat) : C RecoveryReport :=
  begin ;;;
  let! rows := query (select_stale now_ms limit) in
  let! outcomes := recover_sqlite_leases_with_executor rows in
  let! corrupted := collect_corrupt_sqlite_tasks_with_executor in
  commit_tx ;;;
  ret (MkRecoveryReport
         (omap (fun x => match x with inl t => Some t | inr _ => None end) outcomes)
         (Z.of_nat (length (filter (fun x => x = inr tt) outcomes))) corrupted).

(** *** Terminal results *)

(** A repeated report: the stored result answers it. *)
Definition existing_result (task_id : TaskId) (existing result : TerminalResultRecord)
    : C TaskRecord :=
  if bool_decide (existing = result) then
    let! task := fetch_task_with_executor task_id in
    commit_tx ;;;
    ret task
  else throw (StoreError.TerminalResultConflict task_id).

Definition cancel_task_with_result (task_id : TaskId) (lease_id : option LeaseId)
    (worker_id : option AgentId) (now_ms : Z) (result : TerminalResultRecord)
    : C TaskRecord :=
  let! _ := lift (ensure_result_task result task_id) in
  let! _ := lift (terminal_result_validate result) in
  begin ;;;
  let! task := fetch_task_with_executor task_id in
  (if bool_decide (tr_status task = Running) then
     let! active := require_active_lease task_id in
     let! lease_id := lift (ok_or lease_id
                        (StoreError.CancellationLeaseProofRequired task_id)) in
     let! worker_id := lift (ok_or worker_id
                         (StoreError.CancellationLeaseProofRequired task_id)) in
     let! _ := lift (ensure_matching_lease_id task_id active lease_id) in
     let! _ := lift (ensure_matching_worker_id task_id active worker_id) in
     lift (ensure_active_lease_unexpired active now_ms)
   else ret tt) ;;;
  let! transition := lift (store_cancel_transition (tr_status task)) in
  let! existing := fetch_terminal_result_optional task_id in
  match existing with
  | Some _ => throw (StoreError.TerminalResultConflict task_id)
  | None =>
      if negb (bool_decide (rs_terminal_status result = tt_to transition))
      then throw (StoreError.TerminalResultNotTerminal task_id)
      else
        let! sequence := next_sequence_with_executor task_id in
        deactivate_lease_for_task_with_executor task_id ;;;
        update_task_status_with_executor task_id (tt_to transition) ;;;
        insert_event task_id sequence (tt_event_type transition)
          (Some (tt_from transition)) (tt_to transition) ;;;
        insert_terminal_result_and_outbox result ;;;
        commit_tx ;;;
        get_task task_id
  end.

Definition complete_task_with_result (task_id : TaskId) (lease_id : LeaseId)
    (worker_id : AgentId) (result : TerminalResultRecord) : C TaskRecord :=
  let! _ := lift (ensure_result_task result task_id) in
  begin ;;;
  let! existing := fetch_terminal_result_optional task_id in
  match existing with
  | Some existing => existing_result task_id existing result
  | None =>
      let! task := fetch_task_with_executor task_id in
      let! updated := finish_task_in_tx task_id lease_id worker_id Completed
                        (tr_retry_count task) (tr_dead_lettered task)
                        (tr_dead_letter_reason task) in
      insert_terminal_result_and_outbox result ;;;
      commit_tx ;;;
      ret updated
  end.

Definition fail_task_with_result (task_id : TaskId) (lease_id : LeaseId)
    (worker_id : AgentId) (error_reason : string) (policy : RetryPolicy)
    (result : TerminalResultRecord) : C TaskRecord :=
  let! _ := lift (ensure_result_task result task_id) in
  begin ;;;
  let! existing := fetch_terminal_result_optional task_id in
  match existing with
  | Some existing => existing_result task_id existing result
  | None =>
      let! task := fetch_task_with_executor task_id in
      let! active := require_active_lease task_id in
      let! _ := lift (ensure_matching_lease_id task_id active lease_id) in
      let! _ := lift (ensure_matching_worker_id task_id active worker_id) in
      if max_retries policy =? 0 then
        let! updated := finish_task_in_tx task_id lease_id worker_id Failed
                          (tr_retry_count task) false None in
        insert_terminal_result_and_outbox result ;;;
        commit_tx ;;;
        ret updated
      else if should_retry_after_failure policy (tr_retry_count task) then
        let! retry := sqlite_retry_task_in_tx task_id task in
        commit_tx ;;;
        ret retry
      else
        let! updated := sqlite_dead_letter_task_in_tx task_id task error_reason in
        insert_terminal_result_and_outbox result ;;;
        commit_tx ;;;
        ret updated
  end.

(** *** The delivery outbox

    A result with a return peer waits in [result_outbox] until it is
    delivered: pending, leased to a delivery worker, then delivered, pending
    again or dead-lettered. *)

Definition MAX_RESULT_DELIVERY_ATTEMPTS : Z := 10.
Definition MAX_RESULT_DELIVERY_RETRY_DELAY_MS : Z := 60000.

(** [UPDATE result_outbox SET ... WHERE ...] with [rows_affected()]. *)
Definition update_outbox_where (P : string -> OutboxRow -> bool) (f : OutboxRow -> OutboxRow)
    (d : Db) : Db * Z :=
  (on_outbox (map_imap (fun k r => Some (if P k r then f r else r))) d,
   Z.of_nat (length (filter (fun kr => P kr.1 kr.2 = true) (map_to_list (t_result_outbox d))))).

Definition update_count (u : Db -> Db * Z) : C Z :=
  let! c := get in
  modify (fun c => MkConn (committed c) (u (working c)).1) ;;;
  ret (u (working c)).2.

(** The same on the pool: a statement of its own, committed at once. *)
Definition pool_update_count (u : Db -> Db * Z) : C Z :=
  let! c := get in
  modify (fun c => MkConn (u (committed c)).1 (u (committed c)).1) ;;;
  ret (u (committed c)).2.

Definition result_delivery_for_task (task_id : TaskId) : C (option ResultOutboxRecord) :=
  let! row := pool_query (fun d =>
    head (filter (fun kr => o_task_id kr.2 = as_str task_id) (map_to_list (t_result_outbox d)))) in
  lift (transpose (row_to_outbox <$> row)).

Definition pending_result_deliveries (limit : nat) : C (list ResultOutboxRecord) :=
  let! rows := pool_query (fun d =>
    sql_limit limit (select_outbox (fun r => bool_decide (o_state r = "pending")) d)) in
  lift (try_map row_to_outbox rows).

(** [attempt_count >= MAX - 1] in the two [CASE] expressions. *)
Definition last_attempt (r : OutboxRow) : bool :=
  MAX_RESULT_DELIVERY_ATTEMPTS - 1 <=? o_attempt_count r.

(** The row after a delivery attempt ended without success. *)
Definition row_after_attempt (dead_letter : bool) (retry_at_ms : Z) (error : string)
    (now_ms : Z) (r : OutboxRow) : OutboxRow :=
  MkOutboxRow (o_task_id r) (o_target_peer_id r)
    (if dead_letter || last_attempt r then "dead_lettered" else "pending")
    (if last_attempt r then MAX_RESULT_DELIVERY_ATTEMPTS else o_attempt_count r + 1)
    retry_at_ms None None (Some error) (o_created_at_ms r) now_ms.

(** [state = 'leased' AND lease_expires_at_ms IS NOT NULL AND
    lease_expires_at_ms <= ?]. *)
Definition lease_expired (now_ms : Z) (r : OutboxRow) : bool :=
  bool_decide (o_state r = "leased")
  && match o_lease_expires_at_ms r with Some e => e <=? now_ms | None => false end.

Definition due (now_ms : Z) (r : OutboxRow) : bool :=
  bool_decide (o_state r = "pending") && (o_next_attempt_at_ms r <=? now_ms).

Definition row_leased (worker_id : string) (lease_expires now_ms : Z) (r : OutboxRow)
    : OutboxRow :=
  MkOutboxRow (o_task_id r) (o_target_peer_id r) "leased" (o_attempt_count r)
    (o_next_attempt_at_ms r) (Some worker_id) (Some lease_expires) (o_last_error r)
    (o_created_at_ms r) now_ms.

Definition claim_next_result_delivery (worker_id : string) (now_ms lease_duration_ms : Z)
    : C (option (ResultOutboxRecord * TerminalResultRecord)) :=
  begin ;;;
  let! _ := update_count (update_outbox_where (fun _ => lease_expired now_ms)
              (row_after_attempt false now_ms "result delivery lease expired" now_ms)) in
  let! rows := query (select_outbox (due now_ms)) in
  match head rows with
  | None => commit_tx ;;; ret None
  | Some row =>
      let! outbox := lift (row_to_outbox row) in
      let lease_expires := i64_saturating_add now_ms (Z.max lease_duration_ms 1) in
      let! changed := update_count (update_outbox_where
        (fun k r => bool_decide (k = ob_delivery_id outbox)
                    && bool_decide (o_state r = "pending"))
        (row_leased worker_id lease_expires now_ms)) in
      if negb (changed =? 1) then rollback ;;; ret None
      else
        let outbox := MkOutbox (ob_delivery_id outbox) (ob_task_id outbox)
          (ob_target_peer_id outbox) DsLeased (ob_attempt_count outbox)
          (ob_next_attempt_at_ms outbox) (Some worker_id) (Some lease_expires)
          (ob_last_error outbox) (ob_created_at_ms outbox) now_ms in
        let! result := fetch_terminal_result_optional (ob_task_id outbox) in
        let! result := lift (ok_or result
                         (StoreError.TerminalResultNotFound (ob_task_id outbox))) in
        commit_tx ;;;
        ret (Some (outbox, result))
  end.

(** [WHERE delivery_id = ? AND state = 'leased' AND lease_owner = ? AND
    lease_expires_at_ms = ? AND lease_expires_at_ms > ?]: the claim that a
    worker still holds. *)
Definition holds_claim (delivery_id worker_id : string) (lease_expires_at_ms now_ms : Z)
    (k : string) (r : OutboxRow) : bool :=
  bool_decide (k = delivery_id) && bool_decide (o_state r = "leased")
  && bool_decide (o_lease_owner r = Some worker_id)
  && bool_decide (o_lease_expires_at_ms r = Some lease_expires_at_ms)
  && (now_ms <? lease_expires_at_ms).

Definition row_delivered (now_ms : Z) (r : OutboxRow) : OutboxRow :=
  MkOutboxRow (o_task_id r) (o_target_peer_id r) "delivered" (o_attempt_count r)
    (o_next_attempt_at_ms r) None None (o_last_error r) (o_created_at_ms r) now_ms.

Definition ack_result_delivery (delivery_id worker_id : string)
    (lease_expires_at_ms now_ms : Z) : C unit :=
  let! changed := pool_update_count (update_outbox_where
    (holds_claim delivery_id worker_id lease_expires_at_ms now_ms) (row_delivered now_ms)) in
  if changed =? 1 then ret tt
  else throw (StoreError.ResultDeliveryLeaseMismatch delivery_id).

Definition fail_result_delivery (delivery_id : string) (claim : string * Z)
    (now_ms retry_at_ms : Z) (error : string) (dead_letter : bool) : C unit :=
  let retry_at_ms :=
    Z.min retry_at_ms (i64_saturating_add now_ms MAX_RESULT_DELIVERY_RETRY_DELAY_MS) in
  let! changed := pool_update_count (update_outbox_where
    (holds_claim delivery_id claim.1 claim.2 now_ms)
    (row_after_attempt dead_letter retry_at_ms error now_ms)) in
  if changed =? 1 then ret tt
  else throw (StoreError.ResultDeliveryLeaseMismatch delivery_id).

(** The receipt of a relayed task: the peer and frame the relay accepted. *)
Definition record_relay_receipt (task_id : TaskId)
    (authenticated_source_peer_id accepted_destination_peer_id : PeerId)
    (relay_frame_id : string) (accepted_at_ms : Z) : C TaskTransportContextRecord :=
  let frame_id := trim relay_frame_id in
  let conflict := StoreError.TransportContextConflict task_id in
  if bool_decide (frame_id = "") then throw conflict
  else
    begin ;;;
    let! context := fetch_transport_context_optional task_id in
    let! context := lift (ok_or context (StoreError.TransportContextNotFound task_id)) in
    let same_source :=
      bool_decide (tc_authenticated_sender_peer_id context = Some authenticated_source_peer_id) in
    if negb (bool_decide (tc_expected_executor_peer_id context
                          = Some accepted_destination_peer_id))
       || negb (bool_decide (tc_destination_peer_id context = accepted_destination_peer_id))
    then throw conflict
    else if bool_decide (tc_relay_frame_id context = Some frame_id) && same_source
            && (tc_received_at_ms context =? accepted_at_ms)
    then commit_tx ;;; ret context
    else if bool_decide (is_Some (tc_relay_frame_id context)) && negb same_source
    then throw conflict
    else
      update (on_contexts (alter (fun r =>
        MkContextRow (Some (as_str authenticated_source_peer_id))
          (r_expected_executor_peer_id r) (r_destination_peer_id r) (Some frame_id)
          accepted_at_ms) (as_str task_id))) ;;;
      commit_tx ;;;
      ret (MkContext (tc_task_id context) (Some authenticated_source_peer_id)
             (tc_expected_executor_peer_id context) (tc_destination_peer_id context)
             (Some frame_id) accepted_at_ms).

#[export] Instance sql_api : StoreApi Conn := {
  api_accept_task := accept_task;
  api_accept_task_with_envelope := accept_task_with_envelope;
  api_accept_task_with_envelope_and_context := accept_task_with_envelope_and_context;
  api_put_transport_context := put_transport_context;
  api_lease_task := lease_task;
  api_lease_task_for_peer := lease_task_for_peer;
  api_renew_lease := renew_lease;
  api_complete_task := complete_task;
  api_fail_task := fail_task;
  api_retry_task := retry_task;
  api_dead_letter_task := dead_letter_task;
  api_cancel_task := cancel_task;
  api_fail_expired_deadlines := fail_expired_deadlines;
  api_transition_task := transition_task;
  api_accept_legacy_event := accept_legacy_event;
  api_recover_stale_leases := recover_stale_leases;
  api_cancel_task_with_result := cancel_task_with_result;
  api_complete_task_with_result := complete_task_with_result;
  api_fail_task_with_result := fail_task_with_result;
  api_get_task := get_task;
  api_get_task_envelope := get_task_envelope;
  api_pending_task_envelopes := pending_task_envelopes;
  api_claimable_pending_task_envelopes := claimable_pending_task_envelopes;
  api_count_tasks_by_status := count_tasks_by_status;
  api_events_for_task := events_for_task;
  api_replay_task := replay_task;
  api_active_lease := active_lease;
  api_get_transport_context := get_transport_context;
  api_get_terminal_result := get_terminal_result;
}.
End sqlite_store.
