(* ===== verification/SqlRel.v ===== *)
(** * The SQLite tables as a representation of the in-memory state

    [Rel d s]: the database [d] holds what the in-memory state [s] holds. Each
    table is the image of one map; the event log of a task is its rows in
    sequence order; the active leases are the rows marked active, whatever
    inactive rows remain. The statements of SqlStore are shown to read and
    write the corresponding parts. *)
From S2P Require Import Prelude Ident Lifecycle StoreModel Api MemStore MemSpec MemInv SqlStore.
From stdpp Require Import options.

(** ** Maps as tables *)

Section as_table.
Context {kind : string} {A B : Type} (f : A -> B).

Definition as_table (m : gmap (Id kind) A) : gmap string B :=
  kmap as_str (f <$> m).

Lemma lookup_as_table m i : as_table m !! as_str i = f <$> m !! i.
Proof. unfold as_table. by rewrite (lookup_kmap as_str), lookup_fmap. Qed.

Lemma lookup_as_table_Some m k r :
  as_table m !! k = Some r <-> exists i x, k = as_str i /\ m !! i = Some x /\ r = f x.
Proof.
  unfold as_table. rewrite (lookup_kmap_Some as_str). setoid_rewrite lookup_fmap_Some.
  naive_solver.
Qed.

Lemma as_table_empty : as_table ∅ = ∅.
Proof. unfold as_table. by rewrite fmap_empty, kmap_empty. Qed.

Lemma as_table_insert m i x : as_table (<[i := x]> m) = <[as_str i := f x]> (as_table m).
Proof. unfold as_table. by rewrite fmap_insert, (kmap_insert as_str). Qed.

Lemma as_table_alter (g : B -> B) m i x y :
  m !! i = Some x -> g (f x) = f y ->
  alter g (as_str i) (as_table m) = as_table (<[i := y]> m).
Proof.
  intros Hi Hg. rewrite as_table_insert. apply map_eq. intros k.
  destruct (decide (as_str i = k)) as [<-|Hk].
  - by rewrite lookup_alter_eq, lookup_insert_eq, lookup_as_table, Hi; simpl; rewrite Hg.
  - by rewrite lookup_alter_ne, lookup_insert_ne.
Qed.

Lemma map_to_list_as_table m :
  map_to_list (as_table m) ≡ₚ (fun ix => (as_str ix.1, f ix.2)) <$> map_to_list m.
Proof.
  apply NoDup_Permutation; [apply NoDup_map_to_list| |].
  - apply (NoDup_fmap_2_strong _); [|apply NoDup_map_to_list].
    intros [i x] [j y] Hx Hy [= Hij _]. apply (inj as_str) in Hij as ->.
    apply elem_of_map_to_list in Hx, Hy. congruence.
  - intros [k r]. rewrite elem_of_map_to_list, lookup_as_table_Some, list_elem_of_fmap. split.
    + intros (i & x & -> & Hi & ->). exists (i, x). by rewrite elem_of_map_to_list.
    + intros ([i x] & [= -> ->] & Hi%elem_of_map_to_list). eauto.
Qed.
End as_table.

(** ** Codecs *)

Lemma str_to_status_to_str s : str_to_status (status_to_str s) = Ok s.
Proof. by destruct s. Qed.

#[export] Instance status_to_str_inj : Inj (=) (=) status_to_str.
Proof. intros [] []; try done. Qed.

Lemma str_to_event_type_to_str e : str_to_event_type (event_type_to_str e) = Ok e.
Proof. by destruct e. Qed.

Lemma delivery_state_parse_as_str s : delivery_state_parse (delivery_state_as_str s) = Ok s.
Proof. by destruct s. Qed.

Lemma id_new_as_str {kind} (i : Id kind) : id_new kind (as_str i) = Ok i.
Proof. unfold id_new. by rewrite Id_new_as_str. Qed.

Lemma opt_id_new_as_str {kind} (i : option (Id kind)) : opt_id_new kind (as_str <$> i) = Ok i.
Proof. unfold opt_id_new. destruct i; simpl; [|done]. by rewrite id_new_as_str. Qed.

Lemma column_u32_id n : in_u32 n -> column_u32 (Some n) = n.
Proof.
  intros H. unfold column_u32. simpl. pose proof (in_u32_nonneg _ H).
  rewrite Z.max_l by done. by apply as_u32_id.
Qed.

Lemma column_bool b : negb (Z.b2z b =? 0) = b.
Proof. by destruct b. Qed.

Lemma row_to_task_row i t :
  tr_id t = i -> in_u32 (tr_retry_count t) -> row_to_task (as_str i, task_row t) = Ok t.
Proof.
  intros <- Hr. unfold row_to_task, task_row. simpl.
  rewrite id_new_as_str, str_to_status_to_str, opt_id_new_as_str, column_u32_id, column_bool by done.
  by destruct t.
Qed.

Lemma row_to_envelope_row e : row_to_task_envelope (as_str (en_task_id e), envelope_row e) = Ok e.
Proof. unfold row_to_task_envelope. rewrite id_new_as_str. by destruct e. Qed.

Lemma row_to_context_row c : row_to_transport_context (as_str (tc_task_id c), context_row c) = Ok c.
Proof.
  unfold row_to_transport_context, context_row; simpl.
  rewrite !id_new_as_str, !opt_id_new_as_str. by destruct c.
Qed.

Lemma row_to_result_row r : row_to_terminal_result (as_str (rs_task_id r), result_row r) = Ok r.
Proof.
  unfold row_to_terminal_result, result_row; simpl.
  rewrite !id_new_as_str, str_to_status_to_str, opt_id_new_as_str. by destruct r.
Qed.

Lemma row_to_lease_row l a :
  row_to_lease (as_str (lr_lease_id l), lease_row (lr_task_id l) l a) = Ok l.
Proof.
  unfold row_to_lease, lease_row; simpl.
  rewrite !id_new_as_str, opt_id_new_as_str. by destruct l.
Qed.

Definition event_entry (ev : TaskEventRecord) : (string * Z) * EventRow :=
  ((as_str (ev_task_id ev), ev_sequence ev),
   event_row (ev_event_type ev) (ev_from_status ev) (ev_to_status ev)).

Lemma row_to_event_entry ev : in_u64 (ev_sequence ev) -> row_to_event (event_entry ev) = Ok ev.
Proof.
  intros Hs. unfold row_to_event, event_entry, event_row; simpl.
  rewrite id_new_as_str, str_to_event_type_to_str, str_to_status_to_str.
  assert (as_u64 (ev_sequence ev) = ev_sequence ev) as ->.
  { unfold_ints. apply Z.mod_small. lia. }
  destruct ev as [? ? ? [] ?]; simpl; [by rewrite str_to_status_to_str|done].
Qed.

(** ** The relation *)

(** A log as its task's operations wrote it, short enough for [i64] numbers. *)
Record log_wf (i : TaskId) (evs : list TaskEventRecord) : Prop := {
  lw_numbered n ev : evs !! n = Some ev ->
    ev_task_id ev = i /\ ev_sequence ev = Z.of_nat n + 1;
  lw_short : Z.of_nat (length evs) <= i64_max;
}.

Record Rel (d : Db) (s : InMemoryState) : Prop := {
  rel_tasks : t_tasks d = as_table task_row (tasks s);
  rel_keys : t_idempotency_keys d = as_table as_str (idempotency s);
  rel_events i : select_events (as_str i) d = event_entry <$> default [] (events s !! i);
  rel_leases i l : leases s !! i = Some l ->
    t_leases d !! as_str (lr_lease_id l) = Some (lease_row i l 1);
  rel_active k r : t_leases d !! k = Some r -> r_active r = 1 ->
    exists i l, leases s !! i = Some l /\ k = as_str (lr_lease_id l) /\ r = lease_row i l 1;
  rel_one_lease k1 k2 r1 r2 : t_leases d !! k1 = Some r1 -> t_leases d !! k2 = Some r2 ->
    r_task_id r1 = r_task_id r2 -> k1 = k2;
  rel_envelopes : t_task_envelopes d = as_table envelope_row (envelopes s);
  rel_contexts : t_transport_context d = as_table context_row (transport_contexts s);
  rel_results : t_terminal_results d = as_table result_row (terminal_results s);
  rel_outbox : t_result_outbox d = outbox_row <$> result_outbox s;
  rel_task_wf i t : tasks s !! i = Some t -> tr_id t = i /\ in_u32 (tr_retry_count t);
  rel_lease_wf i l : leases s !! i = Some l -> lr_task_id l = i;
  rel_log_wf i evs : events s !! i = Some evs -> log_wf i evs /\ is_Some (tasks s !! i);
  rel_envelope_wf i e : envelopes s !! i = Some e -> en_task_id e = i;
  rel_context_wf i c : transport_contexts s !! i = Some c -> tc_task_id c = i;
  rel_result_wf i r : terminal_results s !! i = Some r -> rs_task_id r = i;
}.

(** ** Reads *)

#[global] Arguments row_to_task : simpl never.
#[global] Arguments row_to_lease : simpl never.
#[global] Arguments row_to_task_envelope : simpl never.
#[global] Arguments row_to_transport_context : simpl never.
#[global] Arguments row_to_terminal_result : simpl never.
#[global] Arguments row_to_event : simpl never.
#[global] Arguments row_to_outbox : simpl never.
#[global] Arguments row_to_pending_task_envelope : simpl never.

Lemma transpose_some {T E} (r : Result T E) t : r = Ok t -> transpose (Some r) = Ok (Some t).
Proof. by intros ->. Qed.

Lemma read_task d w s i :
  Rel w s ->
  fetch_task_optional_with_executor i (MkConn d w) = (Ok (tasks s !! i), MkConn d w).
Proof.
  intros HR. unfold fetch_task_optional_with_executor, query, bind, get, ret, lift, select_task.
  simpl. rewrite (rel_tasks _ _ HR), lookup_as_table.
  destruct (tasks s !! i) as [t|] eqn:Ht; simpl; [|done].
  destruct (rel_task_wf _ _ HR _ _ Ht) as [Hi Hr].
  by rewrite row_to_task_row.
Qed.

Lemma fetch_task d w s i :
  Rel w s ->
  fetch_task_with_executor i (MkConn d w)
  = (ok_or (tasks s !! i) (StoreError.TaskNotFound i), MkConn d w).
Proof.
  intros HR. unfold fetch_task_with_executor, bind. by rewrite (read_task d w s).
Qed.

Lemma pool_get_task d w s i :
  Rel d s -> get_task i (MkConn d w) = (ok_or (tasks s !! i) (StoreError.TaskNotFound i), MkConn d w).
Proof.
  intros HR. unfold get_task, pool_query, bind, get, ret, lift, select_task, ok_or.
  simpl. rewrite (rel_tasks _ _ HR), lookup_as_table.
  destruct (tasks s !! i) as [t|] eqn:Ht; simpl; [|done].
  destruct (rel_task_wf _ _ HR _ _ Ht) as [Hi Hr].
  by rewrite row_to_task_row.
Qed.

Lemma select_active d s i :
  Rel d s ->
  select_active_lease (as_str i) d
  = (fun l => (as_str (lr_lease_id l), lease_row i l 1)) <$> leases s !! i.
Proof.
  intros HR. unfold select_active_lease.
  destruct (filter _ _) as [|[k r] rows] eqn:Hf; simpl.
  - destruct (leases s !! i) as [l|] eqn:Hl; [|done]. exfalso.
    pose proof (rel_leases _ _ HR _ _ Hl) as Hk.
    assert (Hin : (as_str (lr_lease_id l), lease_row i l 1) ∈ []).
    { rewrite <- Hf. apply list_elem_of_filter. split; [done|]. by apply elem_of_map_to_list. }
    by apply elem_of_nil in Hin.
  - assert (Hin : (k, r) ∈ filter (fun kr => r_task_id kr.2 = as_str i /\ r_active kr.2 = 1)
                     (map_to_list (t_leases d))) by (rewrite Hf; left).
    apply list_elem_of_filter in Hin as [[Ht Ha] Hin]. apply elem_of_map_to_list in Hin.
    destruct (rel_active _ _ HR _ _ Hin Ha) as (j & l & Hl & -> & ->).
    simpl in Ht. apply (inj as_str) in Ht as ->. by rewrite Hl.
Qed.

Lemma read_lease d w s i :
  Rel w s -> fetch_active_lease_with_executor i (MkConn d w) = (Ok (leases s !! i), MkConn d w).
Proof.
  intros HR. unfold fetch_active_lease_with_executor, query, bind, get, ret, lift.
  simpl. rewrite (select_active w s) by done.
  destruct (leases s !! i) as [l|] eqn:Hl; simpl; [|done].
  rewrite <- (rel_lease_wf _ _ HR _ _ Hl) at 1. by rewrite row_to_lease_row.
Qed.

Lemma require_lease d w s i :
  Rel w s ->
  require_active_lease i (MkConn d w)
  = (ok_or (leases s !! i) (StoreError.LeaseNotFound i), MkConn d w).
Proof. intros HR. unfold require_active_lease, bind. by rewrite (read_lease d w s). Qed.

Lemma read_envelope d w s i :
  Rel w s ->
  fetch_task_envelope_optional_with_executor i (MkConn d w)
  = (Ok (envelopes s !! i), MkConn d w).
Proof.
  intros HR. unfold fetch_task_envelope_optional_with_executor, query, bind, get, ret, lift,
    select_envelope. simpl. rewrite (rel_envelopes _ _ HR), lookup_as_table.
  destruct (envelopes s !! i) as [e|] eqn:He; simpl; [|done].
  rewrite <- (rel_envelope_wf _ _ HR _ _ He). by rewrite row_to_envelope_row.
Qed.

Lemma read_context d w s i :
  Rel w s ->
  fetch_transport_context_optional i (MkConn d w)
  = (Ok (transport_contexts s !! i), MkConn d w).
Proof.
  intros HR. unfold fetch_transport_context_optional, query, bind, get, ret, lift,
    select_context. simpl. rewrite (rel_contexts _ _ HR), lookup_as_table.
  destruct (transport_contexts s !! i) as [c|] eqn:Hc; simpl; [|done].
  rewrite <- (rel_context_wf _ _ HR _ _ Hc). by rewrite row_to_context_row.
Qed.

Lemma read_result d w s i :
  Rel w s ->
  fetch_terminal_result_optional i (MkConn d w) = (Ok (terminal_results s !! i), MkConn d w).
Proof.
  intros HR. unfold fetch_terminal_result_optional, query, bind, get, ret, lift,
    select_result. simpl. rewrite (rel_results _ _ HR), lookup_as_table.
  destruct (terminal_results s !! i) as [r|] eqn:Hr; simpl; [|done].
  rewrite <- (rel_result_wf _ _ HR _ _ Hr). by rewrite row_to_result_row.
Qed.

Lemma read_key d w s k :
  Rel w s ->
  select_key k (MkConn d w)
  = (Ok (k ≫= fun key => pair key <$> idempotency s !! key), MkConn d w).
Proof.
  intros HR. unfold select_key. destruct k as [key|]; [|done].
  unfold query, bind, get, ret, lift. simpl. rewrite (rel_keys _ _ HR), lookup_as_table.
  destruct (idempotency s !! key) as [i|] eqn:Hi; simpl; [|done]. by rewrite id_new_as_str.
Qed.

(** ** Event logs *)

Lemma log_entries_wf s d i evs :
  Rel d s -> events s !! i = Some evs ->
  Forall (fun ev => ev_task_id ev = i /\ in_u64 (ev_sequence ev)
                    /\ 1 <= ev_sequence ev <= Z.of_nat (length evs)) evs.
Proof.
  intros HR He. destruct (rel_log_wf _ _ HR _ _ He) as [[Hn Hs] _].
  apply Forall_lookup. intros n ev Hev. destruct (Hn _ _ Hev) as [Hi Hq].
  apply lookup_lt_Some in Hev. split; [done|]. unfold_ints. lia.
Qed.

Lemma try_map_ok {A B E} (f : A -> Result B E) (g : B -> A) l :
  Forall (fun b => f (g b) = Ok b) l -> try_map f (g <$> l) = Ok l.
Proof. induction 1 as [|b l Hb _ IH]; [done|]. csimpl. by rewrite Hb, IH. Qed.

Lemma decode_events s d i evs :
  Rel d s -> events s !! i = Some evs -> try_map row_to_event (event_entry <$> evs) = Ok evs.
Proof.
  intros HR He. apply try_map_ok. eapply Forall_impl; [by eapply log_entries_wf|].
  intros ev (_ & Hs & _). by apply row_to_event_entry.
Qed.

(** The largest number of a list that has one. *)
Definition maximum (l : list Z) : Z :=
  match l with [] => 0 | n :: l => foldr Z.max n l end.

Lemma foldr_max_ge n l x : x ∈ n :: l -> x <= foldr Z.max n l.
Proof.
  intros Hx. induction l as [|y l IH]; simpl.
  - apply list_elem_of_singleton in Hx. lia.
  - apply elem_of_cons in Hx as [->|Hx].
    + assert (n <= foldr Z.max n l) by (apply IH; left). lia.
    + apply elem_of_cons in Hx as [->|Hx]; [lia|].
      assert (x <= foldr Z.max n l) by (apply IH; by right). lia.
Qed.

Lemma foldr_max_in n l : foldr Z.max n l ∈ n :: l.
Proof.
  induction l as [|y l IH]; simpl; [left|].
  destruct (Z.max_spec y (foldr Z.max n l)) as [[_ ->]|[_ ->]].
  - apply elem_of_cons in IH as [->|IH]; [left|by do 2 right].
  - right. left.
Qed.

Lemma maximum_unique l m : m ∈ l -> (forall x, x ∈ l -> x <= m) -> maximum l = m.
Proof.
  intros Hm Hle. destruct l as [|n l]; [by apply elem_of_nil in Hm|]. simpl.
  apply Z.le_antisymm; [apply Hle, foldr_max_in|by apply foldr_max_ge].
Qed.

Lemma next_sequence_is d s i :
  Rel d s -> select_next_sequence (as_str i) d = Z.of_nat (length (default [] (events s !! i))) + 1.
Proof.
  intros HR. unfold select_next_sequence. f_equal.
  set (rows := filter _ _).
  assert (Hperm : (fun kr => kr.1.2) <$> rows ≡ₚ ev_sequence <$> default [] (events s !! i)).
  { rewrite <- (sort_on_perm key_le event_key rows). change (sort_by_key event_key rows)
      with (select_events (as_str i) d). rewrite (rel_events _ _ HR), <- list_fmap_compose. done. }
  change (maximum ((fun kr => kr.1.2) <$> rows) = Z.of_nat (length (default [] (events s !! i)))).
  destruct (events s !! i) as [evs|] eqn:He; simpl in *.
  2:{ by apply Permutation_nil_r in Hperm as ->. }
  pose proof (log_entries_wf _ _ _ _ HR He) as Hwf. rewrite Forall_forall in Hwf.
  destruct evs as [|ev evs _] using rev_ind; [by apply Permutation_nil_r in Hperm as ->|].
  apply maximum_unique.
  - rewrite Hperm. apply list_elem_of_fmap. exists ev. split.
    + destruct (rel_log_wf _ _ HR _ _ He) as [[Hn _] _].
      destruct (Hn (length evs) ev) as [_ ->]; [by rewrite lookup_app_r, Nat.sub_diag|].
      rewrite length_app. simpl. lia.
    + apply elem_of_app. right. by apply list_elem_of_singleton.
  - intros x. rewrite Hperm. intros (e & -> & Hin)%list_elem_of_fmap. by apply Hwf.
Qed.

Definition log_length (s : InMemoryState) (i : TaskId) : Z :=
  Z.of_nat (length (default [] (events s !! i))).

Lemma log_length_range d s i : Rel d s -> 0 <= log_length s i <= i64_max.
Proof.
  intros HR. unfold log_length. destruct (events s !! i) as [evs|] eqn:He; simpl; [|unfold_ints; lia].
  destruct (rel_log_wf _ _ HR _ _ He) as [[_ ?] _]. lia.
Qed.

Lemma as_u64_small x : 0 <= x <= i64_max + 1 -> as_u64 x = x.
Proof. intros. unfold_ints. apply Z.mod_small. lia. Qed.

Lemma read_next_sequence d w s i :
  Rel w s -> next_sequence_with_executor i (MkConn d w) = (Ok (log_length s i + 1), MkConn d w).
Proof.
  intros HR. unfold next_sequence_with_executor, query, bind, get, ret. simpl.
  rewrite (next_sequence_is w s) by done. pose proof (log_length_range _ _ i HR).
  by rewrite as_u64_small by (unfold log_length in *; lia).
Qed.

(** *** Adding a row at the end of a log *)

Lemma select_events_perm key d :
  select_events key d ≡ₚ filter (fun kr => kr.1.1 = key) (map_to_list (t_task_events d)).
Proof. apply (sort_on_perm key_le). Qed.

Lemma elem_of_select_events key d kr :
  kr ∈ select_events key d <-> kr.1.1 = key /\ t_task_events d !! kr.1 = Some kr.2.
Proof.
  rewrite select_events_perm, list_elem_of_filter. destruct kr as [k r].
  by rewrite elem_of_map_to_list.
Qed.

Lemma event_key_inj key d a b :
  a ∈ select_events key d -> b ∈ select_events key d -> event_key a = event_key b -> a = b.
Proof.
  intros [Ha1 Ha2]%elem_of_select_events [Hb1 Hb2]%elem_of_select_events.
  destruct a as [[k n] r], b as [[k' n'] r']. unfold event_key. simpl in *.
  intros [= -> _]. subst. congruence.
Qed.

Lemma select_events_other key key' n r d :
  key' <> key -> select_events key (on_events (insert (key', n) r) d) = select_events key d.
Proof.
  intros Hne. symmetry. apply sort_on_unique.
  - intros a b. rewrite <- select_events_perm. apply event_key_inj.
  - apply NoDup_Permutation.
    1,2: apply list.NoDup_filter, NoDup_map_to_list.
    intros [k x]. rewrite !list_elem_of_filter, !elem_of_map_to_list. simpl.
    destruct (decide ((key', n) = k)) as [<-|Hk].
    + simpl. naive_solver.
    + by rewrite lookup_insert_ne.
Qed.

Lemma select_events_snoc key n r d :
  (forall kr, kr ∈ select_events key d -> kr.1.2 < n) ->
  select_events key (on_events (insert (key, n) r) d) = select_events key d ++ [((key, n), r)].
Proof.
  intros Hlt.
  assert (Hnew : t_task_events d !! (key, n) = None).
  { destruct (t_task_events d !! (key, n)) as [x|] eqn:E; [|done].
    assert (Hin : ((key, n), x) ∈ select_events key d) by (by apply elem_of_select_events).
    apply Hlt in Hin. simpl in Hin. lia. }
  assert (Hperm : select_events key (on_events (insert (key, n) r) d)
                  ≡ₚ select_events key d ++ [((key, n), r)]).
  { rewrite !select_events_perm. simpl. rewrite map_to_list_insert by done.
    rewrite filter_cons_True by done. by rewrite Permutation_app_comm. }
  apply (sorted_on_unique key_le event_key); [|apply sort_on_sorted| |done].
  - intros a b. apply event_key_inj.
  - apply StronglySorted_app_2; [|apply sort_on_sorted|repeat constructor].
    intros a b Ha ->%list_elem_of_singleton. left. simpl. by apply Hlt.
Qed.

(** *** [insert_event] *)

Definition add_event (i : TaskId) (n : Z) (e : KeryxEventType) (from : option TaskStatus)
    (to : TaskStatus) : Db -> Db :=
  on_events (insert (as_str i, n) (event_row e from to)).

Lemma rel_append d s i e from to :
  Rel d s -> is_Some (tasks s !! i) -> log_length s i < i64_max ->
  Rel (add_event i (log_length s i + 1) e from to d) (append_in_memory_event i e from to s).
Proof.
  intros HR Ht Hshort. unfold add_event, append_in_memory_event.
  set (old := default [] (events s !! i)).
  assert (Hold : forall ev, ev ∈ old -> ev_sequence ev <= log_length s i).
  { unfold old, log_length. destruct (events s !! i) as [evs|] eqn:He; simpl.
    - pose proof (log_entries_wf _ _ _ _ HR He) as Hwf. rewrite Forall_forall in Hwf.
      intros ev Hev. by apply Hwf.
    - intros ev Hev. by apply elem_of_nil in Hev. }
  destruct HR. split; simpl; try done.
  - intros j. destruct (decide (i = j)) as [<-|Hj].
    + rewrite select_events_snoc.
      * rewrite lookup_insert_eq, rel_events0. fold old. simpl. by rewrite fmap_app.
      * intros kr. rewrite rel_events0. intros (ev & -> & Hev)%list_elem_of_fmap. simpl.
        apply Hold in Hev. lia.
    + rewrite select_events_other by (by intros ?%(inj as_str)).
      by rewrite lookup_insert_ne.
  - intros j evs [[<- <-]|[Hj He]]%lookup_insert_Some; [|by apply rel_log_wf0]. split; [|done].
    assert (Hlen : Z.of_nat (length old) = log_length s i) by done.
    split; [|rewrite length_app; simpl; lia].
    intros n ev [Hn|[Hge Hn]]%lookup_app_Some.
    + unfold old in Hn. destruct (events s !! i) as [evs|] eqn:He; simpl in Hn; [|done].
      destruct (rel_log_wf0 _ _ He) as [[Hnum _] _]. by apply Hnum.
    + apply list_lookup_singleton_Some in Hn as [Hz <-]. simpl. split; [done|].
      fold old. lia.
Qed.

(** ** Writes

    What each statement of a transaction does to the representation. *)

Lemma rel_set_task d s i t f t' :
  Rel d s -> tasks s !! i = Some t -> f (task_row t) = task_row t' ->
  tr_id t' = i -> in_u32 (tr_retry_count t') ->
  Rel (on_tasks (alter f (as_str i)) d) (set_task i t' s).
Proof.
  intros HR Ht Hf Hi Hr. destruct HR. split; simpl; try done.
  - rewrite rel_tasks0. by eapply as_table_alter.
  - intros j u [[<- <-]|[Hj Hu]]%lookup_insert_Some; [done|by apply rel_task_wf0].
  - intros j evs He. destruct (rel_log_wf0 _ _ He) as [Hwf Hs]. split; [done|].
    apply lookup_insert_is_Some'. by right.
Qed.

Lemma rel_insert_task d s t :
  Rel d s -> tasks s !! tr_id t = None -> in_u32 (tr_retry_count t) ->
  Rel (on_tasks (insert (as_str (tr_id t)) (task_row t)) d) (set_task (tr_id t) t s).
Proof.
  intros HR Ht Hr. destruct HR. split; simpl; try done.
  - by rewrite rel_tasks0, as_table_insert.
  - intros j u [[<- <-]|[Hj Hu]]%lookup_insert_Some; [done|by apply rel_task_wf0].
  - intros j evs He. destruct (rel_log_wf0 _ _ He) as [Hwf Hs]. split; [done|].
    apply lookup_insert_is_Some'. by right.
Qed.

Lemma rel_set_key d s k i :
  Rel d s -> Rel (on_keys (insert (as_str k) (as_str i)) d) (set_idempotency k i s).
Proof.
  intros HR. destruct HR. split; simpl; try done. by rewrite rel_keys0, as_table_insert.
Qed.

Lemma rel_deactivate d s i :
  Rel d s -> Rel (deactivate_leases (as_str i) d) (remove_lease i s).
Proof.
  intros HR. destruct HR. unfold deactivate_leases.
  split; simpl; try done.
  - intros j l [Hj Hl]%lookup_delete_Some. rewrite lookup_fmap, (rel_leases0 _ _ Hl). simpl.
    rewrite bool_decide_false; [done|]. by intros [?%(inj as_str) _].
  - intros k r. rewrite lookup_fmap. destruct (t_leases d !! k) as [r0|] eqn:Hk; [|done].
    simpl. case_bool_decide as Hd; intros [= <-] Ha; [done|].
    destruct (rel_active0 _ _ Hk Ha) as (j & l & Hl & -> & ->). exists j, l.
    split; [|done]. apply lookup_delete_Some. split; [|done]. intros <-. by apply Hd.
  - intros k1 k2 r1 r2. rewrite !lookup_fmap.
    destruct (t_leases d !! k1) as [x1|] eqn:H1, (t_leases d !! k2) as [x2|] eqn:H2; try done.
    simpl. intros [= <-] [= <-] Heq. eapply rel_one_lease0; [done|done|].
    by do 2 case_bool_decide.
  - intros j l [Hj Hl]%lookup_delete_Some. by apply rel_lease_wf0.
Qed.

(** A new lease may take over an inactive row; if its id were the id of
    another task's active lease, the statement would delete that row. *)
Definition lease_id_free (s : InMemoryState) (i : TaskId) (lid : LeaseId) : Prop :=
  forall j l, leases s !! j = Some l -> lr_lease_id l = lid -> j = i.

Lemma rel_replace_lease d s i l :
  Rel d s -> leases s !! i = None -> lr_task_id l = i -> lease_id_free s i (lr_lease_id l) ->
  Rel (on_leases (fun m => <[as_str (lr_lease_id l) := lease_row i l 1]>
         (filter (fun kr => r_task_id kr.2 <> as_str i) m)) d) (set_lease i l s).
Proof.
  intros HR Hn Hi Hfree. destruct HR. split; simpl; try done.
  - intros j le [[<- <-]|[Hj Hl]]%lookup_insert_Some; [by rewrite lookup_insert_eq|].
    rewrite lookup_insert_ne.
    + apply map_lookup_filter_Some. split; [by apply rel_leases0|]. simpl.
      by intros ?%(inj as_str).
    + intros Heq%(inj as_str). symmetry in Heq. by apply (Hfree _ _ Hl) in Heq.
  - intros k r [[<- <-]|[Hk Hr]]%lookup_insert_Some Ha.
    + exists i, l. by rewrite lookup_insert_eq.
    + apply map_lookup_filter_Some in Hr as [Hr Ht].
      destruct (rel_active0 _ _ Hr Ha) as (j & le & Hl & -> & ->). simpl in Ht.
      exists j, le. split; [|done]. rewrite lookup_insert_ne; [done|]. by intros ->.
  - intros k1 k2 r1 r2 [[<- <-]|[Hk1 Hr1]]%lookup_insert_Some
      [[<- <-]|[Hk2 Hr2]]%lookup_insert_Some Heq; [done| | |].
    + apply map_lookup_filter_Some in Hr2 as [_ Ht]. by simpl in *.
    + apply map_lookup_filter_Some in Hr1 as [_ Ht]. by simpl in *.
    + apply map_lookup_filter_Some in Hr1 as [Hr1 _].
      apply map_lookup_filter_Some in Hr2 as [Hr2 _]. by eapply rel_one_lease0.
  - intros j le [[<- <-]|[Hj Hl]]%lookup_insert_Some; [done|by apply rel_lease_wf0].
Qed.

Lemma rel_renew d s i l w exp :
  Rel d s -> leases s !! i = Some l -> lr_worker_id l = Some w ->
  Rel (renew_leases exp (as_str i) (as_str (lr_lease_id l)) (as_str w) d)
      (set_lease i (with_expiry l exp) s).
Proof.
  intros HR Hl Hw. pose proof (rel_leases _ _ HR _ _ Hl) as Hrow.
  assert (Hnew : MkLeaseRow (as_str i) (Some (as_str w)) (lr_leased_at_ms l) exp 1
                 = lease_row i (with_expiry l exp) 1).
  { unfold lease_row. simpl. by rewrite Hw. }
  assert (Heq : t_leases (renew_leases exp (as_str i) (as_str (lr_lease_id l)) (as_str w) d)
    = <[as_str (lr_lease_id l) := lease_row i (with_expiry l exp) 1]> (t_leases d)).
  { simpl. apply map_eq. intros k. destruct (decide (as_str (lr_lease_id l) = k)) as [<-|Hk].
    - rewrite lookup_alter_eq, lookup_insert_eq, Hrow. simpl. rewrite Hw. simpl.
      rewrite bool_decide_true by done. by rewrite Hnew.
    - by rewrite lookup_alter_ne, lookup_insert_ne. }
  destruct HR. split; try done; rewrite ?Heq.
  - intros j le. simpl. intros [[<- <-]|[Hj Hle]]%lookup_insert_Some; [by rewrite lookup_insert_eq|].
    rewrite lookup_insert_ne; [by apply rel_leases0|]. intros Hk.
    pose proof (rel_leases0 _ _ Hle) as Hr. rewrite <- Hk, Hrow in Hr.
    apply (f_equal (fmap r_task_id)) in Hr. simpl in Hr. injection Hr as Hr.
    by apply (inj as_str) in Hr.
  - intros k r [[<- <-]|[Hk Hr]]%lookup_insert_Some Ha.
    + exists i, (with_expiry l exp). simpl. by rewrite lookup_insert_eq.
    + destruct (rel_active0 _ _ Hr Ha) as (j & le & Hle & -> & ->). exists j, le. simpl.
      split; [|done]. rewrite lookup_insert_ne; [done|]. intros <-. simplify_eq.
  - intros k1 k2 r1 r2. rewrite !lookup_insert_Some.
    intros [[<- <-]|[Hk1 Hr1]] [[<- <-]|[Hk2 Hr2]] Ht; [done| | |].
    + by eapply (rel_one_lease0 _ _ _ _ Hrow Hr2).
    + symmetry. eapply (rel_one_lease0 _ _ _ _ Hrow Hr1). by rewrite Ht.
    + by eapply rel_one_lease0.
  - intros j le. simpl. intros [[<- <-]|[Hj Hle]]%lookup_insert_Some; [|by apply rel_lease_wf0].
    exact (rel_lease_wf0 _ _ Hl).
Qed.

Lemma rel_set_envelope d s i e :
  Rel d s -> en_task_id e = i ->
  Rel (on_envelopes (insert (as_str i) (envelope_row e)) d) (set_envelope i e s).
Proof.
  intros HR Hi. destruct HR. split; simpl; try done.
  - by rewrite rel_envelopes0, as_table_insert.
  - intros j u [[<- <-]|[Hj Hu]]%lookup_insert_Some; [done|by apply rel_envelope_wf0].
Qed.

Lemma rel_set_context d s i c :
  Rel d s -> tc_task_id c = i ->
  Rel (on_contexts (insert (as_str i) (context_row c)) d) (set_context i c s).
Proof.
  intros HR Hi. destruct HR. split; simpl; try done.
  - by rewrite rel_contexts0, as_table_insert.
  - intros j u [[<- <-]|[Hj Hu]]%lookup_insert_Some; [done|by apply rel_context_wf0].
Qed.

Lemma rel_alter_context d s i f c c' :
  Rel d s -> transport_contexts s !! i = Some c -> f (context_row c) = context_row c' ->
  tc_task_id c' = i -> Rel (on_contexts (alter f (as_str i)) d) (set_context i c' s).
Proof.
  intros HR Hc Hf Hi. destruct HR. split; simpl; try done.
  - rewrite rel_contexts0. by eapply as_table_alter.
  - intros j u [[<- <-]|[Hj Hu]]%lookup_insert_Some; [done|by apply rel_context_wf0].
Qed.

Lemma rel_set_result d s i r :
  Rel d s -> rs_task_id r = i ->
  Rel (on_results (insert (as_str i) (result_row r)) d) (set_result i r s).
Proof.
  intros HR Hi. destruct HR. split; simpl; try done.
  - by rewrite rel_results0, as_table_insert.
  - intros j u [[<- <-]|[Hj Hu]]%lookup_insert_Some; [done|by apply rel_result_wf0].
Qed.

Lemma rel_set_outbox d s k o :
  Rel d s -> Rel (on_outbox (insert k (outbox_row o)) d) (set_outbox k o s).
Proof.
  intros HR. destruct HR. split; simpl; try done. by rewrite rel_outbox0, fmap_insert.
Qed.

(** *** Constraints that hold *)

Lemma task_row_present d s i t : Rel d s -> tasks s !! i = Some t -> is_Some (t_tasks d !! as_str i).
Proof. intros HR Ht. rewrite (rel_tasks _ _ HR), lookup_as_table, Ht. by eexists. Qed.

Lemma new_event_absent d s i :
  Rel d s -> t_task_events d !! (as_str i, log_length s i + 1) = None.
Proof.
  intros HR. destruct (t_task_events d !! _) as [r|] eqn:E; [|done]. exfalso.
  assert (Hin : ((as_str i, log_length s i + 1), r) ∈ select_events (as_str i) d)
    by (by apply elem_of_select_events).
  rewrite (rel_events _ _ HR) in Hin. apply list_elem_of_fmap in Hin as (ev & Heq & Hev).
  unfold event_entry in Heq. injection Heq as _ Hs _. unfold log_length in Hs.
  destruct (events s !! i) as [evs|] eqn:He; simpl in *; [|by apply elem_of_nil in Hev].
  pose proof (log_entries_wf _ _ _ _ HR He) as Hwf. rewrite Forall_forall in Hwf.
  apply Hwf in Hev as (_ & _ & ?). lia.
Qed.
