(* ===== verification/SqlRefine.v ===== *)
(** * The SQLite store refines the in-memory store

    Every operation of the two stores' common interface, run on a database
    that represents an in-memory state, gives the same reply and leaves the
    database representing the in-memory store's new state. *)
From S2P Require Import Prelude Ident Lifecycle StoreModel Api MemStore MemSpec MemInv Samples.
From S2P Require Import MemLease MemSweep SqlStore SqlRel.
From stdpp Require Import options.

(** ** Runs that agree *)

(** A finished operation: the same reply, and committed tables that represent
    the in-memory state. *)
Definition agrees {A} (p : Result A StoreError * Conn) (q : Result A StoreError * InMemoryState)
    : Prop := p.1 = q.1 /\ Rel (committed p.2) q.2.

(** A step inside a transaction on the tables [d] and the state [s]: when it
    succeeds, the working tables represent the new state; when it fails, the
    in-memory state is unchanged, as the dropped transaction leaves [d]. *)
Definition tx_agrees {A} (d : Db) (s : InMemoryState) (p : Result A StoreError * Conn)
    (q : Result A StoreError * InMemoryState) : Prop :=
  p.1 = q.1 /\ committed p.2 = d
  /\ match p.1 with Ok _ => Rel (working p.2) q.2 | Err _ => q.2 = s end.

Lemma tx_commit {A} d s (mc : C A) (mm : M A) c :
  Rel d s -> tx_agrees d s (mc c) (mm s) ->
  agrees ((let! a := mc in commit_tx ;;; ret a) c) (mm s).
Proof.
  intros HR. unfold bind. destruct (mc c) as [[a|e] c'], (mm s) as [r s'].
  - intros (Heq & _ & HR'). simpl in Heq, HR'. subst. by split.
  - intros (Heq & Hd & Hs). simpl in Heq, Hd, Hs. subst. by split.
Qed.

(** The state an operation needs: it satisfies the invariant, and the task's
    log has room for one more numbered event. *)
Record ready (s : InMemoryState) (i : TaskId) : Prop := {
  ready_inv : Inv s;
  ready_log : log_length s i < i64_max;
}.

Lemma run_insert_event violation d w s i e from to :
  Rel w s -> is_Some (tasks s !! i) -> log_length s i < i64_max ->
  insert_event violation i (log_length s i + 1) e from to (MkConn d w)
  = (Ok tt, MkConn d (add_event i (log_length s i + 1) e from to w)).
Proof.
  intros HR [t Ht] Hlen. unfold insert_event, execute, bind, get, insert_event_row. simpl.
  assert (Hr : in_i64 (log_length s i + 1))
    by (pose proof (log_length_range _ _ i HR); unfold in_i64, i64_min, i64_max in *; lia).
  rewrite as_i64_id by done. rewrite (new_event_absent w s) by done.
  destruct (task_row_present _ _ _ _ HR Ht) as [r ->]. done.
Qed.

(** *** The write sequences the operations share *)

Section writes.
Context (violation : string) (d w : Db) (s : InMemoryState) (i : TaskId) (t : TaskRecord).
Context (HR : Rel w s) (Ht : tasks s !! i = Some t) (Hlen : log_length s i < i64_max).
Context (f : TaskRow -> TaskRow) (t' : TaskRecord) (Hf : f (task_row t) = task_row t').
Context (Hid : tr_id t' = i) (Hretry : in_u32 (tr_retry_count t')).

(** Release the lease, rewrite the task, log the event. *)
Lemma run_release e from :
  exists w', Rel w' (commit i from e t' None s)
    /\ forall A (k : C A),
      (deactivate_lease_for_task_with_executor violation i ;;;
       update violation (on_tasks (alter f (as_str i))) ;;;
       insert_event violation i (log_length s i + 1) e (Some from) (tr_status t') ;;; k)
        (MkConn d w) = k (MkConn d w').
Proof using HR Ht Hlen Hf Hid Hretry.
  pose proof (rel_deactivate w s i HR) as HR1.
  pose proof (rel_set_task _ _ i t f t' HR1 Ht Hf Hid Hretry) as HR2.
  assert (Hs : is_Some (tasks (set_task i t' (remove_lease i s)) !! i))
    by (simpl; rewrite lookup_insert_eq; by eexists).
  eexists. split; [exact (rel_append _ _ i e (Some from) (tr_status t') HR2 Hs Hlen)|].
  intros A k. unfold bind at 1, deactivate_lease_for_task_with_executor, update at 1, execute at 1,
    bind at 1, get, modify. simpl. unfold bind at 1, update, execute at 1, bind at 1, get, modify.
  simpl. unfold bind. by rewrite (run_insert_event _ _ _ _ _ _ _ _ HR2 Hs Hlen).
Qed.

(** The same without touching the lease. *)
Lemma run_keep e from :
  exists w', Rel w' (commit i from e t' (leases s !! i) s)
    /\ forall A (k : C A),
      (update violation (on_tasks (alter f (as_str i))) ;;;
       insert_event violation i (log_length s i + 1) e (Some from) (tr_status t') ;;; k)
        (MkConn d w) = k (MkConn d w').
Proof using HR Ht Hlen Hf Hid Hretry.
  pose proof (rel_set_task _ _ i t f t' HR Ht Hf Hid Hretry) as HR2.
  assert (Hs : is_Some (tasks (set_task i t' s) !! i))
    by (simpl; rewrite lookup_insert_eq; by eexists).
  eexists. split.
  - unfold commit. rewrite put_lease_id.
    exact (rel_append _ _ i e (Some from) (tr_status t') HR2 Hs Hlen).
  - intros A k. unfold bind at 1, update, execute at 1, bind at 1, get, modify. simpl.
    unfold bind. by rewrite (run_insert_event _ _ _ _ _ _ _ _ HR2 Hs Hlen).
Qed.
End writes.

(** *** Rules that run both stores in step

    [P] is [agrees] or [tx_agrees d s]; both accept a failure of the two
    sides before anything was written. *)
Lemma sim_lift {A B} (P : Result A StoreError * Conn -> Result A StoreError * InMemoryState -> Prop)
    c s (r : Result B StoreError) kc km :
  (forall e, P (Err e, c) (Err e, s)) ->
  (forall b, r = Ok b -> P (kc b c) (km b s)) ->
  P (bind (lift r) kc c) (bind (lift r) km s).
Proof. intros Hfail H. unfold bind, lift. destruct r; [by apply H|apply Hfail]. Qed.

Section rules.
Context {A : Type} (P : Result A StoreError * Conn -> Result A StoreError * InMemoryState -> Prop).
Context (d : Db) (s : InMemoryState) (HR : Rel d s).
Context (Hfail : forall e, P (Err e, MkConn d d) (Err e, s)).

Lemma sim_task i kc km :
  (forall t, tasks s !! i = Some t -> P (kc t (MkConn d d)) (km t s)) ->
  P (bind (fetch_task_with_executor i) kc (MkConn d d)) (bind (find_task i) km s).
Proof using HR Hfail.
  intros H. unfold bind at 1. rewrite (fetch_task d d s) by done.
  unfold find_task, MemStore.get_task, bind, MemStore.get_task, get, lift.
  destruct (tasks s !! i); [by apply H|apply Hfail].
Qed.

Lemma sim_lease i kc km :
  (forall l, leases s !! i = Some l -> P (kc l (MkConn d d)) (km l s)) ->
  P (bind (require_active_lease i) kc (MkConn d d)) (bind (find_lease i) km s).
Proof using HR Hfail.
  intros H. unfold bind at 1. rewrite (require_lease d d s) by done.
  unfold find_lease, bind, get, lift.
  destruct (leases s !! i); [by apply H|apply Hfail].
Qed.

Lemma sim_sequence i kc q :
  P (kc (log_length s i + 1) (MkConn d d)) q ->
  P (bind (next_sequence_with_executor i) kc (MkConn d d)) q.
Proof using HR. intros H. unfold bind. by rewrite (read_next_sequence d d s). Qed.

Lemma sim_begin w kc q :
  P (kc tt (MkConn d d)) q -> P (bind begin kc (MkConn d w)) q.
Proof using Type. done. Qed.

Lemma sim_get p km : P p (km s s) -> P p (bind get km s).
Proof using Type. done. Qed.
End rules.

Lemma agrees_fail {A} d w s e : Rel d s -> @agrees A (Err e, MkConn d w) (Err e, s).
Proof. by split. Qed.

Lemma tx_fail {A} d s e : @tx_agrees A d s (Err e, MkConn d d) (Err e, s).
Proof. by repeat split. Qed.

Ltac fails := intros; first [by apply agrees_fail|apply tx_fail].

Ltac sim1 :=
  first
    [ apply sim_begin
    | apply sim_lift; [fails|intros]
    | apply sim_task; [assumption|fails|intros]
    | apply sim_lease; [assumption|fails|intros]
    | eapply sim_sequence; [eassumption|]
    | apply sim_get ].

Lemma store_transition_shape from to tr :
  store_transition from to = Ok tr -> tt_from tr = from /\ tt_to tr = to.
Proof. intros H. apply store_transition_ok in H. naive_solver. Qed.

(** Run a shared write sequence: [W] is its lemma for the record [t'] that the
    rewritten row stands for, [k] what follows it. *)
Ltac write_run W k :=
  let w' := fresh "w'" in let HR' := fresh "HR'" in let Hrun := fresh "Hrun" in
  destruct W as (w' & HR' & Hrun); specialize (Hrun _ k); simpl in Hrun;
  unfold update_task_metadata_with_executor, update_task_status_with_executor; rewrite Hrun.

(** The peer guard as the in-memory store words it. *)
Definition peer_mismatch (s : InMemoryState) (i : TaskId) (p : option PeerId)
    : option (PeerId * PeerId) :=
  p ≫= fun local =>
    match expected_executor s i with
    | Some expected => if bool_decide (expected = local) then None else Some (expected, local)
    | None => None
    end.

Ltac tx_done HR' := split; [done|split; [done|exact HR']].

Lemma one_u32 : in_u32 1.
Proof. by unfold in_u32, u32_max. Qed.

Section operations.
Context (violation : string).

Lemma finish_agrees d s i lid w to dl reason t :
  Rel d s -> ready s i -> tasks s !! i = Some t ->
  tx_agrees d s
    (finish_task_in_tx violation i lid w to (tr_retry_count t) dl reason (MkConn d d))
    (finish_task_in_state i lid w to (tr_retry_count t) dl reason s).
Proof using Type.
  intros HR [HI Hlen] Ht. unfold finish_task_in_tx, finish_task_in_state.
  repeat sim1. simplify_eq.
  match goal with H : store_transition _ _ = Ok ?tr |- _ =>
    apply store_transition_shape in H as [-> ->]; set (ev := tt_event_type tr) end.
  destruct (rel_task_wf _ _ HR _ _ Ht) as [Hid Hr].
  write_run (run_release violation d d s i t HR Ht Hlen
    (row_with_metadata to (tr_retry_count t) dl reason)
    (with_metadata t to (tr_retry_count t) dl reason) eq_refl Hid Hr ev (tr_status t))
    (fetch_task_with_executor i).
  rewrite (fetch_task _ _ _ _ HR'). simpl. rewrite lookup_insert_eq. by tx_done HR'.
Qed.

Lemma require_status_eq a b u : require_status a b = Ok u -> a = b.
Proof using Type. by rewrite require_status_ok. Qed.

Lemma retry_agrees d s i l t :
  Rel d s -> ready s i -> tasks s !! i = Some t ->
  tx_agrees d s
    (sqlite_retry_task_in_tx violation i t (MkConn d d))
    (retry_task_in_state i l t s).
Proof using Type.
  intros HR [HI Hlen] Ht. unfold sqlite_retry_task_in_tx, retry_task_in_state.
  assert (Hl : ensure_matching_lease_id i l (lr_lease_id l) = Ok tt)
    by (by apply ensure_matching_lease_id_ok).
  rewrite Hl. change (bind (lift (Ok tt)) ?k s) with (k tt s). cbv beta.
  repeat sim1.
  match goal with H : require_status _ _ = Ok _ |- _ => apply require_status_eq in H as Hs end.
  destruct (rel_task_wf _ _ HR _ _ Ht) as [Hid Hr].
  assert (Hdead : tr_dead_lettered t = false).
  { destruct (tr_dead_lettered t) eqn:E; [|done].
    destruct (inv_dead _ HI _ _ Ht E) as [Hf _]. congruence. }
  assert (Hreason : tr_dead_letter_reason t = None) by (by eapply inv_reason).
  write_run (run_release violation d d s i t HR Ht Hlen
    (row_with_metadata Pending (u32_saturating_add (tr_retry_count t) 1) false None)
    (with_metadata t Pending (u32_saturating_add (tr_retry_count t) 1) false None) eq_refl Hid
    (u32_saturating_add_range _ 1 Hr one_u32) RecoveryAction Running)
    (fetch_task_with_executor i).
  rewrite (fetch_task _ _ _ _ HR'). simpl. rewrite lookup_insert_eq, Hdead, Hreason.
  by tx_done HR'.
Qed.

Lemma dead_letter_agrees d s i l t reason :
  Rel d s -> ready s i -> tasks s !! i = Some t ->
  tx_agrees d s
    (sqlite_dead_letter_task_in_tx violation i t reason (MkConn d d))
    (dead_letter_task_in_state i l t reason s).
Proof using Type.
  intros HR [HI Hlen] Ht. unfold sqlite_dead_letter_task_in_tx, dead_letter_task_in_state.
  assert (Hl : ensure_matching_lease_id i l (lr_lease_id l) = Ok tt)
    by (by apply ensure_matching_lease_id_ok).
  rewrite Hl. change (bind (lift (Ok tt)) ?k s) with (k tt s). cbv beta.
  repeat sim1.
  match goal with H : store_transition _ _ = Ok ?tr |- _ =>
    apply store_transition_shape in H as [-> ->] end.
  destruct (rel_task_wf _ _ HR _ _ Ht) as [Hid Hr].
  write_run (run_release violation d d s i t HR Ht Hlen
    (row_with_metadata Failed (u32_saturating_add (tr_retry_count t) 1) true (Some reason))
    (with_metadata t Failed (u32_saturating_add (tr_retry_count t) 1) true (Some reason)) eq_refl
    Hid (u32_saturating_add_range _ 1 Hr one_u32) TaskDeadLettered (tr_status t))
    (fetch_task_with_executor i).
  rewrite (fetch_task _ _ _ _ HR'). simpl. rewrite lookup_insert_eq. by tx_done HR'.
Qed.

(** *** The operations *)

Lemma finish_sim d w s i lid wk to :
  Rel d s -> ready s i ->
  agrees (finish_task violation i lid wk to (MkConn d w)) (MemStore.finish_task i lid wk to s).
Proof using Type.
  intros HR Hrd. unfold finish_task, MemStore.finish_task. repeat sim1.
  apply (tx_commit d s _ (finish_task_in_state i lid wk to _ _ _)); [done|].
  by apply finish_agrees.
Qed.

Lemma fail_sim d w s i lid wk reason p :
  Rel d s -> ready s i ->
  agrees (fail_task violation i lid wk reason p (MkConn d w)) (MemStore.fail_task i lid wk reason p s).
Proof using Type.
  intros HR Hrd. unfold fail_task, MemStore.fail_task. repeat sim1.
  destruct (max_retries p =? 0).
  { apply (tx_commit d s _ (finish_task_in_state i lid wk _ _ _ _)); [done|].
    by apply finish_agrees. }
  destruct (should_retry_after_failure p _).
  - apply (tx_commit d s _ (retry_task_in_state i _ _)); [done|]. by apply retry_agrees.
  - apply (tx_commit d s _ (dead_letter_task_in_state i _ _ _)); [done|].
    by apply dead_letter_agrees.
Qed.

Lemma retry_sim d w s i lid wk :
  Rel d s -> ready s i ->
  agrees (retry_task violation i lid wk (MkConn d w)) (MemStore.retry_task i lid wk s).
Proof using Type.
  intros HR Hrd. unfold retry_task, MemStore.retry_task. repeat sim1.
  apply (tx_commit d s _ (retry_task_in_state i _ _)); [done|]. by apply retry_agrees.
Qed.

Lemma dead_letter_sim d w s i lid wk reason :
  Rel d s -> ready s i ->
  agrees (dead_letter_task violation i lid wk reason (MkConn d w))
    (MemStore.dead_letter_task i lid wk reason s).
Proof using Type.
  intros HR Hrd. unfold dead_letter_task, MemStore.dead_letter_task. repeat sim1.
  apply (tx_commit d s _ (dead_letter_task_in_state i _ _ _)); [done|].
  by apply dead_letter_agrees.
Qed.

(** A write sequence that ends the transaction and reads the task back. *)
Lemma read_back d w s i t' st e l' :
  Rel w (commit i st e t' l' s) ->
  agrees ((commit_tx ;;; get_task i) (MkConn d w)) (Ok t', commit i st e t' l' s).
Proof using Type.
  intros HR. change ((commit_tx ;;; get_task i) (MkConn d w)) with (get_task i (MkConn w w)).
  rewrite (pool_get_task _ _ _ _ HR), commit_tasks, lookup_insert_eq. by split.
Qed.

Lemma sim_if_running {A} (P : Result A StoreError * Conn -> Result A StoreError * InMemoryState -> Prop)
    (b : bool) (c : Conn) s mc mm kc km :
  (b = true -> P (bind mc kc c) (bind mm km s)) -> (b = false -> P (kc tt c) (km tt s)) ->
  P (bind (if b then mc else ret tt) kc c) (bind (if b then mm else ret tt) km s).
Proof using Type. destruct b; auto. Qed.

Lemma bind_assoc_run {S A B D} (m : ST S StoreError A) (f : A -> ST S StoreError B)
    (g : B -> ST S StoreError D) s :
  bind (bind m f) g s = bind m (fun a => bind (f a) g) s.
Proof using Type. apply bind_assoc. Qed.

(** The write sequences, regrouped as [match] leaves them. *)
Lemma seq3_assoc {S A} (a b c : ST S StoreError unit) (k : ST S StoreError A) s :
  ((a ;;; b ;;; c) ;;; k) s = (a ;;; b ;;; c ;;; k) s.
Proof using Type.
  unfold bind. destruct (a s) as [[] s1]; [|done]. by destruct (b s1) as [[] s2].
Qed.

Lemma cancel_sim d w s i now :
  Rel d s -> ready s i ->
  agrees (cancel_task violation i now (MkConn d w)) (MemStore.cancel_task i now s).
Proof using Type.
  intros HR [HI Hlen]. unfold cancel_task, MemStore.cancel_task. repeat sim1.
  match goal with H : tasks s !! i = Some ?t' |- _ => rename t' into t, H into Ht end.
  destruct (is_terminal (tr_status t)); [by split|].
  destruct (rel_task_wf _ _ HR _ _ Ht) as [Hid Hr].
  apply sim_if_running; intros _; rewrite ?bind_assoc_run; repeat sim1.
  all: match goal with H : store_cancel_transition _ = Ok ?tr |- _ =>
         apply store_cancel_transition_ok in H as [_ ->] end; simpl.
  all: write_run (run_release violation d d s i t HR Ht Hlen (row_with_status Failed)
         (with_status t Failed) eq_refl Hid Hr TaskCanceled (tr_status t))
         (commit_tx ;;; get_task i).
  all: exact (read_back _ _ _ _ _ _ _ _ HR').
Qed.

Lemma transition_sim d w s i to :
  Rel d s -> ready s i ->
  agrees (transition_task violation i to (MkConn d w)) (MemStore.transition_task i to s).
Proof using Type.
  intros HR [HI Hlen]. unfold transition_task, MemStore.transition_task. repeat sim1.
  match goal with H : tasks s !! i = Some ?t' |- _ => rename t' into t, H into Ht end.
  match goal with H : store_transition _ _ = Ok ?tr |- _ =>
    apply store_transition_shape in H as [-> ->]; set (ev := tt_event_type tr) end.
  destruct (rel_task_wf _ _ HR _ _ Ht) as [Hid Hr].
  destruct (is_terminal to).
  - write_run (run_release violation d d s i t HR Ht Hlen (row_with_status to)
      (with_status t to) eq_refl Hid Hr ev (tr_status t)) (commit_tx ;;; get_task i).
    exact (read_back _ _ _ _ _ _ _ _ HR').
  - rewrite !bind_ret_l.
    write_run (run_keep violation d d s i t HR Ht Hlen (row_with_status to)
      (with_status t to) eq_refl Hid Hr ev (tr_status t)) (commit_tx ;;; get_task i).
    pose proof (read_back d w' s i _ _ _ _ HR') as Hb.
    unfold commit in Hb. rewrite put_lease_id in Hb. exact Hb.
Qed.

Lemma legacy_sim d w s i e :
  Rel d s -> ready s i ->
  agrees (accept_legacy_event violation i e (MkConn d w)) (MemStore.accept_legacy_event i e s).
Proof using Type.
  intros HR [HI Hlen]. unfold accept_legacy_event, MemStore.accept_legacy_event.
  repeat sim1.
  match goal with H : tasks s !! i = Some ?t' |- _ => rename t' into t, H into Ht end.
  destruct (rel_task_wf _ _ HR _ _ Ht) as [Hid Hr].
  match goal with H : plan_legacy_event_append _ _ = Ok ?p |- _ => destruct p as [tr|e' st] end.
  - match goal with H : plan_legacy_event_append _ _ = Ok _ |- _ =>
      apply plan_lifecycle_inv in H as [Hfrom _] end.
    rewrite Hfrom. destruct (is_terminal (tt_to tr)).
    + rewrite seq3_assoc.
      write_run (run_release violation d d s i t HR Ht Hlen (row_with_status (tt_to tr))
        (with_status t (tt_to tr)) eq_refl Hid Hr (tt_event_type tr) (tr_status t))
        (commit_tx ;;; get_task i).
      exact (read_back _ _ _ _ _ _ _ _ HR').
    + rewrite seq3_assoc, !bind_ret_l.
      write_run (run_keep violation d d s i t HR Ht Hlen (row_with_status (tt_to tr))
        (with_status t (tt_to tr)) eq_refl Hid Hr (tt_event_type tr) (tr_status t))
        (commit_tx ;;; get_task i).
      pose proof (read_back d w' s i _ _ _ _ HR') as Hb.
      unfold commit in Hb. rewrite put_lease_id in Hb. exact Hb.
  - match goal with H : plan_legacy_event_append _ _ = Ok _ |- _ =>
      apply plan_operational_inv in H as (-> & -> & _) end.
    match goal with H : ok_or (from_keryx_event_type e) _ = Ok ?b |- _ => set (ev := as_keryx_event_type b) end.
    assert (Hs : is_Some (tasks s !! i)) by (by eexists).
    unfold bind at 1. rewrite (run_insert_event _ _ _ _ _ _ _ _ HR Hs Hlen).
    pose proof (rel_append _ _ i ev (Some (tr_status t)) (tr_status t)
                  HR Hs Hlen) as HR'.
    change ((commit_tx ;;; get_task i) (MkConn d ?x)) with (get_task i (MkConn x x)).
    rewrite (pool_get_task _ _ _ _ HR'). simpl. rewrite Ht. by split.
Qed.

(** *** Leasing *)

Lemma check_executor_run d s i p :
  Rel d s ->
  check_executor i p (MkConn d d) =
  (match peer_mismatch s i p with
   | Some (expected, local) => Err (StoreError.TaskExecutorMismatch i expected local)
   | None => Ok tt
   end, MkConn d d).
Proof using Type.
  intros HR. unfold check_executor, query, select_context, bind, get, ret, lift, throw, peer_mismatch.
  destruct p as [local|]; [|done]. simpl.
  rewrite (rel_contexts _ _ HR), lookup_as_table. unfold expected_executor.
  destruct (transport_contexts s !! i) as [c|]; simpl; [|done].
  destruct (tc_expected_executor_peer_id c) as [e|]; simpl; [|done].
  destruct (decide (e = local)) as [->|Hne]; [by rewrite !bool_decide_true|].
  rewrite !bool_decide_false; [|done|by intros ?%(inj as_str)]. by rewrite id_new_as_str.
Qed.

Lemma run_replace_lease d s i l t :
  Rel d s -> tasks s !! i = Some t ->
  execute violation (replace_lease_row (as_str (lr_lease_id l)) (lease_row i l 1)) (MkConn d d)
  = (Ok tt, MkConn d (on_leases (fun m => <[as_str (lr_lease_id l) := lease_row i l 1]>
       (filter (fun kr => r_task_id kr.2 <> as_str i) m)) d)).
Proof using Type.
  intros HR Ht. unfold execute, bind, get, replace_lease_row. simpl.
  by destruct (task_row_present _ _ _ _ HR Ht) as [r ->].
Qed.

(** The two stores check the peer before and after the lease record itself,
    so on a lease record that names another task, or no worker, they may
    refuse with different errors. *)
Lemma lease_sim d w s i l p :
  Rel d s -> ready s i -> lease_id_free s i (lr_lease_id l) ->
  lr_task_id l = i -> is_Some (lr_worker_id l) ->
  agrees (lease_task_with_peer_guard violation i l p (MkConn d w))
    (MemStore.lease_task_with_peer_guard i l p s).
Proof using Type.
  intros HR [HI Hlen] Hfree Hi Hw.
  unfold lease_task_with_peer_guard, MemStore.lease_task_with_peer_guard.
  rewrite (proj2 (ensure_matching_task_id_ok i l tt) Hi).
  rewrite (proj2 (ensure_lease_has_owner_ok l tt) Hw).
  apply sim_begin, sim_get. rewrite !bind_lift_ok. unfold bind at 1.
  rewrite (check_executor_run d s) by done. fold (peer_mismatch s i p).
  destruct (peer_mismatch s i p) as [[e a]|]; [by split|]. rewrite ?bind_lift_ok.
  repeat sim1. unfold bind at 1. rewrite (read_lease d d s) by done.
  match goal with H : tasks s !! i = Some _ |- _ => rename H into Ht end.
  destruct (rel_task_wf _ _ HR _ _ Ht) as [Hid Hr].
  destruct (leases s !! i) as [l0|] eqn:Hl; [by split|].
  destruct (tr_deadline_ms t ≫= _) as [deadline_ms|]; repeat sim1.
  - write_run (run_keep violation d d s i t HR Ht Hlen (row_with_status Failed)
      (with_status t Failed) eq_refl Hid Hr TaskTimedOut (tr_status t))
      (commit_tx ;;; throw (S := Conn) (A := TaskRecord)
         (StoreError.TaskDeadlineExpired i deadline_ms (lr_leased_at_ms l))).
    unfold commit in HR'. rewrite put_lease_id in HR'. by split.
  - match goal with H : store_transition _ _ = Ok ?tr |- _ =>
      apply store_transition_shape in H as [-> ->]; set (ev := tt_event_type tr) end.
    unfold bind at 1. rewrite (run_replace_lease d s i l t) by done.
    pose proof (rel_replace_lease d s i l HR Hl Hi Hfree) as HR1.
    destruct (run_keep violation d _ (set_lease i l s) i t HR1 Ht Hlen (row_with_status Running)
      (with_status t Running) eq_refl Hid Hr ev (tr_status t)) as (w' & HR' & Hrun).
    specialize (Hrun _ (commit_tx ;;; get_task i)). simpl in Hrun.
    change (log_length (set_lease i l s) i) with (log_length s i) in Hrun.
    unfold update_task_status_with_executor. rewrite Hrun.
    pose proof (read_back d w' _ i _ _ _ _ HR') as Hb.
    unfold commit in Hb. rewrite put_lease_id in Hb. exact Hb.
Qed.

Lemma renew_sim d w s i lid wk now exp :
  Rel d s ->
  agrees (renew_lease violation i lid wk now exp (MkConn d w))
    (MemStore.renew_lease i lid wk now exp s).
Proof using Type.
  intros HR. unfold renew_lease, MemStore.renew_lease. repeat sim1.
  match goal with Hl : leases s !! i = Some ?le, H1 : ensure_matching_lease_id _ _ _ = Ok _,
      H2 : ensure_matching_worker_id _ _ _ = Ok _ |- _ =>
    apply ensure_matching_lease_id_ok in H1 as <-;
    apply ensure_matching_worker_id_ok in H2 as Hw;
    pose proof (rel_renew d s i le wk exp HR Hl Hw) as HR' end.
  split; [done|]. cbn -[renew_leases]. 
  match type of HR' with Rel ?d' ?s' => assert (Hid : on_tasks (alter (fun r => r) (as_str i)) d' = d') end.
  { unfold on_tasks. rewrite alter_id by done. by destruct (renew_leases _ _ _ _ _). }
  rewrite Hid. exact HR'.
Qed.

(** *** Accepting tasks *)

(** The three inserts of [insert_accepted_task] succeed on a new task whose
    key, if it has one, is free. *)
Lemma run_insert_accepted d w s t :
  Rel w s -> Inv s -> in_u32 (tr_retry_count t) -> tasks s !! tr_id t = None ->
  (forall k, tr_idempotency_key t = Some k -> idempotency s !! k = None) ->
  exists w', insert_accepted_task violation t (MkConn d w) = (Ok tt, MkConn d w')
    /\ Rel w' (set_task (tr_id t) t
         (append_in_memory_event (tr_id t) TaskAccepted None (tr_status t)
           (set_idempotency_opt (tr_idempotency_key t) (tr_id t) s))).
Proof using Type.
  intros HR HI Hr Hn Hk. set (i := tr_id t) in *.
  assert (Hrow : t_tasks w !! as_str i = None)
    by (by rewrite (rel_tasks _ _ HR), lookup_as_table, Hn).
  assert (Huniq : unique_key (as_str <$> tr_idempotency_key t) (t_tasks w) = true).
  { unfold unique_key. destruct (tr_idempotency_key t) as [k|] eqn:Hkt; [|done]. simpl.
    apply bool_decide_eq_true. intros key r Hlk Hrk. rewrite (rel_tasks _ _ HR) in Hlk.
    apply lookup_as_table_Some in Hlk as (j & u & -> & Hu & ->). simpl in Hrk.
    destruct (tr_idempotency_key u) as [k'|] eqn:Hku; [|done]. simpl in Hrk.
    injection Hrk as Hrk. apply (inj as_str) in Hrk as ->.
    assert (idempotency s !! k = Some j) by (apply (inv_key _ HI); eauto).
    rewrite Hk in *; done. }
  assert (Hnokey : map_Forall (fun _ j => j <> as_str i) (t_idempotency_keys w)).
  { intros key j Hlk. rewrite (rel_keys _ _ HR) in Hlk.
    apply lookup_as_table_Some in Hlk as (k & j' & -> & Hk' & ->). intros Heq%(inj as_str).
    apply (inv_key _ HI) in Hk' as (u & Hu & _). congruence. }
  pose proof (rel_insert_task w s t HR Hn Hr) as HR1. fold i in HR1.
  set (w1 := on_tasks (insert (as_str i) (task_row t)) w) in *.
  set (w2 := match tr_idempotency_key t with
             | Some k => on_keys (insert (as_str k) (as_str i)) w1 | None => w1 end).
  set (s2 := set_idempotency_opt (tr_idempotency_key t) i (set_task i t s)).
  assert (HR2 : Rel w2 s2).
  { unfold w2, s2, set_idempotency_opt. destruct (tr_idempotency_key t); [by apply rel_set_key|done]. }
  assert (Hs2 : is_Some (tasks s2 !! i)).
  { unfold s2, set_idempotency_opt. destruct (tr_idempotency_key t); simpl;
      rewrite lookup_insert_eq; by eexists. }
  assert (Hlen : log_length s2 i = 0).
  { unfold log_length, s2, set_idempotency_opt. destruct (tr_idempotency_key t); simpl;
      by rewrite (no_task_no_log s i HI Hn). }
  assert (Hshort : log_length s2 i < i64_max) by (rewrite Hlen; done).
  pose proof (run_insert_event violation d w2 s2 i TaskAccepted None (tr_status t) HR2 Hs2 Hshort)
    as Hev.
  pose proof (rel_append w2 s2 i TaskAccepted None (tr_status t) HR2 Hs2 Hshort) as HR3.
  rewrite Hlen in Hev, HR3.
  exists (add_event i 1 TaskAccepted None (tr_status t) w2). split.
  - unfold insert_accepted_task, bind at 1, execute at 1, bind at 1, get, insert_task_row. simpl.
    fold i. rewrite Hrow, Huniq. simpl. fold w1. unfold bind at 1.
    assert (Hkeyrun : (match tr_idempotency_key t with
      | Some key => execute violation (insert_key_row (as_str key) (as_str i))
      | None => ret tt end) (MkConn d w1) = (Ok tt, MkConn d w2)).
    { unfold w2. destruct (tr_idempotency_key t) as [k|] eqn:Hkt; [|done].
      unfold execute, bind, get, insert_key_row. simpl.
      rewrite (rel_keys _ _ HR), lookup_as_table, (Hk k eq_refl). simpl.
      rewrite lookup_insert_eq. rewrite <- (rel_keys _ _ HR).
      by rewrite bool_decide_true. }
    rewrite Hkeyrun. exact Hev.
  - unfold s2, set_idempotency_opt in HR3.
    unfold set_idempotency_opt. destruct (tr_idempotency_key t); exact HR3.
Qed.

Lemma read_task_row d w s t :
  Rel w s -> query (fun x => t_tasks x !! as_str (tr_id t)) (MkConn d w)
             = (Ok (task_row <$> tasks s !! tr_id t), MkConn d w).
Proof using Type.
  intros HR. unfold query, bind, get, ret. simpl. by rewrite (rel_tasks _ _ HR), lookup_as_table.
Qed.

(** What an idempotency key leads to, on both sides. *)
Lemma hit_cases s t :
  (tr_idempotency_key t ≫= fun key => pair key <$> idempotency s !! key) = None
    /\ idempotent_hit t s = None
  \/ exists k j, (tr_idempotency_key t ≫= fun key => pair key <$> idempotency s !! key)
                  = Some (k, j)
    /\ idempotent_hit t s = Some (j,
         let? existing := ok_or (tasks s !! j) (StoreError.CorruptEventStream j) in
         if bool_decide (existing = t) then Ok existing
         else Err (StoreError.IdempotencyConflict k j)).
Proof using Type.
  unfold idempotent_hit. destruct (tr_idempotency_key t) as [k|]; simpl; [|by left].
  destruct (idempotency s !! k) as [j|]; simpl; [right; eauto|by left].
Qed.

Lemma hit_task s k j t :
  Inv s -> (tr_idempotency_key t ≫= fun key => pair key <$> idempotency s !! key) = Some (k, j) ->
  exists u, tasks s !! j = Some u.
Proof using Type.
  intros HI H. destruct (tr_idempotency_key t) as [k'|]; [|done]. simpl in H.
  destruct (idempotency s !! k') as [j'|] eqn:Hj; [|done]. simplify_eq/=.
  apply (inv_key _ HI) in Hj as (u & Hu & _). eauto.
Qed.

Lemma no_hit_free s t :
  (tr_idempotency_key t ≫= fun key => pair key <$> idempotency s !! key) = None ->
  forall k, tr_idempotency_key t = Some k -> idempotency s !! k = None.
Proof using Type. intros H k Hk. rewrite Hk in H. simpl in H. by destruct (idempotency s !! k). Qed.

(** A task that is not pending is refused by both, with the two statuses of
    the error exchanged. *)
Lemma accept_sim d w s t :
  Rel d s -> Inv s -> fresh_task t -> tr_status t = Pending ->
  agrees (accept_task violation t (MkConn d w)) (MemStore.accept_task t s).
Proof using Type.
  intros HR HI (_ & _ & Hr) Hs. unfold accept_task, MemStore.accept_task.
  rewrite (proj2 (validate_accepted_task_status_ok t tt) Hs).
  rewrite (proj2 (ensure_pending_accept_ok t tt) Hs). rewrite !bind_lift_ok.
  apply sim_begin. rewrite bind_lift_ok. apply sim_get.
  unfold bind at 1. rewrite (read_key d d s) by done.
  destruct (hit_cases s t) as [[Hkey ->]|(k & j & Hkey & ->)]; rewrite Hkey.
  - unfold bind at 1. rewrite (read_task_row d d s) by done.
    destruct (tasks s !! tr_id t) as [u|] eqn:Hn; simpl; [by split|].
    destruct (run_insert_accepted d d s t HR HI Hr Hn (no_hit_free _ _ Hkey)) as (w' & Hrun & HR').
    unfold bind at 1. rewrite Hrun. by split.
  - destruct (hit_task _ _ _ _ HI Hkey) as (u & Hu).
    unfold bind at 1. rewrite (fetch_task d d s) by done. rewrite Hu. simpl.
    unfold lift. by case_bool_decide; split.
Qed.

Lemma run_insert_envelope d w s e :
  Rel w s -> is_Some (tasks s !! en_task_id e) -> envelopes s !! en_task_id e = None ->
  execute violation (insert_envelope_row (as_str (en_task_id e)) (envelope_row e)) (MkConn d w)
  = (Ok tt, MkConn d (on_envelopes (insert (as_str (en_task_id e)) (envelope_row e)) w)).
Proof using Type.
  intros HR [t Ht] Hn. unfold execute, bind, get, insert_envelope_row. simpl.
  by rewrite (rel_envelopes _ _ HR), (rel_tasks _ _ HR), !lookup_as_table, Hn, Ht.
Qed.

Lemma run_insert_context d w s c :
  Rel w s -> is_Some (tasks s !! tc_task_id c) -> transport_contexts s !! tc_task_id c = None ->
  insert_transport_context violation c (MkConn d w)
  = (Ok tt, MkConn d (on_contexts (insert (as_str (tc_task_id c)) (context_row c)) w)).
Proof using Type.
  intros HR [t Ht] Hn. unfold insert_transport_context, execute, bind, get, insert_context_row.
  simpl. by rewrite (rel_contexts _ _ HR), (rel_tasks _ _ HR), !lookup_as_table, Hn, Ht.
Qed.

Lemma no_task_no_envelope s i : Inv s -> tasks s !! i = None -> envelopes s !! i = None.
Proof using Type.
  intros HI Hn. destruct (envelopes s !! i) eqn:E; [|done].
  destruct (inv_envelope _ HI _ _ E) as [_ [? ?]]. congruence.
Qed.

Lemma no_task_no_context s i : Inv s -> tasks s !! i = None -> transport_contexts s !! i = None.
Proof using Type.
  intros HI Hn. destruct (transport_contexts s !! i) eqn:E; [|done].
  destruct (inv_context _ HI _ _ E) as [_ [? ?]]. congruence.
Qed.

(** The state after [insert_accepted_task], before its envelope. *)
Lemma accepted_lookups s t :
  let s' := set_task (tr_id t) t (append_in_memory_event (tr_id t) TaskAccepted None (tr_status t)
              (set_idempotency_opt (tr_idempotency_key t) (tr_id t) s)) in
  tasks s' !! tr_id t = Some t /\ envelopes s' = envelopes s
  /\ transport_contexts s' = transport_contexts s.
Proof using Type.
  unfold set_idempotency_opt. destruct (tr_idempotency_key t); simpl; by rewrite lookup_insert_eq.
Qed.

Lemma accept_envelope_sim d w s t e :
  Rel d s -> Inv s -> fresh_task t ->
  agrees (accept_task_with_envelope violation t e (MkConn d w))
    (MemStore.accept_task_with_envelope t e s).
Proof using Type.
  intros HR HI (_ & _ & Hr). unfold accept_task_with_envelope, MemStore.accept_task_with_envelope.
  repeat sim1.
  match goal with H : ensure_matching_envelope_task_id _ _ = Ok _ |- _ =>
    apply ensure_matching_envelope_task_id_ok in H as He end.
  unfold bind at 1. rewrite (read_key d d s) by done.
  destruct (hit_cases s t) as [[Hkey ->]|(k & j & Hkey & ->)]; rewrite Hkey.
  - unfold bind at 1. rewrite (read_task_row d d s) by done.
    destruct (tasks s !! tr_id t) as [u|] eqn:Hn; simpl; [by split|].
    destruct (run_insert_accepted d d s t HR HI Hr Hn (no_hit_free _ _ Hkey)) as (w' & Hrun & HR').
    unfold bind at 1. rewrite Hrun. unfold bind at 1.
    destruct (accepted_lookups s t) as (Ht' & He' & _).
    rewrite (run_insert_envelope _ _ _ _ HR'); rewrite ?He, ?He'; [|by eexists|by apply no_task_no_envelope].
    split; [done|]. by apply (rel_set_envelope _ _ _ e HR').
  - destruct (hit_task _ _ _ _ HI Hkey) as (u & Hu).
    unfold bind at 1. rewrite (fetch_task d d s) by done. rewrite Hu. simpl.
    case_bool_decide; [|by split]. unfold bind at 1.
    rewrite (read_envelope d d s) by done. unfold lift, bind at 1.
    destruct (envelopes s !! j) as [e'|]; simpl; [|by split].
    destruct (decide (e' = e)) as [->|Hne]; [by rewrite !bool_decide_true|].
    rewrite !bool_decide_false by congruence. by split.
Qed.

Lemma same_identity_context c0 c :
  same_transport_identity c0 c = true ->
  MkContext (tc_task_id c0) (tc_authenticated_sender_peer_id c0) (tc_expected_executor_peer_id c0)
    (tc_destination_peer_id c0) (tc_relay_frame_id c) (tc_received_at_ms c) = c.
Proof using Type.
  unfold same_transport_identity. rewrite !andb_true_iff, !bool_decide_eq_true.
  destruct c; simpl. naive_solver.
Qed.

Lemma accept_context_sim d w s t e c :
  Rel d s -> Inv s -> fresh_task t ->
  agrees (accept_task_with_envelope_and_context violation t e c (MkConn d w))
    (MemStore.accept_task_with_envelope_and_context t e c s).
Proof using Type.
  intros HR HI (_ & _ & Hr).
  unfold accept_task_with_envelope_and_context, MemStore.accept_task_with_envelope_and_context.
  repeat sim1.
  match goal with H : ensure_matching_envelope_task_id _ _ = Ok _ |- _ =>
    apply ensure_matching_envelope_task_id_ok in H as He end.
  match goal with H : ensure_context_task _ _ = Ok _ |- _ =>
    apply ensure_context_task_ok in H as Hc end.
  unfold bind at 1. rewrite (read_task d d s) by done.
  destruct (tasks s !! tr_id t) as [u|] eqn:Hn; simpl.
  - unfold bind at 1. rewrite (read_envelope d d s) by done. simpl.
    unfold bind at 1. rewrite (read_context d d s) by done. simpl.
    destruct (envelopes s !! tr_id t) as [e0|]; [|by split].
    destruct (transport_contexts s !! tr_id t) as [c0|] eqn:Hc0; [|by split].
    destruct (bool_decide (u = t) && _ && _) eqn:Hsame; [|by split].
    apply andb_true_iff in Hsame as [_ Hid%same_identity_context].
    case_bool_decide; [by split|]. split; [done|]. simpl.
    apply (rel_alter_context d s (tr_id t) _ c0 c HR Hc0); [|done].
    by rewrite <- Hid.
  - unfold bind at 1. rewrite (read_key d d s) by done.
    destruct (tr_idempotency_key t ≫= _) as [[k j]|] eqn:Hkey; [by split|].
    destruct (run_insert_accepted d d s t HR HI Hr Hn (no_hit_free _ _ Hkey)) as (w' & Hrun & HR').
    unfold bind at 1. rewrite Hrun. unfold bind at 1.
    destruct (accepted_lookups s t) as (Ht' & He' & Hc').
    rewrite (run_insert_envelope _ _ _ _ HR'); rewrite ?He, ?He';
      [|by eexists|by apply no_task_no_envelope].
    pose proof (rel_set_envelope _ _ (tr_id t) e HR' He) as HR2.
    unfold bind at 1.
    rewrite (run_insert_context _ _ _ _ HR2); rewrite ?Hc;
      [|by eexists|etrans; [exact (f_equal (lookup (tr_id t)) Hc')|by apply no_task_no_context]].
    split; [done|]. by apply (rel_set_context _ _ _ c HR2).
Qed.

Lemma put_context_sim d w s c :
  Rel d s -> Inv s ->
  agrees (put_transport_context violation c (MkConn d w)) (MemStore.put_transport_context c s).
Proof using Type.
  intros HR HI. unfold put_transport_context, MemStore.put_transport_context. repeat sim1.
  unfold bind at 1. rewrite (fetch_task d d s) by done.
  destruct (tasks s !! tc_task_id c) as [u|] eqn:Hn; simpl; [|by split].
  unfold bind at 1. rewrite (read_context d d s) by done.
  destruct (transport_contexts s !! tc_task_id c) as [c0|] eqn:Hc0.
  { by case_bool_decide; split. }
  unfold bind at 1. rewrite (run_insert_context _ _ _ _ HR); [|by eexists|done].
  split; [done|]. by apply (rel_set_context _ _ _ c HR).
Qed.

(** *** Results *)

Lemma run_store_result d w s i r :
  Rel w s -> rs_task_id r = i -> is_Some (tasks s !! i) -> terminal_results s !! i = None ->
  (forall k o, result_outbox s !! k = Some o -> ob_task_id o <> i /\ k <> delivery_id i) ->
  exists w', insert_terminal_result_and_outbox violation r (MkConn d w) = (Ok tt, MkConn d w')
    /\ Rel w' (put_result i r s).
Proof using Type.
  intros HR Hi [t Ht] Hn Hob.
  unfold insert_terminal_result_and_outbox, insert_terminal_result_only, bind at 1, execute at 1,
    bind at 1, get, insert_result_row. simpl.
  rewrite Hi, (rel_results _ _ HR), (rel_tasks _ _ HR), !lookup_as_table, Hn, Ht. simpl.
  pose proof (rel_set_result w s i r HR Hi) as HR1.
  unfold put_result. destruct (make_outbox r) as [o|] eqn:Ho; [|by eexists].
  destruct (make_outbox_inv _ _ Ho) as [Hoi Hok].
  assert (Hfree : t_result_outbox w !! ob_delivery_id o = None).
  { rewrite (rel_outbox _ _ HR), lookup_fmap, Hok, Hi.
    destruct (result_outbox s !! delivery_id i) as [o'|] eqn:E; [|done].
    by destruct (Hob _ _ E) as [_ []]. }
  assert (Huniq : map_Forall (fun _ x => o_task_id x <> o_task_id (outbox_row o)) (t_result_outbox w)).
  { rewrite (rel_outbox _ _ HR). intros k x. rewrite lookup_fmap.
    destruct (result_outbox s !! k) as [o'|] eqn:E; [|done]. simpl. intros [= <-]. simpl.
    intros Heq%(inj as_str). destruct (Hob _ _ E) as [Hne _]. congruence. }
  eexists. split.
  - unfold execute, bind, get, insert_outbox_row. simpl. rewrite Hfree.
    rewrite Hoi, Hi, lookup_insert_eq. rewrite bool_decide_true; [done|].
    simpl in Huniq. by rewrite Hoi, Hi in Huniq.
  - pose proof (rel_set_outbox _ _ (ob_delivery_id o) o HR1) as HR2. exact HR2.
Qed.

(** The outbox rows of a store without a result of [i] belong to others. *)
Lemma outbox_of_others s i :
  Inv s -> terminal_results s !! i = None ->
  forall k o, result_outbox s !! k = Some o -> ob_task_id o <> i /\ k <> delivery_id i.
Proof using Type.
  intros HI Hn k o Hk. apply (inv_outbox _ HI) in Hk as (r & Hr & Ho & ->).
  destruct (make_outbox_inv _ _ Ho) as [Hoi ->].
  split; [by intros Heq; rewrite Heq, Hn in Hr|].
  intros Heq%(inj delivery_id). rewrite Hoi, Heq, Hn in Hr. done.
Qed.

Lemma worker_effect_rest i lid wk s t s' :
  worker_effect i lid wk s (Ok t) s' ->
  is_Some (tasks s' !! i) /\ terminal_results s' = terminal_results s
  /\ result_outbox s' = result_outbox s.
Proof using Type.
  inversion 1; subst. rewrite commit_tasks, lookup_insert_eq. split; [by eexists|done].
Qed.

(** A transition inside the transaction, then its result. *)
Lemma tx_result d s i lid wk r (mc : C TaskRecord) (mm : M TaskRecord) c :
  Rel d s -> Inv s -> rs_task_id r = i -> terminal_results s !! i = None ->
  tx_agrees d s (mc c) (mm s) ->
  worker_effect i lid wk s (mm s).1 (mm s).2 ->
  agrees ((let! u := mc in insert_terminal_result_and_outbox violation r ;;; commit_tx ;;; ret u) c)
    ((let! u := mm in store_result i r ;;; ret u) s).
Proof using Type.
  intros HR HI Hi Hn Hag Hw. unfold bind at 1 4.
  destruct (mc c) as [[u|e] [d' w']] eqn:Hmc, (mm s) as [q s'] eqn:Hmm.
  - destruct Hag as (Heq & Hd & HR'). simpl in Heq, Hd, HR', Hw. subst.
    destruct (worker_effect_rest _ _ _ _ _ _ Hw) as (Ht & Hr & Ho).
    destruct (run_store_result d w' s' (rs_task_id r) r HR' eq_refl Ht) as (w2 & Hrun & HR2).
    { by rewrite Hr. }
    { rewrite Ho. by apply outbox_of_others. }
    unfold bind. rewrite Hrun, store_result_run. by split.
  - destruct Hag as (Heq & Hd & Hs). simpl in *. subst. by split.
Qed.

Lemma existing_result_sim d s i r0 r :
  Rel d s -> Inv s -> terminal_results s !! i = Some r0 ->
  agrees (SqlStore.existing_result i r0 r (MkConn d d))
    ((match MemStore.existing_result i r s with Some q => lift q | None => throw StoreError.LockPoisoned end) s).
Proof using Type.
  intros HR HI Hr. unfold SqlStore.existing_result, MemStore.existing_result. rewrite Hr.
  case_bool_decide; [|by split]. unfold bind at 1. rewrite (fetch_task d d s) by done.
  destruct (inv_result _ HI _ _ Hr) as (_ & t & Ht & _). rewrite Ht. by split.
Qed.

Lemma complete_result_sim d w s i lid wk r :
  Rel d s -> ready s i ->
  agrees (complete_task_with_result violation i lid wk r (MkConn d w))
    (MemStore.complete_task_with_result i lid wk r s).
Proof using Type.
  intros HR Hrd. pose proof (ready_inv _ _ Hrd) as HI.
  unfold complete_task_with_result, MemStore.complete_task_with_result. repeat sim1.
  match goal with H : ensure_result_task _ _ = Ok _ |- _ =>
    apply ensure_result_task_ok in H as [_ Hi] end.
  unfold bind at 1. rewrite (read_result d d s) by done.
  destruct (terminal_results s !! i) as [r0|] eqn:Hr0.
  - pose proof (existing_result_sim d s i r0 r HR HI Hr0) as Hex.
    unfold MemStore.existing_result in *. by rewrite Hr0 in *.
  - unfold MemStore.existing_result. rewrite Hr0. repeat sim1.
    eapply (tx_result d s i lid wk r _ (finish_task_in_state i lid wk Completed _ _ _));
      [done|done|done|done|by apply finish_agrees|].
    eapply finish_effect; [eassumption| |apply surjective_pairing]. by auto.
Qed.

Lemma fail_result_sim d w s i lid wk reason p r :
  Rel d s -> ready s i ->
  agrees (fail_task_with_result violation i lid wk reason p r (MkConn d w))
    (MemStore.fail_task_with_result i lid wk reason p r s).
Proof using Type.
  intros HR Hrd. pose proof (ready_inv _ _ Hrd) as HI.
  unfold fail_task_with_result, MemStore.fail_task_with_result. repeat sim1.
  match goal with H : ensure_result_task _ _ = Ok _ |- _ =>
    apply ensure_result_task_ok in H as [_ Hi] end.
  unfold bind at 1. rewrite (read_result d d s) by done.
  destruct (terminal_results s !! i) as [r0|] eqn:Hr0.
  - pose proof (existing_result_sim d s i r0 r HR HI Hr0) as Hex.
    unfold MemStore.existing_result in *. by rewrite Hr0 in *.
  - unfold MemStore.existing_result. rewrite Hr0. repeat sim1.
    match goal with
    | H1 : ensure_matching_lease_id _ _ _ = Ok _, H2 : ensure_matching_worker_id _ _ _ = Ok _ |- _ =>
        apply ensure_matching_lease_id_ok in H1; apply ensure_matching_worker_id_ok in H2;
        subst lid
    end.
    destruct (max_retries p =? 0); [|destruct (should_retry_after_failure p _)].
    + eapply (tx_result d s i _ wk r _ (finish_task_in_state i _ wk Failed _ _ _));
        [done|done|done|done|by apply finish_agrees|].
      eapply finish_effect; [eassumption| |apply surjective_pairing]. by auto.
    + apply (tx_commit d s _ (retry_task_in_state i _ _)); [done|]. by apply retry_agrees.
    + eapply (tx_result d s i _ wk r _ (dead_letter_task_in_state i _ _ reason));
        [done|done|done|done|by apply dead_letter_agrees|].
      eapply dead_letter_effect; try eassumption. apply surjective_pairing.
Qed.

(** A write sequence, its result, and the task read back. *)
Lemma result_back d w s i st e t' r :
  Inv s -> Rel w (commit i st e t' None s) -> rs_task_id r = i -> terminal_results s !! i = None ->
  agrees ((insert_terminal_result_and_outbox violation r ;;; commit_tx ;;; get_task i) (MkConn d w))
    (Ok t', put_result i r (commit i st e t' None s)).
Proof using Type.
  intros HI HR Hi Hn.
  destruct (run_store_result d w (commit i st e t' None s) i r HR Hi) as (w2 & Hrun & HR2).
  - rewrite commit_tasks, lookup_insert_eq. by eexists.
  - done.
  - exact (outbox_of_others s i HI Hn).
  - unfold bind at 1. rewrite Hrun.
    change ((commit_tx ;;; get_task i) (MkConn d w2)) with (get_task i (MkConn w2 w2)).
    rewrite (pool_get_task _ _ _ _ HR2), put_result_tasks, commit_tasks, lookup_insert_eq. by split.
Qed.

Lemma cancel_result_sim d w s i lid wk now r :
  Rel d s -> ready s i ->
  agrees (cancel_task_with_result violation i lid wk now r (MkConn d w))
    (MemStore.cancel_task_with_result i lid wk now r s).
Proof using Type.
  intros HR [HI Hlen]. unfold cancel_task_with_result, MemStore.cancel_task_with_result.
  repeat sim1.
  match goal with H : ensure_result_task _ _ = Ok _ |- _ =>
    apply ensure_result_task_ok in H as [_ Hi] end.
  match goal with H : tasks s !! i = Some ?t' |- _ => rename t' into t, H into Ht end.
  destruct (rel_task_wf _ _ HR _ _ Ht) as [Hid Hr].
  apply sim_if_running; intros _; rewrite ?bind_assoc_run; repeat (sim1 || rewrite !bind_assoc_run).
  all: match goal with H : store_cancel_transition _ = Ok ?tr |- _ =>
         apply store_cancel_transition_ok in H as [_ ->] end; simpl.
  all: unfold bind at 1; rewrite (read_result d d s) by done.
  all: destruct (terminal_results s !! i) as [r0|] eqn:Hr0; [by split|].
  all: destruct (negb _); [by split|]; repeat sim1.
  all: write_run (run_release violation d d s i t HR Ht Hlen (row_with_status Failed)
         (with_status t Failed) eq_refl Hid Hr TaskCanceled (tr_status t))
         (insert_terminal_result_and_outbox violation r ;;; commit_tx ;;; get_task i).
  all: pose proof (result_back d w' s i _ _ _ r HI HR' Hi Hr0) as Hb.
  all: match goal with |- agrees _ ?q => match type of Hb with agrees _ ?q' => change q with ((store_result i r ;;; ret (with_status t Failed)) (commit i (tr_status t) TaskCanceled (with_status t Failed) None s)) end end.
  all: unfold bind at 3; rewrite store_result_run; exact Hb.
Qed.
End operations.
