(* ===== verification/SqlSweep.v ===== *)
(** * The sweeping operations agree

    [fail_expired_deadlines] and [recover_stale_leases] of the SQLite store:
    the rows their queries select are the in-memory sweep's tasks and leases in
    the same order, and each turn of their loops is a turn of the in-memory
    loop. *)
From S2P Require Import Prelude Ident Lifecycle StoreModel Api MemStore MemSpec MemInv Samples.
From S2P Require Import MemLease MemSweep SqlStore SqlRel SqlRefine.
From stdpp Require Import options.

(** ** Rows of the tables as lists *)

Definition task_entry (t : TaskRecord) : string * TaskRow := (as_str (tr_id t), task_row t).

Definition lease_entry (l : LeaseRecord) : string * LeaseRow :=
  (as_str (lr_lease_id l), lease_row (lr_task_id l) l 1).

Lemma filter_fmap_list {A B} (f : A -> B) (P : B -> Prop) `{!forall x, Decision (P x)} (l : list A) :
  filter P (f <$> l) = f <$> filter (fun x => P (f x)) l.
Proof.
  induction l as [|a l IH]; [done|]. csimpl.
  destruct (decide (P (f a))).
  - rewrite !filter_cons_True by done. csimpl. by rewrite IH.
  - rewrite !filter_cons_False by done. done.
Qed.

Lemma filter_ext_list {A} (P Q : A -> Prop) `{!forall x, Decision (P x)} `{!forall x, Decision (Q x)}
    (l : list A) : (forall x, x ∈ l -> P x <-> Q x) -> filter P l = filter Q l.
Proof.
  intros Hiff. induction l as [|a l IH]; [done|].
  assert (IH' : filter P l = filter Q l) by (apply IH; intros x Hx; apply Hiff; by right).
  destruct (Hiff a) as [H1 H2]; [left|].
  destruct (decide (P a)).
  - rewrite !filter_cons_True by auto. by rewrite IH'.
  - rewrite !filter_cons_False by auto. done.
Qed.

Lemma filter_perm {A} (P : A -> Prop) `{!forall x, Decision (P x)} (l m : list A) :
  l ≡ₚ m -> filter P l ≡ₚ filter P m.
Proof. by intros ->. Qed.

Lemma task_rows d s : Rel d s -> map_to_list (t_tasks d) ≡ₚ task_entry <$> task_values s.
Proof.
  intros HR. rewrite (rel_tasks _ _ HR), map_to_list_as_table. unfold task_values.
  rewrite <- list_fmap_compose. apply Permutation_refl', list_fmap_ext.
  intros _ [i t] H%list_elem_of_lookup_2%elem_of_map_to_list. simpl.
  by destruct (rel_task_wf _ _ HR _ _ H) as [<- _].
Qed.

#[export] Instance lease_entry_inj : Inj (=) (=) lease_entry.
Proof.
  intros [i1 t1 w1 a1 b1] [i2 t2 w2 a2 b2] H. unfold lease_entry, lease_row in H. simpl in H.
  injection H as Hi Ht Hw -> ->. apply (inj as_str) in Hi as ->, Ht as ->.
  by apply (inj (fmap as_str)) in Hw as ->.
Qed.

(** The active rows of the lease table. *)
Lemma active_lease_rows d s :
  Rel d s -> Inv s ->
  filter (fun kr => r_active kr.2 = 1) (map_to_list (t_leases d)) ≡ₚ lease_entry <$> lease_values s.
Proof.
  intros HR HI. apply NoDup_Permutation.
  - apply list.NoDup_filter, NoDup_map_to_list.
  - apply (NoDup_fmap_2 lease_entry).
    eapply NoDup_fmap_1. by apply NoDup_lease_values.
  - intros [k r]. rewrite list_elem_of_filter, elem_of_map_to_list, list_elem_of_fmap. simpl. split.
    + intros [Ha Hk]. destruct (rel_active _ _ HR _ _ Hk Ha) as (i & l & Hl & -> & ->).
      exists l. rewrite elem_of_lease_values by done. pose proof (rel_lease_wf _ _ HR _ _ Hl) as <-. done.
    + intros (l & [= -> ->] & Hl%elem_of_lease_values); [|done]. split; [done|].
      by apply (rel_leases _ _ HR).
Qed.

Lemma sql_limit_take {A} n (l : list A) : Z.of_nat n <= i64_max -> sql_limit n l = take n l.
Proof.
  intros Hn. unfold sql_limit. rewrite as_i64_id by (unfold in_i64, i64_min; lia).
  rewrite (proj2 (Z.ltb_ge _ _)) by lia. by rewrite Nat2Z.id.
Qed.

Definition limit_ok (limit : option nat) : Prop :=
  match limit with Some n => Z.of_nat n <= i64_max | None => True end.

Lemma sql_limit_opt_truncate {A} limit (l : list A) :
  limit_ok limit -> sql_limit_opt limit l = truncate limit l.
Proof. destruct limit; [apply sql_limit_take|done]. Qed.

Lemma fmap_truncate {A B} (f : A -> B) limit l : truncate limit (f <$> l) = f <$> truncate limit l.
Proof. destruct limit; simpl; [by rewrite fmap_take|done]. Qed.

(** ** Deadlines *)

Definition past_deadline (now : Z) (t : TaskRecord) : bool :=
  match tr_deadline_ms t with Some d => d <=? now | None => false end
  && negb (is_terminal (tr_status t)).

Definition deadline_of (t : TaskRecord) : Z * TaskId := (default 0 (tr_deadline_ms t), tr_id t).

Definition due_tasks (now : Z) (s : InMemoryState) : list TaskRecord :=
  sort_by_key (fun t => deadline_key (deadline_of t))
    (filter (fun t => past_deadline now t = true) (task_values s)).

Lemma same_id_task s t u :
  Inv s -> t ∈ task_values s -> u ∈ task_values s -> tr_id t = tr_id u -> t = u.
Proof.
  intros HI Ht%elem_of_task_values Hu%elem_of_task_values Heq; [|done|done]. congruence.
Qed.

Lemma deadline_key_inj now s a b :
  Inv s -> a ∈ filter (fun t => past_deadline now t = true) (task_values s) ->
  b ∈ filter (fun t => past_deadline now t = true) (task_values s) ->
  deadline_key (deadline_of a) = deadline_key (deadline_of b) -> a = b.
Proof.
  intros HI [_ Ha]%list_elem_of_filter [_ Hb]%list_elem_of_filter [= _ H%(inj as_str)].
  by eapply same_id_task.
Qed.

Lemma expired_deadlines_due now s :
  Inv s -> expired_deadlines now s = deadline_of <$> due_tasks now s.
Proof.
  intros HI. unfold expired_deadlines, due_tasks.
  apply (sort_on_image key_le); [|done|by intros; eapply deadline_key_inj].
  apply Permutation_refl'. induction (task_values s) as [|t l IH]; [done|].
  assert (Hpast : past_deadline now t
    = match tr_deadline_ms t with Some d => d <=? now | None => false end
      && negb (is_terminal (tr_status t))) by done.
  destruct (is_terminal (tr_status t)) eqn:E.
  - rewrite andb_false_r in Hpast.
    rewrite !filter_cons_False; [done|by rewrite Hpast|by rewrite E].
  - rewrite andb_true_r in Hpast. rewrite filter_cons_True by done. csimpl.
    destruct (tr_deadline_ms t) as [dl|] eqn:Hd; simpl.
    + destruct (Z.leb_spec dl now); csimpl.
      * rewrite filter_cons_True by done. csimpl. unfold deadline_of at 1. rewrite Hd. simpl. by f_equal.
      * rewrite filter_cons_False by (by rewrite Hpast). done.
    + rewrite filter_cons_False by (by rewrite Hpast). done.
Qed.

Lemma row_past_deadline_row now t : row_past_deadline now (task_row t) = past_deadline now t.
Proof.
  unfold row_past_deadline, past_deadline. simpl. f_equal. by destruct (tr_status t).
Qed.

Lemma select_expired_due now limit d s :
  Rel d s -> Inv s -> limit_ok limit ->
  select_expired now limit d = task_entry <$> truncate limit (due_tasks now s).
Proof.
  intros HR HI Hl. unfold select_expired, due_tasks.
  rewrite sql_limit_opt_truncate by done. rewrite <- fmap_truncate. f_equal.
  apply (sort_on_image key_le); [|done|by intros; eapply deadline_key_inj].
  etrans; [by apply filter_perm, task_rows|]. rewrite filter_fmap_list.
  apply Permutation_refl'. f_equal. apply filter_ext_list. intros t _. simpl.
  by rewrite row_past_deadline_row.
Qed.

Section sweeps.
Context (violation : string).

Lemma fail_deadline_row_run d w s t :
  Rel w s -> tasks s !! tr_id t = Some t -> is_terminal (tr_status t) = false ->
  log_length s (tr_id t) < i64_max ->
  exists w', fail_deadline_row violation (task_entry t) (MkConn d w)
      = (Ok [with_status t Failed], MkConn d w')
    /\ Rel w' (commit (tr_id t) (tr_status t) TaskTimedOut (with_status t Failed) None s).
Proof using Type.
  intros HR Ht Hn Hlen. unfold fail_deadline_row, task_entry.
  destruct (rel_task_wf _ _ HR _ _ Ht) as [_ Hr]. rewrite row_to_task_row by done.
  rewrite bind_lift_ok. assert (Hv : validate_deadline_transition (tr_status t) = Ok tt)
    by (by destruct (tr_status t)).
  rewrite Hv, bind_lift_ok. unfold bind at 1. rewrite (read_next_sequence d w s) by done.
  write_run (run_release violation d w s (tr_id t) t HR Ht Hlen (row_with_status Failed)
    (with_status t Failed) eq_refl eq_refl Hr TaskTimedOut (tr_status t))
    (ret (S := Conn) (E := StoreError) [with_status t Failed]).
  by exists w'.
Qed.

(** A sweep touches only the logs of the tasks it visits. *)
Lemma log_length_commit i st e t l s j : j <> i -> log_length (commit i st e t l s) j = log_length s j.
Proof using Type. intros Hj. unfold log_length. by rewrite commit_events, lookup_insert_ne. Qed.

Lemma fail_deadline_rows_run d (ts : list TaskRecord) : forall w s,
  Rel w s -> NoDup (tr_id <$> ts) ->
  (forall t, t ∈ ts -> tasks s !! tr_id t = Some t /\ is_terminal (tr_status t) = false
             /\ log_length s (tr_id t) < i64_max) ->
  exists w', for_collect (fail_deadline_row violation) (task_entry <$> ts) (MkConn d w)
      = (Ok ((fun t => with_status t Failed) <$> ts), MkConn d w')
    /\ Rel w' (sweep TaskTimedOut Failed (tr_id <$> ts) s).
Proof using Type.
  induction ts as [|t ts IH]; intros w s HR Hnd Hts; [by exists w|].
  apply NoDup_cons in Hnd as [Hi Hnd].
  destruct (Hts t) as (Ht & Hn & Hlen); [left|].
  destruct (fail_deadline_row_run d w s t HR Ht Hn Hlen) as (w1 & Hrun & HR1).
  destruct (IH w1 _ HR1 Hnd) as (w2 & Hrest & HR2).
  - intros u Hu. destruct (Hts u) as (Hut & Hun & Hul); [by right|].
    assert (tr_id u <> tr_id t) by (intros Heq; apply Hi; rewrite <- Heq; by apply list_elem_of_fmap_2).
    rewrite commit_tasks, lookup_insert_ne, log_length_commit by done. done.
  - exists w2. csimpl. unfold bind at 1. rewrite Hrun. unfold bind. rewrite Hrest.
    split; [done|]. by rewrite Ht.
Qed.

(** A log with room for a number in every task. *)
Definition logs_short (s : InMemoryState) : Prop := forall i, log_length s i < i64_max.

Lemma elem_of_due_tasks now limit s t :
  Inv s -> t ∈ truncate limit (due_tasks now s) ->
  tasks s !! tr_id t = Some t /\ is_terminal (tr_status t) = false.
Proof using Type.
  intros HI Ht. eapply elem_of_sublist in Ht; [|apply truncate_sublist].
  apply elem_of_sort_on in Ht. apply list_elem_of_filter in Ht as [Hp Ht].
  apply elem_of_task_values in Ht; [|done]. split; [done|]. unfold past_deadline in Hp.
  apply andb_true_iff in Hp as [_ Hp]. by apply negb_true_iff in Hp.
Qed.

Lemma NoDup_due_tasks now limit s : Inv s -> NoDup (tr_id <$> truncate limit (due_tasks now s)).
Proof using Type.
  intros HI. pose proof (NoDup_expired_deadlines now limit s HI) as H.
  rewrite expired_deadlines_due, fmap_truncate, <- list_fmap_compose in H by done. exact H.
Qed.

Lemma omap_found {A B} (f : A -> option B) (g : A -> B) (l : list A) :
  (forall a, a ∈ l -> f a = Some (g a)) -> omap f l = g <$> l.
Proof using Type.
  intros Hf. induction l as [|a l IH]; [done|]. csimpl. rewrite (Hf a) by left. f_equal.
  apply IH. intros b Hb. apply Hf. by right.
Qed.

Lemma fail_deadlines_sim d w s now limit :
  Rel d s -> Inv s -> logs_short s -> limit_ok limit ->
  agrees (fail_expired_deadlines violation now limit (MkConn d w))
    (MemStore.fail_expired_deadlines now limit s).
Proof using Type.
  intros HR HI Hlen Hl. unfold fail_expired_deadlines, MemStore.fail_expired_deadlines.
  apply sim_begin, sim_get. change (bind (query ?q) ?k (MkConn d d)) with (k (q d) (MkConn d d)).
  cbv beta. rewrite (select_expired_due now limit d s) by done.
  rewrite expired_deadlines_due, fmap_truncate by done.
  set (ts := truncate limit (due_tasks now s)).
  assert (Hts : forall t, t ∈ ts -> tasks s !! tr_id t = Some t /\ is_terminal (tr_status t) = false)
    by (intros t; by apply elem_of_due_tasks).
  assert (Hids : snd <$> (deadline_of <$> ts) = tr_id <$> ts) by (by rewrite <- list_fmap_compose).
  destruct (fail_deadline_rows_run d ts d s HR) as (w' & Hrun & HR').
  { by apply NoDup_due_tasks. }
  { intros t Ht. destruct (Hts t Ht). auto. }
  unfold bind at 1. rewrite Hrun. rewrite fail_deadlines_run, Hids.
  - split; [|done]. unfold commit_tx, modify, bind, ret. cbn [fst]. f_equal.
    rewrite omap_fmap. symmetry. apply omap_found. intros t Ht. simpl.
    by destruct (Hts t Ht) as [-> _].
  - rewrite Hids. by apply NoDup_due_tasks.
  - intros dl i (t & [= -> ->] & Ht)%list_elem_of_fmap. exists t. by apply Hts.
Qed.

(** ** Stale leases *)

Lemma lease_key_inj s a b :
  Inv s -> a ∈ lease_values s -> b ∈ lease_values s ->
  lease_expiry_key a = lease_expiry_key b -> a = b.
Proof using Type.
  intros HI Ha%elem_of_lease_values Hb%elem_of_lease_values [= _ Heq%(inj as_str)]; [|done|done].
  congruence.
Qed.

Lemma filter_and {A} (P Q : A -> Prop) `{!forall x, Decision (P x)} `{!forall x, Decision (Q x)}
    (l : list A) : filter (fun x => P x /\ Q x) l = filter Q (filter P l).
Proof using Type.
  induction l as [|a l IH]; [done|]. destruct (decide (P a)), (decide (Q a)).
  - rewrite filter_cons_True, (filter_cons_True P), filter_cons_True by tauto. by rewrite IH.
  - rewrite filter_cons_False, (filter_cons_True P), filter_cons_False by tauto. done.
  - rewrite filter_cons_False, (filter_cons_False P) by tauto. done.
  - rewrite filter_cons_False, (filter_cons_False P) by tauto. done.
Qed.

Lemma select_stale_leases now limit d s :
  Rel d s -> Inv s -> limit_ok limit ->
  select_stale now limit d = lease_entry <$> truncate limit (stale_leases now s).
Proof using Type.
  intros HR HI Hl. unfold select_stale, stale_leases.
  rewrite sql_limit_opt_truncate by done. rewrite <- fmap_truncate. f_equal.
  apply (sort_on_image key_le); [|done|].
  - rewrite filter_and. etrans; [by apply filter_perm, active_lease_rows|].
    by rewrite filter_fmap_list.
  - intros a b [_ Ha]%list_elem_of_filter [_ Hb]%list_elem_of_filter. by eapply lease_key_inj.
Qed.

Lemma recover_lease_row_run d w s l t :
  Rel w s -> tasks s !! lr_task_id l = Some t -> tr_status t = Running ->
  log_length s (lr_task_id l) < i64_max ->
  exists w', recover_lease_row violation (lease_entry l) (MkConn d w)
      = (Ok [inl (with_status t Pending)], MkConn d w')
    /\ Rel w' (commit (lr_task_id l) Running RecoveryAction (with_status t Pending) None s).
Proof using Type.
  intros HR Ht Hs Hlen. set (i := lr_task_id l) in *.
  destruct (rel_task_wf _ _ HR _ _ Ht) as [Hid Hr].
  pose proof (rel_deactivate w s i HR) as HR1.
  pose proof (rel_set_task _ _ i t (row_with_status Pending) (with_status t Pending) HR1 Ht
                eq_refl Hid Hr) as HR2.
  assert (Hs2 : is_Some (tasks (set_task i (with_status t Pending) (remove_lease i s)) !! i))
    by (simpl; rewrite lookup_insert_eq; by eexists).
  pose proof (rel_append _ _ i RecoveryAction (Some Running) Pending HR2 Hs2 Hlen) as HR3.
  eexists. split; [|exact HR3].
  unfold recover_lease_row, lease_entry. rewrite row_to_lease_row, bind_lift_ok.
  unfold bind at 1. fold i. rewrite (read_task d w s) by done. rewrite Ht.
  unfold bind at 1, deactivate_lease_for_task_with_executor, update at 1, execute at 1,
    bind at 1, get, modify. rewrite Hs. simpl.
  unfold bind at 1, update_task_status_with_executor, update, execute at 1, bind at 1, get, modify.
  simpl. unfold bind at 1. rewrite (read_next_sequence d _ _ i HR2).
  unfold bind. rewrite (run_insert_event _ _ _ _ _ _ _ _ HR2 Hs2 Hlen). done.
Qed.

Lemma recover_rows_run d (ls : list LeaseRecord) : forall w s,
  Rel w s -> NoDup (lr_task_id <$> ls) ->
  (forall l, l ∈ ls -> log_length s (lr_task_id l) < i64_max
             /\ exists t, tasks s !! lr_task_id l = Some t /\ tr_status t = Running) ->
  exists w', for_collect (recover_lease_row violation) (lease_entry <$> ls) (MkConn d w)
      = (Ok (omap (fun l => (fun t => inl (with_status t Pending)) <$> tasks s !! lr_task_id l) ls),
         MkConn d w')
    /\ Rel w' (sweep RecoveryAction Pending (lr_task_id <$> ls) s).
Proof using Type.
  induction ls as [|l ls IH]; intros w s HR Hnd Hls; [by exists w|].
  apply NoDup_cons in Hnd as [Hi Hnd].
  destruct (Hls l) as (Hlen & t & Ht & Hs); [left|].
  destruct (recover_lease_row_run d w s l t HR Ht Hs Hlen) as (w1 & Hrun & HR1).
  assert (Hne : forall u, u ∈ ls -> lr_task_id u <> lr_task_id l).
  { intros u Hu Heq. apply Hi. rewrite <- Heq. by apply list_elem_of_fmap_2. }
  destruct (IH w1 _ HR1 Hnd) as (w2 & Hrest & HR2).
  - intros u Hu. destruct (Hls u) as (Hul & Hut); [by right|].
    rewrite commit_tasks, lookup_insert_ne, log_length_commit; auto.
    intros Heq. symmetry in Heq. by apply (Hne u).
  - exists w2. csimpl. unfold bind at 1. rewrite Hrun. unfold bind. rewrite Hrest.
    rewrite Ht, Hs. csimpl. split; [|done]. unfold ret. do 3 f_equal.
    apply list_omap_ext. apply Forall_Forall2_diag, Forall_forall. intros u Hu.
    rewrite lookup_insert_ne; [done|]. intros Heq. symmetry in Heq. by apply (Hne u).
Qed.

(** *** Corrupt tasks *)

Lemma select_task_ids_sorted d s :
  Rel d s -> select_task_ids d = as_str <$> sorted_task_ids s.
Proof using Type.
  intros HR. unfold select_task_ids, sorted_task_ids.
  apply (sort_on_image key_le); [|done|by intros a b _ _ [= ?%(inj as_str)]].
  rewrite (rel_tasks _ _ HR), map_to_list_as_table. by rewrite <- !list_fmap_compose.
Qed.

Lemma log_not_empty s i t evs :
  Inv s -> tasks s !! i = Some t -> events s !! i = Some evs -> evs <> [].
Proof using Type.
  intros HI Ht He ->. pose proof (log_last _ _ _ (inv_log _ HI _ _ _ Ht He)) as H. done.
Qed.

Lemma read_events d w s i evs :
  Rel w s -> events s !! i = Some evs -> evs <> [] ->
  events_for_task_with_executor i (MkConn d w) = (Ok evs, MkConn d w).
Proof using Type.
  intros HR He Hne. unfold events_for_task_with_executor.
  change (bind (query ?q) ?k (MkConn d w)) with (k (q w) (MkConn d w)). cbv beta.
  rewrite (rel_events _ _ HR), He. cbn [default].
  pose proof (decode_events s w i evs HR He) as Hd.
  destruct evs as [|ev evs]; [done|]. exact (f_equal (fun r => (r, MkConn d w)) Hd).
Qed.

Lemma corrupt_task_run d w s i t :
  Rel w s -> Inv s -> tasks s !! i = Some t ->
  corrupt_task (as_str i) (MkConn d w) = (Ok (if task_is_corrupt s i then [i] else []), MkConn d w).
Proof using Type.
  intros HR HI Ht. unfold corrupt_task. rewrite id_new_as_str, bind_lift_ok.
  unfold bind at 1. rewrite (fetch_task d w s), Ht by done. unfold bind at 1, get. simpl.
  destruct (proj2 (inv_events _ HI i)) as [evs He]; [by eexists|].
  rewrite (read_events d w s i evs) by (try done; by eapply log_not_empty). cbn [fst].
  unfold task_is_corrupt. rewrite Ht, He.
  by destruct (replay_task_from_snapshot_and_events t evs) as [|[]].
Qed.

Lemma collect_corrupt_run d w s :
  Rel w s -> Inv s ->
  collect_corrupt_sqlite_tasks_with_executor (MkConn d w)
  = (Ok (collect_corrupt_in_memory_tasks s), MkConn d w).
Proof using Type.
  intros HR HI. unfold collect_corrupt_sqlite_tasks_with_executor, collect_corrupt_in_memory_tasks.
  change (bind (query ?q) ?k (MkConn d w)) with (k (q w) (MkConn d w)). cbv beta.
  rewrite (select_task_ids_sorted w s) by done.
  assert (Hin : forall i, i ∈ sorted_task_ids s -> is_Some (tasks s !! i)).
  { unfold sorted_task_ids. intros i Hi. apply elem_of_sort_on in Hi.
    apply list_elem_of_fmap in Hi as ([j t] & -> & Hj%elem_of_map_to_list). simpl. by exists t. }
  induction (sorted_task_ids s) as [|i l IH]; [done|]. csimpl.
  destruct (Hin i) as [t Ht]; [left|]. unfold bind at 1.
  rewrite (corrupt_task_run d w s i t) by done. unfold bind. rewrite IH by (intros; apply Hin; by right).
  unfold ret. destruct (task_is_corrupt s i) eqn:E.
  - by rewrite filter_cons_True.
  - rewrite filter_cons_False by (by rewrite E). done.
Qed.

Lemma recover_sim d w s now limit :
  Rel d s -> Inv s -> logs_short s -> limit_ok limit ->
  agrees (recover_stale_leases violation now limit (MkConn d w))
    (MemStore.recover_stale_leases now limit s).
Proof using Type.
  intros HR HI Hlen Hl. unfold recover_stale_leases, MemStore.recover_stale_leases.
  apply sim_begin, sim_get. change (bind (query ?q) ?k (MkConn d d)) with (k (q d) (MkConn d d)).
  cbv beta. rewrite (select_stale_leases now limit d s) by done.
  set (ls := truncate limit (stale_leases now s)).
  assert (Hls : forall l, l ∈ ls -> exists t, tasks s !! lr_task_id l = Some t /\ tr_status t = Running).
  { intros l Hin. eapply elem_of_sublist in Hin; [|apply truncate_sublist].
    apply elem_of_stale_leases in Hin as [Hlk _]; [|done].
    by destruct (inv_lease _ HI _ _ Hlk) as (_ & _ & ?). }
  assert (Hnd : NoDup (lr_task_id <$> ls)) by (by apply NoDup_stale_leases).
  destruct (recover_rows_run d ls d s HR Hnd) as (w' & Hrun & HR'); [by auto|].
  unfold recover_sqlite_leases_with_executor, bind at 1. rewrite Hrun.
  assert (HI' : Inv (sweep RecoveryAction Pending (lr_task_id <$> ls) s)).
  { eapply Inv_steps; [exact HI|].
    eapply (recover_stale_leases_steps now limit s).
    unfold MemStore.recover_stale_leases, bind, get. fold ls.
    rewrite recover_leases_run by done. reflexivity. }
  unfold bind at 1. rewrite (collect_corrupt_run d w' _ HR' HI').
  unfold bind, get. rewrite recover_leases_run by done. by split.
Qed.
End sweeps.
