(* ===== verification/SqlSession.v ===== *)
(** * The look-ups agree, and so do whole sessions

    The queries of the SQLite store, the conditions under which a call behaves
    alike on both stores, and the refinement of sessions: the same calls from
    an empty database and an empty in-memory store get the same replies. *)
From S2P Require Import Prelude Ident Lifecycle StoreModel Api MemStore MemSpec MemInv Samples.
From S2P Require Import MemLease MemSweep MemHistory SqlStore SqlRel SqlRefine SqlSweep.
From stdpp Require Import options.

(** ** Pending tasks *)

Definition joined_entry (p : PendingTaskEnvelope) : JoinedRow :=
  (task_entry (pe_task p), envelope_row (pe_envelope p)).

Lemma row_to_pending_joined p :
  in_u32 (tr_retry_count (pe_task p)) -> en_task_id (pe_envelope p) = tr_id (pe_task p) ->
  row_to_pending_task_envelope (joined_entry p) = Ok p.
Proof.
  intros Hr He. unfold row_to_pending_task_envelope, joined_entry, task_entry, task_row, envelope_row.
  simpl. rewrite id_new_as_str, str_to_status_to_str, opt_id_new_as_str, column_u32_id, column_bool
    by done.
  destruct p as [[] []]; simpl in *. by subst.
Qed.

(** The entries that [with_envelope] makes of stored tasks. *)
Definition stored_pending (s : InMemoryState) (p : PendingTaskEnvelope) : Prop :=
  tasks s !! tr_id (pe_task p) = Some (pe_task p)
  /\ envelopes s !! tr_id (pe_task p) = Some (pe_envelope p).

Definition pending_list (s : InMemoryState) : list PendingTaskEnvelope :=
  omap (with_envelope s) (filter (fun t => tr_status t = Pending) (task_values s)).

Lemma elem_of_pending_list s p :
  Inv s -> p ∈ pending_list s -> stored_pending s p.
Proof.
  intros HI (t & [_ Ht]%list_elem_of_filter & Hp)%list_elem_of_omap.
  apply elem_of_task_values in Ht; [|done]. unfold with_envelope in Hp.
  destruct (envelopes s !! tr_id t) as [e|] eqn:He; [|done]. simpl in Hp. by injection Hp as <-.
Qed.

Lemma pending_key_inj s a b :
  stored_pending s a -> stored_pending s b -> pending_envelope_key a = pending_envelope_key b -> a = b.
Proof.
  intros [Hat Hae] [Hbt Hbe] [= _ Heq%(inj as_str)].
  destruct a as [ta ea], b as [tb eb]; simpl in *. rewrite Heq in *. congruence.
Qed.

Lemma pending_rows_list d s :
  Rel d s -> Inv s -> pending_rows d ≡ₚ joined_entry <$> pending_list s.
Proof.
  intros HR HI. unfold pending_rows, pending_list.
  assert (Hp : filter (fun kr => r_status kr.2 = "pending") (map_to_list (t_tasks d))
    ≡ₚ task_entry <$> filter (fun t => tr_status t = Pending) (task_values s)).
  { etrans; [by apply filter_perm, task_rows|]. rewrite filter_fmap_list.
    apply Permutation_refl'. f_equal. apply filter_ext_list. intros t _. simpl.
    split; [by intros ?%(inj status_to_str (tr_status t) Pending)|by intros ->]. }
  rewrite Hp, omap_fmap, (rel_envelopes _ _ HR). apply Permutation_refl'. clear Hp.
  induction (filter _ (task_values s)) as [|t l IH]; [done|]. csimpl.
  rewrite lookup_as_table. unfold with_envelope at 1.
  destruct (envelopes s !! tr_id t) as [e|]; csimpl; [by f_equal|done].
Qed.

Lemma try_map_pending s l :
  Inv s -> (forall p, p ∈ l -> stored_pending s p) ->
  try_map row_to_pending_task_envelope (joined_entry <$> l) = Ok l.
Proof.
  intros HI Hl. apply try_map_ok, Forall_forall. intros p Hp. destruct (Hl p Hp) as [Ht He].
  apply row_to_pending_joined; [by eapply inv_retry|]. by destruct (inv_envelope _ HI _ _ He).
Qed.

Lemma select_pending_list d s limit :
  Rel d s -> Inv s -> Z.of_nat limit <= i64_max ->
  select_pending limit d = joined_entry <$> first_pending limit (pending_list s).
Proof.
  intros HR HI Hl. unfold select_pending, first_pending. rewrite sql_limit_take, fmap_take by done.
  f_equal. apply (sort_on_image key_le); [by apply pending_rows_list|done|].
  intros a b Ha Hb. apply (pending_key_inj s); by apply elem_of_pending_list.
Qed.

Lemma row_executor_allows_entry d s p t :
  Rel d s -> row_executor_allows d (as_str p) (as_str (tr_id t)) = executor_allows s p t.
Proof.
  intros HR. unfold row_executor_allows, executor_allows, expected_executor.
  rewrite (rel_contexts _ _ HR), lookup_as_table.
  destruct (transport_contexts s !! tr_id t) as [c|]; simpl; [|done].
  destruct (tc_expected_executor_peer_id c) as [e|]; simpl; [|done].
  apply bool_decide_ext. split; [by intros ?%(inj as_str)|by intros ->].
Qed.

Lemma filter_claimable s p :
  filter (fun x => executor_allows s p (pe_task x) = true) (pending_list s)
  = omap (with_envelope s)
      (filter (fun t => executor_allows s p t = true)
        (filter (fun t => tr_status t = Pending) (task_values s))).
Proof.
  unfold pending_list. induction (filter _ (task_values s)) as [|t l IH]; [done|].
  assert (Hpe : forall x, with_envelope s t = Some x -> pe_task x = t).
  { unfold with_envelope. intros x. destruct (envelopes s !! tr_id t); naive_solver. }
  destruct (executor_allows s p t) eqn:E.
  - rewrite (filter_cons_True _ t) by done. csimpl.
    destruct (with_envelope s t) as [x|]; [|done]. csimpl.
    rewrite filter_cons_True by (by rewrite (Hpe x)). by rewrite IH.
  - rewrite (filter_cons_False _ t) by (by rewrite E). csimpl.
    destruct (with_envelope s t) as [x|]; [|done]. csimpl.
    rewrite filter_cons_False by (by rewrite (Hpe x), E). done.
Qed.

Lemma select_claimable_list d s p limit :
  Rel d s -> Inv s -> Z.of_nat limit <= i64_max ->
  select_claimable (as_str p) limit d
  = joined_entry <$> first_pending limit
      (filter (fun x => executor_allows s p (pe_task x) = true) (pending_list s)).
Proof.
  intros HR HI Hl. unfold select_claimable, first_pending. rewrite sql_limit_take, fmap_take by done.
  f_equal. apply (sort_on_image key_le); [|done|].
  - etrans; [by apply filter_perm, pending_rows_list|]. rewrite filter_fmap_list.
    apply Permutation_refl'. f_equal. apply filter_ext_list. intros x _. simpl.
    by rewrite (row_executor_allows_entry d s).
  - intros a b [_ Ha]%list_elem_of_filter [_ Hb]%list_elem_of_filter.
    apply (pending_key_inj s); by apply elem_of_pending_list.
Qed.

Lemma pending_query_sim {s} limit l d :
  Rel d s -> Inv s -> (forall p, p ∈ l -> stored_pending s p) ->
  forall w, agrees (lift (try_map row_to_pending_task_envelope
                      (joined_entry <$> first_pending limit l)) (MkConn d w))
    (Ok (first_pending limit l), s).
Proof.
  intros HR HI Hl w. unfold lift. rewrite (try_map_pending s); [done|done|].
  intros p Hp. apply Hl. eapply elem_of_sublist in Hp; [|apply sublist_take].
  by apply elem_of_sort_on in Hp.
Qed.

Lemma pending_sim d w s limit :
  Rel d s -> Inv s -> Z.of_nat limit <= i64_max ->
  agrees (pending_task_envelopes limit (MkConn d w)) (MemStore.pending_task_envelopes limit s).
Proof.
  intros HR HI Hl. unfold pending_task_envelopes, MemStore.pending_task_envelopes.
  destruct limit as [|n] eqn:E; [by split|]. rewrite <- E in *.
  change (bind (pool_query ?q) ?k (MkConn d w)) with (k (q d) (MkConn d w)). cbv beta.
  rewrite (select_pending_list d s) by done.
  apply pending_query_sim; [done|done|]. intros p. by apply elem_of_pending_list.
Qed.

Lemma claimable_sim d w s p limit :
  Rel d s -> Inv s -> Z.of_nat limit <= i64_max ->
  agrees (claimable_pending_task_envelopes p limit (MkConn d w))
    (MemStore.claimable_pending_task_envelopes p limit s).
Proof.
  intros HR HI Hl. unfold claimable_pending_task_envelopes, MemStore.claimable_pending_task_envelopes.
  destruct limit as [|n] eqn:E; [by split|]. rewrite <- E in *.
  change (bind (pool_query ?q) ?k (MkConn d w)) with (k (q d) (MkConn d w)). cbv beta.
  rewrite (select_claimable_list d s) by done. unfold bind, get, ret. rewrite <- filter_claimable.
  apply pending_query_sim; [done|done|].
  intros x [_ Hx]%list_elem_of_filter. by apply elem_of_pending_list.
Qed.

(** ** Counts, logs and single records *)

Lemma count_sim d w s st :
  Rel d s -> Z.of_nat (size (tasks s)) <= i64_max ->
  agrees (count_tasks_by_status st (MkConn d w)) (MemStore.count_tasks_by_status st s).
Proof.
  intros HR Hsize. unfold count_tasks_by_status, MemStore.count_tasks_by_status.
  change (bind (pool_query ?q) ?k (MkConn d w)) with (k (q d) (MkConn d w)).
  unfold bind, get, ret. split; [|done]. cbn [fst]. f_equal. unfold count_status.
  assert (Hp : filter (fun kr => r_status kr.2 = status_to_str st) (map_to_list (t_tasks d))
    ≡ₚ task_entry <$> filter (fun t => tr_status t = st) (task_values s)).
  { etrans; [by apply filter_perm, task_rows|]. rewrite filter_fmap_list.
    apply Permutation_refl'. f_equal. apply filter_ext_list. intros t _. simpl.
    split; [by intros ?%(inj status_to_str)|by intros ->]. }
  rewrite Hp, length_fmap. apply as_u64_small.
  assert (length (filter (fun t => tr_status t = st) (task_values s)) <= size (tasks s))%nat; [|lia].
  etrans; [apply length_filter|]. unfold task_values. by rewrite length_fmap, length_map_to_list.
Qed.

Lemma pool_events d w s i evs :
  Rel d s -> events s !! i = Some evs -> evs <> [] ->
  events_for_task i (MkConn d w) = (Ok evs, MkConn d w).
Proof.
  intros HR He Hne. unfold events_for_task.
  change (bind (pool_query ?q) ?k (MkConn d w)) with (k (q d) (MkConn d w)). cbv beta.
  rewrite (rel_events _ _ HR), He. cbn [default].
  pose proof (decode_events s d i evs HR He) as Hd.
  destruct evs as [|ev evs]; [done|]. exact (f_equal (fun r => (r, MkConn d w)) Hd).
Qed.

Lemma events_sim d w s i :
  Rel d s -> Inv s ->
  agrees (events_for_task i (MkConn d w)) (MemStore.events_for_task i s).
Proof.
  intros HR HI. unfold MemStore.events_for_task. apply sim_get.
  destruct (events s !! i) as [evs|] eqn:He.
  - destruct (proj1 (inv_events _ HI i)) as [t Ht]; [by eexists|].
    by rewrite (pool_events d w s i evs) by (try done; by eapply log_not_empty).
  - unfold events_for_task.
    change (bind (pool_query ?q) ?k (MkConn d w)) with (k (q d) (MkConn d w)). cbv beta.
    rewrite (rel_events _ _ HR), He. cbn [default fmap list_fmap]. unfold bind, get.
    rewrite (pool_get_task d w s) by done. by destruct (tasks s !! i).
Qed.

Lemma replay_sim d w s i :
  Rel d s -> Inv s -> agrees (replay_task i (MkConn d w)) (MemStore.replay_task i s).
Proof.
  intros HR HI. unfold replay_task, MemStore.replay_task. apply sim_get.
  unfold bind at 1. rewrite (pool_get_task d w s) by done.
  destruct (tasks s !! i) as [t|] eqn:Ht; cbn [ok_or]; [|by split]. rewrite bind_lift_ok.
  destruct (proj2 (inv_events _ HI i)) as [evs He]; [by eexists|]. rewrite He. cbn [ok_or].
  rewrite bind_lift_ok.
  pose proof (pool_events d w s i evs HR He (log_not_empty _ _ _ _ HI Ht He)) as Hev.
  unfold bind. by rewrite Hev.
Qed.

Section lookups.
Context (d w : Db) (s : InMemoryState) (HR : Rel d s).

Lemma get_envelope_sim i :
  agrees (get_task_envelope i (MkConn d w)) (MemStore.get_task_envelope i s).
Proof using HR.
  pose proof (read_envelope d d s i HR) as H.
  unfold fetch_task_envelope_optional_with_executor, query, bind, get, ret, lift in H. simpl in H.
  injection H as H. unfold get_task_envelope, MemStore.get_task_envelope, pool_query, bind, get, ret,
    lift. simpl. rewrite H. by destruct (envelopes s !! i).
Qed.

Lemma get_context_sim i :
  agrees (get_transport_context i (MkConn d w)) (MemStore.get_transport_context i s).
Proof using HR.
  unfold get_transport_context, MemStore.get_transport_context. apply sim_begin, sim_get.
  unfold bind at 1. rewrite (read_context d d s) by done.
  by destruct (transport_contexts s !! i).
Qed.

Lemma get_result_sim i :
  agrees (get_terminal_result i (MkConn d w)) (MemStore.get_terminal_result i s).
Proof using HR.
  unfold get_terminal_result, MemStore.get_terminal_result. apply sim_begin, sim_get.
  unfold bind at 1. rewrite (read_result d d s) by done.
  by destruct (terminal_results s !! i).
Qed.

Lemma active_lease_sim i : agrees (active_lease i (MkConn d w)) (MemStore.active_lease i s).
Proof using HR.
  pose proof (read_lease d d s i HR) as H.
  unfold fetch_active_lease_with_executor, query, bind, get, ret, lift in H. simpl in H.
  injection H as H. unfold active_lease, pool_query, bind, get, ret, lift. simpl. by rewrite H.
Qed.

Lemma get_task_sim i : agrees (get_task i (MkConn d w)) (MemStore.get_task i s).
Proof using HR. by rewrite (pool_get_task d w s). Qed.
End lookups.

(** ** Calls that the two stores answer alike

    What a call must satisfy in the state it is made in: the tasks are fresh,
    the logs have room for one more 64-bit number, a limit fits [i64], and a
    lease record is for the task, names its worker, and does not carry the id
    of another task's active lease. *)
Definition op_ok (s : InMemoryState) (op : Op) : Prop :=
  op_fresh op /\ logs_short s
  /\ match op with
     | OpAccept t => tr_status t = Pending
     | OpLease i l | OpLeaseForPeer i l _ =>
         lease_id_free s i (lr_lease_id l) /\ lr_task_id l = i /\ is_Some (lr_worker_id l)
     | OpFailDeadlines _ limit | OpRecover _ limit => limit_ok limit
     | OpPendingEnvelopes n | OpClaimable _ n => Z.of_nat n <= i64_max
     | OpCount _ => Z.of_nat (size (tasks s)) <= i64_max
     | _ => True
     end.

Lemma agrees_reply {A} (f : A -> Reply) (mc : C A) (mm : M A) c s :
  agrees (mc c) (mm s) -> agrees (reply f mc c) (reply f mm s).
Proof.
  intros [Hr HR]. unfold reply, bind, ret.
  destruct (mc c) as [[a|e] c'], (mm s) as [[a'|e'] s']; simpl in *; simplify_eq; by split.
Qed.

Lemma op_sim violation op d w s :
  Rel d s -> Inv s -> op_ok s op ->
  agrees (run_op (S := Conn) (H := sql_api violation) op (MkConn d w)) (run_op op s).
Proof.
  intros HR HI (Hf & Hlen & Hop).
  assert (Hrd : forall i, ready s i) by (by split).
  destruct op; simpl in Hf, Hop; apply agrees_reply;
    [ apply accept_sim | apply accept_envelope_sim | apply accept_context_sim
    | apply put_context_sim | destruct Hop as (? & ? & ?); apply lease_sim
    | destruct Hop as (? & ? & ?); apply lease_sim | apply renew_sim | apply finish_sim
    | apply fail_sim | apply retry_sim | apply dead_letter_sim | apply cancel_sim
    | apply fail_deadlines_sim | apply transition_sim | apply legacy_sim | apply recover_sim
    | apply cancel_result_sim | apply complete_result_sim | apply fail_result_sim
    | apply get_task_sim | apply get_envelope_sim | apply pending_sim | apply claimable_sim
    | apply count_sim | apply events_sim | apply replay_sim | apply active_lease_sim
    | apply get_context_sim | apply get_result_sim ]; done.
Qed.

Fixpoint ops_ok (ops : list Op) (s : InMemoryState) : Prop :=
  match ops with
  | [] => True
  | op :: ops => op_ok s op /\ ops_ok ops (run_op op s).2
  end.

Lemma Rel_empty : Rel empty_db empty_state.
Proof.
  split; simpl; try done; by symmetry; apply as_table_empty.
Qed.

Lemma ops_sim violation ops : forall d w s,
  Rel d s -> Inv s -> ops_ok ops s ->
  let p := run_ops (H := sql_api violation) ops (MkConn d w) in
  let q := run_ops ops s in
  p.1 = q.1 /\ Rel (committed p.2) q.2 /\ Inv q.2.
Proof.
  induction ops as [|op ops IH]; intros d w s HR HI Hok; [done|].
  destruct Hok as [Hop Hok]. pose proof (op_sim violation op d w s HR HI Hop) as [Hr HR'].
  cbn [run_ops].
  destruct (run_op (S := Conn) op (MkConn d w)) as [r [d1 w1]] eqn:E1,
    (run_op op s) as [r' s1] eqn:E2.
  assert (HI' : Inv s1) by (eapply Inv_steps; [exact HI|eapply run_op_steps; [apply Hop|exact E2]]).
  specialize (IH d1 w1 s1 HR' HI' Hok). cbv zeta in IH |- *.
  destruct (run_ops (S := Conn) ops (MkConn d1 w1)) as [rs c2], (run_ops ops s1) as [rs' s2].
  simpl in *. destruct IH as (-> & ? & ?). by subst.
Qed.

(** C2: the SQLite store refines the in-memory store, on the calls that keep to
    [ops_ok]: tasks are submitted pending and as their creators build them, a
    lease is for its task, names its worker and does not carry the id of
    another task's active lease, and limits, counts and logs fit [i64]. From a
    database that represents a well-formed in-memory state, a session of such
    calls gets the same replies from both stores, errors included, and leaves
    a database that represents the in-memory store's new state, which is
    well-formed again. On other calls the two stores can differ. *)
Theorem sqlite_refines_memory violation ops d w s :
  Rel d s -> Inv s -> ops_ok ops s ->
  let p := run_ops (H := sql_api violation) ops (MkConn d w) in
  let q := run_ops ops s in
  p.1 = q.1 /\ Rel (committed p.2) q.2 /\ Inv q.2.
Proof. apply ops_sim. Qed.

Lemma logs_short_dec s :
  bool_decide (map_Forall (fun _ evs => Z.of_nat (length evs) < i64_max) (events s)) = true ->
  logs_short s.
Proof.
  intros H%bool_decide_eq_true i. unfold log_length.
  destruct (events s !! i) as [evs|] eqn:He; simpl; [by apply (H i)|done].
Qed.

Lemma lease_id_free_dec s i lid :
  bool_decide (map_Forall (fun j l => lr_lease_id l = lid -> j = i) (leases s)) = true ->
  lease_id_free s i lid.
Proof. intros H%bool_decide_eq_true j l. apply H. Qed.

Definition sample_session : list Op :=
  running_ops ++ [OpGet task_a; OpCompleteResult task_a lease_1 worker_a result_a;
                  OpFailDeadlines 600 None; OpReplay task_a].

Lemma sample_session_ok : ops_ok sample_session empty_state.
Proof.
  repeat match goal with
  | |- ops_ok (_ :: _) _ => split
  | |- ops_ok [] _ => exact I
  | |- ops_ok _ _ => unfold sample_session, running_ops, accept_ops; cbn [app]
  | |- op_ok _ _ => split; [|split]
  | |- op_fresh _ => simpl; first [exact I|repeat split; by intros [=]]
  | |- logs_short _ => apply logs_short_dec; vm_compute; reflexivity
  end; simpl; try exact I.
  split; [apply lease_id_free_dec; vm_compute; reflexivity|]. split; [done|by eexists].
Qed.

Lemma sqlite_refines_memory_witness :
  (run_ops (H := sql_api "UNIQUE constraint failed") sample_session empty_conn).1
  = (run_ops sample_session empty_state).1
  /\ ops_ok sample_session empty_state.
Proof.
  split; [|exact sample_session_ok].
  apply (sqlite_refines_memory "UNIQUE constraint failed" sample_session empty_db empty_db empty_state
           Rel_empty Inv_empty sample_session_ok).
Defined.
