(* ===== verification/SqlDelivery.v ===== *)
(** * Result deliveries

    The outbox of the SQLite store: [claim_next_result_delivery],
    [ack_result_delivery] and [fail_result_delivery] as a state machine on
    each row, and what a delivery worker can rely on. *)
From S2P Require Import Prelude Ident Lifecycle StoreModel Api MemStore Samples SqlStore.
From stdpp Require Import options.

(** ** The state machine of one delivery

    A pending delivery that is due is leased; a lease ends by an
    acknowledgement, by a failure its owner reports, or by expiring; a
    delivered or dead-lettered row does not change any more. *)
Inductive delivery_step (now : Z) : OutboxRow -> OutboxRow -> Prop :=
| ds_claim w exp r : due now r = true ->
    delivery_step now r (row_leased w exp now r)
| ds_expire r : lease_expired now r = true ->
    delivery_step now r (row_after_attempt false now "result delivery lease expired" now r)
| ds_ack k w exp r : holds_claim k w exp now k r = true ->
    delivery_step now r (row_delivered now r)
| ds_fail k w exp dead_letter retry_at error r : holds_claim k w exp now k r = true ->
    delivery_step now r (row_after_attempt dead_letter retry_at error now r).

(** A row the store wrote: a known state, the counter within its bound, and
    an owner and an expiry exactly while it is leased. *)
Record row_wf (r : OutboxRow) : Prop := {
  rw_state : o_state r ∈ ["pending"; "leased"; "delivered"; "dead_lettered"];
  rw_attempts : 0 <= o_attempt_count r <= MAX_RESULT_DELIVERY_ATTEMPTS;
  rw_open : o_state r = "pending" \/ o_state r = "leased" ->
    o_attempt_count r < MAX_RESULT_DELIVERY_ATTEMPTS;
}.

Lemma row_after_attempt_wf dead_letter retry_at error now r :
  row_wf r -> o_state r = "leased" -> row_wf (row_after_attempt dead_letter retry_at error now r).
Proof.
  intros [Hs Ha Ho] Hl. unfold MAX_RESULT_DELIVERY_ATTEMPTS in *.
  assert (Hlast : last_attempt r = (9 <=? o_attempt_count r)) by done.
  assert (o_attempt_count r < 10) by auto.
  split; unfold row_after_attempt; simpl; rewrite Hlast;
    unfold MAX_RESULT_DELIVERY_ATTEMPTS.
  - destruct (dead_letter || _); set_solver.
  - destruct (Z.leb_spec 9 (o_attempt_count r)); lia.
  - destruct (Z.leb_spec 9 (o_attempt_count r)); [|lia].
    rewrite orb_true_r. by intros [?|?].
Qed.

Lemma due_inv now r : due now r = true -> o_state r = "pending" /\ o_next_attempt_at_ms r <= now.
Proof. unfold due. rewrite andb_true_iff, bool_decide_eq_true, Z.leb_le. done. Qed.

Lemma lease_expired_inv now r :
  lease_expired now r = true ->
  o_state r = "leased" /\ exists e, o_lease_expires_at_ms r = Some e /\ e <= now.
Proof.
  unfold lease_expired. rewrite andb_true_iff, bool_decide_eq_true.
  intros [Hs He]. split; [done|]. destruct (o_lease_expires_at_ms r) as [e|]; [|done].
  exists e. by rewrite Z.leb_le in He.
Qed.

Lemma holds_claim_inv id w exp now k r :
  holds_claim id w exp now k r = true <->
  k = id /\ o_state r = "leased" /\ o_lease_owner r = Some w
  /\ o_lease_expires_at_ms r = Some exp /\ now < exp.
Proof.
  unfold holds_claim. rewrite !andb_true_iff, !bool_decide_eq_true, Z.ltb_lt. tauto.
Qed.

Lemma delivery_step_wf now r r' : delivery_step now r r' -> row_wf r -> row_wf r'.
Proof.
  intros Hstep Hwf. destruct Hstep as [w exp r Hd|r He|k w exp r Hc|k w exp dl ra err r Hc].
  - apply due_inv in Hd as [Hp _]. destruct Hwf as [Hs Ha Ho].
    split; simpl; [set_solver|done|auto].
  - apply lease_expired_inv in He as [Hl _]. by apply row_after_attempt_wf.
  - destruct Hwf as [Hs Ha Ho]. split; simpl; [set_solver|done|by intros [?|?]].
  - apply holds_claim_inv in Hc as (_ & Hl & _). by apply row_after_attempt_wf.
Qed.

(** How often the row can still be claimed. *)
Definition claims_left (r : OutboxRow) : Z :=
  if bool_decide (o_state r = "pending") then MAX_RESULT_DELIVERY_ATTEMPTS - o_attempt_count r
  else if bool_decide (o_state r = "leased")
  then MAX_RESULT_DELIVERY_ATTEMPTS - 1 - o_attempt_count r
  else 0.

Lemma claims_left_nonneg r : row_wf r -> 0 <= claims_left r <= MAX_RESULT_DELIVERY_ATTEMPTS.
Proof.
  intros [Hs Ha Ho]. unfold claims_left, MAX_RESULT_DELIVERY_ATTEMPTS in *.
  case_bool_decide; [assert (o_attempt_count r < 10) by auto; lia|].
  case_bool_decide; [assert (o_attempt_count r < 10) by auto; lia|lia].
Qed.

Lemma claims_left_after_attempt dead_letter retry_at error now r :
  row_wf r -> o_state r = "leased" ->
  claims_left (row_after_attempt dead_letter retry_at error now r) <= claims_left r.
Proof.
  intros Hwf Hl. pose proof (claims_left_nonneg r Hwf) as Hn.
  unfold claims_left in *. rewrite Hl in *. simpl in Hn |- *.
  unfold last_attempt, MAX_RESULT_DELIVERY_ATTEMPTS in *.
  destruct (Z.leb_spec (10 - 1) (o_attempt_count r)).
  - rewrite orb_true_r. simpl. lia.
  - rewrite orb_false_r. destruct dead_letter; simpl; lia.
Qed.

(** No step gives a claim back, and a claim uses one up. *)
Lemma claims_left_step now r r' :
  row_wf r -> delivery_step now r r' -> claims_left r' <= claims_left r.
Proof.
  intros Hwf Hstep. destruct Hstep as [w exp r Hd|r He|k w exp r Hc|k w exp dl ra err r Hc].
  - apply due_inv in Hd as [Hp _]. unfold claims_left. rewrite Hp. simpl. lia.
  - apply lease_expired_inv in He as [Hl _]. by apply claims_left_after_attempt.
  - pose proof (claims_left_nonneg r Hwf). unfold claims_left at 1. simpl. lia.
  - apply holds_claim_inv in Hc as (_ & Hl & _). by apply claims_left_after_attempt.
Qed.

Lemma claims_left_claim w exp now r :
  due now r = true -> claims_left (row_leased w exp now r) = claims_left r - 1.
Proof. intros [Hp _]%due_inv. unfold claims_left. rewrite Hp. simpl. lia. Qed.

(** Settled rows do not move. *)
Definition settled (r : OutboxRow) : Prop :=
  o_state r = "delivered" \/ o_state r = "dead_lettered".

Lemma settled_no_step now r r' : settled r -> delivery_step now r r' -> False.
Proof.
  intros Hs Hstep. destruct Hstep as [w exp r Hd|r He|k w exp r Hc|k w exp dl ra err r Hc].
  - apply due_inv in Hd as [Hp _]. destruct Hs; congruence.
  - apply lease_expired_inv in He as [Hl _]. destruct Hs; congruence.
  - apply holds_claim_inv in Hc as (_ & Hl & _). destruct Hs; congruence.
  - apply holds_claim_inv in Hc as (_ & Hl & _). destruct Hs; congruence.
Qed.

(** ** Updates of the outbox *)

Abbreviation outbox_of c := (t_result_outbox (committed c)).

Lemma lookup_update_outbox P f d k :
  t_result_outbox (update_outbox_where P f d).1 !! k
  = (fun r => if P k r then f r else r) <$> t_result_outbox d !! k.
Proof. simpl. rewrite map_lookup_imap. by destruct (t_result_outbox d !! k). Qed.

(** The rows changed by an update that names one key: that row or none. *)
Lemma update_outbox_count P f d id :
  (forall k r, P k r = true -> k = id) ->
  (update_outbox_where P f d).2
  = match t_result_outbox d !! id with Some r => if P id r then 1 else 0 | None => 0 end.
Proof.
  intros HP. simpl. set (rows := filter _ _).
  assert (Hin : forall k r, (k, r) ∈ rows <-> t_result_outbox d !! k = Some r /\ P k r = true).
  { intros k r. unfold rows. rewrite list_elem_of_filter, elem_of_map_to_list. tauto. }
  assert (Hnd : NoDup rows) by (apply list.NoDup_filter, NoDup_map_to_list).
  assert (Hempty : (forall k r, (k, r) ∉ rows) -> rows = []).
  { intros Hno. destruct rows as [|[k r] l]; [done|]. destruct (Hno k r). left. }
  destruct (t_result_outbox d !! id) as [r|] eqn:Hr; [destruct (P id r) eqn:HPr|].
  - assert (rows ≡ₚ [(id, r)]) as ->; [|done].
    apply NoDup_Permutation; [done|by apply NoDup_singleton|]. intros [k x].
    rewrite Hin, list_elem_of_singleton. split; [|by intros [= -> ->]].
    intros [Hx Hp]. pose proof (HP _ _ Hp) as ->. congruence.
  - rewrite Hempty; [done|]. intros k x [Hx Hp]%Hin. pose proof (HP _ _ Hp) as ->. congruence.
  - rewrite Hempty; [done|]. intros k x [Hx Hp]%Hin. pose proof (HP _ _ Hp) as ->. congruence.
Qed.

(** The rows after the expired leases were returned. *)
Definition expire_row (now : Z) (r : OutboxRow) : OutboxRow :=
  if lease_expired now r
  then row_after_attempt false now "result delivery lease expired" now r else r.

Lemma expire_row_step now r : rtc (delivery_step now) r (expire_row now r).
Proof.
  unfold expire_row. destruct (lease_expired now r) eqn:E; [|done].
  apply rtc_once. by constructor.
Qed.

Lemma row_to_outbox_key k r o : row_to_outbox (k, r) = Ok o -> ob_delivery_id o = k.
Proof.
  unfold row_to_outbox. destruct (id_new _ _); [|done]. destruct (id_new _ _); [|done].
  destruct (delivery_state_parse _); [|done]. by intros [= <-].
Qed.

(** What a claim does: nothing when it fails; otherwise expired leases are
    returned and, if a delivery is due, the first one is leased. *)
Inductive claim_effect (w : string) (now duration : Z) (c : Conn) :
    Result (option (ResultOutboxRecord * TerminalResultRecord)) StoreError * Conn -> Prop :=
| ce_error e c' : committed c' = committed c -> claim_effect w now duration c (Err e, c')
| ce_none c' :
    (forall k, outbox_of c' !! k = expire_row now <$> outbox_of c !! k) ->
    (forall k r, outbox_of c' !! k = Some r -> due now r = false) ->
    claim_effect w now duration c (Ok None, c')
| ce_claimed k r o res c' :
    expire_row now <$> outbox_of c !! k = Some r -> due now r = true ->
    (forall j, outbox_of c' !! j =
       if bool_decide (j = k)
       then Some (row_leased w (i64_saturating_add now (Z.max duration 1)) now r)
       else expire_row now <$> outbox_of c !! j) ->
    (forall j x, expire_row now <$> outbox_of c !! j = Some x -> due now x = true ->
       key3_le (outbox_row_key (k, r)) (outbox_row_key (j, x))) ->
    ob_delivery_id o = k -> ob_state o = DsLeased -> ob_lease_owner o = Some w ->
    ob_lease_expires_at_ms o = Some (i64_saturating_add now (Z.max duration 1)) ->
    claim_effect w now duration c (Ok (Some (o, res)), c').

Lemma head_of_sorted {A K} (R : relation K) `{!forall a b, Decision (R a b)}
    `{!Total R, !Transitive R, !AntiSymm (=) R} (key : A -> K) l a :
  head (sort_on R key l) = Some a -> a ∈ l /\ forall b, b ∈ l -> R (key a) (key b).
Proof.
  intros Hhd. pose proof (sort_on_sorted R key l) as Hs.
  pose proof (fun x => elem_of_sort_on R key x l) as Hin.
  destruct (sort_on R key l) as [|x m]; [done|]. simpl in Hhd. injection Hhd as ->.
  split; [apply Hin; left|]. intros b Hb%Hin. inversion Hs as [|? ? Hm Hall]; subst.
  apply elem_of_cons in Hb as [->|Hb].
  - destruct (total R (key a) (key a)); done.
  - rewrite Forall_forall in Hall. by apply Hall.
Qed.

Lemma fetch_result_state i c : (fetch_terminal_result_optional i c).2 = c.
Proof. done. Qed.

Lemma claim_run w now duration c :
  claim_effect w now duration c (claim_next_result_delivery w now duration c).
Proof.
  unfold claim_next_result_delivery.
  set (expired := update_outbox_where (fun _ => lease_expired now)
    (row_after_attempt false now "result delivery lease expired" now) (committed c)).
  assert (Hexp : forall k, t_result_outbox expired.1 !! k = expire_row now <$> outbox_of c !! k)
    by (intros k; unfold expired; by rewrite lookup_update_outbox).
  change (bind begin ?k c) with (k tt (MkConn (committed c) (committed c))). cbv beta.
  change (bind (update_count ?u) ?k (MkConn (committed c) (committed c)))
    with (k (u (committed c)).2 (MkConn (committed c) (u (committed c)).1)). cbv beta.
  fold expired.
  change (bind (query ?q) ?k (MkConn (committed c) expired.1))
    with (k (q expired.1) (MkConn (committed c) expired.1)). cbv beta.
  destruct (head (select_outbox (due now) expired.1)) as [[k r]|] eqn:Hhead.
  2:{ apply ce_none; [exact Hexp|]. simpl. intros k r Hk.
      destruct (due now r) eqn:Hd; [|done]. exfalso.
      assert (Hin : (k, r) ∈ select_outbox (due now) expired.1).
      { unfold select_outbox. apply elem_of_sort_on; [apply _..|].
        apply list_elem_of_filter. by rewrite elem_of_map_to_list. }
      destruct (select_outbox _ _); [by apply elem_of_nil in Hin|done]. }
  apply head_of_sorted in Hhead as [Hin Hmin]; [|apply _..].
  apply list_elem_of_filter in Hin as [Hdue Hk%elem_of_map_to_list]. simpl in Hdue.
  destruct (row_to_outbox (k, r)) as [o|e] eqn:Ho; [rewrite bind_lift_ok|by apply ce_error].
  apply row_to_outbox_key in Ho as Hok.
  set (exp := i64_saturating_add now (Z.max duration 1)).
  set (P := fun j x => bool_decide (j = ob_delivery_id o) && bool_decide (o_state x = "pending")).
  set (u := update_outbox_where P (row_leased w exp now)).
  change (bind (update_count ?u) ?k (MkConn (committed c) expired.1))
    with (k (u expired.1).2 (MkConn (committed c) (u expired.1).1)). cbv beta.
  assert (HPr : P k r = true).
  { unfold P. apply due_inv in Hdue as [-> _]. by rewrite Hok, !bool_decide_true. }
  assert (HP : forall j x, P j x = true -> j = k).
  { unfold P. intros j x [Hj _]%andb_true_iff. apply bool_decide_eq_true in Hj. by rewrite Hj. }
  unfold u at 1. rewrite (update_outbox_count _ _ _ k HP), Hk, HPr. cbn [negb Z.eqb Pos.eqb].
  cbn [ob_task_id].
  set (c2 := MkConn (committed c) (u expired.1).1).
  pose proof (fetch_result_state (ob_task_id o) c2) as Hstate.
  destruct (fetch_terminal_result_optional (ob_task_id o) c2) as [[res|e] c'] eqn:Hres;
    simpl in Hstate; subst c'; unfold bind at 1; rewrite Hres; [|by apply ce_error].
  destruct res as [res|]; [|by apply ce_error].
  eapply (ce_claimed w now duration c k r); try done.
  - by rewrite <- Hexp.
  - intros j. etrans; [exact (lookup_update_outbox P (row_leased w exp now) expired.1 j)|].
    rewrite Hexp.
    case_bool_decide as Hj.
    + subst j. rewrite <- Hexp, Hk. simpl. by rewrite HPr.
    + destruct (expire_row now <$> outbox_of c !! j) as [x|]; [|done]. simpl.
      destruct (P j x) eqn:HPj; [|done]. by apply HP in HPj.
  - intros j x Hx Hd. apply Hmin. apply list_elem_of_filter. split; [done|].
    apply elem_of_map_to_list. by rewrite Hexp.
Qed.

(** ** Acknowledgements and failures *)

(** Both settle the row of the claim they present, or fail and change no row. *)
Definition settle (id w : string) (exp now : Z) (f : OutboxRow -> OutboxRow) : C unit :=
  let! changed := pool_update_count (update_outbox_where (holds_claim id w exp now) f) in
  if changed =? 1 then ret tt else throw (StoreError.ResultDeliveryLeaseMismatch id).

Definition claim_held (id w : string) (exp now : Z) (c : Conn) : bool :=
  match outbox_of c !! id with Some r => holds_claim id w exp now id r | None => false end.

Lemma settle_run id w exp now f c :
  let c' := (settle id w exp now f c).2 in
  (settle id w exp now f c).1
    = (if claim_held id w exp now c then Ok tt
       else Err (StoreError.ResultDeliveryLeaseMismatch id))
  /\ forall k, outbox_of c' !! k
       = (if bool_decide (k = id) && claim_held id w exp now c then f else fun r => r)
           <$> outbox_of c !! k.
Proof.
  assert (HP : forall k r, holds_claim id w exp now k r = true -> k = id)
    by (intros k r H; by apply holds_claim_inv in H as [? _]).
  set (u := update_outbox_where (holds_claim id w exp now) f).
  assert (Hrun : settle id w exp now f c =
    ((if (u (committed c)).2 =? 1 then Ok tt else Err (StoreError.ResultDeliveryLeaseMismatch id)),
     MkConn (u (committed c)).1 (u (committed c)).1)).
  { unfold settle. fold u.
    change (bind (pool_update_count u) ?k c)
      with (k (u (committed c)).2 (MkConn (u (committed c)).1 (u (committed c)).1)). cbv beta.
    by destruct (_ =? 1). }
  rewrite Hrun. cbn [fst snd committed]. split.
  - unfold u. rewrite (update_outbox_count _ _ _ id HP). unfold claim_held.
    destruct (outbox_of c !! id) as [r|]; [|done]. by destruct (holds_claim id w exp now id r).
  - intros k. unfold u. rewrite lookup_update_outbox. unfold claim_held.
    destruct (bool_decide_reflect (k = id)) as [->|Hk]; simpl.
    + destruct (outbox_of c !! id) as [r|]; [|done]. simpl. by destruct (holds_claim id w exp now id r).
    + destruct (outbox_of c !! k) as [r|]; [|done]. simpl.
      destruct (holds_claim id w exp now k r) eqn:E; [|done]. by apply HP in E.
Qed.

Lemma ack_settles id w exp now :
  ack_result_delivery id w exp now = settle id w exp now (row_delivered now).
Proof. done. Qed.

Definition retry_time (now retry_at : Z) : Z :=
  Z.min retry_at (i64_saturating_add now MAX_RESULT_DELIVERY_RETRY_DELAY_MS).

Lemma fail_settles id w exp now retry_at error dead_letter :
  fail_result_delivery id (w, exp) now retry_at error dead_letter
  = settle id w exp now (row_after_attempt dead_letter (retry_time now retry_at) error now).
Proof. done. Qed.

(** ** Sequences of delivery calls *)

Inductive DeliveryOp : Type :=
| DClaim (w : string) (now duration : Z)
| DAck (id w : string) (exp now : Z)
| DFail (id w : string) (exp now retry_at : Z) (error : string) (dead_letter : bool).

Definition op_now (op : DeliveryOp) : Z :=
  match op with DClaim _ now _ | DAck _ _ _ now | DFail _ _ _ now _ _ _ => now end.

(** The delivery a call hands to a worker, if it is a claim that finds one. *)
Definition claimed_id
    (r : Result (option (ResultOutboxRecord * TerminalResultRecord)) StoreError)
    : option string :=
  match r with Ok (Some (o, _)) => Some (ob_delivery_id o) | _ => None end.

Definition deliver (op : DeliveryOp) (c : Conn) : option string * Conn :=
  match op with
  | DClaim w now duration =>
      let p := claim_next_result_delivery w now duration c in (claimed_id p.1, p.2)
  | DAck id w exp now => (None, (ack_result_delivery id w exp now c).2)
  | DFail id w exp now retry_at error dead_letter =>
      (None, (fail_result_delivery id (w, exp) now retry_at error dead_letter c).2)
  end.

Fixpoint deliver_all (ops : list DeliveryOp) (c : Conn) : list (option string) * Conn :=
  match ops with
  | [] => ([], c)
  | op :: ops =>
      let (claimed, c1) := deliver op c in
      let (rest, c2) := deliver_all ops c1 in
      (claimed :: rest, c2)
  end.

(** What a call does to one row: steps of the machine, the last of them the
    claim that the call reports. *)
Inductive row_outcome (now : Z) (k : string) : option string -> OutboxRow -> OutboxRow -> Prop :=
| ro_steps claimed r r' : claimed <> Some k -> rtc (delivery_step now) r r' ->
    row_outcome now k claimed r r'
| ro_claimed r r1 w exp : rtc (delivery_step now) r r1 -> due now r1 = true ->
    row_outcome now k (Some k) r (row_leased w exp now r1).

Lemma settle_outcome id w exp now f c k r :
  (forall x, holds_claim id w exp now id x = true -> delivery_step now x (f x)) ->
  outbox_of c !! k = Some r ->
  exists r', outbox_of (settle id w exp now f c).2 !! k = Some r'
    /\ row_outcome now k None r r'.
Proof.
  intros Hf Hr. destruct (settle_run id w exp now f c) as [_ Hk]. rewrite Hk, Hr. simpl.
  eexists. split; [done|]. apply ro_steps; [done|].
  destruct (bool_decide_reflect (k = id)) as [->|]; [|done]. simpl. unfold claim_held.
  rewrite Hr. destruct (holds_claim id w exp now id r) eqn:E; [|done]. by apply rtc_once, Hf.
Qed.

Lemma deliver_outcome op c k r :
  outbox_of c !! k = Some r ->
  exists r', outbox_of (deliver op c).2 !! k = Some r'
    /\ row_outcome (op_now op) k (deliver op c).1 r r'.
Proof.
  intros Hr. destruct op as [w now dur|id w exp now|id w exp now ra err dl]; simpl.
  - pose proof (claim_run w now dur c) as H.
    destruct (claim_next_result_delivery w now dur c) as [q c']. simpl.
    inversion H as [e c0 Hc|c0 Hrows _|j x o res c0 Hj Hdue Hrows _ Ho]; subst; simpl.
    + rewrite Hc. exists r. split; [done|]. by apply ro_steps.
    + rewrite Hrows, Hr. eexists. split; [done|]. apply ro_steps; [done|]. apply expire_row_step.
    + rewrite Hrows. case_bool_decide as Hjk.
      * subst. eexists. split; [done|]. rewrite Hr in Hj. injection Hj as <-.
        apply ro_claimed; [apply expire_row_step|done].
      * rewrite Hr. eexists. split; [done|].
        apply ro_steps; [congruence|apply expire_row_step].
  - rewrite ack_settles. apply settle_outcome; [|done]. intros x Hx. by eapply ds_ack.
  - rewrite fail_settles. apply settle_outcome; [|done]. intros x Hx. by eapply ds_fail.
Qed.

Lemma steps_wf now r r' : rtc (delivery_step now) r r' -> row_wf r ->
  row_wf r' /\ claims_left r' <= claims_left r.
Proof.
  induction 1 as [r|r1 r2 r3 Hs _ IH]; [done|]. intros Hwf.
  pose proof (claims_left_step _ _ _ Hwf Hs). apply delivery_step_wf in Hs; [|done].
  destruct (IH Hs). split; [done|lia].
Qed.

(** The number of times a delivery was handed out. *)
Definition times_claimed (k : string) (l : list (option string)) : Z :=
  Z.of_nat (length (filter (fun x => x = Some k) l)).

Lemma times_claimed_cons k x l :
  times_claimed k (x :: l) = (if bool_decide (x = Some k) then 1 else 0) + times_claimed k l.
Proof.
  unfold times_claimed. case_bool_decide as H.
  - rewrite filter_cons_True by done. cbn [length]. lia.
  - by rewrite filter_cons_False.
Qed.

Lemma outcome_claims_left now k claimed r r' :
  row_outcome now k claimed r r' -> row_wf r ->
  row_wf r' /\ claims_left r' + (if bool_decide (claimed = Some k) then 1 else 0) <= claims_left r.
Proof.
  intros [cl r0 r0' Hne Hs|r0 r1 w exp Hs Hd] Hwf; destruct (steps_wf _ _ _ Hs Hwf) as [Hwf1 Hle].
  - rewrite bool_decide_false by done. split; [done|lia].
  - rewrite bool_decide_true, claims_left_claim by done. split; [|lia].
    eapply delivery_step_wf; [by apply (ds_claim now w exp)|done].
Qed.

(** The rows of a store's outbox. *)
Definition outbox_wf (c : Conn) : Prop := map_Forall (fun _ r => row_wf r) (outbox_of c).

(** A delivery is attempted at most ten times. Whatever claims,
    acknowledgements and failures follow, with whatever clocks, a delivery is
    handed to a worker no more often than its row has attempts left, so never
    more than ten times. *)
Theorem delivery_attempts_are_bounded ops c k r :
  outbox_wf c -> outbox_of c !! k = Some r ->
  times_claimed k (deliver_all ops c).1 <= claims_left r <= MAX_RESULT_DELIVERY_ATTEMPTS.
Proof.
  intros Hwf Hr. assert (Hrw : row_wf r) by (by apply (Hwf k)). clear Hwf.
  pose proof (claims_left_nonneg r Hrw) as Hmax. split; [|lia]. clear Hmax.
  revert c r Hr Hrw. induction ops as [|op ops IH]; intros c r Hr Hrw; simpl.
  - pose proof (claims_left_nonneg r Hrw). unfold times_claimed. simpl. lia.
  - destruct (deliver_outcome op c k r Hr) as (r1 & Hr1 & Ho).
    destruct (deliver op c) as [cl c1]. simpl in Hr1, Ho.
    destruct (outcome_claims_left _ _ _ _ _ Ho Hrw) as [Hw1 Hle].
    specialize (IH c1 r1 Hr1 Hw1). destruct (deliver_all ops c1) as [l c2]. simpl in *.
    rewrite times_claimed_cons. lia.
Qed.

(** A settled row stays as it is. *)
Lemma settled_outcome now k claimed r r' :
  row_outcome now k claimed r r' -> settled r -> r' = r /\ claimed <> Some k.
Proof.
  intros [cl r0 r0' Hne Hs|r0 r1 w exp Hs Hd] Hset.
  - split; [|done]. inversion Hs as [|x y z Hxy]; subst; [done|].
    by apply settled_no_step in Hxy.
  - exfalso. inversion Hs as [|x y z Hxy]; subst; [|by apply settled_no_step in Hxy].
    apply due_inv in Hd as [Hp _]. destruct Hset; congruence.
Qed.

Lemma settled_row_is_final ops c k r :
  outbox_of c !! k = Some r -> settled r ->
  outbox_of (deliver_all ops c).2 !! k = Some r /\ times_claimed k (deliver_all ops c).1 = 0.
Proof.
  revert c. induction ops as [|op ops IH]; intros c Hr Hset; simpl; [done|].
  destruct (deliver_outcome op c k r Hr) as (r1 & Hr1 & Ho).
  destruct (deliver op c) as [cl c1]. simpl in Hr1, Ho.
  apply settled_outcome in Ho as [-> Hne]; [|done].
  specialize (IH c1 Hr1 Hset). destruct (deliver_all ops c1) as [l c2]. simpl in *.
  rewrite times_claimed_cons, bool_decide_false by done. destruct IH. split; [done|lia].
Qed.

(** An acknowledgement settles a delivery for good. It succeeds exactly
    when the caller still holds the claim it presents: the row is leased to
    that worker with that expiry, and the expiry lies ahead; otherwise no row
    changes. After it succeeds, no later call hands the delivery out again or
    changes its row. *)
Theorem acknowledgement_is_final id w exp now ops c :
  let (r, c1) := ack_result_delivery id w exp now c in
  (r = Ok tt <-> exists x, outbox_of c !! id = Some x /\ o_state x = "leased"
     /\ o_lease_owner x = Some w /\ o_lease_expires_at_ms x = Some exp /\ now < exp)
  /\ (r <> Ok tt -> outbox_of c1 = outbox_of c)
  /\ (r = Ok tt ->
      o_state <$> outbox_of c1 !! id = Some "delivered"
      /\ outbox_of (deliver_all ops c1).2 !! id = outbox_of c1 !! id
      /\ times_claimed id (deliver_all ops c1).1 = 0).
Proof.
  rewrite ack_settles. pose proof (settle_run id w exp now (row_delivered now) c) as [Hr Hk].
  destruct (settle id w exp now (row_delivered now) c) as [r c1]. simpl in Hr, Hk.
  unfold claim_held in *. split; [|split].
  - rewrite Hr. destruct (outbox_of c !! id) as [x|] eqn:Hx; [|naive_solver].
    destruct (holds_claim id w exp now id x) eqn:Hh; split; try done.
    + intros _. apply holds_claim_inv in Hh. naive_solver.
    + intros (y & [= <-] & Hy). assert (holds_claim id w exp now id x = true); [|congruence].
      apply holds_claim_inv. naive_solver.
  - intros Hne. apply map_eq. intros k. rewrite Hk.
    destruct (outbox_of c !! id) as [x|] eqn:Hx; [destruct (holds_claim id w exp now id x); [done|]|];
      rewrite andb_false_r; by destruct (outbox_of c !! k).
  - intros Hok. destruct (outbox_of c !! id) as [x|] eqn:Hx; [|congruence].
    destruct (holds_claim id w exp now id x); [|congruence].
    assert (Hid : outbox_of c1 !! id = Some (row_delivered now x))
      by (by rewrite Hk, Hx, bool_decide_true).
    rewrite Hid. split; [done|]. apply settled_row_is_final; [done|by left].
Qed.

(** ** Claims exclude each other *)

(** The call settles the delivery [k] with the claim of the worker [w] that
    expires at [exp]. *)
Definition presents (k w : string) (exp : Z) (op : DeliveryOp) : Prop :=
  match op with
  | DClaim _ _ _ => False
  | DAck id w' exp' _ | DFail id w' exp' _ _ _ _ => id = k /\ w' = w /\ exp' = exp
  end.

Definition leased_to (w : string) (exp : Z) (r : OutboxRow) : Prop :=
  o_state r = "leased" /\ o_lease_owner r = Some w /\ o_lease_expires_at_ms r = Some exp.

Lemma settle_keeps id w' exp' now f k w exp c r :
  outbox_of c !! k = Some r -> leased_to w exp r -> ~ (id = k /\ w' = w /\ exp' = exp) ->
  outbox_of (settle id w' exp' now f c).2 !! k = Some r.
Proof.
  intros Hr (_ & Hw & He) Hne. destruct (settle_run id w' exp' now f c) as [_ Hk]. rewrite Hk, Hr.
  destruct (bool_decide_reflect (k = id)) as [<-|]; [|done]. simpl. unfold claim_held.
  rewrite Hr. destruct (holds_claim k w' exp' now k r) eqn:Hh; [|done].
  apply holds_claim_inv in Hh as (_ & _ & Hw' & He' & _). naive_solver.
Qed.

Lemma lease_survives op c k w exp r :
  outbox_of c !! k = Some r -> leased_to w exp r ->
  op_now op < exp -> ~ presents k w exp op ->
  outbox_of (deliver op c).2 !! k = Some r /\ (deliver op c).1 <> Some k.
Proof.
  intros Hr Hl Hnow Hp.
  destruct op as [w' now dur|id w' exp' now|id w' exp' now ra err dl]; simpl in *.
  - assert (Hrow : expire_row now r = r).
    { unfold expire_row. destruct (lease_expired now r) eqn:E; [|done].
      apply lease_expired_inv in E as (_ & e & He & Hle). destruct Hl as (_ & _ & He').
      rewrite He in He'. injection He' as <-. lia. }
    assert (Hdue : due now r = false).
    { destruct (due now r) eqn:E; [|done]. apply due_inv in E as [E _]. destruct Hl. congruence. }
    pose proof (claim_run w' now dur c) as H.
    destruct (claim_next_result_delivery w' now dur c) as [q c']. simpl.
    inversion H as [e c0 Hc|c0 Hrows _|j x o res c0 Hj Hd Hrows _ Ho]; subst; simpl.
    + by rewrite Hc.
    + rewrite Hrows, Hr. simpl. by rewrite Hrow.
    + assert (k <> ob_delivery_id o).
      { intros ->. rewrite Hr in Hj. simpl in Hj. rewrite Hrow in Hj. congruence. }
      rewrite Hrows, bool_decide_false, Hr by done. simpl. rewrite Hrow. split; congruence.
  - rewrite ack_settles. split; [|done]. by eapply settle_keeps.
  - rewrite fail_settles. split; [|done]. by eapply settle_keeps.
Qed.

(** C40: a claim excludes other workers. Once a worker has claimed a delivery,
    no other call can claim it or change its row before the claim expires,
    unless it presents the claim itself; and until then the worker can
    acknowledge it. *)
Theorem delivery_claims_are_exclusive w now duration c o res c1 ops :
  let exp := i64_saturating_add now (Z.max duration 1) in
  claim_next_result_delivery w now duration c = (Ok (Some (o, res)), c1) ->
  Forall (fun op => op_now op < exp /\ ~ presents (ob_delivery_id o) w exp op) ops ->
  let (claimed, c2) := deliver_all ops c1 in
  times_claimed (ob_delivery_id o) claimed = 0
  /\ outbox_of c2 !! ob_delivery_id o = outbox_of c1 !! ob_delivery_id o
  /\ forall now', now' < exp ->
       (ack_result_delivery (ob_delivery_id o) w exp now' c2).1 = Ok tt.
Proof.
  intros exp Hc Hops. pose proof (claim_run w now duration c) as H. rewrite Hc in H.
  inversion H as [| |k r o' res' c0 Hk Hdue Hrows _ Ho]; subst.
  assert (Hr : outbox_of c1 !! ob_delivery_id o = Some (row_leased w exp now r))
    by (by rewrite Hrows, bool_decide_true).
  assert (Hl : leased_to w exp (row_leased w exp now r)) by done.
  rewrite Hr. clear H Hc Hrows Hk Hdue.
  generalize dependent (row_leased w exp now r). intros x Hr Hl.
  revert c1 Hr. induction Hops as [|op ops [Hnow Hp] _ IH]; intros c1 Hr; simpl.
  - split; [done|]. split; [done|]. intros now' Hlt. rewrite ack_settles.
    destruct (settle_run (ob_delivery_id o) w exp now' (row_delivered now') c1) as [-> _].
    unfold claim_held. rewrite Hr.
    assert (Hh : holds_claim (ob_delivery_id o) w exp now' (ob_delivery_id o) x = true)
      by (by apply holds_claim_inv; destruct Hl as (? & ? & ?)).
    by rewrite Hh.
  - destruct (lease_survives op c1 (ob_delivery_id o) w exp x Hr Hl Hnow Hp) as [Hr1 Hne].
    destruct (deliver op c1) as [cl c2]. simpl in Hr1, Hne. specialize (IH c2 Hr1).
    destruct (deliver_all ops c2) as [l c3]. destruct IH as (Hz & Hrow & Hack).
    rewrite times_claimed_cons, bool_decide_false by done. split; [lia|]. by split.
Qed.

(** Deliveries are served in order. A claim that finds a delivery takes
    the first due one, by the time of its next attempt, then by age, then by
    id, counting the deliveries whose lease has just expired; a claim that
    finds none means that none is due. *)
Theorem deliveries_are_served_in_order w now duration c :
  match claim_next_result_delivery w now duration c with
  | (Ok (Some (o, _)), _) =>
      exists r, expire_row now <$> outbox_of c !! ob_delivery_id o = Some r /\ due now r = true
        /\ forall k x, expire_row now <$> outbox_of c !! k = Some x -> due now x = true ->
             key3_le (outbox_row_key (ob_delivery_id o, r)) (outbox_row_key (k, x))
  | (Ok None, _) =>
      forall k x, expire_row now <$> outbox_of c !! k = Some x -> due now x = false
  | (Err _, c') => committed c' = committed c
  end.
Proof.
  pose proof (claim_run w now duration c) as H.
  destruct (claim_next_result_delivery w now duration c) as [q c'].
  inversion H as [e c0 Hc|c0 Hrows Hnone|k r o res c0 Hk Hdue Hrows Hmin Ho]; subst; [done| |].
  - intros k x Hx. apply (Hnone k). by rewrite Hrows.
  - exists r. auto.
Qed.

(** ** A delivery on a concrete database *)

(** The running task of the samples, completed with a result for peer-b. *)
Definition delivery_conn : Conn :=
  (run_ops (H := sql_api "UNIQUE constraint failed")
     (running_ops ++ [OpCompleteResult task_a lease_1 worker_a result_a]) empty_conn).2.

Definition delivery_row : OutboxRow :=
  MkOutboxRow "task-a" "peer-b" "pending" 0 300 None None None 300 300.

Example delivery_conn_outbox : outbox_of delivery_conn = {[ delivery_id task_a := delivery_row ]}.
Proof. vm_compute. reflexivity. Qed.

Lemma delivery_row_wf : row_wf delivery_row.
Proof.
  split; simpl; [left|by unfold MAX_RESULT_DELIVERY_ATTEMPTS; lia|].
  by unfold MAX_RESULT_DELIVERY_ATTEMPTS; lia.
Qed.

Lemma delivery_attempts_are_bounded_witness :
  outbox_wf delivery_conn
  /\ times_claimed (delivery_id task_a)
       (deliver_all [DClaim "w1" 300 100; DClaim "w2" 500 100; DClaim "w1" 900 100] delivery_conn).1
     <= 10.
Proof.
  assert (Hwf : outbox_wf delivery_conn).
  { unfold outbox_wf. rewrite delivery_conn_outbox. apply map_Forall_singleton, delivery_row_wf. }
  split; [exact Hwf|].
  apply (delivery_attempts_are_bounded
    [DClaim "w1" 300 100; DClaim "w2" 500 100; DClaim "w1" 900 100] delivery_conn
    (delivery_id task_a) delivery_row Hwf).
  rewrite delivery_conn_outbox. apply lookup_singleton_eq.
Defined.

Definition delivery_record : ResultOutboxRecord :=
  MkOutbox (delivery_id task_a) task_a peer_b DsLeased 0 300 (Some "w1") (Some 400) None 300 300.

(** The delivery of a successful claim. *)
Definition handed_out {A} (r : Result (option A) StoreError) : option A :=
  match r with Ok x => x | Err _ => None end.

Lemma handed_out_ok {A} (r : Result (option A) StoreError) a :
  handed_out r = Some a -> r = Ok (Some a).
Proof. destruct r; simpl; congruence. Qed.

Lemma delivery_claims_are_exclusive_witness :
  let c1 := (claim_next_result_delivery "w1" 300 100 delivery_conn).2 in
  (ack_result_delivery (delivery_id task_a) "w1" 400 399
     (deliver_all [DClaim "w2" 350 100; DAck (delivery_id task_a) "w2" 400 360] c1).2).1 = Ok tt.
Proof.
  assert (Hr : (claim_next_result_delivery "w1" 300 100 delivery_conn).1
               = Ok (Some (delivery_record, result_a))).
  { apply handed_out_ok, (bool_decide_eq_true_1 _). vm_compute. reflexivity. }
  destruct (claim_next_result_delivery "w1" 300 100 delivery_conn) as [r c1] eqn:Hc.
  simpl in Hr. subst r.
  pose proof (delivery_claims_are_exclusive "w1" 300 100 delivery_conn delivery_record result_a c1
    [DClaim "w2" 350 100; DAck (delivery_id task_a) "w2" 400 360] Hc) as H.
  assert (Hexp : i64_saturating_add 300 (Z.max 100 1) = 400) by reflexivity. rewrite Hexp in H.
  cbv zeta. simpl snd at 2.
  destruct (deliver_all [DClaim "w2" 350 100; DAck (delivery_id task_a) "w2" 400 360] c1)
    as [claimed c2].
  destruct H as (_ & _ & H).
  - repeat constructor; simpl; try lia; intros []; naive_solver.
  - apply H. reflexivity.
Defined.
