(* ===== verification/Artifacts.v ===== *)
(** * Artifact storage

    crates/keryx-core/src/artifact.rs and the artifact operations of both
    stores in crates/keryx-store/src/lib.rs. A small artifact is stored in its
    row, a large one as a file named by its digest in the blob directory,
    with a reference count per digest in the table [blobs].

    SHA-256 is the sha2 crate's: [sha256] gives the lower-case hexadecimal
    digits of a digest. A disk is the database connection and the files, keyed
    by directory and name. Directories can be created and files read and
    written, except that a missing file is not read and an existing one not
    created anew: those two errors of the operating system, whose texts the
    store inspects, are modelled, other I/O errors are not. *)
From S2P Require Import Prelude Ident Text Lifecycle StoreModel Api MemStore SqlStore.
From stdpp Require Import pretty options.
#[local] Open Scope Z_scope.

(** ** Data *)

Definition MAX_INLINE_ARTIFACT_BYTES : Z := 64 * 1024.
Definition MAX_BLOB_BYTES : Z := 256 * 1024 * 1024.
Definition MAX_CROSS_NODE_RESULT_ARTIFACT_BYTES : Z := 4 * 1024 * 1024.

Record Digest : Type := MkDigest { digest_str : string }.

#[export] Instance Digest_eq_dec : EqDecision Digest.
Proof. solve_decision. Defined.
#[export] Instance Digest_countable : Countable Digest.
Proof. apply (inj_countable' digest_str MkDigest). by intros []. Defined.

Definition digest_new (raw : string) : Result Digest ValidationError :=
  let normalized := to_ascii_lowercase (trim raw) in
  if negb (Nat.eqb (String.length normalized) 64)
     || negb (forallb is_ascii_hexdigit (bytes_of normalized))
  then Err (InvalidDigest raw) else Ok (MkDigest normalized).

Record MediaType : Type := MkMedia { media_str : string }.

#[export] Instance MediaType_eq_dec : EqDecision MediaType.
Proof. solve_decision. Defined.

Definition octet_stream : MediaType := MkMedia "application/octet-stream".

Definition media_type_new (value : string) : MediaType :=
  let normalized := to_ascii_lowercase (trim value) in
  if bool_decide (normalized = ""%string) then octet_stream else MkMedia normalized.

Record ArtifactMeta : Type := MkArtifactMeta {
  am_artifact_id : ArtifactId;
  am_task_id : TaskId;
  am_digest : Digest;
  am_media_type : MediaType;
  am_byte_len : Z;
  am_inline : bool;
  am_created_at : string;
}.

Record ArtifactRecord : Type := MkArtifact {
  ar_artifact_id : ArtifactId;
  ar_task_id : TaskId;
  ar_digest : Digest;
  ar_media_type : MediaType;
  ar_byte_len : Z;
  ar_inline : bool;
  ar_created_at : string;
}.

#[export] Instance ArtifactRecord_eq_dec : EqDecision ArtifactRecord.
Proof. solve_decision. Defined.

Definition validate_artifact_size (byte_len : Z) : Result unit ValidationError :=
  if MAX_BLOB_BYTES <? byte_len then Err (VArtifactTooLarge byte_len MAX_BLOB_BYTES) else Ok tt.

Definition should_inline (byte_len : Z) : bool := byte_len <=? MAX_INLINE_ARTIFACT_BYTES.

Definition map_artifact_validation_error (error : ValidationError) : StoreError :=
  match error with
  | VArtifactTooLarge byte_len limit_bytes => StoreError.ArtifactTooLarge byte_len limit_bytes
  | other => StoreError.Validation other
  end.

Definition artifact_record_from_meta (meta : ArtifactMeta) (digest : Digest) (byte_len : Z)
    : ArtifactRecord :=
  MkArtifact (am_artifact_id meta) (am_task_id meta) digest (am_media_type meta) byte_len
    (should_inline byte_len) (am_created_at meta).

(** [bytes.len() as u64]. *)
Definition byte_len (content : bytes) : Z := Z.of_nat (length content).

(** [sort_by] on the artifact id. *)
Definition artifact_key (r : ArtifactRecord) : string := as_str (ar_artifact_id r).

(** ** The table of artifacts *)

Definition row_to_artifact (row : string * ArtifactRow) : StoreResult ArtifactRecord :=
  let (key, r) := row in
  let? artifact_id := id_new "ArtifactId" key in
  let? task_id := id_new "TaskId" (a_task_id r) in
  let? digest := map_err StoreError.Validation (digest_new (a_digest r)) in
  Ok (MkArtifact artifact_id task_id digest (media_type_new (a_media_type r))
        (as_u64 (Z.max (a_byte_len r) 0)) (negb (a_inline r =? 0)) (a_created_at r)).

Definition artifact_row (record : ArtifactRecord) (content : bytes) : ArtifactRow :=
  MkArtifactRow (as_str (ar_task_id record)) (digest_str (ar_digest record))
    (media_str (ar_media_type record)) (as_i64 (ar_byte_len record)) (Z.b2z (ar_inline record))
    (if ar_inline record then Some content else None) (ar_created_at record).

Definition select_artifact (key : string) (d : Db) : option (string * ArtifactRow) :=
  with_key key <$> t_artifacts d !! key.

(** [... FROM artifacts WHERE task_id = ?], and the same [ORDER BY artifact_id]. *)
Definition select_task_artifacts (task_id : string) (d : Db) : list (string * ArtifactRow) :=
  filter (fun kr => a_task_id kr.2 = task_id) (map_to_list (t_artifacts d)).
Definition select_task_artifacts_sorted (task_id : string) (d : Db) : list (string * ArtifactRow) :=
  sort_on String.le fst (select_task_artifacts task_id d).

(** [INSERT ... ON CONFLICT(artifact_id) DO UPDATE]: the task must exist. *)
Definition upsert_artifact_row (key : string) (r : ArtifactRow) (d : Db) : option Db :=
  match t_tasks d !! a_task_id r with
  | Some _ => Some (on_artifacts (insert key r) d)
  | None => None
  end.

Definition insert_artifact_row (key : string) (r : ArtifactRow) (d : Db) : option Db :=
  match t_artifacts d !! key with
  | None => upsert_artifact_row key r d
  | Some _ => None
  end.

Definition count_reference (byte_len : Z) (o : option BlobRow) : option BlobRow :=
  Some (MkBlobRow (match o with Some r => b_ref_count r + 1 | None => 1 end) byte_len).

Definition with_ref_count (n : Z) (r : BlobRow) : BlobRow := MkBlobRow n (b_byte_len r).

(** [DELETE FROM blobs WHERE digest = ? AND ref_count = 0]. *)
Definition drop_unreferenced (o : option BlobRow) : option BlobRow :=
  match o with Some r => if b_ref_count r =? 0 then None else Some r | None => None end.

(** ** Files *)

(** A path: the blob directory and a file name. *)
Abbreviation BlobPath := (string * string)%type.
Definition blob_path (blob_dir : string) (digest : Digest) : BlobPath := (blob_dir, digest_str digest).

(** [std::io::Error] as text. *)
Definition NOT_FOUND : string := "No such file or directory (os error 2)".
Definition ALREADY_EXISTS : string := "File exists (os error 17)".

Definition is_not_found_message (message : string) : bool :=
  contains (bytes_of "No such file or directory") (bytes_of message)
  || contains (bytes_of "os error 2") (bytes_of message).

(** [on_error m h]: the cleanup [h] runs when [m] fails; its own error wins. *)
Definition on_error {S E A} (m : ST S E A) (h : ST S E unit) : ST S E A :=
  fun s => match m s with
           | (Ok a, s') => (Ok a, s')
           | (Err e, s') => (h ;;; throw e) s'
           end.

Record Disk : Type := MkDisk {
  conn : Conn;
  files : gmap BlobPath bytes;
}.

Abbreviation D := (ST Disk StoreError).

(** A statement of the database; a change of the files. *)
Definition on_conn {A} (m : C A) : D A :=
  fun d => let (r, c) := m (conn d) in (r, MkDisk c (files d)).
Definition on_files (f : gmap BlobPath bytes -> gmap BlobPath bytes) : D unit :=
  modify (fun d => MkDisk (conn d) (f (files d))).

Definition read_blob_file (path : BlobPath) : D bytes :=
  let! d := get in lift (ok_or (files d !! path) (StoreError.Database NOT_FOUND)).

Definition write_new_blob_file (path : BlobPath) (content : bytes) : D unit :=
  let! d := get in
  match files d !! path with
  | Some _ => throw (StoreError.Database ALREADY_EXISTS)
  | None => on_files (insert path content)
  end.

Definition remove_blob_file_if_present (path : BlobPath) : D unit := on_files (delete path).

(** ** The SQLite store *)

Section artifact_store.
Context (sha256 : bytes -> string).
(** SQLite's message for a violated constraint, sqlx's for a missing row. *)
Context (violation row_not_found : string).

Definition digest_compute (content : bytes) : Digest := MkDigest (sha256 content).

Definition wrong_length (digest : Digest) (actual expected : Z) : StoreError :=
  StoreError.Database ("blob " ++ digest_str digest ++ " has byte length " ++ pretty actual
                         ++ ", expected " ++ pretty expected).

Definition read_verified_blob (blob_dir : string) (digest : Digest) (len : Z) : D bytes :=
  let! content := read_blob_file (blob_path blob_dir digest) in
  if negb (byte_len content =? len) then throw (wrong_length digest (byte_len content) len)
  else if negb (bool_decide (digest_compute content = digest))
  then throw (StoreError.DigestMismatch (digest_str digest) (digest_str (digest_compute content)))
  else ret content.

Definition fetch_artifact_optional_with_executor (artifact_id : ArtifactId)
    : C (option ArtifactRecord) :=
  let! row := query (select_artifact (as_str artifact_id)) in
  lift (transpose (row_to_artifact <$> row)).

Definition fetch_artifact_optional_from_pool (artifact_id : ArtifactId) : C (option ArtifactRecord) :=
  let! row := pool_query (select_artifact (as_str artifact_id)) in
  lift (transpose (row_to_artifact <$> row)).

Definition should_drop_blob_association (existing replacement : ArtifactRecord) : bool :=
  negb (ar_inline existing)
  && (ar_inline replacement || negb (bool_decide (ar_digest existing = ar_digest replacement))).

Definition should_write_blob_association (existing : option ArtifactRecord)
    (replacement : ArtifactRecord) : bool :=
  negb (ar_inline replacement)
  && match existing with
     | Some existing =>
         ar_inline existing || negb (bool_decide (ar_digest existing = ar_digest replacement))
     | None => true
     end.

Definition should_prepare_blob_write (existing : option ArtifactRecord)
    (replacement : ArtifactRecord) : bool := should_write_blob_association existing replacement.

Record PreparedBlobWrite : Type := MkPrepared {
  prepared_path : BlobPath;
  remove_on_rollback : bool;
}.

(** The tracked blob's file is checked, and written again when it is gone. *)
Definition check_tracked_blob (blob_dir : string) (digest : Digest) (content : bytes) : D unit :=
  fun d => match read_verified_blob blob_dir digest (byte_len content) d with
           | (Ok existing, d') =>
               if bool_decide (existing = content) then (Ok tt, d')
               else (let! other := read_blob_file (blob_path blob_dir digest) in
                     throw (StoreError.DigestMismatch (digest_str digest)
                              (digest_str (digest_compute other)))) d'
           | (Err (StoreError.Database message), d') =>
               if is_not_found_message message
               then write_new_blob_file (blob_path blob_dir digest) content d'
               else (Err (StoreError.Database message), d')
           | (Err error, d') => (Err error, d')
           end.

Definition prepare_blob_write_with_executor (digest : Digest) (content : bytes) (blob_dir : string)
    : D PreparedBlobWrite :=
  let! tracked := on_conn (query (fun d => bool_decide (is_Some (t_blobs d !! digest_str digest)))) in
  (if tracked : bool then check_tracked_blob blob_dir digest content
   else write_new_blob_file (blob_path blob_dir digest) content) ;;;
  ret (MkPrepared (blob_path blob_dir digest) (negb tracked)).

Definition rollback_prepared_blob_write (prepared : option PreparedBlobWrite) : D unit :=
  match prepared with
  | Some p => if remove_on_rollback p then remove_blob_file_if_present (prepared_path p) else ret tt
  | None => ret tt
  end.

Definition increment_blob_ref_with_executor (digest : Digest) (len : Z) : C unit :=
  update violation (on_blobs (partial_alter (count_reference (as_i64 len)) (digest_str digest))).

(** Whether the last reference went: the row stays, with count 0. *)
Definition decrement_blob_ref_with_executor (digest : Digest) : C bool :=
  let! row := query (fun d => t_blobs d !! digest_str digest) in
  match row with
  | None => ret false
  | Some r =>
      if 1 <? b_ref_count r
      then update violation (on_blobs (alter (fun r => with_ref_count (b_ref_count r - 1) r)
                                         (digest_str digest))) ;;;
           ret false
      else update violation (on_blobs (alter (with_ref_count 0) (digest_str digest))) ;;;
           ret true
  end.

(** Outside of the transaction: first the file, then the row. *)
Definition finalize_one (blob_dir : string) (digest : Digest) : D unit :=
  remove_blob_file_if_present (blob_path blob_dir digest) ;;;
  on_conn (begin ;;;
           update violation (on_blobs (partial_alter drop_unreferenced (digest_str digest))) ;;;
           commit_tx).

Definition finalize_blob_cleanup (cleanup : list Digest) (blob_dir : string) : D unit :=
  for_each (finalize_one blob_dir) cleanup.

(** The part of [put_artifact] up to the commit: the record and the digests
    that lost their last reference. *)
Definition put_artifact_tx (meta : ArtifactMeta) (content : bytes) (blob_dir : string)
    : D (ArtifactRecord * list Digest) :=
  let! _ := lift (map_err map_artifact_validation_error
                    (validate_artifact_size (byte_len content))) in
  let computed := digest_compute content in
  if negb (bool_decide (computed = am_digest meta))
  then throw (StoreError.DigestMismatch (digest_str (am_digest meta)) (digest_str computed))
  else
    let record := artifact_record_from_meta meta computed (byte_len content) in
    on_conn begin ;;;
    let! _ := on_conn (fetch_task_with_executor (ar_task_id record)) in
    let! existing := on_conn (fetch_artifact_optional_with_executor (ar_artifact_id record)) in
    let! prepared :=
      if should_prepare_blob_write existing record
      then let! p := prepare_blob_write_with_executor (ar_digest record) content blob_dir in
           ret (Some p)
      else ret None in
    let! cleanup :=
      on_error
        (on_conn
           (let! dropped :=
              match existing with
              | Some existing =>
                  if should_drop_blob_association existing record
                  then let! last := decrement_blob_ref_with_executor (ar_digest existing) in
                       ret (if last : bool then [ar_digest existing] else [])
                  else ret []
              | None => ret []
              end in
            (if should_write_blob_association existing record
             then increment_blob_ref_with_executor (ar_digest record) (byte_len content)
             else ret tt) ;;;
            execute violation (upsert_artifact_row (as_str (ar_artifact_id record))
                                 (artifact_row record content)) ;;;
            ret dropped))
        (on_conn rollback ;;; rollback_prepared_blob_write prepared) in
    on_conn commit_tx ;;;
    ret (record, cleanup).

Definition put_artifact (meta : ArtifactMeta) (content : bytes) (blob_dir : string) : D ArtifactRecord :=
  let! (record, cleanup) := put_artifact_tx meta content blob_dir in
  finalize_blob_cleanup cleanup blob_dir ;;;
  ret record.

Definition get_artifact (artifact_id : ArtifactId) (blob_dir : string) : D (ArtifactRecord * bytes) :=
  let! record := on_conn (fetch_artifact_optional_from_pool artifact_id) in
  let! record := lift (ok_or record (StoreError.ArtifactNotFound artifact_id)) in
  let! content :=
    if ar_inline record
    then let! row := on_conn (pool_query (fun d => t_artifacts d !! as_str artifact_id)) in
         let! row := lift (ok_or row (StoreError.Database row_not_found)) in
         lift (ok_or (a_inline_blob row) (StoreError.ArtifactNotFound artifact_id))
    else read_verified_blob blob_dir (ar_digest record) (ar_byte_len record) in
  ret (record, content).

Definition list_artifacts_for_task (task_id : TaskId) : D (list ArtifactRecord) :=
  on_conn (let! rows := pool_query (select_task_artifacts_sorted (as_str task_id)) in
           lift (try_map row_to_artifact rows)).

Definition delete_artifact_tx (artifact_id : ArtifactId) : D (list Digest) :=
  on_conn (begin ;;;
           let! record := fetch_artifact_optional_with_executor artifact_id in
           let! record := lift (ok_or record (StoreError.ArtifactNotFound artifact_id)) in
           update violation (on_artifacts (delete (as_str artifact_id))) ;;;
           let! last := if ar_inline record then ret false
                        else decrement_blob_ref_with_executor (ar_digest record) in
           commit_tx ;;;
           ret (if last : bool then [ar_digest record] else [])).

Definition delete_artifact (artifact_id : ArtifactId) (blob_dir : string) : D unit :=
  let! cleanup := delete_artifact_tx artifact_id in
  finalize_blob_cleanup cleanup blob_dir.
End artifact_store.

(** ** The in-memory store

    Its artifact maps next to the task state, and the files it writes. *)

Record MemArtifacts : Type := MkMemArtifacts {
  mem : InMemoryState;
  artifacts : gmap ArtifactId ArtifactRecord;
  inline_artifacts : gmap ArtifactId bytes;
  blobs : gmap Digest (bytes * Z);
  mem_files : gmap BlobPath bytes;
}.

Abbreviation MA := (ST MemArtifacts StoreError).

Definition set_artifacts (f : gmap ArtifactId ArtifactRecord -> gmap ArtifactId ArtifactRecord)
    (s : MemArtifacts) : MemArtifacts :=
  MkMemArtifacts (mem s) (f (artifacts s)) (inline_artifacts s) (blobs s) (mem_files s).
Definition set_inline (f : gmap ArtifactId bytes -> gmap ArtifactId bytes) (s : MemArtifacts)
    : MemArtifacts :=
  MkMemArtifacts (mem s) (artifacts s) (f (inline_artifacts s)) (blobs s) (mem_files s).
Definition set_blobs (f : gmap Digest (bytes * Z) -> gmap Digest (bytes * Z)) (s : MemArtifacts)
    : MemArtifacts :=
  MkMemArtifacts (mem s) (artifacts s) (inline_artifacts s) (f (blobs s)) (mem_files s).
Definition set_mem_files (f : gmap BlobPath bytes -> gmap BlobPath bytes) (s : MemArtifacts)
    : MemArtifacts :=
  MkMemArtifacts (mem s) (artifacts s) (inline_artifacts s) (blobs s) (f (mem_files s)).

Section mem_artifacts.
Context (sha256 : bytes -> string).

Definition decrement_in_memory_blob_ref (digest : Digest) (blob_dir : string) : MA unit :=
  let! s := get in
  match blobs s !! digest with
  | Some (content, ref_count) =>
      if 1 <? ref_count
      then modify (set_blobs (insert digest (content, ref_count - 1)))
      else modify (set_blobs (delete digest)) ;;;
           modify (set_mem_files (delete (blob_path blob_dir digest)))
  | None => ret tt
  end.

Definition drop_in_memory_artifact_association (existing : ArtifactRecord) (blob_dir : string) : MA unit :=
  if ar_inline existing then modify (set_inline (delete (ar_artifact_id existing)))
  else decrement_in_memory_blob_ref (ar_digest existing) blob_dir.

Definition add_reference (content : bytes) (o : option (bytes * Z)) : option (bytes * Z) :=
  Some (content, u32_saturating_add (match o with Some (_, n) => n | None => 0 end) 1).

Definition mem_put_artifact (meta : ArtifactMeta) (content : bytes) (blob_dir : string)
    : MA ArtifactRecord :=
  let! _ := lift (map_err map_artifact_validation_error
                    (validate_artifact_size (byte_len content))) in
  let computed := digest_compute sha256 content in
  if negb (bool_decide (computed = am_digest meta))
  then throw (StoreError.DigestMismatch (digest_str (am_digest meta)) (digest_str computed))
  else
    let! s := get in
    match tasks (mem s) !! am_task_id meta with
    | None => throw (StoreError.TaskNotFound (am_task_id meta))
    | Some _ =>
        let record := artifact_record_from_meta meta computed (byte_len content) in
        match artifacts s !! ar_artifact_id record with
        | Some existing => drop_in_memory_artifact_association existing blob_dir
        | None => ret tt
        end ;;;
        (if ar_inline record
         then modify (set_inline (insert (ar_artifact_id record) content))
         else modify (set_mem_files (insert (blob_path blob_dir (ar_digest record)) content)) ;;;
              modify (set_blobs (partial_alter (add_reference content) (ar_digest record)))) ;;;
        modify (set_artifacts (insert (ar_artifact_id record) record)) ;;;
        ret record
    end.

Definition mem_get_artifact (artifact_id : ArtifactId) : MA (ArtifactRecord * bytes) :=
  let! s := get in
  let! record := lift (ok_or (artifacts s !! artifact_id) (StoreError.ArtifactNotFound artifact_id)) in
  let! content :=
    lift (ok_or (if ar_inline record then inline_artifacts s !! artifact_id
                 else fst <$> blobs s !! ar_digest record)
            (StoreError.ArtifactNotFound artifact_id)) in
  ret (record, content).

Definition mem_list_artifacts_for_task (task_id : TaskId) : MA (list ArtifactRecord) :=
  let! s := get in
  ret (sort_on String.le artifact_key
         (filter (fun r => ar_task_id r = task_id) (map_to_list (artifacts s)).*2)).

Definition mem_delete_artifact (artifact_id : ArtifactId) (blob_dir : string) : MA unit :=
  let! s := get in
  match artifacts s !! artifact_id with
  | None => throw (StoreError.ArtifactNotFound artifact_id)
  | Some record =>
      modify (set_artifacts (delete artifact_id)) ;;;
      if ar_inline record then modify (set_inline (delete artifact_id))
      else decrement_in_memory_blob_ref (ar_digest record) blob_dir
  end.
End mem_artifacts.
