(* ===== verification/ArtifactSpec.v ===== *)
(** * What artifact storage promises: a catalog

    Both stores implement a finite map from artifact ids to a record and its
    bytes. [catalog_api] is that map with the checks of the stores;
    [sql_artifacts] and [mem_artifacts] are the implementations with one blob
    directory. *)
From S2P Require Import Prelude Ident Text Lifecycle StoreModel Api MemStore MemSpec MemInv SqlStore SqlRel Artifacts.
From stdpp Require Import options.

(** ** The interface *)

Class ArtifactApi (S : Type) : Type := {
  api_put : ArtifactMeta -> bytes -> ST S StoreError ArtifactRecord;
  api_get_artifact : ArtifactId -> ST S StoreError (ArtifactRecord * bytes);
  api_list : TaskId -> ST S StoreError (list ArtifactRecord);
  api_delete : ArtifactId -> ST S StoreError unit;
}.

Inductive ArtifactOp : Type :=
| PutOp (meta : ArtifactMeta) (content : bytes)
| GetOp (i : ArtifactId)
| ListOp (i : TaskId)
| DeleteOp (i : ArtifactId).

Inductive ArtifactReply : Type :=
| RPut (r : StoreResult ArtifactRecord)
| RGet (r : StoreResult (ArtifactRecord * bytes))
| RList (r : StoreResult (list ArtifactRecord))
| RDelete (r : StoreResult unit).

Section run.
Context {S : Type} {H : ArtifactApi S}.

Definition tagged {A} (f : StoreResult A -> ArtifactReply) (m : ST S StoreError A) (s : S)
    : ArtifactReply * S := let (r, s) := m s in (f r, s).

Definition run_artifact_op (op : ArtifactOp) : S -> ArtifactReply * S :=
  match op with
  | PutOp meta content => tagged RPut (api_put meta content)
  | GetOp i => tagged RGet (api_get_artifact i)
  | ListOp i => tagged RList (api_list i)
  | DeleteOp i => tagged RDelete (api_delete i)
  end.

Fixpoint run_artifact_ops (ops : list ArtifactOp) (s : S) : list ArtifactReply * S :=
  match ops with
  | [] => ([], s)
  | op :: ops =>
      let (r, s) := run_artifact_op op s in
      let (rs, s) := run_artifact_ops ops s in (r :: rs, s)
  end.
End run.

(** ** The catalog *)

Abbreviation Entry := (ArtifactRecord * bytes)%type.

Record Catalog : Type := MkCatalog {
  known : gset TaskId;
  stored : gmap ArtifactId Entry;
}.

Definition task_records (i : TaskId) (m : gmap ArtifactId Entry) : list ArtifactRecord :=
  filter (fun r => ar_task_id r = i) (map_to_list m).*2.*1.

Section spec.
Context (sha256 : bytes -> string).

Definition catalog_record (meta : ArtifactMeta) (content : bytes) : ArtifactRecord :=
  artifact_record_from_meta meta (digest_compute sha256 content) (byte_len content).

Definition catalog_put (meta : ArtifactMeta) (content : bytes) : ST Catalog StoreError ArtifactRecord :=
  fun c =>
  if MAX_BLOB_BYTES <? byte_len content
  then (Err (StoreError.ArtifactTooLarge (byte_len content) MAX_BLOB_BYTES), c)
  else if negb (bool_decide (digest_compute sha256 content = am_digest meta))
  then (Err (StoreError.DigestMismatch (digest_str (am_digest meta)) (sha256 content)), c)
  else if negb (bool_decide (am_task_id meta ∈ known c))
  then (Err (StoreError.TaskNotFound (am_task_id meta)), c)
  else (Ok (catalog_record meta content),
        MkCatalog (known c) (<[am_artifact_id meta := (catalog_record meta content, content)]> (stored c))).

#[export] Instance catalog_api : ArtifactApi Catalog := {|
  api_put := catalog_put;
  api_get_artifact i := fun c => (ok_or (stored c !! i) (StoreError.ArtifactNotFound i), c);
  api_list i := fun c =>
    (Ok (sort_on String.le artifact_key (task_records i (stored c))), c);
  api_delete i := fun c =>
    match stored c !! i with
    | Some _ => (Ok tt, MkCatalog (known c) (delete i (stored c)))
    | None => (Err (StoreError.ArtifactNotFound i), c)
    end;
|}.

(** The two stores, with one blob directory each. *)
Definition sql_artifacts (violation row_not_found blob_dir : string) : ArtifactApi Disk := {|
  api_put meta content := put_artifact sha256 violation meta content blob_dir;
  api_get_artifact i := get_artifact sha256 row_not_found i blob_dir;
  api_list := list_artifacts_for_task;
  api_delete i := delete_artifact violation i blob_dir;
|}.

Definition mem_artifacts (blob_dir : string) : ArtifactApi MemArtifacts := {|
  api_put meta content := mem_put_artifact sha256 meta content blob_dir;
  api_get_artifact := mem_get_artifact;
  api_list := mem_list_artifacts_for_task;
  api_delete i := mem_delete_artifact i blob_dir;
|}.
End spec.

(** ** Reference counts *)

Definition refers (g : Digest) (e : Entry) : bool :=
  negb (ar_inline e.1) && bool_decide (ar_digest e.1 = g).

Definition refs (g : Digest) (m : gmap ArtifactId Entry) : Z :=
  Z.of_nat (size (filter (fun kv => refers g kv.2 = true) m)).

Definition refers_opt (g : Digest) (o : option Entry) : Z :=
  match o with Some e => Z.b2z (refers g e) | None => 0 end.

Lemma refs_nonneg g m : 0 <= refs g m.
Proof. unfold refs. lia. Qed.

Lemma refs_empty g : refs g ∅ = 0.
Proof. unfold refs. by rewrite map_filter_empty, map_size_empty. Qed.

Lemma refs_delete g m i : refs g (delete i m) = refs g m - refers_opt g (m !! i).
Proof.
  unfold refs. rewrite map_filter_delete. destruct (m !! i) as [e|] eqn:Hi; simpl.
  - destruct (refers g e) eqn:Hr; simpl.
    + assert (Hf : filter (fun kv : ArtifactId * Entry => refers g kv.2 = true) m !! i = Some e)
        by (by apply map_lookup_filter_Some).
      assert (Hp : (0 < size (filter (fun kv : ArtifactId * Entry => refers g kv.2 = true) m))%nat).
      { apply Nat.neq_0_lt_0. intros H0%map_size_empty_iff. by rewrite H0, lookup_empty in Hf. }
      rewrite map_size_delete, Hf. simpl. lia.
    + rewrite delete_id; [lia|]. apply map_lookup_filter_None. right. intros x Hx. simpl. congruence.
  - rewrite delete_id; [lia|]. apply map_lookup_filter_None. by left.
Qed.

Lemma refs_insert_new g m i e : m !! i = None -> refs g (<[i := e]> m) = refs g m + Z.b2z (refers g e).
Proof.
  intros Hi. unfold refs. destruct (refers g e) eqn:Hr; simpl.
  - rewrite map_filter_insert_True by done. rewrite map_size_insert_None; [lia|].
    apply map_lookup_filter_None. by left.
  - rewrite map_filter_insert_not' by (simpl; intros; congruence). lia.
Qed.

Lemma refs_insert g m i e :
  refs g (<[i := e]> m) = refs g m - refers_opt g (m !! i) + Z.b2z (refers g e).
Proof.
  rewrite <- insert_delete_eq, refs_insert_new by apply lookup_delete_eq. by rewrite refs_delete.
Qed.

Lemma refs_bounds g m : refs g m <= Z.of_nat (size m).
Proof.
  unfold refs. apply inj_le, map_subseteq_size, map_filter_subseteq.
Qed.

Lemma refs_pos g m i e : m !! i = Some e -> refers g e = true -> 0 < refs g m.
Proof.
  intros Hi Hr. pose proof (refs_delete g m i) as H. rewrite Hi in H. simpl in H. rewrite Hr in H.
  simpl in H. pose proof (refs_nonneg g (delete i m)). lia.
Qed.

Lemma refs_witness g m : 0 < refs g m -> exists i e, m !! i = Some e /\ refers g e = true.
Proof.
  unfold refs. intros H. destruct (map_choose (filter (fun kv : ArtifactId * Entry => refers g kv.2 = true) m))
    as (i & e & Hie).
  - intros H0. rewrite H0, map_size_empty in H. lia.
  - apply map_lookup_filter_Some in Hie as [Hi He]. by exists i, e.
Qed.
