(* ===== verification/ArtifactRefine.v ===== *)
(** * The stores implement the catalog

    Simulations of the catalog by the in-memory and the SQLite artifact
    operations. Contents whose digests collide are told apart by neither
    store, so the contents put are assumed not to collide among themselves. *)
From S2P Require Import Prelude Ident Text Lifecycle StoreModel Api MemStore MemSpec MemInv SqlStore SqlRel SqlRefine SqlSweep Artifacts ArtifactSpec.
From stdpp Require Import options.

Section artifact_refinement.
Context (sha256 : bytes -> string).
(** sha2 prints 64 lower-case hexadecimal digits. *)
Context (sha256_hex : forall b, digest_new (sha256 b) = Ok (MkDigest (sha256 b))).
(** The contents that are put, without collisions. *)
Context (U : list bytes)
  (no_collision : forall b b', b ∈ U -> b' ∈ U -> sha256 b = sha256 b' -> b = b').
Context (blob_dir : string).

Abbreviation digest_of := (digest_compute sha256).
Abbreviation put_record := (catalog_record sha256).

Record EntryOk (i : ArtifactId) (e : Entry) : Prop := {
  en_id : ar_artifact_id e.1 = i;
  en_digest : ar_digest e.1 = digest_of e.2;
  en_len : ar_byte_len e.1 = byte_len e.2;
  en_size : byte_len e.2 <= MAX_BLOB_BYTES;
  en_media : media_type_new (media_str (ar_media_type e.1)) = ar_media_type e.1;
  en_used : e.2 ∈ U;
}.

Definition CatalogOk (m : gmap ArtifactId Entry) : Prop := map_Forall EntryOk m.

(** Entries of one digest have one content. *)
Lemma same_content m i j e e' g :
  CatalogOk m -> m !! i = Some e -> EntryOk j e' ->
  refers g e = true -> refers g e' = true -> e.2 = e'.2.
Proof using no_collision.
  intros Hm Hi He' Hr Hr'. pose proof (Hm i e Hi) as He.
  apply andb_true_iff in Hr as [_ Hr%bool_decide_eq_true], Hr' as [_ Hr'%bool_decide_eq_true].
  apply no_collision; [apply He|apply He'|].
  rewrite (en_digest _ _ He) in Hr. rewrite (en_digest _ _ He') in Hr'. unfold digest_compute in *. congruence.
Qed.

Lemma put_record_ok meta content :
  content ∈ U -> byte_len content <= MAX_BLOB_BYTES ->
  media_type_new (media_str (am_media_type meta)) = am_media_type meta ->
  EntryOk (am_artifact_id meta) (put_record meta content, content).
Proof using Type. by split. Qed.

Lemma refers_own e : ar_inline e.1 = false -> refers (ar_digest e.1) e = true.
Proof using Type. intros H. unfold refers. by rewrite H, bool_decide_true. Qed.

Lemma refers_inline g e : ar_inline e.1 = true -> refers g e = false.
Proof using Type. intros H. unfold refers. by rewrite H. Qed.

Lemma refers_true g e : refers g e = true <-> ar_inline e.1 = false /\ ar_digest e.1 = g.
Proof using Type. unfold refers. rewrite andb_true_iff, negb_true_iff, bool_decide_eq_true. done. Qed.

(** ** What is kept for one digest

    [n] references and the content [b]: nothing when no entry refers to the
    digest. *)
Definition Holds (m : gmap ArtifactId Entry) (g : Digest) (o : option (bytes * Z)) : Prop :=
  match o with
  | Some (b, n) => n = refs g m /\ 0 < n /\ forall i e, m !! i = Some e -> refers g e = true -> e.2 = b
  | None => refs g m = 0
  end.

Lemma holds_delete m g o i e :
  m !! i = Some e -> Holds m g o ->
  Holds (delete i m) g
    (if refers g e
     then match o with Some (b, n) => if 1 <? n then Some (b, n - 1) else None | None => None end
     else o).
Proof using Type.
  intros Hi Ho. pose proof (refs_delete g m i) as Hd. rewrite Hi in Hd. simpl in Hd.
  assert (Hsub : forall j e', delete i m !! j = Some e' -> m !! j = Some e')
    by (intros j e' Hj; by apply lookup_delete_Some in Hj as [_ Hj]).
  destruct (refers g e) eqn:Hr; simpl in Hd.
  - destruct o as [[b n]|]; simpl in Ho.
    + destruct Ho as (-> & Hpos & Hb). destruct (Z.ltb_spec 1 (refs g m)); simpl; [|lia].
      split; [lia|]. split; [lia|]. intros j e' Hj. apply (Hb j e'), (Hsub j e' Hj).
    + pose proof (refs_pos g m i e Hi Hr). lia.
  - destruct o as [[b n]|]; simpl in *; [|lia].
    destruct Ho as (-> & Hpos & Hb). split; [lia|]. split; [lia|].
    intros j e' Hj. apply (Hb j e'), (Hsub j e' Hj).
Qed.

Lemma holds_insert m g o i e :
  CatalogOk m -> EntryOk i e -> m !! i = None -> Holds m g o ->
  Holds (<[i := e]> m) g
    (if refers g e
     then Some (e.2, match o with Some (_, n) => n | None => 0 end + 1)
     else o).
Proof using no_collision.
  intros Hm He Hi Ho. pose proof (refs_insert_new g m i e Hi) as Hd.
  destruct (refers g e) eqn:Hr; simpl in Hd.
  - simpl. rewrite Hd. pose proof (refs_nonneg g m).
    assert (match o with Some (_, n) => n | None => 0 end = refs g m) as ->
      by (destruct o as [[b n]|]; simpl in Ho; [apply Ho|done]).
    split; [done|]. split; [lia|]. intros j e' [[<- <-]|[Hne Hj]]%lookup_insert_Some Hr'; [done|].
    exact (same_content m j i e' e g Hm Hj He Hr' Hr).
  - destruct o as [[b n]|]; simpl in *; [|lia].
    destruct Ho as (-> & Hpos & Hb). split; [lia|]. split; [lia|].
    intros j e' [[<- <-]|[Hne Hj]]%lookup_insert_Some Hr'; [congruence|]. by apply (Hb j).
Qed.

Lemma holds_lookup m g o i e :
  Holds m g o -> m !! i = Some e -> refers g e = true -> exists n, o = Some (e.2, n).
Proof using Type.
  intros Ho Hi Hr. destruct o as [[b n]|]; simpl in Ho.
  - destruct Ho as (_ & _ & Hb). exists n. by rewrite (Hb i e Hi Hr).
  - pose proof (refs_pos g m i e Hi Hr). lia.
Qed.

(** ** The in-memory store *)

Record MemBlobs (s : MemArtifacts) (m : gmap ArtifactId Entry) : Prop := {
  mb_inline i : inline_artifacts s !! i = m !! i ≫= fun e => if ar_inline e.1 then Some e.2 else None;
  mb_blobs g : Holds m g (blobs s !! g);
}.

Lemma mem_drop s m i e :
  CatalogOk m -> MemBlobs s m -> m !! i = Some e ->
  exists s', drop_in_memory_artifact_association e.1 blob_dir s = (Ok tt, s')
    /\ MemBlobs s' (delete i m) /\ artifacts s' = artifacts s /\ mem s' = mem s.
Proof using Type.
  intros Hm Hs Hi. pose proof (en_id _ _ (Hm i e Hi)) as Hid.
  unfold drop_in_memory_artifact_association. destruct (ar_inline e.1) eqn:Hin.
  - eexists. split; [done|]. split; [|done]. split; simpl.
    + intros j. rewrite Hid. destruct (decide (i = j)) as [<-|Hne].
      * by rewrite !lookup_delete_eq.
      * by rewrite !lookup_delete_ne, (mb_inline _ _ Hs).
    + intros g. pose proof (holds_delete m g _ i e Hi (mb_blobs _ _ Hs g)) as H.
      by rewrite (refers_inline g e Hin) in H.
  - unfold decrement_in_memory_blob_ref, bind, get. cbn [fst snd].
    destruct (holds_lookup m (ar_digest e.1) _ i e (mb_blobs _ _ Hs _) Hi (refers_own e Hin)) as [n Hn].
    rewrite Hn.
    assert (Hinl : forall j, inline_artifacts s !! j
      = delete i m !! j ≫= fun e => if ar_inline e.1 then Some e.2 else None).
    { intros j. rewrite (mb_inline _ _ Hs). destruct (decide (i = j)) as [<-|Hne].
      - by rewrite lookup_delete_eq, Hi; simpl; rewrite Hin.
      - by rewrite lookup_delete_ne. }
    assert (Hg : forall g, Holds (delete i m) g
      (if decide (ar_digest e.1 = g) then if 1 <? n then Some (e.2, n - 1) else None else blobs s !! g)).
    { intros g. pose proof (holds_delete m g _ i e Hi (mb_blobs _ _ Hs g)) as H.
      case_decide as Hd.
      - subst g. by rewrite (refers_own e Hin), Hn in H.
      - destruct (refers g e) eqn:Hr; [|done]. by apply refers_true in Hr as [_ Hr]. }
    destruct (1 <? n) eqn:Hlt; (eexists; split; [done|]; split; [|done]; split; [done|]);
      intros g; specialize (Hg g); simpl.
    + destruct (decide (ar_digest e.1 = g)) as [<-|Hne];
        [by rewrite lookup_insert_eq|by rewrite lookup_insert_ne].
    + destruct (decide (ar_digest e.1 = g)) as [<-|Hne];
        [by rewrite lookup_delete_eq|by rewrite lookup_delete_ne].
Qed.

Lemma mem_add s m i e :
  CatalogOk m -> EntryOk i e -> MemBlobs s m -> m !! i = None ->
  (forall g, refs g m < u32_max) ->
  exists s', (if ar_inline e.1 then modify (set_inline (insert i e.2))
              else modify (set_mem_files (insert (blob_path blob_dir (ar_digest e.1)) e.2)) ;;;
                   modify (set_blobs (partial_alter (add_reference e.2) (ar_digest e.1)))) s
             = ((Ok tt : StoreResult unit), s')
    /\ MemBlobs s' (<[i := e]> m) /\ artifacts s' = artifacts s /\ mem s' = mem s.
Proof using no_collision.
  intros Hm He Hs Hi Hmax.
  destruct (ar_inline e.1) eqn:Hin; (eexists; split; [done|]; split; [|done]; split); simpl.
  - intros j. destruct (decide (i = j)) as [<-|Hne].
    + by rewrite !lookup_insert_eq; simpl; rewrite Hin.
    + by rewrite !lookup_insert_ne, (mb_inline _ _ Hs).
  - intros g. pose proof (holds_insert m g _ i e Hm He Hi (mb_blobs _ _ Hs g)) as H.
    by rewrite (refers_inline g e Hin) in H.
  - intros j. rewrite (mb_inline _ _ Hs). destruct (decide (i = j)) as [<-|Hne].
    + by rewrite lookup_insert_eq, Hi; simpl; rewrite Hin.
    + by rewrite lookup_insert_ne.
  - intros g. pose proof (holds_insert m g _ i e Hm He Hi (mb_blobs _ _ Hs g)) as H.
    destruct (decide (ar_digest e.1 = g)) as [Hd|Hne].
    + subst g. rewrite (refers_own e Hin) in H. rewrite lookup_partial_alter_eq.
      unfold add_reference, u32_saturating_add.
      pose proof (mb_blobs _ _ Hs (ar_digest e.1)) as Hb. specialize (Hmax (ar_digest e.1)).
      rewrite Z.min_l; [done|]. destruct (blobs s !! ar_digest e.1) as [[b n]|]; simpl in Hb.
      * destruct Hb as [-> _]. lia.
      * unfold u32_max in *. lia.
    + rewrite lookup_partial_alter_ne by done. destruct (refers g e) eqn:Hr; [|done].
      by apply refers_true in Hr as [_ Hr].
Qed.

Record MemRel (s : MemArtifacts) (c : Catalog) : Prop := {
  mr_known : known c = dom (tasks (mem s));
  mr_artifacts : artifacts s = fst <$> stored c;
  mr_blobs : MemBlobs s (stored c);
  mr_ok : CatalogOk (stored c);
}.

Lemma records_injective i m a b :
  CatalogOk m -> a ∈ task_records i m -> b ∈ task_records i m -> artifact_key a = artifact_key b -> a = b.
Proof using Type.
  intros Hm Ha Hb Hk%as_str_inj. unfold task_records in *.
  apply list_elem_of_filter in Ha as [_ Ha], Hb as [_ Hb].
  apply list_elem_of_fmap in Ha as ([ra xa] & -> & Ha), Hb as ([rb xb] & -> & Hb). simpl in *.
  apply list_elem_of_fmap in Ha as ([ia ea] & [= <-] & Ha), Hb as ([ib eb] & [= <-] & Hb). simpl in *.
  apply elem_of_map_to_list in Ha, Hb.
  pose proof (en_id _ _ (Hm _ _ Ha)) as Hia. pose proof (en_id _ _ (Hm _ _ Hb)) as Hib. simpl in *.
  congruence.
Qed.

(** The stores accept what the catalog accepts, and agree on the reply. *)
Definition op_ok (op : ArtifactOp) : Prop :=
  match op with
  | PutOp meta content => content ∈ U
      /\ media_type_new (media_str (am_media_type meta)) = am_media_type meta
  | _ => True
  end.

Abbreviation catalog_op := (run_artifact_op (H := catalog_api sha256)).

Lemma catalog_insert_ok m meta content :
  CatalogOk m -> content ∈ U -> byte_len content <= MAX_BLOB_BYTES ->
  media_type_new (media_str (am_media_type meta)) = am_media_type meta ->
  CatalogOk (<[am_artifact_id meta := (put_record meta content, content)]> m).
Proof using Type. intros Hm Hu Hs Ht. by apply map_Forall_insert_2; [apply put_record_ok|]. Qed.

Lemma catalog_delete_ok m i : CatalogOk m -> CatalogOk (delete i m).
Proof using Type. apply map_Forall_delete. Qed.

Lemma catalog_grows op c : (size (stored (catalog_op op c).2) <= S (size (stored c)))%nat.
Proof using Type.
  destruct op as [meta content|i|i|i]; simpl; unfold tagged; simpl; [|lia..|].
  - unfold catalog_put. destruct (_ <? _); simpl; [lia|]. destruct (negb _); simpl; [lia|].
    destruct (negb _); simpl; [lia|]. rewrite map_size_insert. destruct (_ !! _); simpl; lia.
  - destruct (stored c !! i) eqn:Hi; simpl; [|lia]. rewrite map_size_delete, Hi. simpl. lia.
Qed.

Lemma mem_drop_opt s c i :
  MemRel s c ->
  exists s', (match artifacts s !! i with
              | Some existing => drop_in_memory_artifact_association existing blob_dir
              | None => ret tt
              end) s = (Ok tt, s')
    /\ MemBlobs s' (delete i (stored c)) /\ artifacts s' = artifacts s /\ mem s' = mem s.
Proof using Type.
  intros [_ Ha Hb Hok]. rewrite Ha, lookup_fmap. destruct (stored c !! i) as [e|] eqn:Hi; simpl.
  - destruct (mem_drop s (stored c) i e Hok Hb Hi) as (s' & Hs' & Hb' & Ha' & Hm').
    exists s'. by rewrite Hs', Ha', Ha.
  - exists s. by rewrite delete_id.
Qed.

Definition mem_agrees {A} (p : A * MemArtifacts) (q : A * Catalog) : Prop :=
  p.1 = q.1 /\ MemRel p.2 q.2.

Lemma mem_put_sim meta content s c :
  op_ok (PutOp meta content) -> MemRel s c -> Z.of_nat (size (stored c)) < u32_max ->
  mem_agrees (mem_put_artifact sha256 meta content blob_dir s) (catalog_put sha256 meta content c).
Proof using no_collision.
  intros [Hu Ht] HR Hsize. pose proof HR as [Hk Ha Hb Hok].
  unfold mem_put_artifact, catalog_put, validate_artifact_size.
  destruct (Z.ltb_spec MAX_BLOB_BYTES (byte_len content)) as [Hbig|Hsmall]; [by split|].
  unfold bind at 1. cbn [map_err lift].
  destruct (negb (bool_decide (digest_of content = _))); [by split|].
  unfold bind at 1, get at 1. rewrite Hk.
  destruct (tasks (mem s) !! am_task_id meta) as [t|] eqn:Htask; simpl.
  2:{ rewrite bool_decide_false by (by apply not_elem_of_dom). by split. }
  rewrite bool_decide_true by (apply elem_of_dom; by eexists). simpl.
  set (e := (put_record meta content, content)).
  assert (He : EntryOk (am_artifact_id meta) e) by by apply put_record_ok.
  destruct (mem_drop_opt s c (am_artifact_id meta) HR) as (s1 & Hs1 & Hb1 & Ha1 & Hm1).
  destruct (mem_add s1 (delete (am_artifact_id meta) (stored c)) (am_artifact_id meta) e)
    as (s2 & Hs2 & Hb2 & Ha2 & Hm2); [by apply catalog_delete_ok|done|done|apply lookup_delete_eq| |].
  { intros g. eapply Z.le_lt_trans; [apply refs_bounds|]. rewrite map_size_delete.
    destruct (stored c !! _); simpl; lia. }
  erewrite bind_ok by exact Hs1. erewrite bind_ok by exact Hs2.
  split; [done|]. split; simpl.
  - by rewrite Hm2, Hm1.
  - by rewrite Ha2, Ha1, Ha, fmap_insert.
  - rewrite insert_delete_eq in Hb2. by destruct Hb2; split.
  - by apply catalog_insert_ok.
Qed.

Lemma mem_get_sim i s c :
  MemRel s c -> mem_agrees (mem_get_artifact i s) (api_get_artifact (ArtifactApi := catalog_api sha256) i c).
Proof using Type.
  intros HR. pose proof HR as [Hk Ha Hb Hok].
  unfold mem_get_artifact, bind, get, lift. rewrite Ha, lookup_fmap. simpl.
  destruct (stored c !! i) as [[r b]|] eqn:Hi; simpl; [|by split].
  assert (ok_or (if ar_inline r then inline_artifacts s !! i else fst <$> blobs s !! ar_digest r)
            (StoreError.ArtifactNotFound i) = Ok b) as ->; [|by split].
  destruct (ar_inline r) eqn:Hin.
  - rewrite (mb_inline _ _ Hb), Hi. simpl. by rewrite Hin.
  - by destruct (holds_lookup _ (ar_digest r) _ i (r, b) (mb_blobs _ _ Hb _) Hi (refers_own (r, b) Hin))
      as [n ->].
Qed.

Lemma mem_list_sim i s c :
  MemRel s c ->
  mem_agrees (mem_list_artifacts_for_task i s) (api_list (ArtifactApi := catalog_api sha256) i c).
Proof using Type.
  intros HR. pose proof HR as [Hk Ha Hb Hok]. split; [|done]. simpl. f_equal.
  assert (Hlist : filter (fun r => ar_task_id r = i) (map_to_list (artifacts s)).*2
                  ≡ₚ task_records i (stored c)).
  { unfold task_records. rewrite Ha, map_to_list_fmap, <- !list_fmap_compose. done. }
  apply sort_on_unique; [apply _..| |exact Hlist].
  intros a b. rewrite Hlist. by apply records_injective.
Qed.

Lemma mem_delete_sim i s c :
  MemRel s c ->
  mem_agrees (mem_delete_artifact i blob_dir s) (api_delete (ArtifactApi := catalog_api sha256) i c).
Proof using Type.
  intros HR. pose proof HR as [Hk Ha Hb Hok].
  unfold mem_delete_artifact, bind, get. rewrite Ha, lookup_fmap. simpl.
  destruct (stored c !! i) as [e|] eqn:Hi; simpl; [|by split].
  destruct (mem_drop (set_artifacts (delete i) s) (stored c) i e Hok) as (s' & Hs' & Hb' & Ha' & Hm');
    [by destruct Hb; split|done|].
  unfold drop_in_memory_artifact_association in Hs'. rewrite (en_id _ _ (Hok i e Hi)) in Hs'.
  rewrite Hs'. split; [done|]. split; simpl.
  - by rewrite Hm'.
  - rewrite Ha'. simpl. by rewrite Ha, fmap_delete.
  - done.
  - by apply catalog_delete_ok.
Qed.

(** ** The SQLite store *)

Definition kept (row : option BlobRow) (file : option bytes) : option (bytes * Z) :=
  match row, file with Some r, Some b => Some (b, b_ref_count r) | _, _ => None end.

(** A digest has a row exactly when it has a file. *)
Definition BlobOk (m : gmap ArtifactId Entry) (name : string) (row : option BlobRow)
    (file : option bytes) : Prop :=
  Holds m (MkDigest name) (kept row file) /\ (is_Some row <-> is_Some file).

Definition entry_row (e : Entry) : ArtifactRow := artifact_row e.1 e.2.

Record DiskRel (dk : Disk) (c : Catalog) (s : InMemoryState) : Prop := {
  dr_rel : Rel (committed (conn dk)) s;
  dr_known : known c = dom (tasks s);
  dr_artifacts : t_artifacts (committed (conn dk)) = as_table entry_row (stored c);
  dr_blobs name : BlobOk (stored c) name (t_blobs (committed (conn dk)) !! name)
                    (files dk !! (blob_dir, name));
  dr_ok : CatalogOk (stored c);
}.

Lemma rel_on_blobs f d s : Rel d s -> Rel (on_blobs f d) s.
Proof using Type. intros HR. destruct HR; split; done. Qed.
Lemma rel_on_artifacts f d s : Rel d s -> Rel (on_artifacts f d) s.
Proof using Type. intros HR. destruct HR; split; done. Qed.

Lemma byte_len_range b : byte_len b <= MAX_BLOB_BYTES -> in_i64 (byte_len b).
Proof using Type. unfold byte_len, MAX_BLOB_BYTES, in_i64, i64_min, i64_max. lia. Qed.

Lemma row_to_artifact_row i e : EntryOk i e -> row_to_artifact (as_str i, entry_row e) = Ok e.1.
Proof using sha256_hex.
  intros [Hi Hd Hl Hs Ht _]. unfold row_to_artifact, entry_row, artifact_row. simpl.
  rewrite !id_new_as_str, Hd. unfold digest_compute at 1. simpl. rewrite sha256_hex. simpl.
  rewrite Ht, Hl, as_i64_id by (by apply byte_len_range).
  rewrite Z.max_l by (unfold byte_len; lia).
  rewrite as_u64_small by (unfold byte_len, MAX_BLOB_BYTES, i64_max in *; lia).
  rewrite column_bool. subst i. destruct e as [[] b]. simpl in *. by rewrite Hd, Hl.
Qed.

Lemma fetch_artifact m d w i :
  CatalogOk m -> t_artifacts w = as_table entry_row m ->
  fetch_artifact_optional_with_executor i (MkConn d w) = (Ok (fst <$> m !! i), MkConn d w).
Proof using sha256_hex.
  intros Hm Hw. unfold fetch_artifact_optional_with_executor, query, bind, get, ret, lift, select_artifact.
  cbn [working]. rewrite Hw, lookup_as_table. destruct (m !! i) as [e|] eqn:Hi; [|done].
  cbn [fmap option_fmap option_map with_key]. unfold with_key.
  by rewrite (row_to_artifact_row i e) by by apply Hm.
Qed.

Lemma blob_drop m name row file i o :
  BlobOk m name row file -> m !! i = Some o -> refers (MkDigest name) o = true ->
  exists r, row = Some r
    /\ BlobOk (delete i m) name
         (if 1 <? b_ref_count r then Some (with_ref_count (b_ref_count r - 1) r) else None)
         (if 1 <? b_ref_count r then file else None).
Proof using Type.
  intros [Hh Hiff] Hi Hr. destruct (holds_lookup m _ _ i o Hh Hi Hr) as [n Hn].
  destruct row as [r|]; [|done]. destruct file as [b|]; [|done]. exists r. split; [done|].
  pose proof (holds_delete m _ _ i o Hi Hh) as Hd. rewrite Hr in Hd. simpl in Hd.
  destruct (1 <? b_ref_count r); (split; [done|]); split; intros [? ?]; done || by eexists.
Qed.

Lemma blob_keep_drop m name row file i o :
  BlobOk m name row file -> m !! i = Some o -> refers (MkDigest name) o = false ->
  BlobOk (delete i m) name row file.
Proof using Type.
  intros [Hh Hiff] Hi Hr. split; [|done]. pose proof (holds_delete m _ _ i o Hi Hh) as Hd.
  by rewrite Hr in Hd.
Qed.

Lemma blob_add m name row file i e len :
  CatalogOk m -> EntryOk i e -> m !! i = None -> BlobOk m name row file ->
  refers (MkDigest name) e = true ->
  BlobOk (<[i := e]> m) name (count_reference len row) (Some e.2).
Proof using no_collision.
  intros Hm He Hi [Hh Hiff] Hr. pose proof (holds_insert m _ _ i e Hm He Hi Hh) as Hd.
  rewrite Hr in Hd. split; [|split; by eexists]. unfold count_reference, kept. simpl.
  assert ((match kept row file with Some (_, n) => n | None => 0 end + 1)
          = match row with Some r => b_ref_count r + 1 | None => 1 end) as <-; [|exact Hd].
  destruct row as [r|]; [|done]. destruct file as [b|]; [done|].
  destruct Hiff as [[? ?] _]; [by eexists|done].
Qed.

Lemma blob_keep_add m name row file i e :
  CatalogOk m -> EntryOk i e -> m !! i = None -> BlobOk m name row file ->
  refers (MkDigest name) e = false -> BlobOk (<[i := e]> m) name row file.
Proof using no_collision.
  intros Hm He Hi [Hh Hiff] Hr. split; [|done]. pose proof (holds_insert m _ _ i e Hm He Hi Hh) as Hd.
  by rewrite Hr in Hd.
Qed.

(** Replacing an entry by one of the same content. *)
Lemma blob_swap m name row file i o e :
  CatalogOk m -> EntryOk i e -> m !! i = Some o -> BlobOk m name row file ->
  refers (MkDigest name) o = refers (MkDigest name) e ->
  BlobOk (<[i := e]> m) name row file.
Proof using no_collision.
  intros Hm He Hi Hb Hr. rewrite <- insert_delete_eq.
  assert (Hm' : CatalogOk (delete i m)) by by apply catalog_delete_ok.
  destruct (refers (MkDigest name) e) eqn:Hre.
  - destruct Hb as [Hh Hiff]. destruct (holds_lookup m _ _ i o Hh Hi Hr) as [n Hn].
    pose proof (holds_delete m _ _ i o Hi Hh) as Hd. rewrite Hr, Hn in Hd.
    pose proof (holds_insert _ _ _ i e Hm' He (lookup_delete_eq _ _) Hd) as Ha. rewrite Hre in Ha.
    rewrite (same_content m i i o e _ Hm Hi He Hr Hre) in Hn.
    split; [|done]. rewrite Hn. rewrite Hn in Hh. destruct Hh as (Hn1 & Hn2 & _).
    destruct (Z.ltb_spec 1 n); simpl in Ha |- *.
    + replace n with (n - 1 + 1) by lia. exact Ha.
    + replace n with (0 + 1) by lia. exact Ha.
  - apply blob_keep_add; [done|done|apply lookup_delete_eq| |done]. by eapply blob_keep_drop.
Qed.

Lemma read_blob dk g b :
  files dk !! blob_path blob_dir g = Some b -> digest_of b = g ->
  read_verified_blob sha256 blob_dir g (byte_len b) dk = (Ok b, dk).
Proof using Type.
  intros Hf Hd. unfold read_verified_blob, read_blob_file, bind, get, lift. rewrite Hf. simpl.
  rewrite Z.eqb_refl. simpl. by rewrite bool_decide_true.
Qed.

(** The file of a tracked digest holds the content that has the digest. *)
Lemma tracked_file m content row file :
  CatalogOk m -> content ∈ U -> BlobOk m (sha256 content) row file -> is_Some row ->
  file = Some content.
Proof using no_collision.
  intros Hm Hu [Hh Hiff] [r ->]. assert (is_Some file) as [b ->] by (apply Hiff; by eexists).
  simpl in Hh. destruct Hh as (Hn & Hpos & Hall). rewrite Hn in Hpos.
  apply refs_witness in Hpos as (i & e & Hi & He). pose proof (Hall i e Hi He) as Heb.
  apply refers_true in He as [_ He]. pose proof (Hm i e Hi) as Hok.
  rewrite (en_digest _ _ Hok), Heb in He. f_equal.
  apply no_collision; [rewrite <- Heb; apply Hok|done|]. by injection He.
Qed.

(** After the preparation the file holds the content; a rollback removes it
    again unless the digest was tracked. *)
Lemma prepare_run m d w f content :
  CatalogOk m -> content ∈ U ->
  BlobOk m (sha256 content) (t_blobs w !! sha256 content) (f !! (blob_dir, sha256 content)) ->
  prepare_blob_write_with_executor sha256 (digest_of content) content blob_dir (MkDisk (MkConn d w) f)
  = (Ok (MkPrepared (blob_path blob_dir (digest_of content))
           (negb (bool_decide (is_Some (t_blobs w !! sha256 content))))),
     MkDisk (MkConn d w) (<[(blob_dir, sha256 content) := content]> f)).
Proof using no_collision.
  intros Hm Hu Hb. unfold prepare_blob_write_with_executor, on_conn, query, bind, get, ret.
  cbn [conn files working digest_compute digest_str]. case_bool_decide as Ht.
  - pose proof (tracked_file m content _ _ Hm Hu Hb Ht) as Hf.
    unfold check_tracked_blob. rewrite (read_blob _ (digest_of content) content) by done.
    by rewrite bool_decide_true, insert_id by done.
  - assert (f !! (blob_dir, sha256 content) = None) as Hn.
    { apply eq_None_not_Some. by rewrite <- (proj2 Hb). }
    unfold write_new_blob_file, bind, get, blob_path, digest_compute. cbn [files digest_str].
    by rewrite Hn.
Qed.

Section statements.
Context (violation : string).

Lemma on_blobs_alter f k w r :
  t_blobs w !! k = Some r -> on_blobs (alter f k) w = on_blobs (insert k (f r)) w.
Proof using Type.
  intros Hr. unfold on_blobs. f_equal. apply map_eq. intros j. destruct (decide (k = j)) as [<-|Hne].
  - by rewrite lookup_alter_eq, lookup_insert_eq, Hr.
  - by rewrite lookup_alter_ne, lookup_insert_ne.
Qed.

Lemma decrement_run d w g r :
  t_blobs w !! digest_str g = Some r ->
  decrement_blob_ref_with_executor violation g (MkConn d w)
  = (Ok (negb (1 <? b_ref_count r)),
     MkConn d (on_blobs (insert (digest_str g)
       (with_ref_count (if 1 <? b_ref_count r then b_ref_count r - 1 else 0) r)) w)).
Proof using Type.
  intros Hr. unfold decrement_blob_ref_with_executor, query, update, execute, bind, get, ret, modify.
  cbn [working committed]. rewrite Hr. destruct (1 <? b_ref_count r); cbn [working committed negb];
    by rewrite (on_blobs_alter _ _ _ _ Hr).
Qed.

Lemma finalize_run g w f :
  finalize_blob_cleanup violation [g] blob_dir (MkDisk (MkConn w w) f)
  = (Ok tt, let w' := on_blobs (partial_alter drop_unreferenced (digest_str g)) w in
            MkDisk (MkConn w' w') (delete (blob_dir, digest_str g) f)).
Proof using Type. done. Qed.

Lemma upsert_run d w s record content :
  Rel w s -> is_Some (tasks s !! ar_task_id record) ->
  execute violation (upsert_artifact_row (as_str (ar_artifact_id record)) (artifact_row record content))
    (MkConn d w)
  = (Ok tt, MkConn d (on_artifacts (insert (as_str (ar_artifact_id record))
                                      (artifact_row record content)) w)).
Proof using Type.
  intros HR [t Ht]. unfold execute, bind, get, upsert_artifact_row. simpl.
  by destruct (task_row_present _ _ _ _ HR Ht) as [r ->].
Qed.

(** *** Putting an artifact *)

Section put.
Context (dk : Disk) (c : Catalog) (s : InMemoryState) (HR : DiskRel dk c s).
Context (meta : ArtifactMeta) (content : bytes) (Hop : op_ok (PutOp meta content)).
Context (Hsize : byte_len content <= MAX_BLOB_BYTES) (Hdigest : digest_of content = am_digest meta)
  (Htask : is_Some (tasks s !! am_task_id meta)).

Abbreviation record := (put_record meta content).
Abbreviation e := ((put_record meta content, content) : Entry).
Abbreviation i := (am_artifact_id meta).
Abbreviation d := (committed (conn dk)).

(** The file name whose reference goes, and the one that gains one. *)
Definition dropped : option string :=
  o ← stored c !! i;
  if should_drop_blob_association o.1 record then Some (digest_str (ar_digest o.1)) else None.
Definition written : option string :=
  if should_write_blob_association (fst <$> stored c !! i) record then Some (sha256 content) else None.

Definition last_reference (row : option BlobRow) : bool :=
  match row with Some r => negb (1 <? b_ref_count r) | None => true end.
Definition release (row : option BlobRow) : option BlobRow :=
  (fun r => with_ref_count (if 1 <? b_ref_count r then b_ref_count r - 1 else 0) r) <$> row.

Lemma dropped_inv name :
  dropped = Some name -> exists o, stored c !! i = Some o /\ refers (MkDigest name) o = true
    /\ refers (MkDigest name) e = false.
Proof using Type.
  unfold dropped. destruct (stored c !! i) as [o|]; [|done]. simpl.
  unfold should_drop_blob_association. destruct (ar_inline o.1) eqn:Hin; [done|]. simpl.
  intros Hd. exists o. split; [done|]. unfold refers. rewrite Hin. simpl.
  destruct (should_inline (byte_len content)); simpl in *.
  - injection Hd as <-. split; [|done]. apply bool_decide_true. by destruct (ar_digest o.1).
  - case_bool_decide as Hne; [done|]. injection Hd as <-.
    rewrite bool_decide_true by by destruct (ar_digest o.1). rewrite bool_decide_false; [done|].
    intros Heq. apply Hne. rewrite Heq. by destruct (ar_digest o.1).
Qed.

Lemma written_inv name :
  written = Some name -> name = sha256 content /\ refers (MkDigest name) e = true
    /\ forall o, stored c !! i = Some o -> refers (MkDigest name) o = false.
Proof using Type.
  unfold written, should_write_blob_association. simpl.
  destruct (should_inline (byte_len content)) eqn:Hin; [done|]. simpl.
  intros Hw. assert (name = sha256 content) as ->.
  { destruct (match fst <$> stored c !! i with Some _ => _ | None => _ end); [by injection Hw|done]. }
  split; [done|]. split; [unfold refers; simpl; rewrite Hin; simpl; by apply bool_decide_true|].
  intros o Ho. rewrite Ho in Hw. simpl in Hw. unfold refers.
  destruct (ar_inline o.1); [done|]. simpl in *. case_bool_decide as Hne; [done|].
  by apply bool_decide_false.
Qed.

Lemma kept_alike name :
  dropped <> Some name -> written <> Some name ->
  match stored c !! i with
  | Some o => refers (MkDigest name) o = refers (MkDigest name) e
  | None => refers (MkDigest name) e = false
  end.
Proof using Type.
  unfold dropped, written, should_drop_blob_association, should_write_blob_association. simpl.
  destruct (stored c !! i) as [o|]; unfold refers; simpl.
  - destruct (ar_inline o.1); simpl; destruct (should_inline (byte_len content)); simpl; try done.
    + intros _ Hw. symmetry. apply bool_decide_false. intros [= <-]. by apply Hw.
    + intros Hd _. apply bool_decide_false. intros Hg. apply Hd. by rewrite Hg.
    + case_bool_decide as Heq; simpl.
      * intros _ _. by rewrite Heq.
      * intros Hd Hw. rewrite !bool_decide_false; [done|..].
        -- intros [= <-]. by apply Hw.
        -- intros Hg. apply Hd. by rewrite Hg.
  - destruct (should_inline (byte_len content)); simpl; [done|].
    intros _ Hw. apply bool_decide_false. intros [= <-]. by apply Hw.
Qed.

Lemma put_blob name row file :
  BlobOk (stored c) name row file ->
  BlobOk (<[i := e]> (stored c)) name
    (if bool_decide (dropped = Some name)
     then if last_reference row then None else release row
     else if bool_decide (written = Some name) then count_reference (as_i64 (byte_len content)) row else row)
    (if bool_decide (dropped = Some name) then if last_reference row then None else file
     else if bool_decide (written = Some name) then Some content else file).
Proof using HR Hop Hsize no_collision.
  intros Hb. destruct HR as [_ _ _ _ Hok]. destruct Hop as [Hu Ht].
  assert (He : EntryOk i e) by by apply put_record_ok.
  assert (Hdel : CatalogOk (delete i (stored c))) by by apply catalog_delete_ok.
  assert (Hnone : delete i (stored c) !! i = None) by apply lookup_delete_eq.
  case_bool_decide as Hd.
  - apply dropped_inv in Hd as (o & Ho & Hro & Hre). rewrite <- insert_delete_eq.
    destruct (blob_drop _ _ _ _ _ _ Hb Ho Hro) as (r & -> & Hb'). simpl.
    apply (blob_keep_add _ _ _ _ i e Hdel He Hnone); [|done].
    destruct (1 <? b_ref_count r); exact Hb'.
  - case_bool_decide as Hw.
    + apply written_inv in Hw as (-> & Hre & Ho). rewrite <- insert_delete_eq.
      apply (blob_add _ _ _ file i e _ Hdel He Hnone); [|done].
      destruct (stored c !! i) as [o|] eqn:Hi; [by eapply blob_keep_drop; eauto|by rewrite delete_id].
    + pose proof (kept_alike name Hd Hw) as Hk. destruct (stored c !! i) as [o|] eqn:Hi.
      * by eapply blob_swap.
      * by apply blob_keep_add.
Qed.

Definition drop_part (m : gmap string BlobRow) : gmap string BlobRow :=
  match dropped with
  | Some k => match m !! k with Some r => <[k := with_ref_count
                 (if 1 <? b_ref_count r then b_ref_count r - 1 else 0) r]> m | None => m end
  | None => m
  end.
Definition write_part (m : gmap string BlobRow) : gmap string BlobRow :=
  match written with
  | Some k => partial_alter (count_reference (as_i64 (byte_len content))) k m
  | None => m
  end.
Definition cleanup : list Digest :=
  match dropped with
  | Some k => if last_reference (t_blobs d !! k) then [MkDigest k] else []
  | None => []
  end.
Definition files_written : gmap BlobPath bytes :=
  match written with
  | Some k => <[(blob_dir, k) := content]> (files dk)
  | None => files dk
  end.

Lemma on_blobs_ext f w : f (t_blobs w) = t_blobs w -> on_blobs f w = w.
Proof using Type. intros Hf. unfold on_blobs. rewrite Hf. by destruct w. Qed.

Lemma run_drop :
  (match fst <$> stored c !! i with
   | Some existing =>
       if should_drop_blob_association existing record
       then let! last := decrement_blob_ref_with_executor violation (ar_digest existing) in
            ret (if last : bool then [ar_digest existing] else [])
       else ret []
   | None => ret []
   end) (MkConn d d) = ((Ok cleanup : StoreResult _), MkConn d (on_blobs drop_part d)).
Proof using HR.
  unfold cleanup, drop_part. pose proof dropped_inv as Hinv. unfold dropped in *.
  destruct (stored c !! i) as [o|] eqn:Ho; simpl in *; [|by rewrite on_blobs_ext].
  destruct (should_drop_blob_association o.1 record) eqn:Hd; [|by rewrite on_blobs_ext].
  destruct (Hinv _ eq_refl) as (o' & [= <-] & Hr & _).
  destruct (blob_drop _ _ _ _ _ _ (dr_blobs _ _ _ HR (digest_str (ar_digest o.1))) Ho Hr)
    as (r & Hrow & _).
  erewrite bind_ok by by apply decrement_run. rewrite Hrow. simpl.
  unfold on_blobs at 2. rewrite Hrow. unfold ret, on_blobs. destruct (ar_digest o.1) as [g]. simpl in *.
  done.
Qed.

Lemma run_write w :
  (if should_write_blob_association (fst <$> stored c !! i) record
   then increment_blob_ref_with_executor violation (ar_digest record) (byte_len content)
   else ret tt) (MkConn d w) = ((Ok tt : StoreResult unit), MkConn d (on_blobs write_part w)).
Proof using Type.
  unfold write_part, written. destruct (should_write_blob_association _ _); [done|].
  by rewrite on_blobs_ext.
Qed.

Lemma run_prepare :
  exists p,
  (if should_prepare_blob_write (fst <$> stored c !! i) record
   then let! p := prepare_blob_write_with_executor sha256 (ar_digest record) content blob_dir in
        ret (Some p)
   else ret None) (MkDisk (MkConn d d) (files dk))
  = ((Ok p : StoreResult _), MkDisk (MkConn d d) files_written).
Proof using HR Hop no_collision.
  unfold files_written, written, should_prepare_blob_write.
  destruct (should_write_blob_association _ _); [|by eexists].
  eexists. erewrite bind_ok; [done|].
  apply (prepare_run (stored c)); [apply HR|apply Hop|apply HR].
Qed.

Lemma put_tx_run :
  put_artifact_tx sha256 violation meta content blob_dir dk
  = (Ok (record, cleanup),
     let d' := on_artifacts (insert (as_str i) (entry_row e)) (on_blobs write_part (on_blobs drop_part d)) in
     MkDisk (MkConn d' d') files_written).
Proof using HR Hop Hsize Hdigest Htask no_collision sha256_hex.
  destruct Htask as [t Ht]. destruct run_prepare as [p Hp].
  unfold put_artifact_tx, validate_artifact_size.
  rewrite (proj2 (Z.ltb_ge _ _) Hsize). cbn [map_err].
  rewrite bind_lift_ok, bool_decide_true by done. cbn [negb].
  fold record.
  erewrite (bind_ok (on_conn begin)) by done. cbn [conn files].
  erewrite bind_ok.
  2:{ unfold on_conn. cbn [conn]. rewrite (fetch_task _ _ s) by apply HR. simpl. by rewrite Ht. }
  erewrite bind_ok.
  2:{ unfold on_conn. cbn [conn]. rewrite (fetch_artifact (stored c)); [done|apply HR|apply HR]. }
  cbn [files]. erewrite bind_ok by exact Hp.
  erewrite bind_ok.
  2:{ unfold on_error, on_conn. cbn [conn]. erewrite bind_ok by exact run_drop.
      erewrite bind_ok by apply run_write.
      erewrite bind_ok
        by (apply (upsert_run _ _ s); [by apply rel_on_blobs, rel_on_blobs, HR|by exists t]).
      reflexivity. }
  reflexivity.
Qed.

Lemma drop_lookup name :
  drop_part (t_blobs d) !! name
  = if bool_decide (dropped = Some name) then release (t_blobs d !! name) else t_blobs d !! name.
Proof using Type.
  unfold drop_part, release. destruct dropped as [k|]; [|done].
  destruct (decide (k = name)) as [->|Hne].
  - rewrite bool_decide_true by done. destruct (t_blobs d !! name) as [r|] eqn:Hr; simpl; [|done].
    by rewrite lookup_insert_eq.
  - rewrite bool_decide_false by congruence.
    destruct (t_blobs d !! k) as [r|]; [by rewrite lookup_insert_ne|done].
Qed.

Lemma write_lookup m name :
  write_part m !! name
  = if bool_decide (written = Some name) then count_reference (as_i64 (byte_len content)) (m !! name)
    else m !! name.
Proof using Type.
  unfold write_part. destruct written as [k|]; [|done]. destruct (decide (k = name)) as [->|Hne].
  - by rewrite bool_decide_true, lookup_partial_alter_eq.
  - rewrite bool_decide_false by congruence. by rewrite lookup_partial_alter_ne.
Qed.

Lemma files_lookup name :
  files_written !! (blob_dir, name)
  = if bool_decide (written = Some name) then Some content else files dk !! (blob_dir, name).
Proof using Type.
  unfold files_written. destruct written as [k|]; [|done]. destruct (decide (k = name)) as [->|Hne].
  - by rewrite bool_decide_true, lookup_insert_eq.
  - rewrite bool_decide_false by congruence. rewrite lookup_insert_ne; [done|]. congruence.
Qed.

(** A file is not dropped and written at once. *)
Lemma dropped_written name : dropped = Some name -> written <> Some name.
Proof using Type.
  intros (o & Ho & Hro & Hre)%dropped_inv (_ & Hre' & _)%written_inv. congruence.
Qed.

Lemma put_run :
  exists dk', put_artifact sha256 violation meta content blob_dir dk = (Ok record, dk')
    /\ DiskRel dk' (MkCatalog (known c) (<[i := e]> (stored c))) s.
Proof using HR Hop Hsize Hdigest Htask no_collision sha256_hex.
  unfold put_artifact. erewrite bind_ok by exact put_tx_run. cbv zeta.
  set (d1 := on_artifacts _ _).
  assert (HR1 : Rel d1 s) by by apply rel_on_artifacts, rel_on_blobs, rel_on_blobs, HR.
  assert (Hart : t_artifacts d1 = as_table entry_row (<[i := e]> (stored c))).
  { rewrite as_table_insert, <- (dr_artifacts _ _ _ HR). done. }
  assert (Hok : CatalogOk (<[i := e]> (stored c))).
  { destruct Hop. by apply catalog_insert_ok; [apply HR|..]. }
  assert (Hfin : exists d2 f2,
    finalize_blob_cleanup violation cleanup blob_dir (MkDisk (MkConn d1 d1) files_written)
    = ((Ok tt : StoreResult unit), MkDisk (MkConn d2 d2) f2)
    /\ Rel d2 s /\ t_artifacts d2 = t_artifacts d1
    /\ (forall name, t_blobs d2 !! name
          = if bool_decide (dropped = Some name) && last_reference (t_blobs d !! name)
            then drop_unreferenced (t_blobs d1 !! name) else t_blobs d1 !! name)
    /\ (forall name, f2 !! (blob_dir, name)
          = if bool_decide (dropped = Some name) && last_reference (t_blobs d !! name)
            then None else files_written !! (blob_dir, name))).
  { unfold cleanup. destruct dropped as [k|]; [|by exists d1, files_written].
    destruct (last_reference (t_blobs d !! k)) eqn:Hl.
    - rewrite finalize_run. cbv zeta. eexists _, _. split; [done|].
      split; [by apply rel_on_blobs|]. split; [done|].
      split; intros name; destruct (decide (k = name)) as [<-|Hne]; simpl.
      + by rewrite bool_decide_true, Hl, lookup_partial_alter_eq.
      + rewrite bool_decide_false by congruence. by rewrite lookup_partial_alter_ne.
      + by rewrite bool_decide_true, Hl, lookup_delete_eq.
      + rewrite bool_decide_false by congruence. rewrite lookup_delete_ne; [done|]. congruence.
    - exists d1, files_written. split; [done|]. split; [done|]. split; [done|].
      split; intros name; (case_bool_decide as Hk; [injection Hk as <-; by rewrite Hl|done]). }
  destruct Hfin as (d2 & f2 & Hfin & HR2 & Ha2 & Hb2 & Hf2).
  erewrite bind_ok by exact Hfin. eexists. split; [done|]. split; simpl; [done|apply HR| | |done].
  - by rewrite Ha2.
  - intros name. rewrite Hb2, Hf2. pose proof (put_blob name _ _ (dr_blobs _ _ _ HR name)) as Hput.
    assert (Hd1 : t_blobs d1 !! name = write_part (drop_part (t_blobs d)) !! name) by done.
    rewrite Hd1, write_lookup, drop_lookup, files_lookup.
    case_bool_decide as Hd; simpl.
    + rewrite (bool_decide_false (written = Some name)) by by apply dropped_written.
      destruct (t_blobs d !! name) as [r|]; simpl in *; [|exact Hput].
      destruct (1 <? b_ref_count r); simpl in *; exact Hput.
    + exact Hput.
Qed.
End put.

(** *** The other operations *)

Definition disk_agrees {A} (s : InMemoryState) (p : A * Disk) (q : A * Catalog) : Prop :=
  p.1 = q.1 /\ DiskRel p.2 q.2 s.

Lemma disk_put_sim meta content dk c s :
  op_ok (PutOp meta content) -> DiskRel dk c s ->
  disk_agrees s (put_artifact sha256 violation meta content blob_dir dk)
    (catalog_put sha256 meta content c).
Proof using no_collision sha256_hex.
  intros Hop HR. unfold catalog_put.
  destruct (Z.ltb_spec MAX_BLOB_BYTES (byte_len content)) as [Hbig|Hsmall].
  { unfold put_artifact, put_artifact_tx, validate_artifact_size.
    rewrite (proj2 (Z.ltb_lt _ _) Hbig). by split. }
  destruct (bool_decide_reflect (digest_of content = am_digest meta)) as [Hd|Hd]; simpl.
  2:{ unfold put_artifact, put_artifact_tx, validate_artifact_size.
      rewrite (proj2 (Z.ltb_ge _ _) Hsmall), bool_decide_false by done. by split. }
  rewrite (dr_known _ _ _ HR). destruct (tasks s !! am_task_id meta) as [t|] eqn:Ht.
  - rewrite bool_decide_true by (apply elem_of_dom; by eexists). simpl.
    destruct (put_run dk c s HR meta content Hop Hsmall Hd) as (dk' & -> & HR'); [by eexists|].
    split; [done|]. by rewrite (dr_known _ _ _ HR) in HR'.
  - rewrite bool_decide_false by (by apply not_elem_of_dom). simpl.
    unfold put_artifact, put_artifact_tx, validate_artifact_size.
    rewrite (proj2 (Z.ltb_ge _ _) Hsmall), bool_decide_true by done. cbn [map_err].
    erewrite (bind_err _ _ _ (StoreError.TaskNotFound (am_task_id meta))); [split; [done|]|].
    2:{ rewrite bind_lift_ok. cbn [negb]. erewrite (bind_ok (on_conn begin)) by done.
        apply bind_err. unfold on_conn. cbn [conn].
        rewrite (fetch_task _ _ s) by apply HR. simpl. rewrite Ht. reflexivity. }
    destruct HR; by split.
Qed.

Lemma pool_fetch_artifact m d w i :
  CatalogOk m -> t_artifacts d = as_table entry_row m ->
  fetch_artifact_optional_from_pool i (MkConn d w) = (Ok (fst <$> m !! i), MkConn d w).
Proof using sha256_hex.
  intros Hm Hd. pose proof (fetch_artifact m w d i Hm Hd) as H.
  unfold fetch_artifact_optional_from_pool, fetch_artifact_optional_with_executor, pool_query, query,
    bind, get, ret, lift in *. cbn [working committed] in *. by injection H as ->.
Qed.

Lemma disk_get_sim row_not_found i dk c s :
  DiskRel dk c s ->
  disk_agrees s (get_artifact sha256 row_not_found i blob_dir dk)
    (api_get_artifact (ArtifactApi := catalog_api sha256) i c).
Proof using no_collision sha256_hex.
  intros HR. unfold get_artifact. destruct dk as [[d w] f]. pose proof HR as [_ _ Ha Hb Hok].
  cbn [conn committed files] in *. simpl (api_get_artifact _ _).
  erewrite bind_ok by (unfold on_conn; cbn [conn]; by rewrite (pool_fetch_artifact (stored c))).
  cbn [files]. destruct (stored c !! i) as [[r b]|] eqn:Hi; [|split; [done|exact HR]].
  cbn [fmap option_fmap option_map ok_or fst]. rewrite bind_lift_ok.
  pose proof (Hok i _ Hi) as He. destruct (ar_inline r) eqn:Hin.
  - erewrite (bind_ok _ _ _ b (MkDisk (MkConn d w) f)); [split; [done|exact HR]|].
    unfold on_conn, pool_query, bind, get, ret, lift. cbn [conn committed].
    rewrite Ha, lookup_as_table, Hi. simpl. by rewrite Hin.
  - destruct (Hb (digest_str (ar_digest r))) as [Hh _].
    destruct (holds_lookup (stored c) _ _ i (r, b) Hh Hi) as [n Hn].
    { unfold refers. simpl. rewrite Hin. simpl. apply bool_decide_true. by destruct (ar_digest r). }
    unfold kept in Hn. destruct (t_blobs d !! _); [|done].
    destruct (f !! (blob_dir, digest_str (ar_digest r))) as [b'|] eqn:Hf; [|done].
    injection Hn as -> _. pose proof (en_len _ _ He) as Hlen. simpl in Hlen. rewrite Hlen.
    erewrite bind_ok by (apply read_blob; [exact Hf|symmetry; apply He]). by split.
Qed.

Lemma artifact_rows_of_task m i :
  select_task_artifacts (as_str i) (on_artifacts (fun _ => as_table entry_row m) empty_db)
  ≡ₚ (fun ie : ArtifactId * Entry => (as_str ie.1, entry_row ie.2)) <$> filter (fun ie : ArtifactId * Entry => ar_task_id ie.2.1 = i) (map_to_list m).
Proof using Type.
  unfold select_task_artifacts. simpl.
  etrans; [apply filter_perm, map_to_list_as_table|]. rewrite filter_fmap_list.
  apply Permutation_refl'. f_equal. apply filter_ext_list. intros [j e] _. simpl.
  split; [by intros ?%as_str_inj|by intros ->].
Qed.

Lemma disk_list_sim i dk c s :
  DiskRel dk c s ->
  disk_agrees s (list_artifacts_for_task i dk) (api_list (ArtifactApi := catalog_api sha256) i c).
Proof using sha256_hex.
  intros HR. destruct dk as [[d w] f]. pose proof HR as [_ _ Ha Hb Hok].
  cbn [conn committed files] in *. simpl (api_list _ _).
  unfold list_artifacts_for_task, on_conn, pool_query. cbn [conn].
  set (entries := filter (fun ie : ArtifactId * Entry => ar_task_id ie.2.1 = i) (map_to_list (stored c))).
  assert (Hent : forall ie, ie ∈ entries -> EntryOk ie.1 ie.2).
  { intros [j e] Hin. apply list_elem_of_filter in Hin as [_ Hin%elem_of_map_to_list]. by apply Hok. }
  assert (Hsort : select_task_artifacts_sorted (as_str i) d
    = (fun ie : ArtifactId * Entry => (as_str ie.1, entry_row ie.2))
        <$> sort_on String.le (fun ie : ArtifactId * Entry => as_str ie.1) entries).
  { unfold select_task_artifacts_sorted. apply (sort_on_image String.le); [|done|].
    - pose proof (artifact_rows_of_task (stored c) i) as H. unfold select_task_artifacts in *. simpl in H.
      by rewrite Ha.
    - intros [j e] [j' e'] Hj Hj' Hjj%as_str_inj. simpl in Hjj. subst j'.
      apply list_elem_of_filter in Hj as [_ Hj%elem_of_map_to_list],
        Hj' as [_ Hj'%elem_of_map_to_list]. simpl in *. congruence. }
  assert (Hkeys : sort_on String.le artifact_key (task_records i (stored c))
    = (fun ie : ArtifactId * Entry => ie.2.1)
        <$> sort_on String.le (fun ie : ArtifactId * Entry => as_str ie.1) entries).
  { apply (sort_on_image String.le).
    - unfold task_records, entries. rewrite <- list_fmap_compose, filter_fmap_list. done.
    - intros [j e] Hin. pose proof (en_id _ _ (Hent _ Hin)) as Hid. simpl in *. unfold artifact_key. by rewrite Hid.
    - intros [j e] [j' e'] Hj Hj' Hjj%as_str_inj. simpl in Hjj. subst j'.
      apply list_elem_of_filter in Hj as [_ Hj%elem_of_map_to_list],
        Hj' as [_ Hj'%elem_of_map_to_list]. simpl in *. congruence. }
  unfold bind, get, ret, lift. cbn [committed]. rewrite Hsort, Hkeys.
  split; [|done]. simpl. apply (try_map_image row_to_artifact).
  intros ie Hin. rewrite elem_of_sort_on in Hin. by apply row_to_artifact_row, Hent.
Qed.

Lemma delete_tx_run i dk c s o r :
  DiskRel dk c s -> stored c !! i = Some o -> ar_inline o.1 = false ->
  t_blobs (committed (conn dk)) !! digest_str (ar_digest o.1) = Some r ->
  delete_artifact_tx violation i dk
  = (Ok (if negb (1 <? b_ref_count r) then [ar_digest o.1] else []),
     let d' := on_blobs (insert (digest_str (ar_digest o.1))
                 (with_ref_count (if 1 <? b_ref_count r then b_ref_count r - 1 else 0) r))
                 (on_artifacts (delete (as_str i)) (committed (conn dk))) in
     MkDisk (MkConn d' d') (files dk)).
Proof using sha256_hex.
  intros HR Ho Hin Hrow. pose proof HR as [_ _ Ha _ Hok].
  destruct dk as [[d w] f]. cbn [conn committed files] in *.
  unfold delete_artifact_tx, on_conn. cbn [conn]. erewrite (bind_ok begin) by done.
  erewrite bind_ok by by apply (fetch_artifact (stored c)). rewrite Ho.
  cbn [fmap option_fmap option_map ok_or]. rewrite bind_lift_ok, Hin.
  erewrite (bind_ok (update _ _)) by done.
  erewrite bind_ok by by apply decrement_run. reflexivity.
Qed.

(** Deleting drops the row, then the last reference takes the file along. *)
Lemma disk_delete_sim i dk c s :
  DiskRel dk c s ->
  disk_agrees s (delete_artifact violation i blob_dir dk)
    (api_delete (ArtifactApi := catalog_api sha256) i c).
Proof using sha256_hex.
  intros HR. destruct dk as [[d w] f]. pose proof HR as [Hrel Hkn Ha Hb Hok].
  cbn [conn committed files] in *. simpl (api_delete _ _).
  unfold delete_artifact.
  destruct (stored c !! i) as [o|] eqn:Ho.
  2:{ unfold delete_artifact_tx. erewrite (bind_err _ _ _ (StoreError.ArtifactNotFound i) (MkDisk (MkConn d d) f)).
      - split; [done|]. by split.
      - unfold on_conn. cbn [conn]. erewrite (bind_ok begin) by done.
        erewrite bind_ok by by apply (fetch_artifact (stored c)). by rewrite Ho. }
  set (w1 := on_artifacts (delete (as_str i)) d).
  assert (HR1 : Rel w1 s) by by apply rel_on_artifacts.
  assert (Ha1 : t_artifacts w1 = as_table entry_row (delete i (stored c))).
  { unfold w1. simpl. rewrite Ha. apply map_eq. intros k.
    destruct (decide (as_str i = k)) as [<-|Hne].
    - by rewrite lookup_delete_eq, lookup_as_table, lookup_delete_eq.
    - rewrite lookup_delete_ne by done. apply option_eq. intros r. rewrite !lookup_as_table_Some.
      split; intros (j & x & -> & Hj & ->); exists j, x; (split; [done|]; split; [|done]).
      + rewrite lookup_delete_ne; [done|]. by intros ->.
      + by apply lookup_delete_Some in Hj as [_ Hj]. }
  assert (Hok' : CatalogOk (delete i (stored c))) by by apply catalog_delete_ok.
  destruct (ar_inline o.1) eqn:Hin.
  - erewrite (bind_ok _ _ _ [] (MkDisk (MkConn w1 w1) f)).
    + split; [done|]. split; simpl; try done. intros name.
      eapply blob_keep_drop; [apply Hb|exact Ho|by apply refers_inline].
    + unfold delete_artifact_tx, on_conn. cbn [conn]. erewrite (bind_ok begin) by done.
      erewrite bind_ok by by apply (fetch_artifact (stored c)). rewrite Ho.
      cbn [fmap option_fmap option_map ok_or]. rewrite bind_lift_ok, Hin. done.
  - set (g := ar_digest o.1).
    assert (Hr : refers (MkDigest (digest_str g)) o = true).
    { replace (MkDigest (digest_str g)) with g by by destruct g. by apply refers_own. }
    destruct (blob_drop _ _ _ _ _ _ (Hb (digest_str g)) Ho Hr) as (r & Hrow & Hdrop).
    set (w2 := on_blobs (insert (digest_str g)
                 (with_ref_count (if 1 <? b_ref_count r then b_ref_count r - 1 else 0) r)) w1).
    assert (HR2 : Rel w2 s) by by apply rel_on_blobs.
    erewrite bind_ok by exact (delete_tx_run i (MkDisk (MkConn d w) f) c s o r HR Ho Hin Hrow).
    cbn zeta. fold g w1 w2.
    assert (Hother : forall name, digest_str g <> name -> refers (MkDigest name) o = false).
    { intros name Hne. unfold refers. rewrite Hin. simpl. apply bool_decide_false. intros Hg.
      apply Hne. unfold g. by rewrite Hg. }
    destruct (1 <? b_ref_count r) eqn:Hlt; simpl negb; cbn iota.
    + split; [done|]. split; simpl; try done. intros name. destruct (decide (digest_str g = name)) as [<-|Hne].
      * rewrite lookup_insert_eq. exact Hdrop.
      * rewrite lookup_insert_ne by done. eapply blob_keep_drop; [apply Hb|exact Ho|by apply Hother].
    + rewrite finalize_run. cbv zeta. split; [done|]. split; simpl; try done.
      * by apply rel_on_blobs.
      * intros name. destruct (decide (digest_str g = name)) as [<-|Hne].
        -- rewrite lookup_partial_alter_eq, lookup_insert_eq, lookup_delete_eq. exact Hdrop.
        -- rewrite lookup_partial_alter_ne, lookup_insert_ne, lookup_delete_ne by congruence.
           eapply blob_keep_drop; [apply Hb|exact Ho|by apply Hother].
Qed.

Lemma tagged_agrees {A S1 S2} (f : StoreResult A -> ArtifactReply) (m1 : ST S1 StoreError A)
    (m2 : ST S2 StoreError A) s1 s2 (R : S1 -> S2 -> Prop) :
  (m1 s1).1 = (m2 s2).1 /\ R (m1 s1).2 (m2 s2).2 ->
  (tagged f m1 s1).1 = (tagged f m2 s2).1 /\ R (tagged f m1 s1).2 (tagged f m2 s2).2.
Proof using Type.
  unfold tagged. destruct (m1 s1), (m2 s2). simpl. by intros [-> ?].
Qed.

Lemma disk_op_sim row_not_found op dk c s :
  op_ok op -> DiskRel dk c s ->
  let p := run_artifact_op (H := sql_artifacts sha256 violation row_not_found blob_dir) op dk in
  let q := catalog_op op c in p.1 = q.1 /\ DiskRel p.2 q.2 s.
Proof using no_collision sha256_hex.
  intros Hop HR. destruct op as [meta content|i|i|i];
    apply (tagged_agrees _ _ _ _ _ (fun dk c => DiskRel dk c s)).
  - exact (disk_put_sim meta content dk c s Hop HR).
  - exact (disk_get_sim row_not_found i dk c s HR).
  - exact (disk_list_sim i dk c s HR).
  - exact (disk_delete_sim i dk c s HR).
Qed.
End statements.

Lemma mem_op_sim op s c :
  op_ok op -> MemRel s c -> Z.of_nat (size (stored c)) < u32_max ->
  let p := run_artifact_op (H := mem_artifacts sha256 blob_dir) op s in
  let q := catalog_op op c in p.1 = q.1 /\ MemRel p.2 q.2.
Proof using no_collision.
  intros Hop HR Hsize. destruct op as [meta content|i|i|i]; apply (tagged_agrees _ _ _ _ _ MemRel).
  - by apply mem_put_sim.
  - by apply mem_get_sim.
  - by apply mem_list_sim.
  - by apply mem_delete_sim.
Qed.

(** A directory in agreement with the catalog holds its large contents. *)
Lemma files_are_the_large_artifacts dk c s name content :
  DiskRel dk c s ->
  files dk !! (blob_dir, name) = Some content <->
  exists i r, stored c !! i = Some (r, content) /\ ar_inline r = false /\ digest_str (ar_digest r) = name.
Proof using Type.
  intros HR. destruct (dr_blobs _ _ _ HR name) as [Hh Hiff]. split.
  - intros Hf. rewrite Hf in Hh, Hiff. destruct (t_blobs _ !! name) as [r|] eqn:Hr.
    2:{ destruct Hiff as [_ [? ?]]; [by eexists|done]. }
    simpl in Hh. destruct Hh as (Hn & Hpos & Hall). rewrite Hn in Hpos.
    apply refs_witness in Hpos as (i & [r' b] & Hi & He). pose proof (Hall i _ Hi He) as Hb.
    simpl in Hb. subst b. apply refers_true in He as [Hin Hd]. exists i, r'. simpl in *. by rewrite Hd.
  - intros (i & r & Hi & Hin & Hd).
    assert (Hr : refers (MkDigest name) (r, content) = true).
    { apply refers_true. split; [done|]. simpl. rewrite <- Hd. by destruct (ar_digest r). }
    destruct (holds_lookup _ _ _ i _ Hh Hi Hr) as [n Hn]. unfold kept in Hn.
    destruct (t_blobs _ !! name); [|done]. destruct (files dk !! (blob_dir, name)); [|done].
    simpl in Hn. congruence.
Qed.

Lemma artifact_ops_sim violation row_not_found s ops : forall dk ms c,
  Forall op_ok ops -> DiskRel dk c s -> MemRel ms c ->
  Z.of_nat (size (stored c) + length ops) <= u32_max ->
  let p := run_artifact_ops (H := sql_artifacts sha256 violation row_not_found blob_dir) ops dk in
  let m := run_artifact_ops (H := mem_artifacts sha256 blob_dir) ops ms in
  let q := run_artifact_ops (H := catalog_api sha256) ops c in
  p.1 = q.1 /\ m.1 = q.1 /\ DiskRel p.2 q.2 s /\ MemRel m.2 q.2.
Proof using no_collision sha256_hex.
  induction ops as [|op ops IH]; intros dk ms c Hops HD HM Hsize; [done|].
  apply Forall_cons in Hops as [Hop Hops]. cbn [length] in Hsize.
  pose proof (disk_op_sim violation row_not_found op dk c s Hop HD) as [Hd1 Hd2].
  pose proof (mem_op_sim op ms c Hop HM) as [Hm1 Hm2]; [lia|].
  pose proof (catalog_grows op c) as Hg. cbn [run_artifact_ops].
  destruct (run_artifact_op (H := sql_artifacts _ _ _ _) op dk) as [r1 dk1] eqn:E1.
  destruct (run_artifact_op (H := mem_artifacts _ _) op ms) as [r2 ms1] eqn:E2.
  destruct (catalog_op op c) as [r c1] eqn:E3. cbn [fst snd] in *. subst r1 r2.
  specialize (IH dk1 ms1 c1 Hops Hd2 Hm2) as (I1 & I2 & I3 & I4); [lia|].
  destruct (run_artifact_ops (H := sql_artifacts _ _ _ _) ops dk1) as [rs1 dk2].
  destruct (run_artifact_ops (H := mem_artifacts _ _) ops ms1) as [rs2 ms2].
  destruct (run_artifact_ops (H := catalog_api _) ops c1) as [rs c2]. cbn [fst snd] in *. by subst.
Qed.
End artifact_refinement.
