(* ===== verification/ArtifactFacts.v ===== *)
(** * What artifact storage guarantees

    Both stores are catalogs, up to where they are not: a clean-up that is
    overtaken by a put of the same content loses the file, and a file left by
    a crash keeps its content from ever being stored again. *)
From S2P Require Import Prelude Ident Text Lifecycle StoreModel Api MemStore MemSpec MemInv Samples SqlStore SqlRel SqlRefine SqlSession Artifacts ArtifactSpec ArtifactRefine.
From stdpp Require Import options.
From Stdlib Require Import Strings.Byte.

Definition contents (ops : list ArtifactOp) : list bytes :=
  omap (fun op => match op with PutOp _ content => Some content | _ => None end) ops.

Definition normal_media (op : ArtifactOp) : Prop :=
  match op with
  | PutOp meta _ => media_type_new (media_str (am_media_type meta)) = am_media_type meta
  | _ => True
  end.

(** sha2's digests: 64 lower-case hexadecimal digits. *)
Definition prints_hex (sha256 : bytes -> string) : Prop :=
  forall b, digest_new (sha256 b) = Ok (MkDigest (sha256 b)).

Definition collision_free (sha256 : bytes -> string) (l : list bytes) : Prop :=
  forall b b', b ∈ l -> b' ∈ l -> sha256 b = sha256 b' -> b = b'.

(** The stores before the first artifact. *)
Definition fresh_disk (d w : Db) (f : gmap BlobPath bytes) (blob_dir : string) : Prop :=
  t_artifacts d = ∅ /\ t_blobs d = ∅ /\ forall name, f !! (blob_dir, name) = None.
Definition fresh_artifacts (s : InMemoryState) : MemArtifacts := MkMemArtifacts s ∅ ∅ ∅ ∅.
Definition fresh_catalog (s : InMemoryState) : Catalog := MkCatalog (dom (tasks s)) ∅.

Lemma fresh_disk_rel U blob_dir d w f s :
  Rel d s -> fresh_disk d w f blob_dir ->
  forall sha256, DiskRel sha256 U blob_dir (MkDisk (MkConn d w) f) (fresh_catalog s) s.
Proof.
  intros HR (Ha & Hb & Hf) sha256. split; simpl; [done|done| | |].
  - by rewrite Ha, as_table_empty.
  - intros name. rewrite Hb, Hf, lookup_empty. split; [apply refs_empty|].
    split; intros [? ?]; done.
  - apply map_Forall_empty.
Qed.

Lemma fresh_mem_rel U s : forall sha256, MemRel sha256 U (fresh_artifacts s) (fresh_catalog s).
Proof.
  intros sha256. split; simpl; [done|by rewrite fmap_empty| |apply map_Forall_empty].
  split; intros k; simpl; [by rewrite !lookup_empty|]. rewrite lookup_empty. apply refs_empty.
Qed.

(** C13: artifact storage is a catalog. Whatever artifacts are put, read,
    listed and deleted, both stores answer as a map from ids to records and
    contents would, errors included, and the SQLite store's blob directory
    holds exactly the files of the large artifacts stored. Contents put may be
    shared, replaced and deleted in any order; two of them must not have the
    same digest. *)
Theorem artifact_stores_are_catalogs (sha256 : bytes -> string)
    (violation row_not_found blob_dir : string) (ops : list ArtifactOp) (d w : Db)
    (f : gmap BlobPath bytes) (s : InMemoryState) :
  prints_hex sha256 -> collision_free sha256 (contents ops) -> Forall normal_media ops ->
  Z.of_nat (length ops) <= u32_max -> Rel d s -> fresh_disk d w f blob_dir ->
  let p := run_artifact_ops (H := sql_artifacts sha256 violation row_not_found blob_dir) ops
             (MkDisk (MkConn d w) f) in
  let m := run_artifact_ops (H := mem_artifacts sha256 blob_dir) ops (fresh_artifacts s) in
  let q := run_artifact_ops (H := catalog_api sha256) ops (fresh_catalog s) in
  p.1 = q.1 /\ m.1 = q.1
  /\ forall name content, files p.2 !! (blob_dir, name) = Some content <->
       exists i r, stored q.2 !! i = Some (r, content) /\ ar_inline r = false
                   /\ digest_str (ar_digest r) = name.
Proof.
  intros Hhex Hfree Hmedia Hlen HR Hfresh p m q.
  destruct (artifact_ops_sim sha256 Hhex (contents ops) Hfree blob_dir violation row_not_found s ops
    (MkDisk (MkConn d w) f) (fresh_artifacts s) (fresh_catalog s)) as (Hp & Hm & HD & _).
  - apply Forall_forall. intros op Hop. rewrite Forall_forall in Hmedia.
    specialize (Hmedia op Hop). destruct op as [meta content|i|i|i]; simpl in *; try done.
    split; [|done]. unfold contents. apply list_elem_of_omap. by exists (PutOp meta content).
  - by apply fresh_disk_rel.
  - apply fresh_mem_rel.
  - simpl. by rewrite map_size_empty.
  - split; [exact Hp|]. split; [exact Hm|]. intros name content.
    exact (files_are_the_large_artifacts _ _ _ _ _ _ _ _ HD).
Qed.

(** ** A sample: a digest function and a disk with a running task *)

Definition sample_sha256 (b : bytes) : string :=
  match b with
  | [] => "0000000000000000000000000000000000000000000000000000000000000000"
  | _ => "ffffffffffffffffffffffffffffffffffffffffffffffffffffffffffffffff"
  end.

Lemma sample_sha256_hex : prints_hex sample_sha256.
Proof. intros [|x b]; reflexivity. Qed.

Lemma ops_ok_app l1 l2 s : ops_ok (l1 ++ l2) s -> ops_ok l1 s.
Proof. revert s. induction l1 as [|op l1 IH]; intros s; [done|]. intros [Hop Hl]. split; eauto. Qed.

Definition sample_db : Db :=
  on_artifacts (fun _ => ∅) (on_blobs (fun _ => ∅)
    (committed (run_ops (H := sql_api "UNIQUE constraint failed") running_ops empty_conn).2)).

Lemma sample_db_rel : Rel sample_db running.
Proof.
  apply rel_on_artifacts, rel_on_blobs.
  destruct (SqlSession.ops_sim "UNIQUE constraint failed" running_ops empty_db empty_db empty_state
    Rel_empty Inv_empty (ops_ok_app _ _ _ sample_session_ok)) as (_ & HR & _). exact HR.
Qed.

Definition artifact_1 : ArtifactId := MkId "artifact-1" I.
Definition artifact_2 : ArtifactId := MkId "artifact-2" I.
Definition meta_of (i : ArtifactId) (content : bytes) : ArtifactMeta :=
  MkArtifactMeta i task_a (digest_compute sample_sha256 content) octet_stream (byte_len content)
    true "2024-01-01T00:00:00Z".

Definition artifact_session : list ArtifactOp :=
  [PutOp (meta_of artifact_1 []) []; PutOp (meta_of artifact_2 [x01]) [x01]; GetOp artifact_2;
   ListOp task_a; DeleteOp artifact_1; GetOp artifact_1].

Lemma sample_fresh : fresh_disk sample_db sample_db ∅ "blobs".
Proof. split; [done|]. split; [done|]. intros name. apply lookup_empty. Qed.

Lemma artifact_stores_are_catalogs_witness :
  prints_hex sample_sha256 /\ collision_free sample_sha256 (contents artifact_session)
  /\ (run_artifact_ops (H := sql_artifacts sample_sha256 "" "" "blobs") artifact_session
        (MkDisk (MkConn sample_db sample_db) ∅)).1
     = (run_artifact_ops (H := catalog_api sample_sha256) artifact_session (fresh_catalog running)).1.
Proof.
  assert (Hfree : collision_free sample_sha256 (contents artifact_session)).
  { intros b b' Hb Hb' Heq. simpl in Hb, Hb'. rewrite !elem_of_cons, elem_of_nil in Hb, Hb'.
    by destruct Hb as [->|[->|[]]], Hb' as [->|[->|[]]]. }
  split; [exact sample_sha256_hex|]. split; [exact Hfree|].
  apply (artifact_stores_are_catalogs sample_sha256 "" "" "blobs" artifact_session sample_db sample_db ∅
           running sample_sha256_hex Hfree); [|done|exact sample_db_rel|exact sample_fresh].
  repeat constructor.
Defined.

(** ** Two ways to lose *)

(** A blob file without a row (a crash between writing the file and the
    commit leaves one) makes every put of its content fail. *)
Lemma orphan_file_blocks_put sha256 violation meta content blob_dir d w f s x :
  Rel d s -> is_Some (tasks s !! am_task_id meta) -> t_artifacts d !! as_str (am_artifact_id meta) = None ->
  t_blobs d !! sha256 content = None -> f !! (blob_dir, sha256 content) = Some x ->
  digest_compute sha256 content = am_digest meta ->
  MAX_INLINE_ARTIFACT_BYTES < byte_len content <= MAX_BLOB_BYTES ->
  (put_artifact sha256 violation meta content blob_dir (MkDisk (MkConn d w) f)).1
  = Err (StoreError.Database ALREADY_EXISTS).
Proof.
  intros HR [t Ht] Ha Hb Hf Hd [Hlarge Hsmall].
  unfold put_artifact, put_artifact_tx, validate_artifact_size.
  rewrite (proj2 (Z.ltb_ge _ _) Hsmall). cbn [map_err].
  erewrite (bind_err _ _ _ (StoreError.Database ALREADY_EXISTS)); [done|].
  rewrite bind_lift_ok, bool_decide_true by done. cbn [negb].
  erewrite (bind_ok (on_conn begin)) by done. cbn [conn files].
  erewrite bind_ok.
  2:{ unfold on_conn. cbn [conn]. rewrite (fetch_task _ _ s) by done. simpl. by rewrite Ht. }
  erewrite bind_ok.
  2:{ unfold on_conn, fetch_artifact_optional_with_executor, query, select_artifact, bind, get, ret, lift.
      cbn [conn working committed ar_artifact_id artifact_record_from_meta]. rewrite Ha. reflexivity. }
  cbn [files]. apply bind_err.
  unfold should_prepare_blob_write, should_write_blob_association, should_inline.
  cbn [ar_inline artifact_record_from_meta transpose fmap option_fmap option_map].
  unfold should_inline. rewrite (proj2 (Z.leb_gt _ _) Hlarge). cbn [negb andb].
  apply bind_err. unfold prepare_blob_write_with_executor, on_conn, query, bind, get, ret.
  cbn [conn working ar_digest artifact_record_from_meta digest_compute digest_str]. rewrite Hb.
  rewrite bool_decide_false by by intros [? ?].
  unfold write_new_blob_file, bind, get, blob_path, digest_compute. cbn [files digest_str]. rewrite Hf. reflexivity.
Qed.

Section late_cleanup.
Context (sha256 : bytes -> string) (sha256_hex : prints_hex sha256).
Context (violation row_not_found blob_dir : string) (content : bytes) (s : InMemoryState).
Context (Hlarge : MAX_INLINE_ARTIFACT_BYTES < byte_len content) (Hsmall : byte_len content <= MAX_BLOB_BYTES).

Abbreviation g := (digest_compute sha256 content).
Abbreviation name := (sha256 content).

Lemma large_record meta : ar_inline (catalog_record sha256 meta content) = false.
Proof using Hlarge. by apply Z.leb_gt. Qed.

Lemma large_refers meta : refers g (catalog_record sha256 meta content, content) = true.
Proof using Hlarge. apply refers_true. split; [apply large_record|done]. Qed.

(** The state between the commit and the clean-up: no artifact, a row
    without references, the file still there. *)
Context (d w : Db) (f : gmap BlobPath bytes) (r : BlobRow).
Context (HR : Rel d s) (Ha : t_artifacts d = ∅) (Hr : t_blobs d !! name = Some r)
  (Hzero : b_ref_count r = 0) (Hf : f !! (blob_dir, name) = Some content).
Context (meta : ArtifactMeta) (Ht : is_Some (tasks s !! am_task_id meta)) (Hd : g = am_digest meta)
  (Hm : media_type_new (media_str (am_media_type meta)) = am_media_type meta).

Abbreviation record := (catalog_record sha256 meta content).

Definition overtaken_db : Db :=
  on_artifacts (insert (as_str (am_artifact_id meta)) (artifact_row record content))
    (on_blobs (partial_alter (count_reference (as_i64 (byte_len content))) name) d).

Lemma overtaking_put :
  put_artifact sha256 violation meta content blob_dir (MkDisk (MkConn d w) f)
  = (Ok record, MkDisk (MkConn overtaken_db overtaken_db) f).
Proof using Hlarge Hsmall HR Ha Hr Hf Ht Hd.
  destruct Ht as [t Htask]. unfold put_artifact.
  erewrite (bind_ok _ _ _ (record, []) (MkDisk (MkConn overtaken_db overtaken_db) f)); [done|].
  unfold put_artifact_tx, validate_artifact_size.
  rewrite (proj2 (Z.ltb_ge _ _) Hsmall). cbn [map_err].
  rewrite bind_lift_ok, bool_decide_true by done. cbn [negb]. fold record.
  erewrite (bind_ok (on_conn begin)) by done. cbn [conn files].
  erewrite bind_ok.
  2:{ unfold on_conn. cbn [conn]. rewrite (fetch_task _ _ s) by done. simpl. by rewrite Htask. }
  erewrite (bind_ok _ _ _ None (MkDisk (MkConn d d) f)).
  2:{ unfold on_conn, fetch_artifact_optional_with_executor, query, select_artifact, bind, get, ret, lift.
      cbn [conn working committed]. by rewrite Ha, lookup_empty. }
  unfold should_prepare_blob_write, should_write_blob_association. rewrite large_record. cbn [negb andb].
  erewrite bind_ok.
  2:{ erewrite (bind_ok _ _ _ (MkPrepared (blob_path blob_dir g) false) (MkDisk (MkConn d d) f));
        [reflexivity|].
      unfold prepare_blob_write_with_executor, on_conn, query, bind, get, ret.
      cbn [conn working ar_digest catalog_record artifact_record_from_meta digest_compute digest_str files].
      rewrite Hr, bool_decide_true by by eexists. unfold check_tracked_blob.
      rewrite (read_blob sha256 blob_dir (MkDisk (MkConn d d) f) g content Hf eq_refl), bool_decide_true by done. reflexivity. }
  erewrite (bind_ok _ _ _ [] (MkDisk (MkConn d overtaken_db) f)); [reflexivity|].
  unfold on_error, on_conn. cbn [conn]. rewrite bind_ret_l.
  erewrite (bind_ok (increment_blob_ref_with_executor _ _ _)) by done.
  erewrite bind_ok by (apply (upsert_run _ _ _ s); [by apply rel_on_blobs|by exists t]). reflexivity.
Qed.

Lemma late_finalize :
  exists dk, finalize_blob_cleanup violation [g] blob_dir (MkDisk (MkConn overtaken_db overtaken_db) f)
             = (Ok tt, dk)
    /\ get_artifact sha256 row_not_found (am_artifact_id meta) blob_dir dk
       = (Err (StoreError.Database NOT_FOUND), dk)
    /\ (list_artifacts_for_task (am_task_id meta) dk).1 = Ok [record].
Proof using sha256_hex Hlarge Hsmall Ha Hm.
  assert (He : EntryOk sha256 [content] (am_artifact_id meta) (record, content)).
  { apply put_record_ok; [by left|done|done]. }
  pose proof (row_to_artifact_row sha256 sha256_hex [content] _ _ He) as Hrow.
  rewrite finalize_run. cbv zeta. eexists. split; [done|]. split.
  - unfold get_artifact.
    erewrite bind_ok.
    2:{ unfold on_conn, fetch_artifact_optional_from_pool, pool_query, select_artifact, bind, get, ret, lift.
        cbn [conn committed t_artifacts on_blobs on_artifacts overtaken_db].
        rewrite lookup_insert_eq. cbn [fmap option_fmap option_map]. unfold with_key.
        fold (entry_row (record, content)). unfold entry_row in *. cbn [fst snd] in *. rewrite Hrow. reflexivity. }
    cbn [transpose ok_or]. rewrite bind_lift_ok. cbn [fst]. rewrite large_record.
    apply bind_err. unfold read_verified_blob, read_blob_file. apply bind_err.
    unfold bind, get, lift, blob_path. cbn [files]. by rewrite lookup_delete_eq.
  - unfold list_artifacts_for_task, on_conn, pool_query, bind, get, ret, lift, select_task_artifacts_sorted,
      select_task_artifacts.
    cbn [conn committed t_artifacts on_blobs on_artifacts overtaken_db]. rewrite Ha, insert_empty.
    rewrite map_to_list_singleton. cbn [fst snd].
    change (filter _ [(as_str (am_artifact_id meta), artifact_row record content)])
      with (if decide (a_task_id (artifact_row record content) = as_str (am_task_id meta))
            then [(as_str (am_artifact_id meta), artifact_row record content)] else []).
    rewrite decide_True by done.
    assert (forall x : string * ArtifactRow, sort_on String.le fst [x] = [x]) as -> by done.
    cbn [fst try_map]. unfold entry_row in Hrow. cbn [fst snd] in Hrow. by rewrite Hrow.
Qed.
End late_cleanup.

(** A clean-up that comes late loses a blob. Deleting the last artifact of
    a content commits first and removes the file afterwards; when another
    caller puts the same content in between, its put succeeds, the clean-up
    then removes the file it relies on, and reading the new artifact fails
    although the store lists it. *)
Theorem late_cleanup_loses_a_blob (sha256 : bytes -> string) (violation row_not_found blob_dir : string)
    (meta1 meta2 : ArtifactMeta) (content : bytes) (d w : Db) (f : gmap BlobPath bytes)
    (s : InMemoryState) :
  prints_hex sha256 -> Rel d s -> fresh_disk d w f blob_dir ->
  is_Some (tasks s !! am_task_id meta1) -> is_Some (tasks s !! am_task_id meta2) ->
  digest_compute sha256 content = am_digest meta1 -> digest_compute sha256 content = am_digest meta2 ->
  normal_media (PutOp meta1 content) -> normal_media (PutOp meta2 content) ->
  MAX_INLINE_ARTIFACT_BYTES < byte_len content <= MAX_BLOB_BYTES ->
  exists dk1 dk2 dk3 dk4,
    put_artifact sha256 violation meta1 content blob_dir (MkDisk (MkConn d w) f)
      = (Ok (catalog_record sha256 meta1 content), dk1)
    /\ delete_artifact_tx violation (am_artifact_id meta1) dk1 = (Ok [am_digest meta1], dk2)
    /\ put_artifact sha256 violation meta2 content blob_dir dk2
       = (Ok (catalog_record sha256 meta2 content), dk3)
    /\ finalize_blob_cleanup violation [am_digest meta1] blob_dir dk3 = (Ok tt, dk4)
    /\ get_artifact sha256 row_not_found (am_artifact_id meta2) blob_dir dk4
       = (Err (StoreError.Database NOT_FOUND), dk4)
    /\ (list_artifacts_for_task (am_task_id meta2) dk4).1 = Ok [catalog_record sha256 meta2 content].
Proof.
  intros Hhex HR Hfresh Ht1 Ht2 Hd1 Hd2 Hm1 Hm2 [Hlarge Hsmall].
  assert (Hfree : forall b b', b ∈ [content] -> b' ∈ [content] -> sha256 b = sha256 b' -> b = b').
  { intros b b' ->%list_elem_of_singleton ->%list_elem_of_singleton. done. }
  destruct (put_run sha256 Hhex [content] Hfree blob_dir violation (MkDisk (MkConn d w) f)
    (fresh_catalog s) s (fresh_disk_rel _ _ _ _ _ _ HR Hfresh _) meta1 content
    (conj (list_elem_of_here _ _) Hm1) Hsmall Hd1 Ht1) as (dk1 & Hput1 & HD1).
  set (o := (catalog_record sha256 meta1 content, content)) in *.
  set (name := sha256 content). pose proof (large_refers sha256 content Hlarge meta1) as Hrefs. fold o in Hrefs.
  assert (Ho : stored (MkCatalog (known (fresh_catalog s))
                 (<[am_artifact_id meta1 := o]> (stored (fresh_catalog s)))) !! am_artifact_id meta1 = Some o)
    by apply lookup_insert_eq.
  destruct (dr_blobs _ _ _ _ _ _ HD1 name) as [Hh Hiff].
  destruct (holds_lookup _ _ _ _ _ Hh Ho Hrefs) as [n Hn].
  assert (Hone : n = 1).
  { rewrite Hn in Hh. destruct Hh as (-> & _). simpl. rewrite refs_insert_new by apply lookup_empty.
    rewrite refs_empty. change (MkDigest name) with (digest_compute sha256 content).
    by rewrite Hrefs. }
  unfold kept in Hn. destruct (t_blobs _ !! name) as [r|] eqn:Hr; [|done].
  destruct (files dk1 !! _) as [b|] eqn:Hf; [|done]. injection Hn as -> Hrn.
  pose proof (delete_tx_run sha256 Hhex [content] blob_dir violation (am_artifact_id meta1) dk1 _ s o r HD1 Ho
    (large_record sha256 content Hlarge meta1) Hr) as Hdel.
  rewrite Hrn, Hone in Hdel. simpl (if negb _ then _ else _) in Hdel. cbv zeta in Hdel.
  set (d2 := on_blobs _ _) in Hdel.
  assert (HR2 : Rel d2 s) by by apply rel_on_blobs, rel_on_artifacts, HD1.
  assert (Ha2 : t_artifacts d2 = ∅).
  { unfold d2. simpl. rewrite (dr_artifacts _ _ _ _ _ _ HD1). simpl.
    rewrite as_table_insert, as_table_empty. by rewrite delete_insert_id by apply lookup_empty. }
  assert (Hr2 : t_blobs d2 !! name = Some (with_ref_count 0 r)) by apply lookup_insert_eq.
  pose proof (overtaking_put sha256 violation blob_dir content s Hlarge Hsmall d2 d2 (files dk1)
    (with_ref_count 0 r) HR2 Ha2 Hr2 Hf meta2 Ht2 Hd2) as Hput2.
  destruct (late_finalize sha256 Hhex violation row_not_found blob_dir content Hlarge Hsmall d2
    (files dk1) Ha2 meta2 Hm2) as (dk4 & Hfin & Hget & Hlist).
  exists dk1, (MkDisk (MkConn d2 d2) (files dk1)), (MkDisk (MkConn (overtaken_db sha256 content d2 meta2)
    (overtaken_db sha256 content d2 meta2)) (files dk1)), dk4.
  rewrite <- Hd1. split; [exact Hput1|]. split; [exact Hdel|]. split; [exact Hput2|].
  split; [exact Hfin|]. by split.
Qed.

Lemma running_task : is_Some (tasks running !! task_a).
Proof. eexists. vm_compute. reflexivity. Qed.

Definition large_content : bytes := replicate (Z.to_nat 65537) x00.

Lemma large_content_len : byte_len large_content = 65537.
Proof. unfold byte_len, large_content. rewrite length_replicate, Z2Nat.id; lia. Qed.

Lemma late_cleanup_loses_a_blob_witness :
  exists dk, get_artifact sample_sha256 "" artifact_2 "blobs" dk
             = (Err (StoreError.Database NOT_FOUND), dk)
    /\ (list_artifacts_for_task task_a dk).1
       = Ok [catalog_record sample_sha256 (meta_of artifact_2 large_content) large_content].
Proof.
  destruct (late_cleanup_loses_a_blob sample_sha256 "" "" "blobs" (meta_of artifact_1 large_content)
    (meta_of artifact_2 large_content) large_content sample_db sample_db ∅ running sample_sha256_hex
    sample_db_rel sample_fresh) as (dk1 & dk2 & dk3 & dk4 & _ & _ & _ & _ & Hget & Hlist);
    [apply running_task|apply running_task|done|done|done|done| |by exists dk4].
  rewrite large_content_len. by split.
Defined.
