(* ===== verification/RemoteResults.v ===== *)
(** * Results from remote executors

    crates/keryx-store/src/results.rs, [SqliteStore]:
    [ingest_remote_result_with_artifacts] and what it calls. A result that
    another node's executor reports for a task of this store is applied in one
    transaction: the task's transition, the artifacts that come with the
    result, and the result itself. Blob files are written before the
    transaction's statements and removed again when one of them fails. *)
From S2P Require Import Prelude Ident Text Lifecycle StoreModel Api SqlStore Artifacts.
From stdpp Require Import options.
From Stdlib Require Import Strings.Byte.
#[local] Open Scope Z_scope.

(** ** Data *)

Record OriginResultArtifact : Type := MkOriginArtifact {
  oa_ordinal : Z;
  oa_meta : ArtifactMeta;
  oa_content : bytes;
}.

Inductive RemoteResultIngestOutcome : Type :=
| Applied (task : TaskRecord)
| Duplicate (task : TaskRecord)
| SettledTerminal (task : TaskRecord) (reason : RemoteResultTerminalReason)
    (canonical_result : option TerminalResultRecord).

(** [u64::checked_add], [u32::checked_add]. *)
Definition u64_checked_add (x y : Z) : option Z :=
  if x + y <=? u64_max then Some (x + y) else None.
Definition u32_checked_add (x y : Z) : option Z :=
  if x + y <=? u32_max then Some (x + y) else None.

(** [x as u8] as a byte, and [u32::to_be_bytes]. *)
Definition byte_of_Z (x : Z) : Byte.byte :=
  match Byte.of_N (Z.to_N (x mod 256)) with Some b => b | None => x00 end.
Definition to_be_bytes (x : Z) : bytes :=
  [byte_of_Z (Z.shiftr x 24); byte_of_Z (Z.shiftr x 16); byte_of_Z (Z.shiftr x 8); byte_of_Z x].

(** What the reader of an event log finds last. *)
Definition reason_of_event (event : TaskEventRecord) : option RemoteResultTerminalReason :=
  match ev_event_type event with
  | TaskTimedOut => Some DeadlineExpired
  | TaskCanceled => Some ReasonCanceled
  | _ => None
  end.
Definition last_reason (events : list TaskEventRecord) : option RemoteResultTerminalReason :=
  head (omap reason_of_event (reverse events)).

(** When a late result finds a task that ended without it. *)
Definition settlement_reason (terminal_reason : option RemoteResultTerminalReason)
    (existing : option TerminalResultRecord) : option RemoteResultTerminalReason :=
  match terminal_reason, existing with
  | Some DeadlineExpired, None => Some DeadlineExpired
  | Some ReasonCanceled, Some _ => Some ReasonCanceled
  | _, _ => None
  end.

Section remote_results.
Context (sha256 : bytes -> string).
(** SQLite's message for a violated constraint, sqlx's for a missing row. *)
Context (violation row_not_found : string).

(** The text that is hashed into an artifact's identity, and the identity. *)
Definition origin_preimage (task_id : TaskId) (ordinal : Z) : bytes :=
  String.list_byte_of_string (as_str task_id) ++ [x00] ++ to_be_bytes ordinal.
Definition origin_result_artifact_id (task_id : TaskId) (ordinal : Z) : string :=
  "origin-result-" +:+ sha256 (origin_preimage task_id ordinal).

(** One round of the loop: the record, and the totals it goes on with. *)
Definition validate_origin_result_artifact (task_id : TaskId) (artifact : OriginResultArtifact)
    (next_minimum_ordinal aggregate_len : Z) : StoreResult (ArtifactRecord * Z * Z) :=
  let ordinal := oa_ordinal artifact in
  let meta := oa_meta artifact in
  let actual_len := byte_len (oa_content artifact) in
  let actual_digest := digest_compute sha256 (oa_content artifact) in
  if ordinal <? next_minimum_ordinal
  then Err (StoreError.OriginResultArtifactOrdinalMismatch next_minimum_ordinal ordinal) else
  let? next := ok_or (u32_checked_add ordinal 1)
                 (StoreError.OriginResultArtifactOrdinalMismatch ordinal ordinal) in
  if negb (bool_decide (am_task_id meta = task_id))
  then Err (StoreError.OriginResultArtifactTaskMismatch task_id (am_task_id meta)) else
  if negb (bool_decide (as_str (am_artifact_id meta) = origin_result_artifact_id task_id ordinal))
  then Err (StoreError.OriginResultArtifactIdMismatch task_id ordinal) else
  if negb (am_byte_len meta =? actual_len)
  then Err (StoreError.ArtifactLengthMismatch (am_byte_len meta) actual_len) else
  if negb (bool_decide (am_digest meta = actual_digest))
  then Err (StoreError.DigestMismatch (digest_str (am_digest meta)) (digest_str actual_digest)) else
  let? aggregate := ok_or (u64_checked_add aggregate_len actual_len)
                      (StoreError.ArtifactTooLarge u64_max MAX_CROSS_NODE_RESULT_ARTIFACT_BYTES) in
  if MAX_CROSS_NODE_RESULT_ARTIFACT_BYTES <? aggregate
  then Err (StoreError.ArtifactTooLarge aggregate MAX_CROSS_NODE_RESULT_ARTIFACT_BYTES) else
  Ok (artifact_record_from_meta meta actual_digest actual_len, next, aggregate).

Fixpoint validate_origin_from (task_id : TaskId) (next_minimum_ordinal aggregate_len : Z)
    (artifacts : list OriginResultArtifact) : StoreResult (list ArtifactRecord) :=
  match artifacts with
  | [] => Ok []
  | artifact :: rest =>
      let? (record, next, aggregate) :=
        validate_origin_result_artifact task_id artifact next_minimum_ordinal aggregate_len in
      let? records := validate_origin_from task_id next aggregate rest in
      Ok (record :: records)
  end.

Definition validate_origin_result_artifacts (task_id : TaskId) (artifacts : list OriginResultArtifact)
    : StoreResult (list ArtifactRecord) := validate_origin_from task_id 0 0 artifacts.

(** ** Statements *)

Definition remote_result_terminal_reason_with_executor (task : TaskRecord)
    : C (option RemoteResultTerminalReason) :=
  if negb (bool_decide (tr_status task = Failed)) then ret None
  else
    let! rows := query (select_events (as_str (tr_id task))) in
    let! events := lift (try_map row_to_event rows) in
    let! _ := lift (replay_task_from_snapshot_and_events task events) in
    ret (last_reason events).

Definition fetch_artifacts_for_task_with_executor (task_id : TaskId) : C (list ArtifactRecord) :=
  let! rows := query (select_task_artifacts (as_str task_id)) in
  lift (try_map row_to_artifact rows).

Definition insert_origin_artifact (record : ArtifactRecord) (content : bytes) : C unit :=
  execute violation (insert_artifact_row (as_str (ar_artifact_id record)) (artifact_row record content)).

(** The artifact ids that are taken. *)
Definition refuse_existing_artifact (record : ArtifactRecord) : C unit :=
  let! existing := fetch_artifact_optional_with_executor (ar_artifact_id record) in
  match existing with
  | Some _ => throw (StoreError.OriginResultArtifactConflict (ar_artifact_id record))
  | None => ret tt
  end.

(** What is stored for the task is what the redelivery carries. *)
Definition same_artifacts (stored records : list ArtifactRecord) : bool :=
  Nat.eqb (length stored) (length records) && forallb (fun row => bool_decide (row ∈ records)) stored.

Definition check_persisted (blob_dir : string) (artifact : OriginResultArtifact) : D unit :=
  let! (_, persisted) := get_artifact sha256 row_not_found (am_artifact_id (oa_meta artifact)) blob_dir in
  if bool_decide (persisted = oa_content artifact) then ret tt
  else throw (StoreError.OriginResultArtifactConflict (am_artifact_id (oa_meta artifact))).

Definition roll_back_all (prepared : list PreparedBlobWrite) : D unit :=
  on_conn rollback ;;;
  for_each (fun p => rollback_prepared_blob_write (Some p)) prepared.

(** The blob files, one per digest. *)
Fixpoint prepare_blobs (blob_dir : string) (prepared_digests : gset Digest)
    (prepared : list PreparedBlobWrite) (l : list (OriginResultArtifact * ArtifactRecord))
    : D (list PreparedBlobWrite) :=
  match l with
  | [] => ret prepared
  | (artifact, record) :: l =>
      if negb (ar_inline record) && negb (bool_decide (ar_digest record ∈ prepared_digests))
      then
        let! p := on_error (prepare_blob_write_with_executor sha256 (ar_digest record)
                              (oa_content artifact) blob_dir) (roll_back_all prepared) in
        prepare_blobs blob_dir ({[ar_digest record]} ∪ prepared_digests) (prepared ++ [p]) l
      else prepare_blobs blob_dir prepared_digests prepared l
  end.

Definition log_transition (task_id : TaskId) (event : KeryxEventType) (from to : TaskStatus) : C unit :=
  let! sequence := next_sequence_with_executor task_id in
  update_task_status_with_executor violation task_id to ;;;
  insert_event violation task_id sequence event (Some from) to.

Definition store_origin_artifact (ar : OriginResultArtifact * ArtifactRecord) : C unit :=
  (if ar_inline ar.2 then ret tt
   else increment_blob_ref_with_executor violation (ar_digest ar.2) (ar_byte_len ar.2)) ;;;
  insert_origin_artifact ar.2 (oa_content ar.1).

(** The transaction's statements: a pending task is started first. *)
Definition apply_result (task : TaskRecord) (result : TerminalResultRecord)
    (l : list (OriginResultArtifact * ArtifactRecord)) : C unit :=
  let! status :=
    if bool_decide (tr_status task = Pending)
    then log_transition (rs_task_id result) TaskStarted Pending Running ;;; ret Running
    else ret (tr_status task) in
  let! transition := lift (store_transition status (rs_terminal_status result)) in
  log_transition (rs_task_id result) (tt_event_type transition) (tt_from transition)
    (rs_terminal_status result) ;;;
  for_each store_origin_artifact l ;;;
  insert_terminal_result_only violation result.

(** ** Ingestion *)

Definition ingest_remote_result_with_artifacts (result : TerminalResultRecord)
    (artifacts : list OriginResultArtifact) (authenticated_executor_peer_id : PeerId)
    (blob_dir : string) : D RemoteResultIngestOutcome :=
  let task_id := rs_task_id result in
  let! _ := lift (terminal_result_validate result) in
  if negb (bool_decide (rs_executor_peer_id result = authenticated_executor_peer_id))
  then throw (StoreError.RemoteResultExecutorMismatch task_id authenticated_executor_peer_id
                (rs_executor_peer_id result)) else
  let! records := lift (validate_origin_result_artifacts task_id artifacts) in
  on_conn begin ;;;
  let! context := on_conn (fetch_transport_context_optional task_id) in
  let! context := lift (ok_or context (StoreError.TransportContextNotFound task_id)) in
  if negb (bool_decide (tc_expected_executor_peer_id context = Some authenticated_executor_peer_id))
  then throw (StoreError.RemoteResultExecutorMismatch task_id
                (default (tc_destination_peer_id context) (tc_expected_executor_peer_id context))
                authenticated_executor_peer_id) else
  let! task := on_conn (fetch_task_with_executor task_id) in
  let! terminal_reason := on_conn (remote_result_terminal_reason_with_executor task) in
  let! existing := on_conn (fetch_terminal_result_optional task_id) in
  if bool_decide (terminal_reason = None) && bool_decide (existing = Some result)
  then
    let! stored := on_conn (fetch_artifacts_for_task_with_executor task_id) in
    if negb (same_artifacts stored records) then throw (StoreError.TerminalResultConflict task_id)
    else
      on_conn commit_tx ;;;
      for_each (check_persisted blob_dir) artifacts ;;;
      let! task := on_conn (get_task task_id) in
      ret (Duplicate task)
  else
    on_conn (for_each refuse_existing_artifact records) ;;;
    match settlement_reason terminal_reason existing, existing with
    | Some reason, _ =>
        match records with
        | _ :: _ => throw (StoreError.RemoteResultTerminalArtifactsRejected task_id reason)
        | [] => on_conn commit_tx ;;; ret (SettledTerminal task reason existing)
        end
    | None, Some _ => throw (StoreError.TerminalResultConflict task_id)
    | None, None =>
        let l := zip artifacts records in
        let! prepared := prepare_blobs blob_dir ∅ [] l in
        on_error (on_conn (apply_result task result l)) (roll_back_all prepared) ;;;
        on_conn commit_tx ;;;
        let! task := on_conn (get_task task_id) in
        ret (Applied task)
    end.

Definition apply_remote_result_with_artifacts (result : TerminalResultRecord)
    (artifacts : list OriginResultArtifact) (authenticated_executor_peer_id : PeerId)
    (blob_dir : string) : D TaskRecord :=
  let! outcome := ingest_remote_result_with_artifacts result artifacts
                    authenticated_executor_peer_id blob_dir in
  match outcome with
  | Applied task | Duplicate task => ret task
  | SettledTerminal _ reason _ =>
      throw (StoreError.RemoteResultTerminallySettled (rs_task_id result) reason)
  end.

Definition apply_remote_result (result : TerminalResultRecord)
    (authenticated_executor_peer_id : PeerId) : D TaskRecord :=
  apply_remote_result_with_artifacts result [] authenticated_executor_peer_id "".
End remote_results.
