(* ===== verification/RemoteSpec.v ===== *)
(** * What the ingestion of remote results promises

    [judge] reads the state of the tasks and of the artifacts and decides:
    refuse, answer a redelivery, settle, or apply. Applying is one change of
    both states. *)
From S2P Require Import Prelude Ident Text Lifecycle StoreModel Api MemStore MemSpec MemInv SqlStore SqlRel Artifacts ArtifactSpec RemoteResults.
From stdpp Require Import options.

Inductive Verdict : Type :=
| VApply (task : TaskRecord) (transition : TaskTransition)
| VRepeat (task : TaskRecord)
| VSettle (task : TaskRecord) (reason : RemoteResultTerminalReason)
    (existing : option TerminalResultRecord).

(** A check that stops with an error. *)
Definition require (b : bool) (e : StoreError) : StoreResult unit := if b then Ok tt else Err e.

Definition event_log (s : InMemoryState) (i : TaskId) : list TaskEventRecord := default [] (events s !! i).

(** Why a failed task ended, by its log. *)
Definition terminal_reason (s : InMemoryState) (t : TaskRecord)
    : StoreResult (option RemoteResultTerminalReason) :=
  if negb (bool_decide (tr_status t = Failed)) then Ok None
  else
    let? _ := replay_task_from_snapshot_and_events t (event_log s (tr_id t)) in
    Ok (last_reason (event_log s (tr_id t))).

Definition started (st : TaskStatus) : TaskStatus := if bool_decide (st = Pending) then Running else st.

Section spec.
Context (sha256 : bytes -> string).

Definition origin_entry (a : OriginResultArtifact) : Entry :=
  (catalog_record sha256 (oa_meta a) (oa_content a), oa_content a).
Definition origin_id (a : OriginResultArtifact) : ArtifactId := am_artifact_id (oa_meta a).

(** The contents the redelivery carries are the stored ones. *)
Fixpoint same_contents (m : gmap ArtifactId Entry) (artifacts : list OriginResultArtifact)
    : StoreResult unit :=
  match artifacts with
  | [] => Ok tt
  | a :: artifacts =>
      let? e := ok_or (m !! origin_id a) (StoreError.ArtifactNotFound (origin_id a)) in
      let? _ := require (bool_decide (e.2 = oa_content a))
                  (StoreError.OriginResultArtifactConflict (origin_id a)) in
      same_contents m artifacts
  end.

Fixpoint free_ids (m : gmap ArtifactId Entry) (records : list ArtifactRecord) : StoreResult unit :=
  match records with
  | [] => Ok tt
  | r :: records =>
      let? _ := require (bool_decide (m !! ar_artifact_id r = None))
                  (StoreError.OriginResultArtifactConflict (ar_artifact_id r)) in
      free_ids m records
  end.

(** What is left to decide once the report is known to be the executor's. *)
Definition judge_task (result : TerminalResultRecord) (artifacts : list OriginResultArtifact)
    (records : list ArtifactRecord) (s : InMemoryState) (m : gmap ArtifactId Entry) (task : TaskRecord)
    : StoreResult Verdict :=
  let i := rs_task_id result in
  let existing := terminal_results s !! i in
  let? reason := terminal_reason s task in
  if bool_decide (reason = None) && bool_decide (existing = Some result)
  then
    let? _ := require (same_artifacts (task_records i m) records) (StoreError.TerminalResultConflict i) in
    let? _ := same_contents m artifacts in
    Ok (VRepeat task)
  else
    let? _ := free_ids m records in
    match settlement_reason reason existing, existing with
    | Some reason, _ =>
        let? _ := require (bool_decide (records = []))
                    (StoreError.RemoteResultTerminalArtifactsRejected i reason) in
        Ok (VSettle task reason existing)
    | None, Some _ => Err (StoreError.TerminalResultConflict i)
    | None, None =>
        let? transition := store_transition (started (tr_status task)) (rs_terminal_status result) in
        Ok (VApply task transition)
    end.

Definition judge (result : TerminalResultRecord) (artifacts : list OriginResultArtifact)
    (executor : PeerId) (s : InMemoryState) (m : gmap ArtifactId Entry) : StoreResult Verdict :=
  let i := rs_task_id result in
  let? _ := terminal_result_validate result in
  let? _ := require (bool_decide (rs_executor_peer_id result = executor))
              (StoreError.RemoteResultExecutorMismatch i executor (rs_executor_peer_id result)) in
  let? records := validate_origin_result_artifacts sha256 i artifacts in
  let? context := ok_or (transport_contexts s !! i) (StoreError.TransportContextNotFound i) in
  let? _ := require (bool_decide (tc_expected_executor_peer_id context = Some executor))
              (StoreError.RemoteResultExecutorMismatch i
                 (default (tc_destination_peer_id context) (tc_expected_executor_peer_id context))
                 executor) in
  let? task := ok_or (tasks s !! i) (StoreError.TaskNotFound i) in
  judge_task result artifacts records s m task.

(** The change that applying a result makes: the task is started if it was
    pending, then finished; a lease it may have stays. *)
Definition log_step (i : TaskId) (e : KeryxEventType) (t t' : TaskRecord) (s : InMemoryState)
    : InMemoryState := commit i (tr_status t) e t' (leases s !! i) s.

Definition start_if_pending (i : TaskId) (t : TaskRecord) (s : InMemoryState) : InMemoryState :=
  if bool_decide (tr_status t = Pending) then log_step i TaskStarted t (with_status t Running) s else s.

Definition finished (t : TaskRecord) (result : TerminalResultRecord) : TaskRecord :=
  with_status t (rs_terminal_status result).

Definition apply_state (result : TerminalResultRecord) (t : TaskRecord) (transition : TaskTransition)
    (s : InMemoryState) : InMemoryState :=
  let i := rs_task_id result in
  set_result i result
    (log_step i (tt_event_type transition) (with_status t (started (tr_status t))) (finished t result)
       (start_if_pending i t s)).

Definition store_all (artifacts : list OriginResultArtifact) (m : gmap ArtifactId Entry)
    : gmap ArtifactId Entry :=
  foldl (fun m a => <[origin_id a := origin_entry a]> m) m artifacts.
End spec.
