(* ===== verification/RemoteRefine.v ===== *)
(** * The ingestion of remote results keeps its promise

    [ingest_run]: on a database and files that represent a task state and a
    catalog, ingestion answers what [judge] decides, changes nothing unless it
    applies the result, and then makes the one change of RemoteSpec. *)
From S2P Require Import Prelude Ident Text Lifecycle StoreModel Api MemStore MemSpec MemInv SqlStore SqlRel SqlRefine SqlSweep Artifacts ArtifactSpec ArtifactRefine RemoteResults RemoteSpec.
From stdpp Require Import options.
From Stdlib Require Import Strings.Byte.

(** ** Identities of artifacts *)

Lemma byte_of_Z_value x : Z.of_N (Byte.to_N (byte_of_Z x)) = x mod 256.
Proof.
  unfold byte_of_Z. assert (Hr : 0 <= x mod 256 < 256) by (apply Z.mod_pos_bound; lia).
  destruct (Byte.of_N (Z.to_N (x mod 256))) as [b|] eqn:Hb.
  - apply Byte.to_of_N in Hb. lia.
  - apply Byte.of_N_None_iff in Hb. lia.
Qed.

Definition from_be_bytes (l : bytes) : Z := foldl (fun n b => n * 256 + Z.of_N (Byte.to_N b)) 0 l.

Lemma be_round_trip x : in_u32 x -> from_be_bytes (to_be_bytes x) = x.
Proof.
  intros Hx. unfold from_be_bytes, to_be_bytes. cbn [foldl]. rewrite !byte_of_Z_value, !Z.shiftr_div_pow2 by lia.
  change (2 ^ 24) with 16777216. change (2 ^ 16) with 65536. change (2 ^ 8) with 256.
  unfold in_u32, u32_max in Hx. Z.to_euclidean_division_equations. lia.
Qed.

Lemma origin_preimage_inj i x y :
  in_u32 x -> in_u32 y -> origin_preimage i x = origin_preimage i y -> x = y.
Proof.
  unfold origin_preimage. intros Hx Hy H. apply app_inv_head in H. injection H as H1 H2 H3 H4.
  rewrite <- (be_round_trip x Hx), <- (be_round_trip y Hy). unfold to_be_bytes. by rewrite H1, H2, H3, H4.
Qed.

Section remote.
Context (sha256 : bytes -> string).
(** What is hashed: the contents stored and received and the preimages of
    their identities, without collisions. *)
Context (U : list bytes)
  (no_collision : forall b b', b ∈ U -> b' ∈ U -> sha256 b = sha256 b' -> b = b').
Context (blob_dir violation row_not_found : string).

Abbreviation CatalogOk := (CatalogOk sha256 U).
Abbreviation EntryOk := (EntryOk sha256 U).
Abbreviation DiskRel := (DiskRel sha256 U blob_dir).
Abbreviation entry := (origin_entry sha256).

(** ** Validated artifacts *)

Record ArtifactOk (i : TaskId) (low : Z) (a : OriginResultArtifact) : Prop := {
  ao_ordinal : low <= oa_ordinal a <= u32_max;
  ao_task : am_task_id (oa_meta a) = i;
  ao_id : as_str (origin_id a) = origin_result_artifact_id sha256 i (oa_ordinal a);
  ao_digest : digest_compute sha256 (oa_content a) = am_digest (oa_meta a);
  ao_size : byte_len (oa_content a) <= MAX_CROSS_NODE_RESULT_ARTIFACT_BYTES;
}.

Lemma validate_one_inv i a low agg r next agg' :
  validate_origin_result_artifact sha256 i a low agg = Ok (r, next, agg') -> 0 <= agg ->
  ArtifactOk i low a /\ r = (entry a).1 /\ next = oa_ordinal a + 1
  /\ agg' = agg + byte_len (oa_content a) /\ agg' <= MAX_CROSS_NODE_RESULT_ARTIFACT_BYTES.
Proof using Type.
  unfold validate_origin_result_artifact. intros H Hagg.
  destruct (Z.ltb_spec (oa_ordinal a) low); [done|].
  unfold u32_checked_add in H. destruct (Z.leb_spec (oa_ordinal a + 1) u32_max); [|done]. cbn [ok_or] in H.
  case_bool_decide as Ht; [|done]. cbn [negb] in H.
  case_bool_decide as Hid; [|done]. cbn [negb] in H.
  destruct (_ =? _); [|done]. cbn [negb] in H.
  case_bool_decide as Hd; [|done]. cbn [negb] in H.
  unfold u64_checked_add in H. destruct (Z.leb_spec (agg + byte_len (oa_content a)) u64_max); [|done].
  cbn [ok_or] in H.
  destruct (Z.ltb_spec MAX_CROSS_NODE_RESULT_ARTIFACT_BYTES (agg + byte_len (oa_content a))) as [|Hmax]; [done|].
  injection H as <- <- <-. unfold origin_entry, catalog_record.
  split; [|done]. split; [lia|done|done|done|lia].
Qed.

Lemma validate_inv i artifacts : forall low agg records,
  validate_origin_from sha256 i low agg artifacts = Ok records -> 0 <= agg ->
  records = (fun a => (entry a).1) <$> artifacts
  /\ Forall (ArtifactOk i low) artifacts
  /\ NoDup (oa_ordinal <$> artifacts).
Proof using Type.
  induction artifacts as [|a artifacts IH]; intros low agg records; simpl.
  - intros [= <-] _. repeat split; constructor.
  - destruct (validate_origin_result_artifact _ i a low agg) as [[[r next] agg']|] eqn:Hone; [|done].
    destruct (validate_origin_from _ i next agg' artifacts) as [rest|] eqn:Hrest; [|done].
    intros [= <-] Hagg. destruct (validate_one_inv _ _ _ _ _ _ _ Hone Hagg) as (Ha & -> & -> & -> & _).
    destruct (IH _ _ _ Hrest) as (-> & Hall & Hnd); [unfold byte_len; lia|].
    split; [done|]. split.
    + constructor; [done|]. eapply Forall_impl; [exact Hall|]. intros b [Hb ? ? ? ?].
      split; [|done..]. destruct Ha as [Ha _ _ _ _]. lia.
    + csimpl. constructor; [|done]. intros (b & Hb & Hin)%list_elem_of_fmap.
      rewrite Forall_forall in Hall. pose proof (ao_ordinal _ _ _ (Hall b Hin)). lia.
Qed.

(** What is assumed of the report besides: the texts hashed are in [U], the
    media types are normal. *)
Definition report_ok (i : TaskId) (artifacts : list OriginResultArtifact) : Prop :=
  Forall (fun a => oa_content a ∈ U /\ origin_preimage i (oa_ordinal a) ∈ U
                   /\ media_type_new (media_str (am_media_type (oa_meta a))) = am_media_type (oa_meta a))
    artifacts.

Lemma origin_ids_distinct i artifacts records :
  validate_origin_result_artifacts sha256 i artifacts = Ok records -> report_ok i artifacts ->
  NoDup (origin_id <$> artifacts).
Proof using no_collision.
  intros Hv Hok. destruct (validate_inv _ _ _ _ _ Hv (Z.le_refl 0)) as (_ & Hall & Hnd). clear Hv.
  induction artifacts as [|a artifacts IH]; [constructor|]. csimpl in *.
  apply Forall_cons in Hok as [(_ & Hpa & _) Hok], Hall as [Ha Hall]. apply NoDup_cons in Hnd as [Hna Hnd].
  constructor; [|by apply IH]. intros (b & Hb & Hin)%list_elem_of_fmap. apply Hna.
  unfold report_ok in Hok. rewrite Forall_forall in Hok, Hall.
  destruct (Hok b Hin) as (_ & Hpb & _). pose proof (Hall b Hin) as Hbo.
  apply list_elem_of_fmap. exists b. split; [|done].
  apply (origin_preimage_inj i); [destruct (ao_ordinal _ _ _ Ha); by split
                                 |destruct (ao_ordinal _ _ _ Hbo); by split|].
  apply no_collision; [done|done|].
  pose proof (ao_id _ _ _ Ha) as H1. rewrite Hb, (ao_id _ _ _ Hbo) in H1.
  unfold origin_result_artifact_id in H1. by apply (inj _) in H1.
Qed.

Lemma artifact_entry_ok i low a :
  ArtifactOk i low a -> oa_content a ∈ U ->
  media_type_new (media_str (am_media_type (oa_meta a))) = am_media_type (oa_meta a) ->
  EntryOk (origin_id a) (entry a).
Proof using Type.
  intros [_ _ _ _ Hs] Hu Hm. apply put_record_ok; [done| |done].
  unfold MAX_CROSS_NODE_RESULT_ARTIFACT_BYTES, MAX_BLOB_BYTES in *. lia.
Qed.

(** ** The files that are prepared *)

Abbreviation large a := (ar_inline (entry a).1 = false).
Definition pairs (artifacts : list OriginResultArtifact) : list (OriginResultArtifact * ArtifactRecord) :=
  (fun a => (a, (entry a).1)) <$> artifacts.

Lemma zip_pairs artifacts : zip artifacts ((fun a => (entry a).1) <$> artifacts) = pairs artifacts.
Proof using Type. induction artifacts as [|a l IH]; [done|]. simpl. f_equal. exact IH. Qed.

Definition files_with (artifacts : list OriginResultArtifact) (f : gmap BlobPath bytes)
    : gmap BlobPath bytes :=
  foldl (fun f a => if ar_inline (entry a).1 then f
                    else <[(blob_dir, sha256 (oa_content a)) := oa_content a]> f) f artifacts.

Definition carries (name : string) (a : OriginResultArtifact) : Prop :=
  refers (MkDigest name) (entry a) = true.

#[local] Instance carries_dec name a : Decision (carries name a).
Proof using Type. unfold carries. apply _. Defined.

Lemma carries_spec name a : carries name a <-> large a /\ sha256 (oa_content a) = name.
Proof using Type.
  unfold carries. rewrite refers_true. apply and_iff_compat_l. simpl. unfold digest_compute.
  split; [by intros [= ->]|by intros ->].
Qed.

Lemma files_with_stays artifacts b : forall f,
  Forall (fun a => oa_content a ∈ U) artifacts -> b ∈ U -> f !! (blob_dir, sha256 b) = Some b ->
  files_with artifacts f !! (blob_dir, sha256 b) = Some b.
Proof using no_collision.
  induction artifacts as [|a l IH]; intros f HU Hb Hf; [done|]. apply Forall_cons in HU as [Ha HU]. simpl.
  apply IH; [done|done|]. destruct (should_inline _); [done|].
  destruct (decide (sha256 (oa_content a) = sha256 b)) as [Heq|Hne].
  - by rewrite (no_collision _ _ Ha Hb Heq), lookup_insert_eq.
  - rewrite lookup_insert_ne; [done|]. congruence.
Qed.

Lemma files_with_carried artifacts a : forall f,
  Forall (fun a => oa_content a ∈ U) artifacts -> a ∈ artifacts -> large a ->
  files_with artifacts f !! (blob_dir, sha256 (oa_content a)) = Some (oa_content a).
Proof using no_collision.
  induction artifacts as [|x l IH]; intros f HU Hin Hl; [by apply elem_of_nil in Hin|].
  apply Forall_cons in HU as [Hx HU]. simpl. apply elem_of_cons in Hin as [->|Hin]; [|by apply IH].
  simpl in Hl. rewrite Hl. apply files_with_stays; [done|done|apply lookup_insert_eq].
Qed.

Lemma files_with_other artifacts name : forall f,
  ~ Exists (carries name) artifacts -> files_with artifacts f !! (blob_dir, name) = f !! (blob_dir, name).
Proof using Type.
  induction artifacts as [|x l IH]; intros f Hn; [done|]. rewrite Exists_cons in Hn. simpl.
  rewrite IH by tauto. destruct (should_inline _) eqn:Hi; [done|].
  rewrite lookup_insert_ne; [done|]. intros [= Heq]. apply Hn. left. by apply carries_spec.
Qed.

(** ** What a rollback restores *)

Definition undo (prepared : list PreparedBlobWrite) (f : gmap BlobPath bytes) : gmap BlobPath bytes :=
  foldl (fun f p => if remove_on_rollback p then delete (prepared_path p) f else f) f prepared.

Lemma roll_back_run prepared d w f :
  roll_back_all prepared (MkDisk (MkConn d w) f) = (Ok tt, MkDisk (MkConn d d) (undo prepared f)).
Proof using Type.
  unfold roll_back_all. erewrite (bind_ok (on_conn rollback)) by done. cbn [conn files].
  revert f. induction prepared as [|p l IH]; intros f; [done|]. simpl for_each.
  erewrite bind_ok; [apply IH|]. simpl. by destruct (remove_on_rollback p).
Qed.

Lemma undo_snoc prepared p f :
  undo (prepared ++ [p]) f
  = if remove_on_rollback p then delete (prepared_path p) (undo prepared f) else undo prepared f.
Proof using Type. unfold undo. by rewrite foldl_app. Qed.

Lemma undo_insert prepared path c : forall f,
  Forall (fun p => prepared_path p <> path) prepared ->
  undo prepared (<[path := c]> f) = <[path := c]> (undo prepared f).
Proof using Type.
  induction prepared as [|p l IH]; intros f Hp; [done|]. apply Forall_cons in Hp as [Hne Hp]. simpl.
  destruct (remove_on_rollback p); [|by apply IH]. rewrite delete_insert_ne by done. by apply IH.
Qed.

Record Preparing (m : gmap ArtifactId Entry) (rows : gmap string BlobRow) (f0 f : gmap BlobPath bytes)
    (seen : gset Digest) (prepared : list PreparedBlobWrite) : Prop := {
  pr_undo : undo prepared f = f0;
  pr_paths : Forall (fun p => exists g, g ∈ seen /\ prepared_path p = blob_path blob_dir g) prepared;
  pr_unseen name : MkDigest name ∉ seen -> f !! (blob_dir, name) = f0 !! (blob_dir, name);
  pr_seen b : b ∈ U -> digest_compute sha256 b ∈ seen -> f !! (blob_dir, sha256 b) = Some b;
}.

Lemma preparing_start m rows f : Preparing m rows f f ∅ [].
Proof using Type. split; [done|constructor|done|]. intros b _ H. by apply not_elem_of_empty in H. Qed.

(** One more digest. *)
Lemma preparing_step m rows f0 f seen prepared c :
  CatalogOk m -> c ∈ U -> BlobOk m (sha256 c) (rows !! sha256 c) (f0 !! (blob_dir, sha256 c)) ->
  Preparing m rows f0 f seen prepared -> digest_compute sha256 c ∉ seen ->
  Preparing m rows f0 (<[(blob_dir, sha256 c) := c]> f) ({[digest_compute sha256 c]} ∪ seen)
    (prepared ++ [MkPrepared (blob_path blob_dir (digest_compute sha256 c))
                    (negb (bool_decide (is_Some (rows !! sha256 c))))]).
Proof using no_collision.
  intros Hm Hc Hb [Hundo Hpaths Hun Hseen] Hnew. split.
  - rewrite undo_snoc, undo_insert.
    2:{ eapply Forall_impl; [exact Hpaths|]. intros p (g & Hg & ->) [= Heq]. apply Hnew.
        unfold digest_compute. rewrite <- Heq. by destruct g. }
    rewrite Hundo. simpl. case_bool_decide as Ht; simpl.
    + apply insert_id. by eapply (tracked_file sha256 U no_collision m).
    + apply delete_insert_id, eq_None_not_Some. by rewrite <- (proj2 Hb).
  - apply Forall_app. split.
    + eapply Forall_impl; [exact Hpaths|]. intros p (g & Hg & ->). exists g. split; [set_solver|done].
    + constructor; [|constructor]. eexists. split; [|done]. set_solver.
  - intros name Hname. rewrite lookup_insert_ne; [apply Hun; set_solver|].
    intros [= <-]. set_solver.
  - intros b Hbu Hbs. destruct (decide (sha256 c = sha256 b)) as [Heq|Hne].
    + by rewrite (no_collision _ _ Hc Hbu Heq), lookup_insert_eq.
    + rewrite lookup_insert_ne by (by intros [= ?]). apply Hseen; [done|].
      apply elem_of_union in Hbs as [Hbs%elem_of_singleton|Hbs]; [|done]. injection Hbs as Hbs. by destruct Hne.
Qed.

Lemma prepare_blobs_run m d w f0 artifacts : forall seen prepared f,
  CatalogOk m -> Forall (fun a => oa_content a ∈ U) artifacts ->
  (forall name, BlobOk m name (t_blobs w !! name) (f0 !! (blob_dir, name))) ->
  Preparing m (t_blobs w) f0 f seen prepared ->
  exists prepared',
    prepare_blobs sha256 blob_dir seen prepared (pairs artifacts) (MkDisk (MkConn d w) f)
    = (Ok prepared', MkDisk (MkConn d w) (files_with artifacts f))
    /\ undo prepared' (files_with artifacts f) = f0.
Proof using no_collision.
  induction artifacts as [|a l IH]; intros seen prepared f Hm HU Hb Hp.
  { exists prepared. split; [done|apply Hp]. }
  apply Forall_cons in HU as [Ha HU]. simpl.
  destruct (should_inline (byte_len (oa_content a))) eqn:Hi; simpl; [by apply IH|].
  case_bool_decide as Hs; simpl.
  { rewrite insert_id by (by apply (pr_seen _ _ _ _ _ _ Hp)). by apply IH. }
  erewrite (bind_ok (on_error _ _)).
  2:{ unfold on_error. rewrite (prepare_run sha256 U no_collision blob_dir m); [reflexivity|done|done|].
      by rewrite (pr_unseen _ _ _ _ _ _ Hp _ Hs). }
  apply IH; [done|done|done|]. by apply preparing_step.
Qed.

(** ** The statements of the transaction *)

(** The tables in the middle of the loop over the artifacts: the files of the
    artifacts still to come are there already. *)
Record Filling (w : Db) (f : gmap BlobPath bytes) (m : gmap ArtifactId Entry)
    (rest : list OriginResultArtifact) : Prop := {
  fl_artifacts : t_artifacts w = as_table entry_row m;
  fl_holds name : Holds m (MkDigest name) (kept (t_blobs w !! name) (f !! (blob_dir, name)));
  fl_row name : is_Some (t_blobs w !! name) -> is_Some (f !! (blob_dir, name));
  fl_file name : is_Some (f !! (blob_dir, name)) ->
    is_Some (t_blobs w !! name) \/ Exists (carries name) rest;
  fl_ready a : a ∈ rest -> large a -> f !! (blob_dir, sha256 (oa_content a)) = Some (oa_content a);
  fl_ok : CatalogOk m;
}.

Lemma filling_start d f0 m artifacts :
  CatalogOk m -> Forall (fun a => oa_content a ∈ U) artifacts ->
  t_artifacts d = as_table entry_row m ->
  (forall name, BlobOk m name (t_blobs d !! name) (f0 !! (blob_dir, name))) ->
  Filling d (files_with artifacts f0) m artifacts.
Proof using no_collision.
  intros Hm HU Ha Hb.
  assert (Hrow : forall name, is_Some (t_blobs d !! name) ->
    files_with artifacts f0 !! (blob_dir, name) = f0 !! (blob_dir, name)).
  { intros name Hr. destruct (decide (Exists (carries name) artifacts)) as [Hx|Hx]; [|by apply files_with_other].
    apply Exists_exists in Hx as (a & Hin & [Hl <-]%carries_spec).
    rewrite files_with_carried by done. symmetry. rewrite Forall_forall in HU.
    by apply (tracked_file sha256 U no_collision m _ _ _ Hm (HU a Hin) (Hb _)). }
  split; [done| | | | |done].
  - intros name. destruct (Hb name) as [Hh Hiff].
    destruct (t_blobs d !! name) as [r|] eqn:Hr; [|exact Hh]. by rewrite Hrow by (rewrite Hr; by eexists).
  - intros name Hr. rewrite Hrow by done. by apply Hb.
  - intros name Hf. destruct (decide (Exists (carries name) artifacts)) as [Hx|Hx]; [by right|left].
    rewrite files_with_other in Hf by done. by apply Hb.
  - intros a Hin Hl. by apply files_with_carried.
Qed.

Lemma filling_end w f m : Filling w f m [] ->
  forall name, BlobOk m name (t_blobs w !! name) (f !! (blob_dir, name)).
Proof using Type.
  intros [_ Hh Hrow Hfile _ _] name. split; [apply Hh|]. split; [apply Hrow|].
  intros [?|Hx]%Hfile; [done|]. by apply Exists_nil in Hx.
Qed.

(** The rows of one artifact. *)
Definition fill_rows (a : OriginResultArtifact) (w : Db) : Db :=
  on_artifacts (insert (as_str (origin_id a)) (entry_row (entry a)))
    (if ar_inline (entry a).1 then w
     else on_blobs (partial_alter (count_reference (as_i64 (byte_len (oa_content a)))) (sha256 (oa_content a))) w).

Lemma fill_run a d w m s :
  Rel w s -> is_Some (tasks s !! am_task_id (oa_meta a)) -> t_artifacts w = as_table entry_row m ->
  m !! origin_id a = None ->
  store_origin_artifact violation (a, (entry a).1) (MkConn d w) = (Ok tt, MkConn d (fill_rows a w))
  /\ Rel (fill_rows a w) s.
Proof using Type.
  intros HR [t Ht] Ha Hn. unfold store_origin_artifact, fill_rows. cbn [fst snd].
  set (w1 := if ar_inline (entry a).1 then w else _).
  assert (HR1 : Rel w1 s) by (unfold w1; destruct (ar_inline _); [done|by apply rel_on_blobs]).
  assert (Ha1 : t_artifacts w1 = t_artifacts w) by (unfold w1; by destruct (ar_inline _)).
  split; [|by apply rel_on_artifacts]. erewrite (bind_ok _ _ _ tt (MkConn d w1)).
  2:{ unfold w1. by destruct (ar_inline (entry a).1). }
  unfold insert_origin_artifact, execute, bind, get, insert_artifact_row, upsert_artifact_row.
  cbn [working committed]. rewrite Ha1, Ha. change (as_str (ar_artifact_id (entry a).1)) with (as_str (origin_id a)).
  rewrite lookup_as_table, Hn. simpl. by destruct (task_row_present _ _ _ _ HR1 Ht) as [r ->].
Qed.

Lemma fill_row_at a w name :
  t_blobs (fill_rows a w) !! name
  = if refers (MkDigest name) (entry a)
    then count_reference (as_i64 (byte_len (oa_content a))) (t_blobs w !! name) else t_blobs w !! name.
Proof using Type.
  unfold fill_rows. simpl. destruct (refers (MkDigest name) (entry a)) eqn:Hr.
  - apply carries_spec in Hr as [Hl <-]. simpl in Hl. rewrite Hl. simpl. by rewrite lookup_partial_alter_eq.
  - destruct (should_inline _) eqn:Hi; [done|]. simpl. apply lookup_partial_alter_ne.
    intros <-. assert (carries (sha256 (oa_content a)) a) as Hc by (by apply carries_spec).
    unfold carries in Hc. by rewrite Hr in Hc.
Qed.

Lemma filling_step w f m a rest :
  Filling w f m (a :: rest) -> EntryOk (origin_id a) (entry a) -> m !! origin_id a = None ->
  Filling (fill_rows a w) f (<[origin_id a := entry a]> m) rest.
Proof using no_collision.
  intros [Ha Hh Hrow Hfile Hready Hm] He Hn. split.
  - rewrite as_table_insert, <- Ha. simpl. by destruct (should_inline _).
  - intros name. pose proof (holds_insert sha256 U no_collision m _ _ _ _ Hm He Hn (Hh name)) as Hi.
    rewrite fill_row_at. destruct (refers (MkDigest name) (entry a)) eqn:Hr; [|exact Hi].
    apply carries_spec in Hr as [Hl <-]. rewrite (Hready a) in Hi |- * by (done || left).
    unfold count_reference, kept in Hi |- *. by destruct (t_blobs w !! _).
  - intros name. rewrite fill_row_at. destruct (refers (MkDigest name) (entry a)) eqn:Hr; [|apply Hrow].
    intros _. apply carries_spec in Hr as [Hl <-]. rewrite (Hready a) by (done || left). by eexists.
  - intros name [Hs|Hx]%Hfile; rewrite fill_row_at; destruct (refers (MkDigest name) (entry a)) eqn:Hr;
      [left; by eexists|by left|left; by eexists|right].
    apply Exists_cons in Hx as [Hx|Hx]; [|done]. unfold carries in Hx. by rewrite Hr in Hx.
  - intros b Hb. apply Hready. by right.
  - by apply map_Forall_insert_2.
Qed.

Lemma fill_all d s artifacts : forall w f m,
  Rel w s -> Filling w f m artifacts ->
  Forall (fun a => EntryOk (origin_id a) (entry a)) artifacts ->
  Forall (fun a => is_Some (tasks s !! am_task_id (oa_meta a))) artifacts ->
  Forall (fun a => m !! origin_id a = None) artifacts -> NoDup (origin_id <$> artifacts) ->
  exists w', for_each (store_origin_artifact violation) (pairs artifacts) (MkConn d w) = (Ok tt, MkConn d w')
    /\ Rel w' s /\ Filling w' f (store_all sha256 artifacts m) [].
Proof using no_collision.
  induction artifacts as [|a l IH]; intros w f m HR HF He Ht Hn Hnd; [by exists w|].
  apply Forall_cons in He as [Hea He], Ht as [Hta Ht], Hn as [Hna Hn]. apply NoDup_cons in Hnd as [Hnew Hnd].
  destruct (fill_run a d w m s HR Hta (fl_artifacts _ _ _ _ HF) Hna) as [Hrun HR'].
  destruct (IH (fill_rows a w) f (<[origin_id a := entry a]> m)) as (w' & Hw' & HRw & HFw);
    [done|by apply filling_step|done|done| |done|].
  - rewrite Forall_forall in Hn |- *. intros b Hb. rewrite lookup_insert_ne; [by apply Hn|].
    intros Heq. apply Hnew. rewrite Heq. apply list_elem_of_fmap. by exists b.
  - exists w'. split; [|done]. simpl for_each. by erewrite bind_ok by exact Hrun.
Qed.

(** *** The transitions *)

Lemma log_transition_run d w s i e t to :
  Rel w s -> tasks s !! i = Some t -> log_length s i < i64_max ->
  exists w', log_transition violation i e (tr_status t) to (MkConn d w) = (Ok tt, MkConn d w')
    /\ Rel w' (log_step i e t (with_status t to) s)
    /\ t_artifacts w' = t_artifacts w /\ t_blobs w' = t_blobs w.
Proof using Type.
  intros HR Ht Hlen. destruct (rel_task_wf _ _ HR _ _ Ht) as [Hid Hr].
  pose proof (rel_set_task _ _ i t (row_with_status to) (with_status t to) HR Ht eq_refl Hid Hr) as HR1.
  assert (Hs : is_Some (tasks (set_task i (with_status t to) s) !! i))
    by (simpl; rewrite lookup_insert_eq; by eexists).
  eexists. split; [|split; [unfold log_step, commit; rewrite put_lease_id;
                            exact (rel_append _ _ i e (Some (tr_status t)) to HR1 Hs Hlen)|done]].
  unfold log_transition. erewrite bind_ok by by apply read_next_sequence.
  erewrite (bind_ok (update_task_status_with_executor _ _ _)) by done.
  exact (run_insert_event _ d _ _ i e (Some (tr_status t)) to HR1 Hs Hlen).
Qed.

Lemma log_step_facts i e t t' s :
  tasks (log_step i e t t' s) = <[i := t']> (tasks s)
  /\ terminal_results (log_step i e t t' s) = terminal_results s
  /\ log_length (log_step i e t t' s) i = log_length s i + 1.
Proof using Type.
  unfold log_step, log_length. rewrite commit_tasks, commit_events, lookup_insert_eq. simpl.
  rewrite length_app. simpl. split; [done|]. split; [by destruct (leases s !! i)|lia].
Qed.

Lemma result_run d w s i r :
  Rel w s -> rs_task_id r = i -> is_Some (tasks s !! i) -> terminal_results s !! i = None ->
  insert_terminal_result_only violation r (MkConn d w)
  = (Ok tt, MkConn d (on_results (insert (as_str i) (result_row r)) w)).
Proof using Type.
  intros HR Hi [t Ht] Hn. unfold insert_terminal_result_only, execute, bind, get, insert_result_row.
  cbn [working committed]. rewrite Hi, (rel_results _ _ HR), lookup_as_table, Hn. simpl.
  by destruct (task_row_present _ _ _ _ HR Ht) as [x ->].
Qed.

Lemma start_run d w s i t :
  Rel w s -> tasks s !! i = Some t -> log_length s i < i64_max ->
  exists w', (if bool_decide (tr_status t = Pending)
              then log_transition violation i TaskStarted Pending Running ;;; ret Running
              else ret (tr_status t)) (MkConn d w) = (Ok (started (tr_status t)), MkConn d w')
    /\ Rel w' (start_if_pending i t s) /\ t_artifacts w' = t_artifacts w /\ t_blobs w' = t_blobs w.
Proof using Type.
  intros HR Ht Hlen. unfold started, start_if_pending. case_bool_decide as Hp; [|by exists w].
  destruct (log_transition_run d w s i TaskStarted t Running HR Ht Hlen) as (w' & Hrun & HR' & Htab).
  rewrite Hp in Hrun. exists w'. split; [|done]. by erewrite bind_ok by exact Hrun.
Qed.

Lemma start_facts i t s :
  tasks s !! i = Some t ->
  tasks (start_if_pending i t s) !! i = Some (with_status t (started (tr_status t)))
  /\ terminal_results (start_if_pending i t s) = terminal_results s
  /\ log_length (start_if_pending i t s) i <= log_length s i + 1.
Proof using Type.
  intros Ht. unfold start_if_pending, started. case_bool_decide as Hp.
  - destruct (log_step_facts i TaskStarted t (with_status t Running) s) as (-> & -> & ->).
    rewrite lookup_insert_eq. split; [done|]. split; [done|lia].
  - split; [by destruct t|]. split; [done|lia].
Qed.

Lemma start_dom i t s :
  tasks s !! i = Some t -> dom (tasks (start_if_pending i t s)) = dom (tasks s).
Proof using Type.
  intros Ht%elem_of_dom_2. unfold start_if_pending. case_bool_decide; [|done].
  rewrite (proj1 (log_step_facts _ _ _ _ _)), dom_insert_L.
  by apply subseteq_union_1_L, singleton_subseteq_l.
Qed.

Lemma apply_tasks result t tr s :
  tasks (apply_state result t tr s)
  = <[rs_task_id result := finished t result]> (tasks (start_if_pending (rs_task_id result) t s)).
Proof using Type. exact (proj1 (log_step_facts _ _ _ _ _)). Qed.

Lemma filling_ext w w' f m rest :
  t_artifacts w' = t_artifacts w -> t_blobs w' = t_blobs w -> Filling w f m rest -> Filling w' f m rest.
Proof using Type. intros Ha Hb [? ? ? ? ? ?]. split; by rewrite ?Ha, ?Hb. Qed.

Section apply.
Context (d : Db) (s : InMemoryState) (result : TerminalResultRecord) (t : TaskRecord)
  (artifacts : list OriginResultArtifact).
Abbreviation i := (rs_task_id result).
Context (HR : Rel d s) (Ht : tasks s !! i = Some t) (Hlen : log_length s i + 1 < i64_max).

Lemma apply_refused e :
  store_transition (started (tr_status t)) (rs_terminal_status result) = Err e ->
  exists w, apply_result violation t result (pairs artifacts) (MkConn d d) = (Err e, MkConn d w).
Proof using HR Ht Hlen.
  intros Htr. destruct (start_run d d s i t HR Ht) as (w & Hrun & _); [lia|].
  exists w. unfold apply_result. erewrite bind_ok by exact Hrun. by rewrite Htr.
Qed.

Context (tr : TaskTransition) (f : gmap BlobPath bytes) (m : gmap ArtifactId Entry).
Context (Htr : store_transition (started (tr_status t)) (rs_terminal_status result) = Ok tr).
Context (Hnone : terminal_results s !! i = None) (HF : Filling d f m artifacts).
Context (He : Forall (fun a => EntryOk (origin_id a) (entry a)) artifacts).
Context (Htask : Forall (fun a => am_task_id (oa_meta a) = i) artifacts).
Context (Hfree : Forall (fun a => m !! origin_id a = None) artifacts)
  (Hnd : NoDup (origin_id <$> artifacts)).

Lemma apply_run :
  exists w, apply_result violation t result (pairs artifacts) (MkConn d d) = (Ok tt, MkConn d w)
    /\ Rel w (apply_state result t tr s) /\ Filling w f (store_all sha256 artifacts m) [].
Proof using HR Ht Hlen Htr Hnone HF He Htask Hfree Hnd no_collision.
  destruct (start_run d d s i t HR Ht) as (w1 & Hrun1 & HR1 & Ha1 & Hb1); [lia|].
  destruct (start_facts i t s Ht) as (Ht1 & Hres1 & Hlen1).
  destruct (store_transition_shape _ _ _ Htr) as [Hfrom Hto].
  destruct (log_transition_run d w1 _ i (tt_event_type tr) _ (rs_terminal_status result) HR1 Ht1)
    as (w2 & Hrun2 & HR2 & Ha2 & Hb2); [lia|].
  set (s2 := log_step i (tt_event_type tr) _ _ _) in HR2.
  assert (Hi2 : is_Some (tasks s2 !! i)).
  { unfold s2. rewrite (proj1 (log_step_facts _ _ _ _ _)), lookup_insert_eq. by eexists. }
  destruct (fill_all d s2 artifacts w2 f m HR2) as (w3 & Hrun3 & HR3 & HF3); [|done| |done|done|].
  - apply (filling_ext d); [by rewrite Ha2|by rewrite Hb2|done].
  - eapply Forall_impl; [exact Htask|]. by intros a ->.
  - eexists. unfold apply_result. split; [|split; [exact (rel_set_result _ _ i result HR3 eq_refl)|]].
    + erewrite bind_ok by exact Hrun1. rewrite Htr, bind_lift_ok.
      rewrite Hfrom. erewrite bind_ok by exact Hrun2. erewrite bind_ok by exact Hrun3.
      apply (result_run d w3 s2 i result HR3 eq_refl Hi2). unfold s2.
      by rewrite (proj1 (proj2 (log_step_facts _ _ _ _ _))), Hres1.
    + by apply (filling_ext w3).
Qed.
End apply.

(** ** The reads *)

(** sha2 prints 64 lower-case hexadecimal digits. *)
Context (sha256_hex : forall b, digest_new (sha256 b) = Ok (MkDigest (sha256 b))).

Lemma events_run d w s i :
  Rel w s -> (let! rows := query (select_events (as_str i)) in lift (try_map row_to_event rows)) (MkConn d w)
             = ((Ok (event_log s i) : StoreResult _), MkConn d w).
Proof using Type.
  intros HR. unfold query, bind, get, ret, lift, event_log. cbn [working]. rewrite (rel_events _ _ HR).
  destruct (events s !! i) as [evs|] eqn:He; [|done]. simpl. by rewrite (decode_events _ _ _ _ HR He).
Qed.

Lemma reason_run d w s i t :
  Rel w s -> tasks s !! i = Some t ->
  remote_result_terminal_reason_with_executor t (MkConn d w) = (terminal_reason s t, MkConn d w).
Proof using Type.
  intros HR Ht. unfold remote_result_terminal_reason_with_executor, terminal_reason.
  destruct (negb _); [done|]. pose proof (events_run d w s (tr_id t) HR) as H.
  unfold query, bind, get, ret, lift in *. cbn [working] in *. injection H as ->.
  by destruct (replay_task_from_snapshot_and_events _ _).
Qed.

Lemma same_artifacts_perm l l' records : l ≡ₚ l' -> same_artifacts l records = same_artifacts l' records.
Proof using Type.
  intros Hp. unfold same_artifacts. rewrite (Permutation_length Hp). f_equal.
  apply eq_true_iff_eq. rewrite !forallb_forall. by setoid_rewrite Hp.
Qed.

Lemma free_ids_free m records artifacts :
  records = (fun a => (entry a).1) <$> artifacts -> free_ids m records = Ok tt ->
  Forall (fun a => m !! origin_id a = None) artifacts.
Proof using Type.
  intros ->. induction artifacts as [|a l IH]; [by constructor|]. simpl. unfold require.
  case_bool_decide as Hn; [|done]. intros Hl. constructor; [done|by apply IH].
Qed.

Section reads.
Context (d : Db) (f : gmap BlobPath bytes) (c : Catalog) (s : InMemoryState).
Abbreviation dk := (MkDisk (MkConn d d) f).
Context (HD : DiskRel dk c s).

Lemma stored_run i :
  exists l, fetch_artifacts_for_task_with_executor i (MkConn d d) = (Ok l, MkConn d d)
            /\ l ≡ₚ task_records i (stored c).
Proof using HD sha256_hex.
  pose proof (dr_artifacts _ _ _ _ _ _ HD) as Ha. pose proof (dr_ok _ _ _ _ _ _ HD) as Hok. cbn in Ha.
  pose proof (artifact_rows_of_task (stored c) i) as Hp. rewrite <- Ha in Hp.
  apply Permutation_map_inv in Hp as (l & Hl & Hperm).
  exists ((fun ie : ArtifactId * Entry => ie.2.1) <$> l). split.
  - unfold fetch_artifacts_for_task_with_executor, query, bind, get, ret, lift. cbn [working].
    change (select_task_artifacts (as_str i) d)
      with (select_task_artifacts (as_str i) (on_artifacts (fun _ => t_artifacts d) empty_db)). rewrite Hl.
    rewrite (try_map_image row_to_artifact _ (fun ie : ArtifactId * Entry => ie.2.1)); [done|].
    intros [j e] Hin. apply (row_to_artifact_row sha256 sha256_hex U), Hok. apply elem_of_map_to_list.
    rewrite <- Hperm in Hin. by apply list_elem_of_filter in Hin as [_ Hin].
  - rewrite <- Hperm. unfold task_records. rewrite <- list_fmap_compose, filter_fmap_list. done.
Qed.

Lemma refuse_run records :
  for_each refuse_existing_artifact records (MkConn d d) = (free_ids (stored c) records, MkConn d d).
Proof using HD sha256_hex.
  induction records as [|r l IH]; [done|]. simpl.
  assert (refuse_existing_artifact r (MkConn d d)
          = (require (bool_decide (stored c !! ar_artifact_id r = None))
               (StoreError.OriginResultArtifactConflict (ar_artifact_id r)), MkConn d d)) as Hr.
  { unfold refuse_existing_artifact. erewrite bind_ok
      by (apply (fetch_artifact sha256 sha256_hex U (stored c)); apply HD).
    by destruct (stored c !! ar_artifact_id r). }
  unfold bind. rewrite Hr. by destruct (require _ _).
Qed.

Lemma get_artifact_reads i x : (get_artifact sha256 row_not_found i blob_dir x).2 = x.
Proof using Type.
  destruct x as [[a b] g]. unfold get_artifact, read_verified_blob, read_blob_file, bind, on_conn, get, lift,
    throw, ret, fetch_artifact_optional_from_pool, pool_query. simpl. unfold bind, get, ret, lift. simpl.
  repeat case_match; simplify_eq/=; done.
Qed.

Lemma check_run artifacts :
  for_each (check_persisted sha256 row_not_found blob_dir) artifacts dk = (same_contents (stored c) artifacts, dk).
Proof using HD no_collision sha256_hex.
  induction artifacts as [|a l IH]; [done|]. simpl.
  destruct (disk_get_sim sha256 sha256_hex U no_collision blob_dir row_not_found (origin_id a) dk c s HD)
    as [Hg _]. pose proof (get_artifact_reads (origin_id a) dk) as Hs.
  assert (check_persisted sha256 row_not_found blob_dir a dk
          = (let? e := ok_or (stored c !! origin_id a) (StoreError.ArtifactNotFound (origin_id a)) in
             require (bool_decide (e.2 = oa_content a)) (StoreError.OriginResultArtifactConflict (origin_id a)), dk))
    as Hc.
  { unfold check_persisted, bind. change (am_artifact_id (oa_meta a)) with (origin_id a).
    destruct (get_artifact _ _ (origin_id a) blob_dir dk) as [r x]. simpl in Hg, Hs. subst x r.
    destruct (stored c !! origin_id a) as [[r b]|]; simpl; [|done]. by case_bool_decide. }
  unfold bind. rewrite Hc. destruct (stored c !! origin_id a) as [e|]; simpl; [|done].
  by destruct (require _ _).
Qed.
End reads.

(** ** The whole ingestion *)

Definition untouched (dk dk' : Disk) : Prop :=
  committed (conn dk') = committed (conn dk) /\ files dk' = files dk.

(** What a run must have done when [judge] decided [v]. *)
Definition carries_out (result : TerminalResultRecord) (artifacts : list OriginResultArtifact)
    (s : InMemoryState) (c : Catalog) (dk : Disk) (v : StoreResult Verdict)
    (p : StoreResult RemoteResultIngestOutcome * Disk) : Prop :=
  match v with
  | Err e => p.1 = Err e /\ untouched dk p.2
  | Ok (VRepeat t) => p.1 = Ok (Duplicate t) /\ untouched dk p.2
  | Ok (VSettle t reason existing) => p.1 = Ok (SettledTerminal t reason existing) /\ untouched dk p.2
  | Ok (VApply t tr) =>
      p.1 = Ok (Applied (finished t result))
      /\ DiskRel p.2 (MkCatalog (known c) (store_all sha256 artifacts (stored c)))
           (apply_state result t tr s)
  end.

Section ingest.
Context (result : TerminalResultRecord) (artifacts : list OriginResultArtifact) (executor : PeerId).
Context (s : InMemoryState) (c : Catalog) (d0 w0 : Db) (f : gmap BlobPath bytes).
Abbreviation i := (rs_task_id result).
Context (HD : DiskRel (MkDisk (MkConn d0 w0) f) c s) (Hreport : report_ok i artifacts)
  (Hlen : log_length s i + 1 < i64_max).
Abbreviation dk0 := (MkDisk (MkConn d0 w0) f).
Abbreviation judged := (carries_out result artifacts s c dk0).

Lemma judged_err e w : judged (Err e) (Err e, MkDisk (MkConn d0 w) f).
Proof using Type. done. Qed.

Lemma judged_lift {A} (r : StoreResult A) (v : A -> StoreResult Verdict) k w :
  (forall a, r = Ok a -> judged (v a) (k a (MkDisk (MkConn d0 w) f))) ->
  judged (match r with Ok a => v a | Err e => Err e end) (bind (lift r) k (MkDisk (MkConn d0 w) f)).
Proof using Type. intros H. destruct r as [a|e]; [by apply H|done]. Qed.

Lemma judged_require b e (v : StoreResult Verdict) m w :
  (b = true -> judged v (m (MkDisk (MkConn d0 w) f))) ->
  judged (match require b e with Ok _ => v | Err e => Err e end)
    ((if negb b then throw e else m) (MkDisk (MkConn d0 w) f)).
Proof using Type. intros H. destruct b; [by apply H|done]. Qed.

(** A read of the transaction that may fail. *)
Lemma judged_read {A} (m : C A) (r : StoreResult A) (v : A -> StoreResult Verdict) k w :
  m (MkConn d0 w) = (r, MkConn d0 w) ->
  (forall a, r = Ok a -> judged (v a) (k a (MkDisk (MkConn d0 w) f))) ->
  judged (match r with Ok a => v a | Err e => Err e end) (bind (on_conn m) k (MkDisk (MkConn d0 w) f)).
Proof using Type.
  intros Hm H. unfold bind, on_conn. cbn [conn files]. rewrite Hm. destruct r as [a|e]; [by apply H|done].
Qed.

Lemma judged_reads {A} (m : C A) (a : A) (v : StoreResult Verdict) k w :
  m (MkConn d0 w) = (Ok a, MkConn d0 w) -> judged v (k a (MkDisk (MkConn d0 w) f)) ->
  judged v (bind (on_conn m) k (MkDisk (MkConn d0 w) f)).
Proof using Type. intros Hm H. unfold bind, on_conn. cbn [conn files]. by rewrite Hm. Qed.

Context (records : list ArtifactRecord)
  (Hv : validate_origin_result_artifacts sha256 i artifacts = Ok records).
Context (t : TaskRecord) (Ht : tasks s !! i = Some t).
Abbreviation dk := (MkDisk (MkConn d0 d0) f).

Lemma disk_begun : DiskRel dk c s.
Proof using HD. by destruct HD. Qed.

Lemma repeat_run :
  judged (let? _ := require (same_artifacts (task_records i (stored c)) records)
                      (StoreError.TerminalResultConflict i) in
          let? _ := same_contents (stored c) artifacts in Ok (VRepeat t))
    ((let! stored := on_conn (fetch_artifacts_for_task_with_executor i) in
      if negb (same_artifacts stored records) then throw (StoreError.TerminalResultConflict i)
      else
        on_conn commit_tx ;;;
        for_each (check_persisted sha256 row_not_found blob_dir) artifacts ;;;
        let! task := on_conn (get_task i) in
        ret (Duplicate task)) dk).
Proof using HD Ht no_collision sha256_hex.
  destruct (stored_run d0 f c s disk_begun i) as (l & Hl & Hp). eapply judged_reads; [exact Hl|].
  rewrite <- (same_artifacts_perm _ _ records Hp). apply judged_require. intros _.
  eapply judged_reads; [done|].
  unfold bind at 1. rewrite (check_run d0 f c s disk_begun).
  destruct (same_contents (stored c) artifacts) as [[]|e]; [|done].
  eapply judged_reads; [by rewrite (pool_get_task _ _ s) by apply HD; rewrite Ht|]. done.
Qed.

Lemma validated :
  records = (fun a => (entry a).1) <$> artifacts /\ Forall (ArtifactOk i 0) artifacts
  /\ Forall (fun a => oa_content a ∈ U) artifacts
  /\ Forall (fun a => EntryOk (origin_id a) (entry a)) artifacts
  /\ NoDup (origin_id <$> artifacts).
Proof using Hv Hreport no_collision.
  destruct (validate_inv _ _ _ _ _ Hv (Z.le_refl 0)) as (-> & Hall & _). split; [done|]. split; [done|].
  unfold report_ok in Hreport. split; [eapply Forall_impl; [exact Hreport|naive_solver]|]. split.
  - rewrite Forall_forall in Hall, Hreport |- *. intros a Hin. destruct (Hreport a Hin) as (Hu & _ & Hm).
    by apply (artifact_entry_ok i 0); [apply Hall|..].
  - by apply (origin_ids_distinct i artifacts _ Hv).
Qed.

Lemma apply_branch :
  terminal_results s !! i = None -> free_ids (stored c) records = Ok tt ->
  judged (let? transition := store_transition (started (tr_status t)) (rs_terminal_status result) in
          Ok (VApply t transition))
    ((let! prepared := prepare_blobs sha256 blob_dir ∅ [] (zip artifacts records) in
      on_error (on_conn (apply_result violation t result (zip artifacts records)))
        (roll_back_all prepared) ;;;
      on_conn commit_tx ;;;
      let! task := on_conn (get_task i) in
      ret (Applied task)) dk).
Proof using HD Hreport Hlen Hv Ht no_collision.
  intros Hnone Hfree. destruct validated as (-> & Hall & HU & He & Hnd). rewrite zip_pairs.
  pose proof HD as [HR Hk Ha Hb Hok]. cbn [conn committed files] in *.
  destruct (prepare_blobs_run (stored c) d0 d0 f artifacts ∅ [] f Hok HU Hb (preparing_start _ _ _))
    as (prepared & Hprep & Hundo). erewrite bind_ok by exact Hprep.
  destruct (store_transition (started (tr_status t)) (rs_terminal_status result)) as [tr|e] eqn:Htr.
  - destruct (apply_run d0 s result t artifacts HR Ht Hlen tr (files_with artifacts f) (stored c) Htr Hnone)
      as (w & Hrun & HRw & HFw); [by apply filling_start|done| |by eapply free_ids_free|done|].
    { eapply Forall_impl; [exact Hall|]. by intros a [_ ? _ _ _]. }
    erewrite (bind_ok (on_error _ _)) by (unfold on_error, on_conn; cbn [conn files]; by rewrite Hrun).
    assert (Htask : tasks (apply_state result t tr s) !! i = Some (finished t result))
      by (rewrite apply_tasks; apply lookup_insert_eq).
    erewrite (bind_ok (on_conn commit_tx)) by done. cbn [conn files].
    erewrite bind_ok.
    2:{ unfold on_conn. cbn [conn files committed working].
        rewrite (pool_get_task _ _ _ _ HRw), Htask. reflexivity. }
    split; [done|]. split; cbn [conn committed files working known stored].
    + exact HRw.
    + rewrite Hk, apply_tasks, dom_insert_L, start_dom by done. apply elem_of_dom_2 in Ht.
      by rewrite subseteq_union_1_L by by apply singleton_subseteq_l.
    + apply HFw.
    + by apply filling_end.
    + apply HFw.
  - destruct (apply_refused d0 s result t artifacts HR Ht Hlen e Htr) as (w & Hrun).
    erewrite (bind_err (on_error _ _)); [split; [done|]|].
    2:{ unfold on_error, on_conn. cbn [conn files]. rewrite Hrun.
        erewrite bind_ok by apply roll_back_run. reflexivity. }
    split; [done|]. exact Hundo.
Qed.
End ingest.

Theorem ingest_run result artifacts executor s c d w f :
  DiskRel (MkDisk (MkConn d w) f) c s -> report_ok (rs_task_id result) artifacts ->
  log_length s (rs_task_id result) + 1 < i64_max ->
  carries_out result artifacts s c (MkDisk (MkConn d w) f)
    (judge sha256 result artifacts executor s (stored c))
    (ingest_remote_result_with_artifacts sha256 violation row_not_found result artifacts executor blob_dir
       (MkDisk (MkConn d w) f)).
Proof using no_collision sha256_hex.
  intros HD Hreport Hlen. pose proof (disk_begun _ _ _ _ _ HD) as HD1.
  pose proof (dr_rel _ _ _ _ _ _ HD) as HR. cbn in HR.
  unfold judge, ingest_remote_result_with_artifacts.
  apply judged_lift. intros [] _. apply judged_require. intros _.
  apply judged_lift. intros records Hv.
  erewrite (bind_ok (on_conn begin)) by done. cbn [conn files committed].
  eapply judged_reads; [by apply read_context|]. apply judged_lift. intros context _.
  apply judged_require. intros _.
  eapply judged_read; [by apply fetch_task|]. intros t Ht. apply ok_or_ok in Ht.
  unfold judge_task. eapply judged_read; [exact (reason_run _ _ _ _ _ HR Ht)|]. intros reason _.
  eapply judged_reads; [by apply read_result|].
  destruct (bool_decide (reason = None) && bool_decide (terminal_results s !! _ = Some result));
    [by eapply repeat_run|].
  eapply judged_read; [by apply (refuse_run d f c s)|]. intros [] Hfree.
  destruct (settlement_reason reason _) as [why|]; [|destruct (terminal_results s !! _) eqn:Hres; [done|]].
  - destruct records; [|done]. eapply judged_reads; done.
  - by eapply apply_branch.
Qed.
End remote.
