(* ===== verification/RemoteFacts.v ===== *)
(** * What the ingestion of remote results guarantees

    A report of a remote executor is applied whole or not at all, and once. *)
From S2P Require Import Prelude Ident Text Lifecycle StoreModel Api MemStore MemSpec MemInv Samples SqlStore SqlRel SqlRefine SqlSession Artifacts ArtifactSpec ArtifactRefine ArtifactFacts RemoteResults RemoteSpec RemoteRefine.
From stdpp Require Import options.
From Stdlib Require Import Strings.Byte.

(** ** A task that is not finished has no ending in its log *)

Definition ends (e : TaskEventRecord) : bool := denied_event e || bool_decide (is_Some (reason_of_event e)).

Definition open_logs (s : InMemoryState) : Prop :=
  forall i t evs, tasks s !! i = Some t -> events s !! i = Some evs ->
    is_terminal (tr_status t) = false -> Forall (fun e => ends e = false) evs.

Lemma lifecycle_open i t l e t' l' n :
  lifecycle i t l e t' l' -> is_terminal (tr_status t') = false ->
  ends (MkEvent i n e (Some (tr_status t)) (tr_status t')) = false.
Proof.
  intros H Ht. unfold ends, denied_event, reason_of_event. simpl.
  destruct H as [lease Hs|Hs|Hs|dl reason Hs Hdl|Hs|Hs|reason Hs|Hs| |e legacy Hl Hv|Hs]; simpl in *; try done.
  by destruct (tr_status t), e; simplify_eq/=.
Qed.

Lemma open_logs_step s s' : step s s' -> Inv s -> open_logs s -> open_logs s'.
Proof.
  intros Hst HI Ho. inversion Hst as [t e c _ Hs Hn|i t e t' l' Ht Hl|i t l x|i t c|i t r Ht|i Hn]; subst.
  - rewrite (accepted_eq _ _ _ _ HI Hs Hn). intros j u evs. simpl.
    intros [[<- <-]|[Hj Hu]]%lookup_insert_Some [[Hj' <-]|[Hj' He]]%lookup_insert_Some; try done.
    + intros _. by repeat constructor.
    + intros Hopen. by eapply Ho.
  - intros j u evs. rewrite commit_tasks, commit_events.
    intros [[<- <-]|[Hj Hu]]%lookup_insert_Some [[Hj' <-]|[Hj' He]]%lookup_insert_Some; try done.
    + intros Hopen. destruct (is_terminal (tr_status t)) eqn:Hterm.
      { rewrite (lifecycle_terminal _ _ _ _ _ _ Hl Hterm) in Hopen. congruence. }
      apply Forall_app. split; [|constructor; [by eapply lifecycle_open|constructor]].
      destruct (events s !! i) as [old|] eqn:He; [by eapply Ho|constructor].
    + intros Hopen. by eapply Ho.
  - exact Ho.
  - exact Ho.
  - unfold put_result. destruct (make_outbox r); exact Ho.
  - exact Ho.
Qed.

Lemma open_logs_reachable s : steps empty_state s -> open_logs s.
Proof.
  intros Hs. enough (Inv s /\ open_logs s) by tauto. revert s Hs.
  apply (rtc_ind_r (fun s => Inv s /\ open_logs s) empty_state).
  - split; [apply Inv_empty|]. intros i t evs. simpl. by rewrite lookup_empty.
  - intros s1 s2 _ Hst [HI Ho]. split; [by eapply Inv_step|by eapply open_logs_step].
Qed.

(** ** The catalog after a result was applied *)

Section remote_facts.
Context (sha256 : bytes -> string).
Abbreviation entry := (origin_entry sha256).
Abbreviation store_all := (store_all sha256).

Lemma store_all_other artifacts k : forall m,
  k ∉ origin_id <$> artifacts -> store_all artifacts m !! k = m !! k.
Proof using Type.
  induction artifacts as [|a l IH]; intros m Hk; [done|]. csimpl in Hk.
  apply not_elem_of_cons in Hk as [Hne Hk]. simpl. rewrite IH by done. by rewrite lookup_insert_ne.
Qed.

Lemma store_all_lookup artifacts a : forall m,
  NoDup (origin_id <$> artifacts) -> a ∈ artifacts -> store_all artifacts m !! origin_id a = Some (entry a).
Proof using Type.
  induction artifacts as [|b l IH]; intros m Hnd Hin; [by apply elem_of_nil in Hin|].
  csimpl in Hnd. apply NoDup_cons in Hnd as [Hnew Hnd]. simpl. apply elem_of_cons in Hin as [->|Hin].
  - rewrite store_all_other by done. apply lookup_insert_eq.
  - by apply IH.
Qed.

Lemma same_contents_stored artifacts m :
  (forall a, a ∈ artifacts -> m !! origin_id a = Some (entry a)) -> same_contents m artifacts = Ok tt.
Proof using Type.
  induction artifacts as [|a l IH]; intros Ha; [done|]. simpl. rewrite Ha by left. simpl.
  rewrite bool_decide_true by done. simpl. apply IH. intros b Hb. apply Ha. by right.
Qed.

Lemma task_records_insert i m k e :
  m !! k = None -> ar_task_id e.1 = i -> task_records i (<[k := e]> m) ≡ₚ e.1 :: task_records i m.
Proof using Type.
  intros Hk He. unfold task_records. rewrite map_to_list_insert by done. csimpl.
  by rewrite filter_cons_True by done.
Qed.

Lemma task_records_store_all i artifacts : forall m,
  Forall (fun a => am_task_id (oa_meta a) = i) artifacts ->
  Forall (fun a => m !! origin_id a = None) artifacts -> NoDup (origin_id <$> artifacts) ->
  task_records i (store_all artifacts m) ≡ₚ ((fun a => (entry a).1) <$> artifacts) ++ task_records i m.
Proof using Type.
  induction artifacts as [|a l IH]; intros m Ht Hn Hnd; [done|].
  apply Forall_cons in Ht as [Hta Ht], Hn as [Hna Hn]. csimpl in Hnd. apply NoDup_cons in Hnd as [Hnew Hnd].
  simpl. rewrite IH; [|done| |done].
  - rewrite task_records_insert by done. by rewrite Permutation_middle.
  - rewrite Forall_forall in Hn |- *. intros b Hb. rewrite lookup_insert_ne; [by apply Hn|].
    intros Heq. apply Hnew. rewrite Heq. apply list_elem_of_fmap. by exists b.
Qed.

Lemma same_artifacts_app records old :
  same_artifacts (records ++ old) records = bool_decide (old = []).
Proof using Type.
  unfold same_artifacts. case_bool_decide as Ho.
  - subst. rewrite app_nil_r, Nat.eqb_refl. apply forallb_forall. intros r Hr.
    apply bool_decide_true. by apply list_elem_of_In.
  - rewrite (proj2 (Nat.eqb_neq _ _)); [done|]. rewrite length_app. destruct old; simpl; [done|lia].
Qed.

(** ** The task after a result was applied *)

Lemma store_transition_finishes st result tr :
  terminal_result_validate result = Ok tt ->
  store_transition (started st) (rs_terminal_status result) = Ok tr ->
  started st = Running /\ is_terminal st = false
  /\ (rs_terminal_status result = Completed
      \/ rs_terminal_status result = Failed /\ tt_event_type tr = TaskFailed).
Proof using Type.
  unfold terminal_result_validate, store_transition. destruct st, (rs_terminal_status result); simpl; try done.
  all: intros _ [= <-]; naive_solver.
Qed.

(** A log step keeps a log in order. *)
Lemma log_step_log i e t t' l' s evs :
  events s !! i = Some evs -> log_ok i t evs -> Forall (fun e => ends e = false) evs ->
  lifecycle i t (leases s !! i) e t' l' -> (tr_dead_lettered t = true -> tr_status t = Failed) ->
  ends (MkEvent i (Z.of_nat (length evs) + 1) e (Some (tr_status t)) (tr_status t')) = false ->
  exists evs', events (log_step i e t t' s) !! i = Some evs' /\ log_ok i t' evs'
    /\ Forall (fun e => ends e = false) evs'.
Proof using Type.
  intros He Hlog Hopen Hl Hd Hend. unfold log_step. rewrite commit_events, lookup_insert_eq, He.
  eexists. split; [done|]. split; [by eapply log_ok_snoc|].
  apply Forall_app. split; [done|]. by constructor.
Qed.

Lemma open_log_reads evs :
  Forall (fun e => ends e = false) evs -> denied evs = false /\ last_reason evs = None.
Proof using Type.
  intros H. split.
  - unfold denied. apply not_true_is_false. intros (e & Hin & He)%existsb_exists.
    rewrite Forall_forall in H. apply list_elem_of_In, H in Hin. unfold ends in Hin. by rewrite He in Hin.
  - unfold last_reason. destruct (omap reason_of_event (reverse evs)) as [|r l] eqn:Hr; [done|].
    assert (Hin : r ∈ omap reason_of_event (reverse evs)) by (rewrite Hr; left).
    apply list_elem_of_omap in Hin as (e & Hin & He). rewrite elem_of_reverse in Hin.
    rewrite Forall_forall in H. apply H in Hin. unfold ends in Hin. rewrite He in Hin.
    by rewrite bool_decide_true, orb_true_r in Hin by by eexists.
Qed.

Lemma start_log i t s evs :
  events s !! i = Some evs -> log_ok i t evs -> Forall (fun e => ends e = false) evs ->
  (tr_dead_lettered t = true -> tr_status t = Failed) ->
  exists evs', events (start_if_pending i t s) !! i = Some evs'
    /\ log_ok i (with_status t (started (tr_status t))) evs' /\ Forall (fun e => ends e = false) evs'.
Proof using Type.
  intros He Hlog Hopen Hd. unfold start_if_pending, started. case_bool_decide as Hp.
  - apply (log_step_log i TaskStarted t (with_status t Running) (leases s !! i) s evs);
      [done|done|done|by apply lc_start|done|by rewrite Hp].
  - exists evs. by rewrite with_status_same.
Qed.

Lemma applied_reason s t tr result :
  steps empty_state s -> tasks s !! rs_task_id result = Some t ->
  terminal_result_validate result = Ok tt ->
  store_transition (started (tr_status t)) (rs_terminal_status result) = Ok tr ->
  terminal_reason (apply_state result t tr s) (finished t result) = Ok None.
Proof using Type.
  intros Hs Ht Hv Htr. destruct (store_transition_finishes _ _ _ Hv Htr) as (Hrun & Hopen & Hend).
  unfold terminal_reason. simpl (tr_status _). destruct Hend as [->|[Hf Hev]]; [done|].
  rewrite Hf. cbn [negb]. rewrite bool_decide_true by done. cbn [negb].
  pose proof (Inv_steps _ _ Inv_empty Hs) as HI. set (i := rs_task_id result) in *.
  destruct (proj2 (inv_events _ HI i)) as [evs He]; [by eexists|].
  assert (Hdead : tr_dead_lettered t = false).
  { destruct (tr_dead_lettered t) eqn:Hd; [|done]. destruct (inv_dead _ HI _ _ Ht Hd) as [Hst _].
    by rewrite Hst in Hopen. }
  destruct (start_log i t s evs He (inv_log _ HI _ _ _ Ht He)) as (evs1 & He1 & Hlog1 & Hopen1);
    [by eapply open_logs_reachable|by rewrite Hdead|].
  set (t1 := with_status t (started (tr_status t))) in *.
  destruct (log_step_log i TaskFailed t1 (finished t result) None (start_if_pending i t s) evs1 He1 Hlog1 Hopen1)
    as (evs2 & He2 & Hlog2 & Hopen2).
  { unfold finished. rewrite Hf. apply (lc_fail i t1 _ (tr_dead_lettered t) (tr_dead_letter_reason t));
      [done|by left]. }
  { simpl. by rewrite Hdead. }
  { unfold t1. simpl. by rewrite Hrun. }
  assert (Hlogs : event_log (apply_state result t tr s) (tr_id (finished t result)) = evs2).
  { unfold event_log, apply_state. rewrite Hev. simpl (tr_id _). rewrite (inv_id _ HI _ _ Ht).
    change (default [] (events (log_step i TaskFailed t1 (finished t result) (start_if_pending i t s)) !! i) = evs2).
    by rewrite He2. }
  rewrite Hlogs. destruct (open_log_reads _ Hopen2) as [Hden ->].
  unfold replay_task_from_snapshot_and_events. simpl (tr_id _). rewrite (inv_id _ HI _ _ Ht).
  rewrite (log_replay _ _ _ Hlog2), Hden, !bool_decide_true by done. simpl. by rewrite Hdead.
Qed.

(** ** What [judge] says before and after *)

Lemma require_ok b e : require b e = Ok tt <-> b = true.
Proof using Type. by destruct b. Qed.

Lemma settlement_apply reason (existing : option TerminalResultRecord) records s t result tr :
  (match settlement_reason reason existing, existing with
   | Some why, _ =>
       let? _ := require (bool_decide (records = ([] : list ArtifactRecord)))
                   (StoreError.RemoteResultTerminalArtifactsRejected (rs_task_id result) why) in
       Ok (VSettle t why existing)
   | None, Some _ => Err (StoreError.TerminalResultConflict (rs_task_id result))
   | None, None =>
       let? transition := store_transition (started (tr_status t)) (rs_terminal_status result) in
       Ok (VApply t transition)
   end) = Ok (VApply s tr) ->
  existing = None /\ s = t /\ store_transition (started (tr_status t)) (rs_terminal_status result) = Ok tr.
Proof using Type.
  destruct (settlement_reason reason existing).
  - by destruct (require _ _).
  - destruct existing; [done|]. destruct (store_transition _ _); [|done]. by intros [= -> ->].
Qed.

Record applies (result : TerminalResultRecord) (artifacts : list OriginResultArtifact) (executor : PeerId)
    (s : InMemoryState) (m : gmap ArtifactId Entry) (t : TaskRecord) (tr : TaskTransition)
    (records : list ArtifactRecord) : Prop := {
  ap_terminal : terminal_result_validate result = Ok tt;
  ap_executor : rs_executor_peer_id result = executor;
  ap_records : validate_origin_result_artifacts sha256 (rs_task_id result) artifacts = Ok records;
  ap_context : exists context, transport_contexts s !! rs_task_id result = Some context
                 /\ tc_expected_executor_peer_id context = Some executor;
  ap_task : tasks s !! rs_task_id result = Some t;
  ap_free : free_ids m records = Ok tt;
  ap_transition : store_transition (started (tr_status t)) (rs_terminal_status result) = Ok tr;
}.

Lemma judge_apply_inv result artifacts executor s m t tr :
  judge sha256 result artifacts executor s m = Ok (VApply t tr) ->
  exists records, applies result artifacts executor s m t tr records.
Proof using Type.
  unfold judge, judge_task. intros H.
  destruct (terminal_result_validate result) as [[]|] eqn:Hv; [|done].
  destruct (require (bool_decide (_ = executor)) _) as [[]|] eqn:He; [|done].
  destruct (validate_origin_result_artifacts _ _ artifacts) as [records|] eqn:Hr; [|done].
  destruct (ok_or (transport_contexts s !! _) _) as [context|] eqn:Hc; [|done].
  destruct (require (bool_decide (_ = Some executor)) _) as [[]|] eqn:Hx; [|done].
  destruct (ok_or (tasks s !! _) _) as [u|] eqn:Ht; [|done].
  destruct (terminal_reason s u) as [reason|]; [|done].
  destruct (bool_decide (reason = None) && _).
  { destruct (require (same_artifacts _ _) _); [|done]. by destruct (same_contents m artifacts). }
  destruct (free_ids m records) as [[]|] eqn:Hf; [|done].
  apply settlement_apply in H as (_ & -> & Htr).
  apply require_ok, bool_decide_eq_true in He, Hx. apply ok_or_ok in Hc, Ht.
  exists records. split; try done. by exists context.
Qed.

Lemma apply_contexts result t tr s :
  transport_contexts (apply_state result t tr s) = transport_contexts s.
Proof using Type.
  unfold apply_state, start_if_pending, log_step, commit, put_lease. simpl.
  repeat case_match; simpl in *; done.
Qed.

Lemma apply_log_length result t tr s :
  tasks s !! rs_task_id result = Some t ->
  log_length (apply_state result t tr s) (rs_task_id result) <= log_length s (rs_task_id result) + 2.
Proof using Type.
  intros Ht. pose proof (start_facts (rs_task_id result) t s Ht) as (_ & _ & Hle).
  pose proof (proj2 (proj2 (log_step_facts (rs_task_id result) (tt_event_type tr)
    (with_status t (started (tr_status t))) (finished t result)
    (start_if_pending (rs_task_id result) t s)))) as Heq.
  unfold apply_state. change (log_length (set_result ?i ?r ?x)) with (log_length x). lia.
Qed.

Lemma apply_result_stored result t tr s :
  terminal_results (apply_state result t tr s) !! rs_task_id result = Some result.
Proof using Type. unfold apply_state. simpl. apply lookup_insert_eq. Qed.

Lemma apply_task_at result t tr s :
  tasks (apply_state result t tr s) !! rs_task_id result = Some (finished t result).
Proof using Type. rewrite apply_tasks. apply lookup_insert_eq. Qed.

Section after.
Context (result : TerminalResultRecord) (artifacts : list OriginResultArtifact) (executor : PeerId)
  (s : InMemoryState) (m : gmap ArtifactId Entry) (t : TaskRecord) (tr : TaskTransition)
  (records : list ArtifactRecord).
Context (Hs : steps empty_state s) (Ha : applies result artifacts executor s m t tr records).
Abbreviation i := (rs_task_id result).
Abbreviation s1 := (apply_state result t tr s).
Abbreviation m1 := (store_all artifacts m).

Lemma judge_again :
  NoDup (origin_id <$> artifacts) ->
  judge sha256 result artifacts executor s1 m1
  = if bool_decide (task_records i m = []) then Ok (VRepeat (finished t result))
    else Err (StoreError.TerminalResultConflict i).
Proof using Hs Ha.
  intros Hnd. destruct Ha as [Hv He Hr (context & Hc & Hx) Ht Hf Htr].
  destruct (validate_inv _ _ _ _ _ _ Hr (Z.le_refl 0)) as (Hrecs & Hall & _).
  unfold judge. rewrite Hv, Hr, apply_contexts, Hc, apply_task_at. cbn [ok_or].
  rewrite !bool_decide_true by done. cbn [require].
  unfold judge_task. rewrite (applied_reason s t tr result Hs Ht Hv Htr), apply_result_stored.
  rewrite (bool_decide_true (None = None)), (bool_decide_true (Some result = _)) by done. cbn [andb].
  rewrite (same_artifacts_perm _ (records ++ task_records i m)).
  2:{ subst records. apply task_records_store_all; [|exact (free_ids_free sha256 m _ _ eq_refl Hf)|done].
      eapply Forall_impl; [exact Hall|]. by intros a [_ ? _ _ _]. }
  rewrite same_artifacts_app. case_bool_decide; cbn [require]; [|done].
  rewrite same_contents_stored; [done|]. intros a Hin. by apply store_all_lookup.
Qed.

Lemma judge_other result' artifacts' executor' :
  rs_task_id result' = i -> result' <> result ->
  exists e, judge sha256 result' artifacts' executor' s1 m1 = Err e.
Proof using Hs Ha.
  intros Hi Hne. destruct Ha as [Hv He Hr _ Ht Hf Htr]. unfold judge. rewrite Hi.
  destruct (terminal_result_validate result') as [[]|e]; [|by exists e].
  destruct (require _ _) as [[]|e]; [|by exists e].
  destruct (validate_origin_result_artifacts _ _ artifacts') as [records'|e]; [|by exists e].
  destruct (ok_or (transport_contexts _ !! _) _) as [context|e]; [|by exists e].
  destruct (require _ _) as [[]|e]; [|by exists e].
  rewrite apply_task_at. cbn [ok_or]. unfold judge_task. rewrite Hi.
  rewrite (applied_reason s t tr result Hs Ht Hv Htr), apply_result_stored.
  rewrite (bool_decide_false (Some result = _)) by (intros [= Heq]; by apply Hne).
  rewrite andb_false_r. destruct (free_ids _ records') as [[]|e]; [by eexists|by exists e].
Qed.
End after.
End remote_facts.

(** ** The properties *)

(** C14: ingestion is all or nothing. On a store whose tables, files and
    reference counts are in order, ingestion answers what [judge] decides on
    the tasks and artifacts alone; whenever it does not apply the result, with
    every error, the committed tables and the files are what they were; and
    when it does, the task has run and ended, the result and every artifact is
    stored, and tables, files and reference counts are again in order. *)
Theorem remote_results_are_all_or_nothing (sha256 : bytes -> string) (U : list bytes)
    (violation row_not_found blob_dir : string) (result : TerminalResultRecord)
    (artifacts : list OriginResultArtifact) (executor : PeerId) (s : InMemoryState) (c : Catalog)
    (dk : Disk) :
  prints_hex sha256 -> collision_free sha256 U -> DiskRel sha256 U blob_dir dk c s ->
  report_ok U (rs_task_id result) artifacts -> log_length s (rs_task_id result) + 1 < i64_max ->
  carries_out sha256 U blob_dir result artifacts s c dk
    (judge sha256 result artifacts executor s (stored c))
    (ingest_remote_result_with_artifacts sha256 violation row_not_found result artifacts executor blob_dir dk).
Proof.
  intros Hhex Hfree HD Hreport Hlen. destruct dk as [[d w] f].
  exact (ingest_run sha256 U Hfree blob_dir violation row_not_found Hhex result artifacts executor s c d w f
           HD Hreport Hlen).
Qed.

(** C17: a result is applied once. After a report was applied in a reachable
    store, the same report again, as a relay redelivers it, is answered as a
    duplicate and changes nothing, unless the task had other artifacts before,
    in which case it is refused as a conflict; and every report of another
    result for the task, by whichever executor, is refused and changes
    nothing. *)
Theorem remote_result_is_applied_once (sha256 : bytes -> string) (U : list bytes)
    (violation row_not_found blob_dir : string) (result : TerminalResultRecord)
    (artifacts : list OriginResultArtifact) (executor : PeerId) (s : InMemoryState) (c : Catalog)
    (dk dk1 : Disk) (t : TaskRecord) :
  let ingest r a e := ingest_remote_result_with_artifacts sha256 violation row_not_found r a e blob_dir in
  prints_hex sha256 -> collision_free sha256 U -> steps empty_state s ->
  DiskRel sha256 U blob_dir dk c s -> report_ok U (rs_task_id result) artifacts ->
  log_length s (rs_task_id result) + 3 < i64_max ->
  ingest result artifacts executor dk = (Ok (Applied t), dk1) ->
  (exists dk2, untouched dk1 dk2 /\
     ingest result artifacts executor dk1
     = (if bool_decide (task_records (rs_task_id result) (stored c) = []) then Ok (Duplicate t)
        else Err (StoreError.TerminalResultConflict (rs_task_id result)), dk2))
  /\ forall result' artifacts' executor',
       rs_task_id result' = rs_task_id result -> result' <> result ->
       report_ok U (rs_task_id result) artifacts' ->
       exists e dk2, untouched dk1 dk2 /\ ingest result' artifacts' executor' dk1 = (Err e, dk2).
Proof.
  intros ingest Hhex Hfree Hs HD Hreport Hlen Hrun. subst ingest. cbv beta in Hrun |- *.
  destruct dk as [[d w] f], dk1 as [[d1 w1] f1].
  pose proof (ingest_run sha256 U Hfree blob_dir violation row_not_found Hhex) as Hingest.
  pose proof (Hingest result artifacts executor s c d w f HD Hreport) as H.
  rewrite Hrun in H. clear Hrun. specialize (H ltac:(lia)).
  destruct (judge _ _ _ _ _ _) as [[t0 tr|t0|t0 r x]|e] eqn:Hj; simpl in H; try by destruct H.
  destruct H as [[= ->] HD1]. destruct (judge_apply_inv _ _ _ _ _ _ _ _ Hj) as (records & Ha).
  assert (Hlen1 : log_length (apply_state result t0 tr s) (rs_task_id result) + 1 < i64_max)
    by (pose proof (apply_log_length result t0 tr s (ap_task _ _ _ _ _ _ _ _ _ Ha)); lia).
  pose proof (origin_ids_distinct sha256 U Hfree _ _ _ (ap_records _ _ _ _ _ _ _ _ _ Ha) Hreport) as Hnd.
  split.
  - pose proof (Hingest result artifacts executor _ _ d1 w1 f1 HD1 Hreport Hlen1) as H.
    cbn [stored] in H. rewrite (judge_again _ _ _ _ _ _ _ _ _ Hs Ha Hnd) in H.
    destruct (ingest_remote_result_with_artifacts _ _ _ result _ _ _ _) as [r dk2]. exists dk2.
    case_bool_decide; destruct H as [Hr Hun]; simpl in Hr; by rewrite Hr.
  - intros result' artifacts' executor' Hi Hne Hreport'.
    destruct (judge_other _ _ _ _ _ _ _ _ _ Hs Ha result' artifacts' executor' Hi Hne) as (e & He).
    pose proof (Hingest result' artifacts' executor' _ _ d1 w1 f1 HD1) as H.
    rewrite Hi in H. specialize (H Hreport' Hlen1). cbn [stored] in H. rewrite He in H.
    destruct (ingest_remote_result_with_artifacts _ _ _ result' _ _ _ _) as [r dk2]. exists e, dk2.
    destruct H as [Hr Hun]. simpl in Hr. by rewrite Hr.
Qed.

(** ** A sample: a leased task and its executor's report with one artifact *)

Definition origin_artifact_a : ArtifactId :=
  MkId "origin-result-ffffffffffffffffffffffffffffffffffffffffffffffffffffffffffffffff" I.
Definition reported_a : OriginResultArtifact :=
  MkOriginArtifact 0 (MkArtifactMeta origin_artifact_a task_a (digest_compute sample_sha256 []) octet_stream 0
                        true "2024-01-01T00:00:00Z") [].
Definition hashed : list bytes := [[]; origin_preimage task_a 0].
Definition sample_disk : Disk := MkDisk (MkConn sample_db sample_db) ∅.

Lemma hashed_free : collision_free sample_sha256 hashed.
Proof.
  intros b b' Hb Hb' Heq. unfold hashed in Hb, Hb'. rewrite !elem_of_cons, elem_of_nil in Hb, Hb'.
  by destruct Hb as [->|[->|[]]], Hb' as [->|[->|[]]].
Qed.

Lemma sample_disk_rel : DiskRel sample_sha256 hashed "blobs" sample_disk (fresh_catalog running) running.
Proof. apply fresh_disk_rel; [exact sample_db_rel|exact sample_fresh]. Qed.

Lemma reported_ok : report_ok hashed task_a [reported_a].
Proof. constructor; [|constructor]. split; [by left|]. split; [by right; left|done]. Qed.

Lemma running_reachable : steps empty_state running.
Proof. eapply run_ops_steps; [exact running_ops_fresh|apply surjective_pairing]. Qed.

Lemma running_log : log_length running task_a = 2.
Proof. vm_compute. reflexivity. Qed.

Lemma sample_verdict :
  judge sample_sha256 result_a [reported_a] peer_a running (stored (fresh_catalog running))
  = Ok (VApply (with_status record_a Running) (MkTransition Running Completed TaskCompleted)).
Proof. vm_compute. reflexivity. Qed.

Lemma remote_results_are_all_or_nothing_witness :
  (ingest_remote_result_with_artifacts sample_sha256 "" "" result_a [reported_a] peer_a "blobs" sample_disk).1
  = Ok (Applied (with_status record_a Completed)).
Proof.
  pose proof (remote_results_are_all_or_nothing sample_sha256 hashed "" "" "blobs" result_a [reported_a]
    peer_a running (fresh_catalog running) sample_disk sample_sha256_hex hashed_free sample_disk_rel
    reported_ok) as H.
  change (rs_task_id result_a) with task_a in H. rewrite running_log, sample_verdict in H.
  exact (proj1 (H eq_refl)).
Defined.

Lemma remote_result_is_applied_once_witness :
  exists dk1 dk2,
    (ingest_remote_result_with_artifacts sample_sha256 "" "" result_a [reported_a] peer_a "blobs" dk1).1
    = Ok (Duplicate (with_status record_a Completed))
    /\ ingest_remote_result_with_artifacts sample_sha256 "" "" result_a [reported_a] peer_a "blobs" sample_disk
       = (Ok (Applied (with_status record_a Completed)), dk1) /\ untouched dk1 dk2.
Proof.
  pose proof (ingest_run sample_sha256 hashed hashed_free "blobs" "" "" sample_sha256_hex result_a
    [reported_a] peer_a running (fresh_catalog running) sample_db sample_db ∅ sample_disk_rel reported_ok) as H.
  change (rs_task_id result_a) with task_a in H. rewrite running_log, sample_verdict in H.
  specialize (H eq_refl). destruct (ingest_remote_result_with_artifacts _ _ _ _ _ _ _ _) as [r dk1] eqn:Hrun.
  destruct H as [Hr _]. simpl in Hr. subst r.
  destruct (remote_result_is_applied_once sample_sha256 hashed "" "" "blobs" result_a [reported_a]
    peer_a running (fresh_catalog running) sample_disk dk1 (with_status record_a Completed) sample_sha256_hex hashed_free running_reachable
    sample_disk_rel reported_ok) as [(dk2 & Hun & Hagain) _];
    [change (rs_task_id result_a) with task_a; by rewrite running_log|exact Hrun|].
  exists dk1, dk2. split; [by rewrite Hagain|]. split; [done|exact Hun].
Defined.
