(* ===== verification/RelayRuntime.v ===== *)
(** * The relay runtime

    crates/keryx-relay/src/runtime.rs: the state a relay process shares
    between its gRPC streams, its control plane and its metrics. Every method
    of [RelayRuntime] takes the lock on [PeerState] once and holds it for all
    its reads and writes (the terminal status of a disconnect is sent after
    the lock is released), so a method is a function from the state to its
    answer and the new state, and concurrent calls are sequences of such
    functions. A poisoned lock is entered as it is, which is what continuing
    with the same state says.

    The queues and waiters belong to tokio. A stream is named by its sender;
    [try_send] either accepts, finds the queue full or finds it closed, which
    is an input of the method that tries it. A oneshot channel is a number
    from a counter. What leaves the relay is recorded in [trace]: the frames
    accepted by a stream, the terminal statuses, the values sent to waiters.
    The messages inside frames are generated code: the type [Message]. *)
From S2P Require Import Prelude Ident.
From stdpp Require Import options.

Section relay_runtime.
(** The protobuf messages a frame carries; frames compare task envelopes. *)
Context {Message : Type} `{EqDecision Message}.

(** ** Data *)

(** relay.proto, [RelayFrame]. *)
Record RelayFrame : Type := MkFrame {
  frame_id : string;
  task : option Message;
  result : option Message;
  authenticated_source_node_id : string;
  destination_node_id : string;
  nodescale_identity_bind_v1 : option Message;
  nodescale_identity_challenge_v1 : option Message;
  nodescale_identity_bind_v2 : option Message;
  nodescale_identity_challenge_v2 : option Message;
  fleet_observation_publish_v1 : option Message;
}.

#[export] Instance RelayFrame_eq_dec : EqDecision RelayFrame.
Proof using Type*. solve_decision. Defined.

Inductive FrameDelivery : Type :=
| Delivered | Mailboxed | RejectedDuplicate | RejectedCapacity | RejectedInvalid.

Inductive FrameAcknowledgement : Type := AckAccepted | AckWrongDestination | AckUnknownFrame.

Inductive DirectControlCompletion : Type :=
| ControlAccepted | ControlWrongDestination | ControlUnknownFrame.

Record PublishedTaskReceipt : Type := MkReceipt {
  receipt_frame_id : string;
  accepted_at_ms : Z;
}.

Inductive PublishedTaskIdentity : Type :=
| IdentityNew (receipt : PublishedTaskReceipt)
| IdentityRetry (receipt : PublishedTaskReceipt)
| IdentityConflict
| IdentityRejectedCapacity.

Inductive PublishedTaskDelivery : Type :=
| PublishNew (receipt : PublishedTaskReceipt) (delivery : FrameDelivery)
| PublishRetry (receipt : PublishedTaskReceipt)
| PublishConflict
| PublishRejectedCapacity
| PublishRejectedInvalid.

(** Destination node and frame id. *)
Definition FrameKey : Type := string * string.
(** Source node, destination node and task id. *)
Definition TaskPublishKey : Type := string * string * string.

Record PublishedTaskRecord : Type := MkPublished {
  envelope : Message;
  receipt : PublishedTaskReceipt;
  acknowledged : bool;
}.

Definition Channel : Type := nat.
Definition StreamSender : Type := nat.

Record ConnectedNode : Type := MkConnected {
  generation : Z;
  sender : StreamSender;
}.

Record PeerIdentity : Type := MkPeerIdentity {
  pi_node_id : string;
  pi_connected : bool;
  pi_mailbox_depth : nat;
}.

Record PeerState : Type := MkPeers {
  registered : gset string;
  connected_nodes : gmap string ConnectedNode;
  next_connection_generation : Z;
  libp2p_connected_peers : gset string;
  mailboxes : gmap string (list RelayFrame);
  frame_destinations : gset FrameKey;
  acknowledged_frames : gset FrameKey;
  acknowledged_frame_order : list FrameKey;
  published_tasks : gmap TaskPublishKey PublishedTaskRecord;
  published_frame_index : gmap FrameKey TaskPublishKey;
  acknowledged_published_task_order : list TaskPublishKey;
  frame_ack_waiters : gmap FrameKey Channel;
  direct_control_waiters : gmap FrameKey Channel;
  challenge_control_waiters : gmap FrameKey Channel;
  fleet_observation_waiters : gmap FrameKey Channel;
}.

(** [PeerState::default()]. *)
Definition no_peers : PeerState :=
  MkPeers ∅ ∅ 0 ∅ ∅ ∅ ∅ [] ∅ ∅ [] ∅ ∅ ∅ ∅.

(** *** Writes to one field *)

Definition on_registered (f : gset string -> gset string) (s : PeerState) : PeerState :=
  MkPeers (f (registered s)) (connected_nodes s) (next_connection_generation s)
    (libp2p_connected_peers s) (mailboxes s) (frame_destinations s) (acknowledged_frames s)
    (acknowledged_frame_order s) (published_tasks s) (published_frame_index s)
    (acknowledged_published_task_order s) (frame_ack_waiters s) (direct_control_waiters s)
    (challenge_control_waiters s) (fleet_observation_waiters s).
Definition on_connected_nodes (f : gmap string ConnectedNode -> gmap string ConnectedNode) (s : PeerState) : PeerState :=
  MkPeers (registered s) (f (connected_nodes s)) (next_connection_generation s)
    (libp2p_connected_peers s) (mailboxes s) (frame_destinations s) (acknowledged_frames s)
    (acknowledged_frame_order s) (published_tasks s) (published_frame_index s)
    (acknowledged_published_task_order s) (frame_ack_waiters s) (direct_control_waiters s)
    (challenge_control_waiters s) (fleet_observation_waiters s).
Definition on_next_connection_generation (f : Z -> Z) (s : PeerState) : PeerState :=
  MkPeers (registered s) (connected_nodes s) (f (next_connection_generation s))
    (libp2p_connected_peers s) (mailboxes s) (frame_destinations s) (acknowledged_frames s)
    (acknowledged_frame_order s) (published_tasks s) (published_frame_index s)
    (acknowledged_published_task_order s) (frame_ack_waiters s) (direct_control_waiters s)
    (challenge_control_waiters s) (fleet_observation_waiters s).
Definition on_libp2p_connected_peers (f : gset string -> gset string) (s : PeerState) : PeerState :=
  MkPeers (registered s) (connected_nodes s) (next_connection_generation s) (f
    (libp2p_connected_peers s)) (mailboxes s) (frame_destinations s) (acknowledged_frames s)
    (acknowledged_frame_order s) (published_tasks s) (published_frame_index s)
    (acknowledged_published_task_order s) (frame_ack_waiters s) (direct_control_waiters s)
    (challenge_control_waiters s) (fleet_observation_waiters s).
Definition on_mailboxes (f : gmap string (list RelayFrame) -> gmap string (list RelayFrame)) (s : PeerState) : PeerState :=
  MkPeers (registered s) (connected_nodes s) (next_connection_generation s)
    (libp2p_connected_peers s) (f (mailboxes s)) (frame_destinations s) (acknowledged_frames
    s) (acknowledged_frame_order s) (published_tasks s) (published_frame_index s)
    (acknowledged_published_task_order s) (frame_ack_waiters s) (direct_control_waiters s)
    (challenge_control_waiters s) (fleet_observation_waiters s).
Definition on_frame_destinations (f : gset FrameKey -> gset FrameKey) (s : PeerState) : PeerState :=
  MkPeers (registered s) (connected_nodes s) (next_connection_generation s)
    (libp2p_connected_peers s) (mailboxes s) (f (frame_destinations s)) (acknowledged_frames
    s) (acknowledged_frame_order s) (published_tasks s) (published_frame_index s)
    (acknowledged_published_task_order s) (frame_ack_waiters s) (direct_control_waiters s)
    (challenge_control_waiters s) (fleet_observation_waiters s).
Definition on_acknowledged_frames (f : gset FrameKey -> gset FrameKey) (s : PeerState) : PeerState :=
  MkPeers (registered s) (connected_nodes s) (next_connection_generation s)
    (libp2p_connected_peers s) (mailboxes s) (frame_destinations s) (f (acknowledged_frames
    s)) (acknowledged_frame_order s) (published_tasks s) (published_frame_index s)
    (acknowledged_published_task_order s) (frame_ack_waiters s) (direct_control_waiters s)
    (challenge_control_waiters s) (fleet_observation_waiters s).
Definition on_acknowledged_frame_order (f : list FrameKey -> list FrameKey) (s : PeerState) : PeerState :=
  MkPeers (registered s) (connected_nodes s) (next_connection_generation s)
    (libp2p_connected_peers s) (mailboxes s) (frame_destinations s) (acknowledged_frames s)
    (f (acknowledged_frame_order s)) (published_tasks s) (published_frame_index s)
    (acknowledged_published_task_order s) (frame_ack_waiters s) (direct_control_waiters s)
    (challenge_control_waiters s) (fleet_observation_waiters s).
Definition on_published_tasks (f : gmap TaskPublishKey PublishedTaskRecord -> gmap TaskPublishKey PublishedTaskRecord) (s : PeerState) : PeerState :=
  MkPeers (registered s) (connected_nodes s) (next_connection_generation s)
    (libp2p_connected_peers s) (mailboxes s) (frame_destinations s) (acknowledged_frames s)
    (acknowledged_frame_order s) (f (published_tasks s)) (published_frame_index s)
    (acknowledged_published_task_order s) (frame_ack_waiters s) (direct_control_waiters s)
    (challenge_control_waiters s) (fleet_observation_waiters s).
Definition on_published_frame_index (f : gmap FrameKey TaskPublishKey -> gmap FrameKey TaskPublishKey) (s : PeerState) : PeerState :=
  MkPeers (registered s) (connected_nodes s) (next_connection_generation s)
    (libp2p_connected_peers s) (mailboxes s) (frame_destinations s) (acknowledged_frames s)
    (acknowledged_frame_order s) (published_tasks s) (f (published_frame_index s))
    (acknowledged_published_task_order s) (frame_ack_waiters s) (direct_control_waiters s)
    (challenge_control_waiters s) (fleet_observation_waiters s).
Definition on_acknowledged_published_task_order (f : list TaskPublishKey -> list TaskPublishKey) (s : PeerState) : PeerState :=
  MkPeers (registered s) (connected_nodes s) (next_connection_generation s)
    (libp2p_connected_peers s) (mailboxes s) (frame_destinations s) (acknowledged_frames s)
    (acknowledged_frame_order s) (published_tasks s) (published_frame_index s) (f
    (acknowledged_published_task_order s)) (frame_ack_waiters s) (direct_control_waiters s)
    (challenge_control_waiters s) (fleet_observation_waiters s).
Definition on_frame_ack_waiters (f : gmap FrameKey Channel -> gmap FrameKey Channel) (s : PeerState) : PeerState :=
  MkPeers (registered s) (connected_nodes s) (next_connection_generation s)
    (libp2p_connected_peers s) (mailboxes s) (frame_destinations s) (acknowledged_frames s)
    (acknowledged_frame_order s) (published_tasks s) (published_frame_index s)
    (acknowledged_published_task_order s) (f (frame_ack_waiters s)) (direct_control_waiters
    s) (challenge_control_waiters s) (fleet_observation_waiters s).
Definition on_direct_control_waiters (f : gmap FrameKey Channel -> gmap FrameKey Channel) (s : PeerState) : PeerState :=
  MkPeers (registered s) (connected_nodes s) (next_connection_generation s)
    (libp2p_connected_peers s) (mailboxes s) (frame_destinations s) (acknowledged_frames s)
    (acknowledged_frame_order s) (published_tasks s) (published_frame_index s)
    (acknowledged_published_task_order s) (frame_ack_waiters s) (f (direct_control_waiters
    s)) (challenge_control_waiters s) (fleet_observation_waiters s).
Definition on_challenge_control_waiters (f : gmap FrameKey Channel -> gmap FrameKey Channel) (s : PeerState) : PeerState :=
  MkPeers (registered s) (connected_nodes s) (next_connection_generation s)
    (libp2p_connected_peers s) (mailboxes s) (frame_destinations s) (acknowledged_frames s)
    (acknowledged_frame_order s) (published_tasks s) (published_frame_index s)
    (acknowledged_published_task_order s) (frame_ack_waiters s) (direct_control_waiters s)
    (f (challenge_control_waiters s)) (fleet_observation_waiters s).
Definition on_fleet_observation_waiters (f : gmap FrameKey Channel -> gmap FrameKey Channel) (s : PeerState) : PeerState :=
  MkPeers (registered s) (connected_nodes s) (next_connection_generation s)
    (libp2p_connected_peers s) (mailboxes s) (frame_destinations s) (acknowledged_frames s)
    (acknowledged_frame_order s) (published_tasks s) (published_frame_index s)
    (acknowledged_published_task_order s) (frame_ack_waiters s) (direct_control_waiters s)
    (challenge_control_waiters s) (f (fleet_observation_waiters s)).

Definition MAX_TRACKED_FRAMES : Z := 8192.
Definition MAX_RECENT_ACKNOWLEDGEMENTS : Z := 8192.
Definition MAX_RETAINED_PUBLISHED_TASKS : Z := 8192.

(** [mpsc::Sender::try_send]. *)
Inductive SendOutcome : Type := Sent | Full | Closed.

(** What a waiter receives. *)
Inductive Completion : Type :=
| CompletedAck
| CompletedBind (m : Message)
| CompletedChallenge (m : Message)
| CompletedFleet (m : Message).

Inductive Output : Type :=
| OutFrame (to : StreamSender) (frame : RelayFrame)
| OutStatus (to : StreamSender)
| OutValue (to : Channel) (value : Completion).

(** The runtime, with its metrics, and what has left it. *)
Record Relay : Type := MkRelay {
  peers : PeerState;
  transport_listening : bool;
  connected_peers : Z;
  tasks_routed : Z;
  next_channel : Channel;
  trace : list Output;
}.

(** [RelayRuntime::new]. *)
Definition new_relay : Relay := MkRelay no_peers false 0 0 0%nat [].

Definition on_peers (f : PeerState -> PeerState) (r : Relay) : Relay :=
  MkRelay (f (peers r)) (transport_listening r) (connected_peers r) (tasks_routed r)
    (next_channel r) (trace r).
Definition emit (o : list Output) (r : Relay) : Relay :=
  MkRelay (peers r) (transport_listening r) (connected_peers r) (tasks_routed r)
    (next_channel r) (trace r ++ o).
Definition increment_tasks_routed (r : Relay) : Relay :=
  MkRelay (peers r) (transport_listening r) (connected_peers r) (as_u64 (tasks_routed r + 1))
    (next_channel r) (trace r).
(** [oneshot::channel()]: the sender of a new channel. *)
Definition open_channel (r : Relay) : Channel * Relay :=
  (next_channel r,
   MkRelay (peers r) (transport_listening r) (connected_peers r) (tasks_routed r)
     (S (next_channel r)) (trace r)).
Definition mark_transport_listening (r : Relay) : Relay :=
  MkRelay (peers r) true (connected_peers r) (tasks_routed r) (next_channel r) (trace r).

Definition connected_count (s : PeerState) : Z :=
  Z.of_nat (size (connected_nodes s)) + Z.of_nat (size (libp2p_connected_peers s)).

Definition sync_connected_peer_metric (r : Relay) : Relay :=
  MkRelay (peers r) (transport_listening r) (connected_count (peers r)) (tasks_routed r)
    (next_channel r) (trace r).

(** ** Frames *)

Definition count_some (o : option Message) : nat := if o then 1%nat else 0%nat.

Definition has_exactly_one_relay_payload (frame : RelayFrame) : bool :=
  Nat.eqb
    (count_some (task frame) + count_some (result frame)
     + count_some (nodescale_identity_bind_v1 frame)
     + count_some (nodescale_identity_challenge_v1 frame)
     + count_some (nodescale_identity_bind_v2 frame)
     + count_some (nodescale_identity_challenge_v2 frame)
     + count_some (fleet_observation_publish_v1 frame)) 1.

Definition is_some {A} (o : option A) : bool := if o then true else false.

Definition has_exactly_one_generic_payload (frame : RelayFrame) : bool :=
  has_exactly_one_relay_payload frame && (is_some (task frame) || is_some (result frame)).

Definition is_exact_task_frame (frame : RelayFrame) (t : Message) : bool :=
  has_exactly_one_relay_payload frame && bool_decide (task frame = Some t).

Definition is_empty (s : string) : bool := bool_decide (s = ""%string).

Definition typed_direct_control_target_matches_frame_destination (target_node_id : string)
    (frame : RelayFrame) : bool :=
  negb (is_empty (trim target_node_id))
  && (is_empty (trim (destination_node_id frame))
      || bool_decide (target_node_id = destination_node_id frame)).

Definition is_acked (destination_node_id : string) (frame : RelayFrame) (acked : gset FrameKey)
    : bool :=
  let frame_id := trim (frame_id frame) in
  negb (is_empty frame_id) && bool_decide ((destination_node_id, frame_id) ∈ acked).

Definition mailbox (node_id : string) (s : PeerState) : list RelayFrame :=
  default [] (mailboxes s !! node_id).

Definition mailbox_depth (node_id : string) (s : PeerState) : nat :=
  length (mailbox node_id s).

(** [retain] on a mailbox that exists. *)
Definition retain_mailbox (P : RelayFrame -> bool) (node_id : string) : PeerState -> PeerState :=
  on_mailboxes (alter (filter (fun f => P f = true)) node_id).

Definition other_frame (id : string) (frame : RelayFrame) : bool :=
  negb (bool_decide (trim (frame_id frame) = id)).

(** [position] and [remove]: the first frame with the id goes. *)
Fixpoint remove_first (id : string) (l : list RelayFrame) : list RelayFrame :=
  match l with
  | [] => []
  | f :: l => if bool_decide (trim (frame_id f) = id) then l else f :: remove_first id l
  end.

(** ** Connections *)

Definition note_peer_connected (peer_id : string) (r : Relay) : Relay :=
  sync_connected_peer_metric
    (on_peers (on_libp2p_connected_peers (fun p => {[peer_id]} ∪ p)) r).

Definition note_peer_disconnected (peer_id : string) (r : Relay) : Relay :=
  sync_connected_peer_metric
    (on_peers (on_libp2p_connected_peers (fun p => p ∖ {[peer_id]})) r).

(** [mailboxes.entry(node_id).or_default()]. *)
Definition ensure_mailbox (node_id : string) : PeerState -> PeerState :=
  on_mailboxes (partial_alter (fun m => Some (default [] m)) node_id).

Definition register_node (node_id : string) (r : Relay) : Relay :=
  on_peers (fun s => ensure_mailbox node_id (on_registered (fun g => {[node_id]} ∪ g) s)) r.

(** The replay loop: it stops at the first frame the stream does not take. *)
Fixpoint replay (try_send : nat -> SendOutcome) (n : nat) (pending : list RelayFrame)
    : bool * list RelayFrame :=
  match pending with
  | [] => (true, [])
  | frame :: pending =>
      match try_send n with
      | Sent => let (stream_open, sent) := replay try_send (S n) pending in
                (stream_open, frame :: sent)
      | Full | Closed => (false, [])
      end
  end.

Definition as_next_generation (g : Z) : Z := Z.max (as_u64 (g + 1)) 1.

Definition connect_node_fenced (node_id : string) (to : StreamSender)
    (try_send : nat -> SendOutcome) (r : Relay) : (nat * Z) * Relay :=
  let s := on_next_connection_generation as_next_generation (peers r) in
  let gen := next_connection_generation s in
  let s := on_registered (fun g => {[node_id]} ∪ g) s in
  let pending := filter (fun f => is_acked node_id f (acknowledged_frames s) = false)
                   (mailbox node_id s) in
  let (stream_open, sent) := replay try_send 0 pending in
  let s := if stream_open
           then on_connected_nodes (insert node_id (MkConnected gen to)) s else s in
  ((length sent, gen),
   sync_connected_peer_metric
     (emit (OutFrame to <$> sent) (on_peers (fun _ => s) r))).

Definition connect_node (node_id : string) (to : StreamSender) (try_send : nat -> SendOutcome)
    (r : Relay) : nat * Relay :=
  let p := connect_node_fenced node_id to try_send r in (p.1.1, p.2).

Definition fleet_keys_of (node_id : string) (s : PeerState) : gset FrameKey :=
  filter (fun k => k.1 = node_id) (dom (fleet_observation_waiters s)).

Definition abandon_fleet_observation_destination (node_id : string) (s : PeerState) : PeerState :=
  let keys := fleet_keys_of node_id s in
  let s := on_fleet_observation_waiters (filter (fun kc => kc.1 ∉ keys)) s in
  let s := on_frame_destinations (fun g => g ∖ keys) s in
  retain_mailbox (fun f => negb (is_some (fleet_observation_publish_v1 f))) node_id s.

Definition drop_connection (node_id : string) (s : PeerState) : PeerState :=
  abandon_fleet_observation_destination node_id (on_connected_nodes (delete node_id) s).

Definition disconnect_node (node_id : string) (r : Relay) : Relay :=
  sync_connected_peer_metric
    (on_peers (fun s => match connected_nodes s !! node_id with
                        | Some _ => drop_connection node_id s
                        | None => s
                        end) r).

(** The connection, if the caller still owns its generation. *)
Definition current_connection (node_id : string) (gen : Z) (s : PeerState)
    : option ConnectedNode :=
  match connected_nodes s !! node_id with
  | Some connected => if generation connected =? gen then Some connected else None
  | None => None
  end.

Definition disconnect_node_if_current (node_id : string) (gen : Z) (r : Relay) : Relay :=
  sync_connected_peer_metric
    (on_peers (fun s => match current_connection node_id gen s with
                        | Some _ => drop_connection node_id s
                        | None => s
                        end) r).

(** The terminal status, if the stream takes it. *)
Definition send_status (connected : option ConnectedNode) (outcome : SendOutcome) (r : Relay)
    : Relay :=
  match connected, outcome with
  | Some c, Sent => emit [OutStatus (sender c)] r
  | _, _ => r
  end.

Definition disconnect_node_with_status (node_id : string) (outcome : SendOutcome) (r : Relay)
    : Relay :=
  let connected := connected_nodes (peers r) !! node_id in
  send_status connected outcome (disconnect_node node_id r).

Definition disconnect_node_with_status_if_current (node_id : string) (gen : Z)
    (outcome : SendOutcome) (r : Relay) : Relay :=
  let connected := current_connection node_id gen (peers r) in
  send_status connected outcome (disconnect_node_if_current node_id gen r).

(** ** Routing *)

Definition over_capacity (target_node_id : string) (s : PeerState) : bool :=
  (MAX_TRACKED_FRAMES <=? Z.of_nat (size (frame_destinations s)))
  || (MAX_TRACKED_FRAMES <=? Z.of_nat (mailbox_depth target_node_id s)).

(** The frame gets its owner and joins the mailbox. *)
Definition own_frame (target_node_id frame_id : string) (frame : RelayFrame) (s : PeerState)
    : PeerState :=
  let s := on_frame_destinations (fun g => {[(target_node_id, frame_id)]} ∪ g) s in
  let s := on_registered (fun g => {[target_node_id]} ∪ g) s in
  on_mailboxes (insert target_node_id (mailbox target_node_id s ++ [frame])) s.

Definition route_frame_locked (target_node_id : string) (frame : RelayFrame)
    (outcome : SendOutcome) (r : Relay) : FrameDelivery * Relay :=
  if negb (has_exactly_one_relay_payload frame) then (RejectedInvalid, r)
  else
    let frame_id := trim (frame_id frame) in
    if is_empty frame_id then (RejectedInvalid, r)
    else
      let key := (target_node_id, frame_id) in
      if bool_decide (key ∈ frame_destinations (peers r))
         || bool_decide (key ∈ acknowledged_frames (peers r))
      then (RejectedDuplicate, r)
      else if over_capacity target_node_id (peers r) then (RejectedCapacity, r)
      else
        let r := on_peers (own_frame target_node_id frame_id frame) r in
        match connected_nodes (peers r) !! target_node_id with
        | None => (Mailboxed, r)
        | Some connected =>
            match outcome with
            | Sent => (Delivered, emit [OutFrame (sender connected) frame] r)
            | Full => (Mailboxed, r)
            | Closed => (Mailboxed, on_peers (on_connected_nodes (delete target_node_id)) r)
            end
        end.

Definition accepted (d : FrameDelivery) : bool :=
  match d with Delivered | Mailboxed => true | _ => false end.

Definition route_frame (target_node_id : string) (frame : RelayFrame) (outcome : SendOutcome)
    (r : Relay) : FrameDelivery * Relay :=
  if negb (has_exactly_one_generic_payload frame) then (RejectedInvalid, r)
  else
    let (delivery, r) := route_frame_locked target_node_id frame outcome r in
    let r := sync_connected_peer_metric r in
    (delivery, if accepted delivery then increment_tasks_routed r else r).

(** The waiters of the four kinds of frames. *)
Inductive WaiterKind : Type := WaitAck | WaitBind | WaitChallenge | WaitFleet.

#[export] Instance WaiterKind_eq_dec : EqDecision WaiterKind.
Proof using Type. solve_decision. Defined.

Definition waiters (kind : WaiterKind) (s : PeerState) : gmap FrameKey Channel :=
  match kind with
  | WaitAck => frame_ack_waiters s
  | WaitBind => direct_control_waiters s
  | WaitChallenge => challenge_control_waiters s
  | WaitFleet => fleet_observation_waiters s
  end.

Definition on_waiters (kind : WaiterKind) (f : gmap FrameKey Channel -> gmap FrameKey Channel)
    : PeerState -> PeerState :=
  match kind with
  | WaitAck => on_frame_ack_waiters f
  | WaitBind => on_direct_control_waiters f
  | WaitChallenge => on_challenge_control_waiters f
  | WaitFleet => on_fleet_observation_waiters f
  end.

(** Route the frame and, when it was accepted, install a waiter for it. *)
Definition route_waiting (kind : WaiterKind) (target_node_id : string) (frame : RelayFrame)
    (outcome : SendOutcome) (r : Relay) : (FrameDelivery * option Channel) * Relay :=
  let frame_id := trim (frame_id frame) in
  let (delivery, r) := route_frame_locked target_node_id frame outcome r in
  if accepted delivery then
    let (channel, r) := open_channel r in
    let r := on_peers (on_waiters kind (insert (target_node_id, frame_id) channel)) r in
    ((delivery, Some channel), sync_connected_peer_metric r)
  else ((delivery, None), sync_connected_peer_metric r).

Definition route_frame_waiting_for_ack (target_node_id : string) (frame : RelayFrame)
    (outcome : SendOutcome) (r : Relay) : (FrameDelivery * option Channel) * Relay :=
  if negb (has_exactly_one_generic_payload frame) then ((RejectedInvalid, None), r)
  else
    let (answer, r) := route_waiting WaitAck target_node_id frame outcome r in
    (answer, if is_some answer.2 then increment_tasks_routed r else r).

(** The typed frames: exactly one payload of the kind, and no other. *)
Definition is_bind_frame (frame : RelayFrame) : bool :=
  Nat.eqb (count_some (nodescale_identity_bind_v1 frame)
           + count_some (nodescale_identity_bind_v2 frame)) 1
  && negb (is_some (nodescale_identity_challenge_v1 frame))
  && negb (is_some (nodescale_identity_challenge_v2 frame))
  && negb (is_some (task frame)) && negb (is_some (result frame)).

Definition is_challenge_frame (frame : RelayFrame) : bool :=
  Nat.eqb (count_some (nodescale_identity_challenge_v1 frame)
           + count_some (nodescale_identity_challenge_v2 frame)) 1
  && negb (is_some (nodescale_identity_bind_v1 frame))
  && negb (is_some (nodescale_identity_bind_v2 frame))
  && negb (is_some (task frame)) && negb (is_some (result frame)).

Definition is_fleet_frame (frame : RelayFrame) : bool :=
  is_some (fleet_observation_publish_v1 frame)
  && negb (is_some (task frame)) && negb (is_some (result frame))
  && negb (is_some (nodescale_identity_bind_v1 frame))
  && negb (is_some (nodescale_identity_challenge_v1 frame))
  && negb (is_some (nodescale_identity_bind_v2 frame))
  && negb (is_some (nodescale_identity_challenge_v2 frame)).

Definition route_nodescale_identity_bind_waiting_for_completion (target_node_id : string)
    (frame : RelayFrame) (outcome : SendOutcome) (r : Relay)
    : (FrameDelivery * option Channel) * Relay :=
  if negb (typed_direct_control_target_matches_frame_destination target_node_id frame)
  then ((RejectedInvalid, None), r)
  else if negb (is_bind_frame frame) then ((RejectedInvalid, None), r)
  else route_waiting WaitBind target_node_id frame outcome r.

Definition route_nodescale_identity_challenge_waiting_for_completion (target_node_id : string)
    (frame : RelayFrame) (outcome : SendOutcome) (r : Relay)
    : (FrameDelivery * option Channel) * Relay :=
  if negb (typed_direct_control_target_matches_frame_destination target_node_id frame)
  then ((RejectedInvalid, None), r)
  else if negb (is_challenge_frame frame) then ((RejectedInvalid, None), r)
  else route_waiting WaitChallenge target_node_id frame outcome r.

Definition route_fleet_observation_waiting_for_completion (target_node_id : string)
    (frame : RelayFrame) (outcome : SendOutcome) (r : Relay)
    : (FrameDelivery * option Channel) * Relay :=
  if negb (typed_direct_control_target_matches_frame_destination target_node_id frame
           && is_fleet_frame frame)
  then ((RejectedInvalid, None), r)
  else route_waiting WaitFleet target_node_id frame outcome r.

(** ** Completion, abandonment, acknowledgement *)

(** A frame of that id is known under some destination. *)
Definition frame_known (id : string) (keys : gset FrameKey) : bool :=
  bool_decide (set_Exists (fun k => k.2 = id) keys).

Definition complete_control (kind : WaiterKind) (value : Completion) (destination_node_id : string)
    (frame_id : string) (r : Relay) : DirectControlCompletion * Relay :=
  let destination_node_id := trim destination_node_id in
  let frame_id := trim frame_id in
  if is_empty destination_node_id || is_empty frame_id then (ControlUnknownFrame, r)
  else
    let key := (destination_node_id, frame_id) in
    match waiters kind (peers r) !! key with
    | None =>
        ((if frame_known frame_id (dom (waiters kind (peers r)))
          then ControlWrongDestination else ControlUnknownFrame), r)
    | Some waiter =>
        let r := on_peers (on_waiters kind (delete key)) r in
        if negb (bool_decide (key ∈ frame_destinations (peers r))) then (ControlUnknownFrame, r)
        else
          let r := on_peers (on_frame_destinations (fun g => g ∖ {[key]})) r in
          let r := on_peers (retain_mailbox (other_frame frame_id) destination_node_id) r in
          (ControlAccepted, emit [OutValue waiter value] r)
    end.

Definition complete_nodescale_identity_bind (destination_node_id frame_id : string) (m : Message)
    : Relay -> DirectControlCompletion * Relay :=
  complete_control WaitBind (CompletedBind m) destination_node_id frame_id.

Definition complete_nodescale_identity_challenge (destination_node_id frame_id : string)
    (m : Message) : Relay -> DirectControlCompletion * Relay :=
  complete_control WaitChallenge (CompletedChallenge m) destination_node_id frame_id.

Definition complete_fleet_observation (destination_node_id frame_id : string) (m : Message)
    : Relay -> DirectControlCompletion * Relay :=
  complete_control WaitFleet (CompletedFleet m) destination_node_id frame_id.

Definition abandon_frame (destination_node_id frame_id : string) (r : Relay) : Relay :=
  let key := (destination_node_id, frame_id) in
  on_peers (fun s =>
    let s := on_frame_ack_waiters (delete key) s in
    let s := on_direct_control_waiters (delete key) s in
    let s := on_challenge_control_waiters (delete key) s in
    let s := on_fleet_observation_waiters (delete key) s in
    let s := on_frame_destinations (fun g => g ∖ {[key]}) s in
    retain_mailbox (other_frame frame_id) destination_node_id s) r.

(** The loop at the end of [remember_acknowledgement]. *)
Fixpoint expire_acknowledgements (order : list FrameKey) (acked : gset FrameKey)
    : list FrameKey * gset FrameKey :=
  match order with
  | [] => ([], acked)
  | expired :: rest =>
      if MAX_RECENT_ACKNOWLEDGEMENTS <? Z.of_nat (length order)
      then expire_acknowledgements rest (acked ∖ {[expired]})
      else (order, acked)
  end.

Definition remember_acknowledgement (key : FrameKey) (s : PeerState) : PeerState :=
  let order := if bool_decide (key ∈ acknowledged_frames s) then acknowledged_frame_order s
               else acknowledged_frame_order s ++ [key] in
  let (order, acked) := expire_acknowledgements order ({[key]} ∪ acknowledged_frames s) in
  on_acknowledged_frame_order (fun _ => order) (on_acknowledged_frames (fun _ => acked) s).

Definition set_acknowledged (p : PublishedTaskRecord) : PublishedTaskRecord :=
  MkPublished (envelope p) (receipt p) true.

Definition mark_published_task_acknowledged (destination_node_id frame_id : string)
    (s : PeerState) : PeerState :=
  match published_frame_index s !! (destination_node_id, frame_id) with
  | None => s
  | Some task_key =>
      match published_tasks s !! task_key with
      | None => s
      | Some record =>
          if acknowledged record then s
          else on_acknowledged_published_task_order (fun l => l ++ [task_key])
                 (on_published_tasks (insert task_key (set_acknowledged record)) s)
      end
  end.

(** The waiter of the key, if there is one, receives the value. *)
Definition settle_waiter (kind : WaiterKind) (key : FrameKey) (value : Completion) (r : Relay)
    : Relay :=
  match waiters kind (peers r) !! key with
  | Some waiter => emit [OutValue waiter value] (on_peers (on_waiters kind (delete key)) r)
  | None => r
  end.

Definition ack_frame (destination_node_id frame_id : string) (r : Relay)
    : FrameAcknowledgement * Relay :=
  let destination_node_id := trim destination_node_id in
  let frame_id := trim frame_id in
  if is_empty destination_node_id || is_empty frame_id then (AckUnknownFrame, r)
  else
    let key := (destination_node_id, frame_id) in
    if is_some (direct_control_waiters (peers r) !! key)
       || is_some (challenge_control_waiters (peers r) !! key)
       || is_some (fleet_observation_waiters (peers r) !! key)
    then (AckUnknownFrame, r)
    else if bool_decide (key ∈ acknowledged_frames (peers r)) then (AckAccepted, r)
    else if negb (bool_decide (key ∈ frame_destinations (peers r))) then
      ((if frame_known frame_id (frame_destinations (peers r))
        then AckWrongDestination else AckUnknownFrame), r)
    else
      let r := on_peers (on_frame_destinations (fun g => g ∖ {[key]})) r in
      let r := on_peers (on_mailboxes (alter (remove_first frame_id) destination_node_id)) r in
      let r := on_peers (remember_acknowledgement key) r in
      let r := settle_waiter WaitAck key CompletedAck r in
      (AckAccepted, on_peers (mark_published_task_acknowledged destination_node_id frame_id) r).

(** ** Published tasks *)

(** The eviction loop: acknowledged publications go, oldest acknowledgement
    first, until there is room; [false] when none is left to evict. *)
Fixpoint make_room (order : list TaskPublishKey) (tasks : gmap TaskPublishKey PublishedTaskRecord)
    (index : gmap FrameKey TaskPublishKey)
    : bool * (list TaskPublishKey * gmap TaskPublishKey PublishedTaskRecord
              * gmap FrameKey TaskPublishKey) :=
  if Z.of_nat (size tasks) <? MAX_RETAINED_PUBLISHED_TASKS then (true, (order, tasks, index))
  else
    match order with
    | [] => (false, ([], tasks, index))
    | expired_key :: order =>
        match tasks !! expired_key with
        | Some expired =>
            make_room order (delete expired_key tasks)
              (delete (expired_key.1.2, receipt_frame_id (receipt expired)) index)
        | None => make_room order tasks index
        end
    end.

Definition evict_published (s : PeerState) : bool * PeerState :=
  let '(ok, (order, tasks, index)) :=
    make_room (acknowledged_published_task_order s) (published_tasks s)
      (published_frame_index s) in
  (ok, on_acknowledged_published_task_order (fun _ => order)
         (on_published_tasks (fun _ => tasks) (on_published_frame_index (fun _ => index) s))).

Definition record_publication (key : TaskPublishKey) (m : Message) (p : PublishedTaskReceipt)
    (s : PeerState) : PeerState :=
  on_published_tasks (insert key (MkPublished m p false))
    (on_published_frame_index (insert (key.1.2, receipt_frame_id p) key) s).

Definition publish_task_frame (source_node_id destination_node_id task_id : string)
    (identity_task routed_task : Message) (frame : RelayFrame)
    (proposed_receipt : PublishedTaskReceipt) (outcome : SendOutcome) (r : Relay)
    : PublishedTaskDelivery * Relay :=
  if negb (is_exact_task_frame frame routed_task) then (PublishRejectedInvalid, r)
  else
    let task_key := (source_node_id, destination_node_id, task_id) in
    match published_tasks (peers r) !! task_key with
    | Some existing =>
        ((if bool_decide (envelope existing = identity_task)
          then PublishRetry (receipt existing) else PublishConflict), r)
    | None =>
        let frame_key := (destination_node_id, receipt_frame_id proposed_receipt) in
        if bool_decide (frame_key ∈ frame_destinations (peers r))
           || bool_decide (frame_key ∈ acknowledged_frames (peers r))
           || (MAX_TRACKED_FRAMES <=? Z.of_nat (size (frame_destinations (peers r))))
           || is_empty (trim (receipt_frame_id proposed_receipt))
           || (MAX_TRACKED_FRAMES <=? Z.of_nat (mailbox_depth destination_node_id (peers r)))
        then (PublishRejectedCapacity, r)
        else
          let (ok, s) := evict_published (peers r) in
          if negb ok then (PublishRejectedCapacity, on_peers (fun _ => s) r)
          else
            let s := record_publication task_key identity_task proposed_receipt s in
            let (delivery, r) := route_frame_locked destination_node_id frame outcome
                                   (on_peers (fun _ => s) r) in
            (PublishNew proposed_receipt delivery,
             increment_tasks_routed (sync_connected_peer_metric r))
    end.

Definition classify_published_task (source_node_id destination_node_id task_id : string)
    (t : Message) (proposed_receipt : PublishedTaskReceipt) (r : Relay)
    : PublishedTaskIdentity * Relay :=
  let task_key := (source_node_id, destination_node_id, task_id) in
  match published_tasks (peers r) !! task_key with
  | Some existing =>
      ((if bool_decide (envelope existing = t)
        then IdentityRetry (receipt existing) else IdentityConflict), r)
  | None =>
      let (ok, s) := evict_published (peers r) in
      if negb ok then (IdentityRejectedCapacity, on_peers (fun _ => s) r)
      else (IdentityNew proposed_receipt,
            on_peers (fun _ => record_publication task_key t proposed_receipt s) r)
  end.

Definition forget_published_task (source_node_id destination_node_id task_id frame_id : string)
    (r : Relay) : Relay :=
  let task_key := (source_node_id, destination_node_id, task_id) in
  let frame_key := (destination_node_id, frame_id) in
  on_peers (fun s =>
    match published_tasks s !! task_key with
    | Some record =>
        if bool_decide (receipt_frame_id (receipt record) = frame_id)
           && negb (acknowledged record)
           && negb (bool_decide (frame_key ∈ frame_destinations s))
        then on_published_tasks (delete task_key) (on_published_frame_index (delete frame_key) s)
        else s
    | None => s
    end) r.

(** ** Queries *)

Definition peer_identity (node_id : string) (s : PeerState) : option PeerIdentity :=
  if negb (bool_decide (node_id ∈ registered s)) && negb (is_some (connected_nodes s !! node_id))
  then None
  else Some (MkPeerIdentity node_id (is_some (connected_nodes s !! node_id))
               (mailbox_depth node_id s)).

Definition is_healthy (r : Relay) : bool := transport_listening r.

Definition transport_status (r : Relay) : string :=
  if transport_listening r then "listening" else "starting".

(** ** Calls *)

Inductive RelayOp : Type :=
| RMarkListening
| RPeerConnected (peer : string)
| RPeerDisconnected (peer : string)
| RRegister (node : string)
| RConnect (node : string) (to : StreamSender) (try_send : nat -> SendOutcome)
| RDisconnect (node : string)
| RDisconnectIfCurrent (node : string) (gen : Z)
| RDisconnectStatus (node : string) (outcome : SendOutcome)
| RDisconnectStatusIfCurrent (node : string) (gen : Z) (outcome : SendOutcome)
| RRoute (target : string) (frame : RelayFrame) (outcome : SendOutcome)
| RRouteAck (target : string) (frame : RelayFrame) (outcome : SendOutcome)
| RRouteBind (target : string) (frame : RelayFrame) (outcome : SendOutcome)
| RRouteChallenge (target : string) (frame : RelayFrame) (outcome : SendOutcome)
| RRouteFleet (target : string) (frame : RelayFrame) (outcome : SendOutcome)
| RCompleteBind (destination id : string) (m : Message)
| RCompleteChallenge (destination id : string) (m : Message)
| RCompleteFleet (destination id : string) (m : Message)
| RAbandon (destination id : string)
| RAck (destination id : string)
| RPublish (source destination task_id : string) (identity_task routed_task : Message)
    (frame : RelayFrame) (receipt : PublishedTaskReceipt) (outcome : SendOutcome)
| RClassify (source destination task_id : string) (t : Message) (receipt : PublishedTaskReceipt)
| RForget (source destination task_id id : string).

(** The state after a call. *)
Definition relay_step (op : RelayOp) (r : Relay) : Relay :=
  match op with
  | RMarkListening => mark_transport_listening r
  | RPeerConnected peer => note_peer_connected peer r
  | RPeerDisconnected peer => note_peer_disconnected peer r
  | RRegister node => register_node node r
  | RConnect node to try_send => (connect_node_fenced node to try_send r).2
  | RDisconnect node => disconnect_node node r
  | RDisconnectIfCurrent node gen => disconnect_node_if_current node gen r
  | RDisconnectStatus node outcome => disconnect_node_with_status node outcome r
  | RDisconnectStatusIfCurrent node gen outcome =>
      disconnect_node_with_status_if_current node gen outcome r
  | RRoute target frame outcome => (route_frame target frame outcome r).2
  | RRouteAck target frame outcome => (route_frame_waiting_for_ack target frame outcome r).2
  | RRouteBind target frame outcome =>
      (route_nodescale_identity_bind_waiting_for_completion target frame outcome r).2
  | RRouteChallenge target frame outcome =>
      (route_nodescale_identity_challenge_waiting_for_completion target frame outcome r).2
  | RRouteFleet target frame outcome =>
      (route_fleet_observation_waiting_for_completion target frame outcome r).2
  | RCompleteBind destination id m => (complete_nodescale_identity_bind destination id m r).2
  | RCompleteChallenge destination id m =>
      (complete_nodescale_identity_challenge destination id m r).2
  | RCompleteFleet destination id m => (complete_fleet_observation destination id m r).2
  | RAbandon destination id => abandon_frame destination id r
  | RAck destination id => (ack_frame destination id r).2
  | RPublish source destination task_id identity_task routed_task frame receipt outcome =>
      (publish_task_frame source destination task_id identity_task routed_task frame receipt
         outcome r).2
  | RClassify source destination task_id t receipt =>
      (classify_published_task source destination task_id t receipt r).2
  | RForget source destination task_id id => forget_published_task source destination task_id id r
  end.

Definition relay_run (ops : list RelayOp) (r : Relay) : Relay :=
  fold_left (fun r op => relay_step op r) ops r.
End relay_runtime.

Arguments RelayFrame : clear implicits.
Arguments Relay : clear implicits.
Arguments PeerState : clear implicits.
Arguments RelayOp : clear implicits.
