(* ===== verification/RelayInv.v ===== *)
(** * Invariants of the relay runtime

    A frame is owned by its destination from the moment it is routed until it
    is acknowledged, completed or abandoned; while it is owned it waits in the
    destination's mailbox, and a typed control frame has its waiter. The
    tables of the runtime agree on this and keep their bounds. *)
From S2P Require Import Prelude Ident RelayRuntime.
From stdpp Require Import options.

Section relay_invariants.
Context {Message : Type} `{EqDecision Message}.
Implicit Types (f : RelayFrame Message) (s : PeerState Message) (r : Relay Message).

(** ** Ownership *)

Definition fid f : string := trim (frame_id f).

(** The kind of waiter that a frame needs, by its payload. *)
Definition control_kind f : WaiterKind :=
  if is_some (nodescale_identity_bind_v1 f) || is_some (nodescale_identity_bind_v2 f) then WaitBind
  else if is_some (nodescale_identity_challenge_v1 f)
          || is_some (nodescale_identity_challenge_v2 f) then WaitChallenge
  else if is_some (fleet_observation_publish_v1 f) then WaitFleet
  else WaitAck.

Definition mbox (mb : gmap string (list (RelayFrame Message))) (n : string) :
  list (RelayFrame Message) := default [] (mb !! n).

(** The mailboxes [mb], the owned frames [fd] and the waiters [w] agree. *)
Record owned_ok (mb : gmap string (list (RelayFrame Message))) (fd : gset FrameKey)
    (w : WaiterKind -> gmap FrameKey Channel) : Prop := {
  ow_owned n id : (n, id) ∈ fd <-> id ∈ fid <$> mbox mb n;
  ow_nodup n : NoDup (fid <$> mbox mb n);
  ow_payload n f : f ∈ mbox mb n -> has_exactly_one_relay_payload f = true /\ fid f <> ""%string;
  ow_waiter k n id : is_Some (w k !! (n, id)) ->
    exists f, f ∈ mbox mb n /\ fid f = id /\ control_kind f = k;
  ow_control n f : f ∈ mbox mb n -> control_kind f <> WaitAck ->
    is_Some (w (control_kind f) !! (n, fid f));
}.

(** Recent acknowledgements: a bounded queue and the set of its members. *)
Record acked_ok (fd acked : gset FrameKey) (order : list FrameKey) : Prop := {
  ak_members k : k ∈ acked <-> k ∈ order;
  ak_nodup : NoDup order;
  ak_bound : Z.of_nat (length order) <= MAX_RECENT_ACKNOWLEDGEMENTS;
  ak_disjoint k : k ∈ fd -> k ∉ acked;
}.

(** Retained publications: bounded, and the queue holds the acknowledged ones. *)
Record published_ok (tasks : gmap TaskPublishKey (PublishedTaskRecord (Message := Message)))
    (order : list TaskPublishKey) : Prop := {
  pu_bound : Z.of_nat (size tasks) <= MAX_RETAINED_PUBLISHED_TASKS;
  pu_nodup : NoDup order;
  pu_order k : k ∈ order <-> exists p, tasks !! k = Some p /\ acknowledged p = true;
}.

Record PeersInv s : Prop := {
  pi_owned : owned_ok (mailboxes s) (frame_destinations s) (fun k => waiters k s);
  pi_frames : Z.of_nat (size (frame_destinations s)) <= MAX_TRACKED_FRAMES;
  pi_acked : acked_ok (frame_destinations s) (acknowledged_frames s) (acknowledged_frame_order s);
  pi_published : published_ok (published_tasks s) (acknowledged_published_task_order s);
  pi_registered n c : connected_nodes s !! n = Some c -> n ∈ registered s;
}.

Lemma owned_ext mb fd w w' : (forall k, w k = w' k) -> owned_ok mb fd w -> owned_ok mb fd w'.
Proof using Type.
  intros Hw [H1 H2 H3 H4 H5]. split; try done.
  - intros k n id. rewrite <- Hw. apply H4.
  - intros n f. rewrite <- Hw. apply H5.
Qed.

Lemma mbox_insert mb n l m : mbox (<[n := l]> mb) m = if decide (n = m) then l else mbox mb m.
Proof using Type.
  unfold mbox. destruct (decide (n = m)) as [->|]; [by rewrite lookup_insert_eq|by rewrite lookup_insert_ne].
Qed.

Lemma mbox_alter g mb n m :
  g [] = [] -> mbox (alter g n mb) m = if decide (n = m) then g (mbox mb m) else mbox mb m.
Proof using Type.
  intros Hg. unfold mbox. destruct (decide (n = m)) as [->|].
  - rewrite lookup_alter_eq. by destruct (mb !! m).
  - by rewrite lookup_alter_ne.
Qed.

(** A frame of the owner's mailbox, by its id. *)
Lemma owned_frame mb fd w n id :
  owned_ok mb fd w -> (n, id) ∈ fd -> exists f, f ∈ mbox mb n /\ fid f = id.
Proof using Type.
  intros How Hin. apply (ow_owned _ _ _ How) in Hin.
  apply list_elem_of_fmap in Hin as (f & -> & Hf). eauto.
Qed.

Lemma owned_waiter mb fd w k n id :
  owned_ok mb fd w -> is_Some (w k !! (n, id)) -> (n, id) ∈ fd.
Proof using Type.
  intros How (f & Hf & <- & _)%(ow_waiter _ _ _ How). apply (ow_owned _ _ _ How).
  by apply list_elem_of_fmap_2.
Qed.

(** Frames of one mailbox are told apart by their ids. *)
Lemma same_fid mb fd w n f g :
  owned_ok mb fd w -> f ∈ mbox mb n -> g ∈ mbox mb n -> fid f = fid g -> f = g.
Proof using Type.
  intros How Hf Hg Heq. pose proof (ow_nodup _ _ _ How n) as Hnd.
  apply list_elem_of_lookup in Hf as [i Hi], Hg as [j Hj].
  assert (i = j) as ->; [|congruence].
  eapply (NoDup_lookup (fid <$> mbox mb n)); [done|..]; rewrite list_lookup_fmap.
  - by rewrite Hi.
  - rewrite Hj. simpl. by rewrite Heq.
Qed.

(** A frame has the waiter of one kind only. *)
Lemma waiter_kinds_disjoint mb fd w k k' n id :
  owned_ok mb fd w -> is_Some (w k !! (n, id)) -> is_Some (w k' !! (n, id)) -> k = k'.
Proof using Type.
  intros How (f & Hf & Hfi & <-)%(ow_waiter _ _ _ How) (g & Hg & Hgi & <-)%(ow_waiter _ _ _ How).
  f_equal. eapply (same_fid mb fd w n); [done..|]. congruence.
Qed.

(** *** A new owner *)

Lemma owned_route mb fd w n frame installed :
  owned_ok mb fd w -> (n, fid frame) ∉ fd ->
  has_exactly_one_relay_payload frame = true -> fid frame <> ""%string ->
  (control_kind frame <> WaitAck -> is_Some installed) ->
  owned_ok (<[n := mbox mb n ++ [frame]]> mb) ({[(n, fid frame)]} ∪ fd)
    (fun k => match installed with
              | Some c => if decide (k = control_kind frame) then <[(n, fid frame) := c]> (w k) else w k
              | None => w k end).
Proof using Type.
  intros How Hnew Hone Hne Hinst.
  assert (Hmb : forall m f, f ∈ mbox (<[n := mbox mb n ++ [frame]]> mb) m
                <-> f ∈ mbox mb m \/ (m = n /\ f = frame)).
  { intros m f. rewrite mbox_insert. case_decide as Hm.
    - subst m. rewrite elem_of_app, list_elem_of_singleton. naive_solver.
    - naive_solver. }
  split.
  - intros m id. rewrite elem_of_union, elem_of_singleton, (ow_owned _ _ _ How), mbox_insert.
    case_decide as Hm.
    + subst m. rewrite fmap_app, elem_of_app. simpl. rewrite list_elem_of_singleton. naive_solver.
    + naive_solver.
  - intros m. rewrite mbox_insert. case_decide; [|apply (ow_nodup _ _ _ How)]. subst m.
    rewrite fmap_app. apply NoDup_app. split; [apply (ow_nodup _ _ _ How)|]. split.
    + intros id Hid Hs. simpl in Hs. apply list_elem_of_singleton in Hs as ->. apply Hnew.
      by apply (ow_owned _ _ _ How).
    + apply NoDup_singleton.
  - intros m f [Hf|[-> ->]]%Hmb; [by eapply (ow_payload _ _ _ How)|done].
  - intros k m id Hk. destruct installed as [c|].
    + case_decide as Hkind.
      * rewrite lookup_insert_is_Some' in Hk. destruct Hk as [[= <- <-]|Hk].
        -- exists frame. split; [apply Hmb; by right|done].
        -- apply (ow_waiter _ _ _ How) in Hk as (f & Hf & ?). exists f. split; [apply Hmb; by left|done].
      * apply (ow_waiter _ _ _ How) in Hk as (f & Hf & ?). exists f. split; [apply Hmb; by left|done].
    + apply (ow_waiter _ _ _ How) in Hk as (f & Hf & ?). exists f. split; [apply Hmb; by left|done].
  - intros m f [Hf|[-> ->]]%Hmb Hc.
    + pose proof (ow_control _ _ _ How _ _ Hf Hc) as Hw. destruct installed as [c|]; [|done].
      case_decide; [|done]. apply lookup_insert_is_Some'. by right.
    + destruct (Hinst Hc) as [c ->]. rewrite decide_True by done. rewrite lookup_insert_eq. by eexists.
Qed.

(** *** Giving an owned frame up *)

Lemma elem_of_other id (l : list (RelayFrame Message)) f :
  f ∈ filter (fun f => other_frame id f = true) l <-> f ∈ l /\ fid f <> id.
Proof using Type.
  rewrite list_elem_of_filter. unfold other_frame. rewrite negb_true_iff, bool_decide_eq_false.
  unfold fid. tauto.
Qed.

Lemma NoDup_fids_filter (P : RelayFrame Message -> Prop) `{!forall x, Decision (P x)}
    (l : list (RelayFrame Message)) :
  NoDup (fid <$> l) -> NoDup (fid <$> filter P l).
Proof using Type. intros Hnd. eapply sublist_NoDup; [exact Hnd|]. apply fmap_sublist, sublist_filter. Qed.

Lemma owned_release mb fd w n id :
  owned_ok mb fd w ->
  owned_ok (alter (filter (fun f => other_frame id f = true)) n mb) (fd ∖ {[(n, id)]})
    (fun k => delete (n, id) (w k)).
Proof using Type.
  intros How.
  assert (Hmb : forall m f, f ∈ mbox (alter (filter (fun f => other_frame id f = true)) n mb) m
                <-> f ∈ mbox mb m /\ (m, fid f) <> (n, id)).
  { intros m f. rewrite mbox_alter by done. case_decide as Hm.
    - subst m. rewrite elem_of_other. naive_solver.
    - naive_solver. }
  split.
  - intros m id'. rewrite elem_of_difference, elem_of_singleton, (ow_owned _ _ _ How).
    rewrite !list_elem_of_fmap. setoid_rewrite Hmb. naive_solver.
  - intros m. rewrite mbox_alter by done. case_decide; [|apply (ow_nodup _ _ _ How)].
    apply NoDup_fids_filter, (ow_nodup _ _ _ How).
  - intros m f [Hf _]%Hmb. by eapply (ow_payload _ _ _ How).
  - intros k m id'. rewrite lookup_delete_is_Some.
    intros [Hne (f & Hf & <- & Hk)%(ow_waiter _ _ _ How)]. exists f.
    split; [|done]. apply Hmb. split; [done|congruence].
  - intros m f [Hf Hne]%Hmb Hc. apply lookup_delete_is_Some. split; [congruence|].
    by apply (ow_control _ _ _ How).
Qed.

Lemma control_kind_fleet f :
  has_exactly_one_relay_payload f = true ->
  is_some (fleet_observation_publish_v1 f) = true <-> control_kind f = WaitFleet.
Proof using Type.
  unfold has_exactly_one_relay_payload, control_kind. rewrite Nat.eqb_eq. destruct f; simpl.
  repeat match goal with |- context [count_some ?o] => destruct o; simpl end; intros; split; intros;
    try done; lia.
Qed.

(** The fleet frames of a node go together. *)
Lemma owned_drop_fleet mb fd w n :
  owned_ok mb fd w ->
  let keys := filter (fun k => k.1 = n) (dom (w WaitFleet)) in
  owned_ok (alter (filter (fun f => negb (is_some (fleet_observation_publish_v1 f)) = true)) n mb)
    (fd ∖ keys)
    (fun k => if decide (k = WaitFleet) then filter (fun kc => kc.1 ∉ keys) (w k) else w k).
Proof using Type.
  intros How keys.
  assert (Hkeys : forall m id, (m, id) ∈ keys <-> m = n /\ is_Some (w WaitFleet !! (m, id))).
  { intros m id. unfold keys. rewrite elem_of_filter, elem_of_dom. done. }
  assert (Hmb : forall m f, f ∈ mbox (alter (filter (fun f =>
                  negb (is_some (fleet_observation_publish_v1 f)) = true)) n mb) m
                <-> f ∈ mbox mb m /\ (m, fid f) ∉ keys).
  { intros m f. rewrite mbox_alter by done. case_decide as Hm.
    - subst m. rewrite list_elem_of_filter, negb_true_iff. split; intros [H1 H2]; split; try done.
      + rewrite Hkeys. intros [_ (g & Hg & Hid & Hk)%(ow_waiter _ _ _ How)].
        assert (g = f) as -> by (by eapply same_fid). destruct (ow_payload _ _ _ How _ _ Hg) as [Hone _].
        apply control_kind_fleet in Hk; [congruence|done].
      + destruct (is_some _) eqn:E; [|done]. exfalso. apply H2, Hkeys. split; [done|].
        destruct (ow_payload _ _ _ How _ _ H1) as [Hone _].
        apply control_kind_fleet in E; [|done]. rewrite <- E.
        apply (ow_control _ _ _ How); [done|]. by rewrite E.
    - rewrite Hkeys. naive_solver. }
  split.
  - intros m id. rewrite elem_of_difference, (ow_owned _ _ _ How).
    rewrite !list_elem_of_fmap. setoid_rewrite Hmb. naive_solver.
  - intros m. rewrite mbox_alter by done. case_decide; [|apply (ow_nodup _ _ _ How)].
    apply NoDup_fids_filter, (ow_nodup _ _ _ How).
  - intros m f [Hf _]%Hmb. by eapply (ow_payload _ _ _ How).
  - intros k m id Hw.
    assert (Hold : is_Some (w k !! (m, id)) /\ (m, id) ∉ keys).
    { case_decide as Hk.
      - destruct Hw as [c [Hc Hn]%map_lookup_filter_Some]. split; [by eexists|done].
      - split; [done|]. intros [_ Hfl]%Hkeys. apply Hk. by eapply waiter_kinds_disjoint. }
    destruct Hold as [(f & Hf & <- & Hk)%(ow_waiter _ _ _ How) Hn]. exists f.
    split; [by apply Hmb|done].
  - intros m f [Hf Hn]%Hmb Hc. pose proof (ow_control _ _ _ How _ _ Hf Hc) as [c Hw].
    case_decide; [|by eexists]. exists c. by apply map_lookup_filter_Some.
Qed.

(** ** Acknowledgements *)

Lemma expire_acknowledgements_ok order : forall acked order' acked',
  (forall k, k ∈ acked <-> k ∈ order) -> NoDup order ->
  expire_acknowledgements order acked = (order', acked') ->
  (forall k, k ∈ acked' <-> k ∈ order') /\ NoDup order'
  /\ Z.of_nat (length order') <= MAX_RECENT_ACKNOWLEDGEMENTS
  /\ order' `suffix_of` order.
Proof using Type.
  induction order as [|k order IH]; intros acked order' acked' Hk Hnd; simpl.
  - intros [= <- <-]. by split.
  - apply NoDup_cons in Hnd as [Hn Hnd]. destruct (Z.ltb_spec MAX_RECENT_ACKNOWLEDGEMENTS
      (Z.of_nat (S (length order)))) as [Hlt|Hle].
    + intros H. apply IH in H as (H1 & H2 & H3 & H4); [|set_solver|done].
      split; [done|]. split; [done|]. split; [done|]. by apply suffix_cons_r.
    + intros [= <- <-]. split; [done|]. split; [by constructor|]. split; [done|]. done.
Qed.

Lemma remember_ok fd s k :
  acked_ok fd (acknowledged_frames s) (acknowledged_frame_order s) -> k ∉ fd ->
  let s' := remember_acknowledgement k s in
  acked_ok fd (acknowledged_frames s') (acknowledged_frame_order s').
Proof using Type.
  intros [Hm Hnd Hb Hd] Hk. unfold remember_acknowledgement.
  set (order := if bool_decide (k ∈ acknowledged_frames s) then _ else _).
  assert (Horder : forall x, x ∈ {[k]} ∪ acknowledged_frames s <-> x ∈ order).
  { intros x. unfold order. rewrite elem_of_union, elem_of_singleton, Hm.
    destruct (bool_decide_reflect (k ∈ acknowledged_frames s)) as [Hin|].
    - apply Hm in Hin. naive_solver.
    - rewrite elem_of_app, list_elem_of_singleton. naive_solver. }
  assert (Hnd' : NoDup order).
  { unfold order. destruct (bool_decide_reflect (k ∈ acknowledged_frames s)) as [|Hin]; [done|].
    apply NoDup_app. split; [done|]. split; [|by apply NoDup_singleton].
    intros x Hx ->%list_elem_of_singleton. by apply Hin, Hm. }
  destruct (expire_acknowledgements order ({[k]} ∪ acknowledged_frames s)) as [order' acked'] eqn:E.
  destruct (expire_acknowledgements_ok _ _ _ _ Horder Hnd' E) as (H1 & H2 & H3 & H4). simpl.
  split; try done. intros x Hx Ha%H1. destruct H4 as [pre Heq].
  assert (Hin : x ∈ order) by (rewrite Heq; apply elem_of_app; by right).
  apply Horder in Hin. apply elem_of_union in Hin as [->%elem_of_singleton|Hin]; [done|].
  by apply (Hd x).
Qed.

Lemma acked_shrink fd fd' acked order : fd' ⊆ fd -> acked_ok fd acked order -> acked_ok fd' acked order.
Proof using Type. intros Hsub [H1 H2 H3 H4]. split; try done. intros k Hk. apply H4. by apply Hsub. Qed.

Lemma acked_grow fd acked order k :
  k ∉ acked -> acked_ok fd acked order -> acked_ok ({[k]} ∪ fd) acked order.
Proof using Type.
  intros Hk [H1 H2 H3 H4]. split; try done.
  intros x [->%elem_of_singleton|Hx]%elem_of_union; [done|by apply H4].
Qed.

(** ** Publications *)

Lemma make_room_ok order : forall tasks index ok order' tasks' index',
  NoDup order ->
  (forall k, k ∈ order <-> exists p, tasks !! k = Some p /\ acknowledged p = true) ->
  Z.of_nat (size tasks) <= MAX_RETAINED_PUBLISHED_TASKS ->
  make_room order tasks index = (ok, (order', tasks', index')) ->
  published_ok tasks' order' /\ tasks' ⊆ tasks
  /\ (ok = true -> Z.of_nat (size tasks') < MAX_RETAINED_PUBLISHED_TASKS).
Proof using Type.
  induction order as [|k order IH]; intros tasks index ok order' tasks' index' Hnd Hord Hb; simpl;
    destruct (Z.ltb_spec (Z.of_nat (size tasks)) MAX_RETAINED_PUBLISHED_TASKS) as [Hlt|Hge].
  - by intros [= <- <- <- <-].
  - by intros [= <- <- <- <-].
  - by intros [= <- <- <- <-].
  - apply NoDup_cons in Hnd as [Hn Hnd].
    destruct (proj1 (Hord k)) as (p & Hp & Ha); [left|]. rewrite Hp. intros H.
    apply IH in H as (H1 & H2 & H3); [|done| |].
    + split; [done|]. split; [|done]. etrans; [exact H2|apply delete_subseteq].
    + intros x. split.
      * intros Hx. destruct (proj1 (Hord x)) as (q & Hq & Hqa); [by right|]. exists q.
        rewrite lookup_delete_ne; [done|]. by intros ->.
      * intros (q & [Hne Hq]%lookup_delete_Some & Hqa).
        assert (Hx : x ∈ k :: order) by (apply Hord; by exists q).
        apply elem_of_cons in Hx as [->|?]; done.
    + rewrite map_size_delete, Hp. lia.
Qed.

Lemma evict_ok s ok s' :
  published_ok (published_tasks s) (acknowledged_published_task_order s) ->
  evict_published s = (ok, s') ->
  published_ok (published_tasks s') (acknowledged_published_task_order s')
  /\ published_tasks s' ⊆ published_tasks s
  /\ (ok = true -> Z.of_nat (size (published_tasks s')) < MAX_RETAINED_PUBLISHED_TASKS).
Proof using Type.
  intros [H1 H2 H3]. unfold evict_published.
  destruct (make_room _ _ _) as [ok' [[order tasks] index]] eqn:E. intros [= <- <-]. simpl.
  eapply make_room_ok; done.
Qed.

Lemma record_ok tasks order k m p :
  published_ok tasks order -> Z.of_nat (size tasks) < MAX_RETAINED_PUBLISHED_TASKS ->
  tasks !! k = None -> published_ok (<[k := MkPublished m p false]> tasks) order.
Proof using Type.
  intros [H1 H2 H3] Hlt Hk. split; [|done|].
  - rewrite map_size_insert_None by done. lia.
  - intros x. rewrite H3. destruct (decide (k = x)) as [<-|Hne].
    + rewrite Hk, lookup_insert_eq. split; [naive_solver|]. by intros (q & [= <-] & ?).
    + by rewrite lookup_insert_ne.
Qed.

Lemma mark_ok s n id :
  published_ok (published_tasks s) (acknowledged_published_task_order s) ->
  let s' := mark_published_task_acknowledged n id s in
  published_ok (published_tasks s') (acknowledged_published_task_order s').
Proof using Type.
  intros Hp. unfold mark_published_task_acknowledged.
  destruct (published_frame_index s !! (n, id)) as [key|]; [|done].
  destruct (published_tasks s !! key) as [p|] eqn:Hk; [|done].
  destruct (acknowledged p) eqn:Ha; [done|]. destruct Hp as [H1 H2 H3]. simpl.
  assert (Hnew : key ∉ acknowledged_published_task_order s).
  { intros (q & Hq & Hqa)%H3. congruence. }
  split.
  - rewrite map_size_insert_Some by (by eexists). done.
  - apply NoDup_app. split; [done|]. split; [|by apply NoDup_singleton].
    by intros x Hx ->%list_elem_of_singleton.
  - intros x. rewrite elem_of_app, list_elem_of_singleton, H3.
    destruct (decide (key = x)) as [<-|Hne].
    + rewrite lookup_insert_eq. split; [|by right]. intros _. by eexists.
    + rewrite lookup_insert_ne by done. naive_solver.
Qed.

Lemma forget_ok tasks order k p :
  published_ok tasks order -> tasks !! k = Some p -> acknowledged p = false ->
  published_ok (delete k tasks) order.
Proof using Type.
  intros [H1 H2 H3] Hk Ha. split; [|done|].
  - rewrite map_size_delete, Hk. lia.
  - intros x. rewrite H3. destruct (decide (k = x)) as [<-|Hne].
    + rewrite lookup_delete_eq. split; [intros (q & Hq & Hqa); congruence|by intros (? & ? & _)].
    + by rewrite lookup_delete_ne.
Qed.

(** ** Operations on the shared state *)

Lemma waiters_on kind g s k :
  waiters k (on_waiters kind g s) = if decide (k = kind) then g (waiters kind s) else waiters k s.
Proof using Type. by destruct kind, k. Qed.

(** [on_waiters] leaves everything but the waiters. *)
Lemma inv_on_waiters kind g s :
  owned_ok (mailboxes s) (frame_destinations s)
    (fun k => if decide (k = kind) then g (waiters kind s) else waiters k s) ->
  PeersInv s -> PeersInv (on_waiters kind g s).
Proof using Type.
  intros How [H1 H2 H3 H4 H5].
  assert (How' : owned_ok (mailboxes s) (frame_destinations s)
                   (fun k => waiters k (on_waiters kind g s))).
  { eapply owned_ext; [|exact How]. intros k. by rewrite waiters_on. }
  by destruct kind; split.
Qed.

Definition with_waiter (o : option Channel) (kind : WaiterKind) (key : FrameKey) s :
  PeerState Message :=
  match o with Some c => on_waiters kind (insert key c) s | None => s end.

Lemma size_union_new (k : FrameKey) (fd : gset FrameKey) :
  k ∉ fd -> size ({[k]} ∪ fd) = S (size fd).
Proof using Type. intros Hk. rewrite size_union by set_solver. by rewrite size_singleton. Qed.

Lemma inv_own n frame o s :
  PeersInv s -> has_exactly_one_relay_payload frame = true -> fid frame <> ""%string ->
  (n, fid frame) ∉ frame_destinations s -> (n, fid frame) ∉ acknowledged_frames s ->
  Z.of_nat (size (frame_destinations s)) < MAX_TRACKED_FRAMES ->
  (control_kind frame <> WaitAck -> is_Some o) ->
  PeersInv (with_waiter o (control_kind frame) (n, fid frame) (own_frame n (fid frame) frame s)).
Proof using Type.
  intros [H1 H2 H3 H4 H5] Hone Hne Hfd Hak Hcap Ho.
  pose proof (owned_route _ _ _ n frame o H1 Hfd Hone Hne Ho) as How.
  assert (Hsize : Z.of_nat (size ({[(n, fid frame)]} ∪ frame_destinations s)) <= MAX_TRACKED_FRAMES)
    by (rewrite size_union_new by done; lia).
  pose proof (acked_grow _ _ _ _ Hak H3) as Hacked.
  assert (Hreg : forall m c, connected_nodes s !! m = Some c -> m ∈ {[n]} ∪ registered s)
    by (intros m c Hc; apply elem_of_union; right; by eapply H5).
  destruct o as [c|].
  - unfold with_waiter. set (s1 := own_frame n (fid frame) frame s).
    assert (Hmb : mailboxes s1 = <[n := mbox (mailboxes s) n ++ [frame]]> (mailboxes s)) by done.
    assert (How' : owned_ok (mailboxes s1) (frame_destinations s1)
      (fun k => waiters k (on_waiters (control_kind frame) (insert (n, fid frame) c) s1))).
    { eapply owned_ext; [|exact How]. intros k. rewrite waiters_on. destruct (control_kind frame), k; done. }
    by destruct (control_kind frame); split.
  - by split.
Qed.

Lemma inv_connections g s :
  PeersInv s -> (forall n c, g (connected_nodes s) !! n = Some c -> n ∈ registered s) ->
  PeersInv (on_connected_nodes g s).
Proof using Type. intros [H1 H2 H3 H4 H5] Hg. by split. Qed.

Lemma inv_registered n s : PeersInv s -> PeersInv (on_registered (fun g => {[n]} ∪ g) s).
Proof using Type.
  intros [H1 H2 H3 H4 H5]. split; try done. intros m c Hc. simpl. apply elem_of_union. right.
  by eapply H5.
Qed.

Lemma inv_generation g s : PeersInv s -> PeersInv (on_next_connection_generation g s).
Proof using Type. intros [H1 H2 H3 H4 H5]. by split. Qed.

Lemma inv_libp2p g s : PeersInv s -> PeersInv (on_libp2p_connected_peers g s).
Proof using Type. intros [H1 H2 H3 H4 H5]. by split. Qed.

Lemma mbox_ensure n mb m :
  mbox (partial_alter (fun m => Some (default [] m)) n mb) m = mbox mb m.
Proof using Type.
  unfold mbox. destruct (decide (n = m)) as [->|].
  - by rewrite lookup_partial_alter_eq.
  - by rewrite lookup_partial_alter_ne.
Qed.

Lemma owned_mbox_ext mb mb' fd w :
  (forall n, mbox mb' n = mbox mb n) -> owned_ok mb fd w -> owned_ok mb' fd w.
Proof using Type.
  intros Hm [H1 H2 H3 H4 H5]. split.
  - intros n id. by rewrite Hm.
  - intros n. by rewrite Hm.
  - intros n f. rewrite Hm. apply H3.
  - intros k n id Hk. rewrite Hm. by apply H4 in Hk.
  - intros n f. rewrite Hm. apply H5.
Qed.

Lemma inv_ensure_mailbox n s : PeersInv s -> PeersInv (ensure_mailbox n s).
Proof using Type.
  intros [H1 H2 H3 H4 H5]. split; try done. eapply owned_mbox_ext; [|exact H1].
  intros m. apply mbox_ensure.
Qed.

Lemma inv_release n id s :
  PeersInv s -> PeersInv (peers (abandon_frame n id (on_peers (fun _ => s) new_relay))).
Proof using Type.
  intros [H1 H2 H3 H4 H5]. pose proof (owned_release _ _ _ n id H1) as How. split; simpl; try done.
  - eapply owned_ext; [|exact How]. by intros [].
  - assert (size (frame_destinations s ∖ {[(n, id)]}) <= size (frame_destinations s))%nat; [|lia].
    apply subseteq_size. set_solver.
  - eapply acked_shrink; [|exact H3]. set_solver.
Qed.

Lemma inv_drop_fleet n s : PeersInv s -> PeersInv (abandon_fleet_observation_destination n s).
Proof using Type.
  intros [H1 H2 H3 H4 H5]. pose proof (owned_drop_fleet _ _ _ n H1) as How. split; simpl; try done.
  - eapply owned_ext; [|exact How]. by intros [].
  - etrans; [|exact H2]. apply inj_le, subseteq_size. set_solver.
  - eapply acked_shrink; [|exact H3]. set_solver.
Qed.

Lemma inv_drop_connection n s : PeersInv s -> PeersInv (drop_connection n s).
Proof using Type.
  intros HI. apply inv_drop_fleet, inv_connections; [done|].
  intros m c [_ Hc]%lookup_delete_Some. by eapply pi_registered.
Qed.

Lemma inv_published tasks order index s :
  PeersInv s -> published_ok tasks order ->
  PeersInv (on_acknowledged_published_task_order (fun _ => order)
              (on_published_tasks (fun _ => tasks) (on_published_frame_index (fun _ => index) s))).
Proof using Type. intros [H1 H2 H3 H4 H5] Hp. by split. Qed.

(** ** The calls *)

(** What [route_frame_locked] answers and does. *)
Inductive route_effect (n : string) (frame : RelayFrame Message) r :
    FrameDelivery * Relay Message -> Prop :=
| rf_rejected d : accepted d = false -> route_effect n frame r (d, r)
| rf_delivered c r' :
    connected_nodes (peers r) !! n = Some c ->
    peers r' = own_frame n (fid frame) frame (peers r) ->
    trace r' = trace r ++ [OutFrame (sender c) frame] -> next_channel r' = next_channel r ->
    route_effect n frame r (Delivered, r')
| rf_mailboxed r' :
    (peers r' = own_frame n (fid frame) frame (peers r)
     \/ peers r' = on_connected_nodes (delete n) (own_frame n (fid frame) frame (peers r))) ->
    trace r' = trace r -> next_channel r' = next_channel r ->
    route_effect n frame r (Mailboxed, r').

(** The frame a route accepts, and why. *)
Record acceptable (n : string) (frame : RelayFrame Message) s : Prop := {
  ac_payload : has_exactly_one_relay_payload frame = true;
  ac_id : fid frame <> ""%string;
  ac_new : (n, fid frame) ∉ frame_destinations s;
  ac_unacked : (n, fid frame) ∉ acknowledged_frames s;
  ac_frames : Z.of_nat (size (frame_destinations s)) < MAX_TRACKED_FRAMES;
  ac_mailbox : Z.of_nat (mailbox_depth n s) < MAX_TRACKED_FRAMES;
}.

Lemma is_empty_false x : is_empty x = false <-> x <> ""%string.
Proof using Type. apply bool_decide_eq_false. Qed.

Lemma route_frame_locked_effect n frame outcome r :
  let p := route_frame_locked n frame outcome r in
  route_effect n frame r p /\ (accepted p.1 = true <-> acceptable n frame (peers r)).
Proof using Type.
  unfold route_frame_locked. fold (fid frame).
  destruct (has_exactly_one_relay_payload frame) eqn:Hone; simpl.
  2:{ split; [by apply rf_rejected|]. split; [done|]. intros []; congruence. }
  destruct (is_empty (fid frame)) eqn:Hid; simpl.
  { split; [by apply rf_rejected|]. split; [done|]. intros [_ Hne _ _ _ _].
    by apply is_empty_false in Hne; rewrite Hne in Hid. }
  apply is_empty_false in Hid.
  destruct (bool_decide_reflect ((n, fid frame) ∈ frame_destinations (peers r))) as [|Hfd]; simpl.
  { split; [by apply rf_rejected|]. split; [done|]. by intros []. }
  destruct (bool_decide_reflect ((n, fid frame) ∈ acknowledged_frames (peers r))) as [|Hak]; simpl.
  { split; [by apply rf_rejected|]. split; [done|]. by intros []. }
  unfold over_capacity.
  destruct (Z.leb_spec MAX_TRACKED_FRAMES (Z.of_nat (size (frame_destinations (peers r))))); simpl.
  { split; [by apply rf_rejected|]. split; [done|]. intros []. lia. }
  destruct (Z.leb_spec MAX_TRACKED_FRAMES (Z.of_nat (mailbox_depth n (peers r)))); simpl.
  { split; [by apply rf_rejected|]. split; [done|]. intros []. lia. }
  assert (Hac : acceptable n frame (peers r)) by done.
  destruct (connected_nodes (peers r) !! n) as [c|] eqn:Hc; [destruct outcome|].
  - split; [|done]. by apply (rf_delivered _ _ _ c).
  - split; [|done]. apply rf_mailboxed; auto.
  - split; [|done]. apply rf_mailboxed; auto.
  - split; [|done]. apply rf_mailboxed; auto.
Qed.

(** An accepted route followed by the installation of the frame's waiter. *)
Lemma inv_route n frame outcome o r d r' :
  PeersInv (peers r) -> route_frame_locked n frame outcome r = (d, r') -> accepted d = true ->
  (control_kind frame <> WaitAck -> is_Some o) ->
  PeersInv (with_waiter o (control_kind frame) (n, fid frame) (peers r')).
Proof using Type.
  intros HI Hr Hd Ho. pose proof (route_frame_locked_effect n frame outcome r) as [He Hac].
  rewrite Hr in He, Hac. simpl in Hac. destruct (proj1 Hac Hd) as [Hone Hne Hfd Hak Hcap _].
  pose proof (inv_own n frame o _ HI Hone Hne Hfd Hak Hcap Ho) as HI'.
  inversion He as [d0 Hd0|c r0 Hc Hp _ _|r0 Hp _ _]; subst.
  - congruence.
  - by rewrite Hp.
  - destruct Hp as [->| ->]; [done|].
    assert (Heq : with_waiter o (control_kind frame) (n, fid frame)
      (on_connected_nodes (delete n) (own_frame n (fid frame) frame (peers r)))
      = on_connected_nodes (delete n) (with_waiter o (control_kind frame) (n, fid frame)
          (own_frame n (fid frame) frame (peers r)))).
    { destruct o; [|done]. by destruct (control_kind frame). }
    rewrite Heq. apply inv_connections; [done|]. intros m c [_ Hc]%lookup_delete_Some.
    by eapply pi_registered.
Qed.

Lemma rejected_unchanged n frame outcome r d r' :
  route_frame_locked n frame outcome r = (d, r') -> accepted d = false -> r' = r.
Proof using Type.
  intros Hr Hd. destruct (route_frame_locked_effect n frame outcome r) as [He _]. rewrite Hr in He.
  by inversion He; subst.
Qed.

Lemma generic_kind frame : has_exactly_one_generic_payload frame = true -> control_kind frame = WaitAck.
Proof using Type.
  unfold has_exactly_one_generic_payload, has_exactly_one_relay_payload, control_kind.
  destruct frame; simpl.
  repeat match goal with |- context [count_some ?o] => destruct o; simpl end; done.
Qed.

Lemma exact_task_kind frame t : is_exact_task_frame frame t = true -> control_kind frame = WaitAck.
Proof using Type.
  unfold is_exact_task_frame. intros [H1 H2%bool_decide_eq_true]%andb_true_iff.
  apply generic_kind. unfold has_exactly_one_generic_payload. by rewrite H1, H2.
Qed.

Lemma bind_kind frame : is_bind_frame frame = true -> control_kind frame = WaitBind.
Proof using Type.
  unfold is_bind_frame, control_kind. destruct frame; simpl.
  repeat match goal with |- context [count_some ?o] => destruct o; simpl end; done.
Qed.

Lemma challenge_kind frame : is_challenge_frame frame = true -> control_kind frame = WaitChallenge.
Proof using Type.
  unfold is_challenge_frame, control_kind. destruct frame; simpl.
  repeat match goal with |- context [count_some ?o] => destruct o; simpl end;
    repeat match goal with |- context [is_some ?o] => destruct o; simpl end; done.
Qed.

Lemma fleet_kind frame : is_fleet_frame frame = true -> control_kind frame = WaitFleet.
Proof using Type.
  unfold is_fleet_frame, control_kind. destruct frame; simpl.
  repeat match goal with |- context [is_some ?o] => destruct o; simpl end; done.
Qed.

Lemma route_waiting_inv kind n frame outcome r :
  PeersInv (peers r) -> control_kind frame = kind ->
  PeersInv (peers (route_waiting kind n frame outcome r).2).
Proof using Type.
  intros HI Hk. unfold route_waiting. destruct (route_frame_locked n frame outcome r) as [d r'] eqn:Hr.
  destruct (accepted d) eqn:Hd.
  - subst kind. exact (inv_route n frame outcome (Some (next_channel r')) r d r' HI Hr Hd
      ltac:(by intros; eexists)).
  - apply rejected_unchanged in Hr; [|done]. by subst.
Qed.

(** Taking the waiter of a key that has none. *)
Lemma on_waiters_none k key s : waiters k s !! key = None -> on_waiters k (delete key) s = s.
Proof using Type. destruct s, k; intros Hn; cbn in Hn |- *; cbv delta [on_frame_ack_waiters
  on_direct_control_waiters on_challenge_control_waiters on_fleet_observation_waiters];
  cbn; by rewrite delete_id. Qed.

Definition drop_waiters (key : FrameKey) s : PeerState Message :=
  on_waiters WaitFleet (delete key) (on_waiters WaitChallenge (delete key)
    (on_waiters WaitBind (delete key) (on_waiters WaitAck (delete key) s))).

Lemma waiters_on_ne k kind g s : k <> kind -> waiters k (on_waiters kind g s) = waiters k s.
Proof using Type. intros Hk. rewrite waiters_on. by rewrite decide_False. Qed.

(** A key with the waiter of one kind only. *)
Lemma drop_one kind key s :
  (forall k, k <> kind -> waiters k s !! key = None) ->
  on_waiters kind (delete key) s = drop_waiters key s.
Proof using Type.
  intros Hn. unfold drop_waiters.
  destruct kind.
  - rewrite (on_waiters_none WaitBind), (on_waiters_none WaitChallenge), (on_waiters_none WaitFleet);
      rewrite ?waiters_on_ne by done; auto.
  - rewrite (on_waiters_none WaitAck) by auto.
    rewrite (on_waiters_none WaitChallenge), (on_waiters_none WaitFleet);
      rewrite ?waiters_on_ne by done; auto.
  - rewrite (on_waiters_none WaitAck), (on_waiters_none WaitBind) by auto.
    rewrite (on_waiters_none WaitFleet); rewrite ?waiters_on_ne by done; auto.
  - rewrite (on_waiters_none WaitAck), (on_waiters_none WaitBind), (on_waiters_none WaitChallenge);
      auto.
Qed.

Lemma abandon_is n id r :
  peers (abandon_frame n id r)
  = retain_mailbox (other_frame id) n
      (on_frame_destinations (fun g => g ∖ {[(n, id)]}) (drop_waiters (n, id) (peers r))).
Proof using Type. done. Qed.

(** A completion gives the frame up, like an abandonment, and tells the waiter. *)
Lemma complete_control_accepted kind value dest id r r' :
  PeersInv (peers r) -> complete_control kind value dest id r = (ControlAccepted, r') ->
  exists c, waiters kind (peers r) !! (trim dest, trim id) = Some c
    /\ (trim dest, trim id) ∈ frame_destinations (peers r)
    /\ peers r' = peers (abandon_frame (trim dest) (trim id) r)
    /\ trace r' = trace r ++ [OutValue c value] /\ next_channel r' = next_channel r.
Proof using Type.
  intros HI. unfold complete_control. destruct (_ || _); [by intros [=]|].
  destruct (waiters kind (peers r) !! (trim dest, trim id)) as [c|] eqn:Hc; [|by destruct (frame_known _ _); intros [=]].
  destruct (bool_decide_reflect ((trim dest, trim id) ∈ frame_destinations
              (peers (on_peers (on_waiters kind (delete (trim dest, trim id))) r)))) as [Hin|]; [|by intros [=]].
  simpl. intros [= <-]. exists c. split; [done|].
  assert (Hfd : (trim dest, trim id) ∈ frame_destinations (peers r))
    by (eapply (owned_waiter _ _ (fun k => waiters k (peers r)) kind); [apply HI|by eexists]).
  split; [done|]. split; [|done].
  assert (Hother : forall k, k <> kind -> waiters k (peers r) !! (trim dest, trim id) = None).
  { intros k Hk. apply eq_None_not_Some. intros Hs. apply Hk.
    eapply (waiter_kinds_disjoint _ _ (fun k => waiters k (peers r))); [apply HI|exact Hs|by eexists]. }
  exact (f_equal (fun x => retain_mailbox (other_frame (trim id)) (trim dest)
    (on_frame_destinations (fun g => g ∖ {[(trim dest, trim id)]}) x)) (drop_one kind _ _ Hother)).
Qed.

Lemma complete_control_refused kind value dest id r c r' :
  PeersInv (peers r) -> complete_control kind value dest id r = (c, r') -> c <> ControlAccepted -> r' = r.
Proof using Type.
  intros HI. unfold complete_control. destruct (_ || _); [by intros [= <- <-]|].
  destruct (waiters kind (peers r) !! (trim dest, trim id)) as [w|] eqn:Hc; [|by intros [= <- <-]].
  assert (Hfd : (trim dest, trim id) ∈ frame_destinations (peers r))
    by (eapply (owned_waiter _ _ (fun k => waiters k (peers r)) kind); [apply HI|by eexists]).
  rewrite bool_decide_true by (by destruct kind). simpl. by intros [= <- <-].
Qed.

(** ** Acknowledgement *)

Lemma remove_first_filter id (l : list (RelayFrame Message)) :
  NoDup (fid <$> l) -> remove_first id l = filter (fun f => other_frame id f = true) l.
Proof using Type.
  induction l as [|f l IH]; [done|]. simpl. intros [Hn Hnd]%NoDup_cons.
  destruct (bool_decide_reflect (trim (frame_id f) = id)) as [Hid|Hid].
  - rewrite filter_cons_False by (unfold other_frame; by rewrite bool_decide_true).
    symmetry. apply filter_keeps_all. intros g Hg. unfold other_frame.
    rewrite bool_decide_false; [done|]. intros Hgid. apply Hn. subst id.
    apply list_elem_of_fmap. by exists g.
  - rewrite filter_cons_True by (unfold other_frame; by rewrite bool_decide_false).
    by rewrite IH.
Qed.

(** What an acknowledgement by the owner does to the shared state. *)
Record acknowledged_by (n id : string) s s' : Prop := {
  ab_owned : (n, id) ∈ frame_destinations s;
  ab_generic k : k <> WaitAck -> waiters k s !! (n, id) = None;
  ab_destinations : frame_destinations s' = frame_destinations s ∖ {[(n, id)]};
  ab_mailboxes : mailboxes s' = alter (filter (fun f => other_frame id f = true)) n (mailboxes s);
  ab_waiters k : waiters k s' = delete (n, id) (waiters k s);
  ab_frames : acknowledged_frames s' = acknowledged_frames (remember_acknowledgement (n, id) s);
  ab_order : acknowledged_frame_order s' = acknowledged_frame_order (remember_acknowledgement (n, id) s);
  ab_published : published_tasks s' = published_tasks (mark_published_task_acknowledged n id s);
  ab_index : published_frame_index s' = published_frame_index s;
  ab_published_order : acknowledged_published_task_order s'
    = acknowledged_published_task_order (mark_published_task_acknowledged n id s);
  ab_registered : registered s' = registered s;
  ab_connected : connected_nodes s' = connected_nodes s;
}.

Lemma remember_fields k s :
  let s' := remember_acknowledgement k s in
  registered s' = registered s /\ connected_nodes s' = connected_nodes s
  /\ mailboxes s' = mailboxes s /\ frame_destinations s' = frame_destinations s
  /\ published_tasks s' = published_tasks s /\ published_frame_index s' = published_frame_index s
  /\ acknowledged_published_task_order s' = acknowledged_published_task_order s
  /\ (forall kind, waiters kind s' = waiters kind s).
Proof using Type.
  unfold remember_acknowledgement.
  destruct (expire_acknowledgements _ _) as [order acked]. simpl.
  do 7 (split; [done|]). by intros [].
Qed.

Lemma remember_reads k s s' :
  acknowledged_frames s' = acknowledged_frames s ->
  acknowledged_frame_order s' = acknowledged_frame_order s ->
  acknowledged_frames (remember_acknowledgement k s') = acknowledged_frames (remember_acknowledgement k s)
  /\ acknowledged_frame_order (remember_acknowledgement k s')
     = acknowledged_frame_order (remember_acknowledgement k s).
Proof using Type.
  intros Ha Ho. unfold remember_acknowledgement. rewrite Ha, Ho.
  by destruct (expire_acknowledgements _ _) as [order acked].
Qed.

Lemma mark_fields n id s :
  let s' := mark_published_task_acknowledged n id s in
  registered s' = registered s /\ connected_nodes s' = connected_nodes s
  /\ mailboxes s' = mailboxes s /\ frame_destinations s' = frame_destinations s
  /\ acknowledged_frames s' = acknowledged_frames s
  /\ acknowledged_frame_order s' = acknowledged_frame_order s
  /\ published_frame_index s' = published_frame_index s
  /\ (forall kind, waiters kind s' = waiters kind s).
Proof using Type.
  unfold mark_published_task_acknowledged.
  destruct (published_frame_index s !! (n, id)) as [key|]; [|done].
  destruct (published_tasks s !! key) as [p|]; [|done]. destruct (acknowledged p); [done|].
  do 7 (split; [done|]). by intros [].
Qed.

Lemma mark_reads n id s s' :
  published_frame_index s' = published_frame_index s -> published_tasks s' = published_tasks s ->
  acknowledged_published_task_order s' = acknowledged_published_task_order s ->
  published_tasks (mark_published_task_acknowledged n id s')
    = published_tasks (mark_published_task_acknowledged n id s)
  /\ acknowledged_published_task_order (mark_published_task_acknowledged n id s')
     = acknowledged_published_task_order (mark_published_task_acknowledged n id s).
Proof using Type.
  intros Hi Ht Ho. unfold mark_published_task_acknowledged. rewrite Hi, Ht.
  destruct (published_frame_index s !! (n, id)) as [key|]; [|by rewrite Ht, Ho].
  destruct (published_tasks s !! key) as [p|]; [|by rewrite Ht, Ho].
  destruct (acknowledged p); simpl; by rewrite ?Ht, ?Ho.
Qed.

Lemma settle_ack_peers key v r :
  peers (settle_waiter WaitAck key v r) = on_waiters WaitAck (delete key) (peers r).
Proof using Type.
  unfold settle_waiter. destruct (waiters WaitAck (peers r) !! key) eqn:E; [done|].
  symmetry. by apply on_waiters_none.
Qed.

Lemma inv_acknowledged_by n id s s' : PeersInv s -> acknowledged_by n id s s' -> PeersInv s'.
Proof using Type.
  intros [H1 H2 H3 H4 H5] [Hown _ Hfd Hmb Hw Hak Hor Hp _ Hpo Hreg Hcon]. split.
  - rewrite Hfd, Hmb. eapply owned_ext; [|by apply owned_release]. intros k. by rewrite Hw.
  - rewrite Hfd. etrans; [|exact H2]. apply inj_le, subseteq_size. set_solver.
  - rewrite Hfd, Hak, Hor. apply remember_ok; [|set_solver]. eapply acked_shrink; [|exact H3].
    set_solver.
  - rewrite Hp, Hpo. by apply mark_ok.
  - intros m c. rewrite Hcon, Hreg. apply H5.
Qed.

Inductive ack_effect (n id : string) r : FrameAcknowledgement * Relay Message -> Prop :=
| ae_nothing c :
    (c = AckAccepted -> (n, id) ∈ acknowledged_frames (peers r)) ->
    (n <> ""%string -> (n, id) ∈ frame_destinations (peers r) ->
     exists k, k <> WaitAck /\ is_Some (waiters k (peers r) !! (n, id))) ->
    ack_effect n id r (c, r)
| ae_settled r' :
    n <> ""%string -> acknowledged_by n id (peers r) (peers r') -> next_channel r' = next_channel r ->
    trace r' = trace r ++ match frame_ack_waiters (peers r) !! (n, id) with
                          | Some c => [OutValue c CompletedAck] | None => [] end ->
    ack_effect n id r (AckAccepted, r').

Lemma is_some_false {A} (o : option A) : is_some o = false <-> o = None.
Proof using Type. by destruct o. Qed.

Lemma is_some_true {A} (o : option A) : is_some o = true <-> is_Some o.
Proof using Type. destruct o as [x|]; split; intros Hx; [by exists x|done..|by destruct Hx]. Qed.

Lemma typed_waiter key s :
  is_some (direct_control_waiters s !! key) || is_some (challenge_control_waiters s !! key)
    || is_some (fleet_observation_waiters s !! key) = false <->
  (forall k, k <> WaitAck -> waiters k s !! key = None).
Proof using Type.
  split.
  - intros [[H1 H2]%orb_false_iff H3]%orb_false_iff [] Hk; simpl; try done;
      by apply is_some_false.
  - intros Hk. pose proof (Hk WaitBind) as H1. pose proof (Hk WaitChallenge) as H2.
    pose proof (Hk WaitFleet) as H3. simpl in H1, H2, H3. by rewrite H1, H2, H3.
Qed.

(** The fields after the four writes of an accepted acknowledgement. *)
Lemma acknowledged_by_writes n id r :
  PeersInv (peers r) -> (n, id) ∈ frame_destinations (peers r) ->
  (forall k, k <> WaitAck -> waiters k (peers r) !! (n, id) = None) ->
  acknowledged_by n id (peers r)
    (peers (on_peers (mark_published_task_acknowledged n id)
      (settle_waiter WaitAck (n, id) CompletedAck
        (on_peers (remember_acknowledgement (n, id))
          (on_peers (on_mailboxes (alter (remove_first id) n))
            (on_peers (on_frame_destinations (fun g => g ∖ {[(n, id)]})) r)))))).
Proof using Type.
  intros HI Hown Hk. simpl. rewrite settle_ack_peers. simpl.
  set (s1 := on_mailboxes (alter (remove_first id) n)
               (on_frame_destinations (fun g => g ∖ {[(n, id)]}) (peers r))).
  destruct (remember_fields (n, id) s1) as (R1 & R2 & R3 & R4 & R5 & R6 & R7 & R8).
  destruct (remember_reads (n, id) (peers r) s1 eq_refl eq_refl) as [Q1 Q2].
  set (s2 := remember_acknowledgement (n, id) s1) in *.
  set (s3 := on_waiters WaitAck (delete (n, id)) s2).
  destruct (mark_fields n id s3) as (M1 & M2 & M3 & M4 & M5 & M6 & M8 & M7).
  destruct (mark_reads n id (peers r) s3 R6 R5 R7) as [P1 P2].
  split; try done.
  - etrans; [exact M4|exact R4].
  - etrans; [exact M3|]. etrans; [exact R3|]. simpl. apply alter_ext.
    intros l Hl. apply remove_first_filter. pose proof (ow_nodup _ _ _ (pi_owned _ HI) n) as Hnd.
    unfold mbox in Hnd. by rewrite Hl in Hnd.
  - intros k. rewrite M7. unfold s3. rewrite waiters_on, !R8. case_decide as Hkind; [by rewrite Hkind|].
    symmetry. apply delete_id. by apply Hk.
  - etrans; [exact M5|exact Q1].
  - etrans; [exact M6|exact Q2].
  - etrans; [exact M8|exact R6].
  - etrans; [exact M1|exact R1].
  - etrans; [exact M2|exact R2].
Qed.

Lemma settle_channel kind key v r : next_channel (settle_waiter kind key v r) = next_channel r.
Proof using Type. unfold settle_waiter. by destruct (_ !! key). Qed.

Lemma settle_trace kind key v r :
  trace (settle_waiter kind key v r)
  = trace r ++ match waiters kind (peers r) !! key with Some c => [OutValue c v] | None => [] end.
Proof using Type.
  unfold settle_waiter. destruct (waiters kind (peers r) !! key); [done|]. by rewrite app_nil_r.
Qed.

Lemma ack_frame_effect dest id r :
  PeersInv (peers r) -> ack_effect (trim dest) (trim id) r (ack_frame dest id r).
Proof using Type.
  intros HI. unfold ack_frame. set (n := trim dest). set (i := trim id).
  destruct (is_empty n || is_empty i) eqn:Hempty; simpl.
  { apply ae_nothing; [done|]. intros Hn Hown. exfalso.
    apply orb_true_iff in Hempty as [?%bool_decide_eq_true|Hi%bool_decide_eq_true]; [done|].
    destruct (owned_frame _ _ _ _ _ (pi_owned _ HI) Hown) as (f & Hf & Hid).
    destruct (ow_payload _ _ _ (pi_owned _ HI) _ _ Hf) as [_ Hne]. congruence. }
  destruct (is_some (direct_control_waiters (peers r) !! (n, i))
    || is_some (challenge_control_waiters (peers r) !! (n, i))
    || is_some (fleet_observation_waiters (peers r) !! (n, i))) eqn:Htyped.
  { apply ae_nothing; [done|]. intros _ _.
    apply orb_true_iff in Htyped as [[Hw|Hw]%orb_true_iff|Hw].
    - exists WaitBind. split; [done|]. by apply is_some_true.
    - exists WaitChallenge. split; [done|]. by apply is_some_true.
    - exists WaitFleet. split; [done|]. by apply is_some_true. }
  pose proof (proj1 (typed_waiter (n, i) (peers r)) Htyped) as Hgeneric. clear Htyped.
  destruct (bool_decide_reflect ((n, i) ∈ acknowledged_frames (peers r))) as [Hak|Hak].
  { apply ae_nothing; [done|]. intros _ Hown.
    by destruct (ak_disjoint _ _ _ (pi_acked _ HI) _ Hown). }
  destruct (bool_decide_reflect ((n, i) ∈ frame_destinations (peers r))) as [Hown|Hown].
  2:{ apply ae_nothing; [by destruct (frame_known _ _)|done]. }
  set (s1 := on_mailboxes (alter (remove_first i) n)
               (on_frame_destinations (fun g => g ∖ {[(n, i)]}) (peers r))).
  set (r1 := on_peers (fun _ => remember_acknowledgement (n, i) s1) r).
  apply ae_settled; [|by apply acknowledged_by_writes|..].
  - apply orb_false_iff in Hempty as [Hn _]. by apply bool_decide_eq_false in Hn.
  - exact (settle_channel WaitAck (n, i) CompletedAck r1).
  - refine (eq_trans (settle_trace WaitAck (n, i) CompletedAck r1) _). f_equal.
    destruct (remember_fields (n, i) s1) as (_ & _ & _ & _ & _ & _ & _ & Hw).
    exact (f_equal (fun w => match w !! (n, i) with
      | Some c => [OutValue c CompletedAck] | None => [] end) (Hw WaitAck)).
Qed.

Lemma ack_frame_inv dest id r : PeersInv (peers r) -> PeersInv (peers (ack_frame dest id r).2).
Proof using Type.
  intros HI. destruct (ack_frame_effect dest id r HI) as [c _ _|r' _ Ha _ _]; [done|].
  by eapply inv_acknowledged_by.
Qed.

(** ** Every call keeps the invariant *)

Lemma new_relay_inv : PeersInv (peers (new_relay (Message := Message))).
Proof using Type.
  split; simpl.
  - split; simpl.
    + intros n id. unfold mbox. rewrite lookup_empty. simpl. split; intros Hin; [set_solver|by inversion Hin].
    + intros n. unfold mbox. rewrite lookup_empty. constructor.
    + intros n f. unfold mbox. rewrite lookup_empty. intros Hin. by inversion Hin.
    + intros [] n id Hs; simpl in Hs; rewrite lookup_empty in Hs; by inversion Hs.
    + intros n f. unfold mbox. rewrite lookup_empty. intros Hin. by inversion Hin.
  - unfold MAX_TRACKED_FRAMES. by vm_compute.
  - split; try done; [|constructor]. intros k. split; intros Hin; [set_solver|by inversion Hin].
  - split; [done|constructor|]. intros k. split; [intros Hin; by inversion Hin|].
    intros (p & Hp & _). by rewrite lookup_empty in Hp.
  - intros n c. by rewrite lookup_empty.
Qed.

Lemma connect_inv node to try_send r :
  PeersInv (peers r) -> PeersInv (peers (connect_node_fenced node to try_send r).2).
Proof using Type.
  intros HI. unfold connect_node_fenced.
  pose proof (inv_registered node _ (inv_generation as_next_generation _ HI)) as HI'.
  destruct (replay _ _ _) as [[] sent]; [|done].
  refine (inv_connections (insert node _) _ HI' _). intros m c Hm. simpl in Hm |- *.
  apply lookup_insert_Some in Hm as [[<- _]|[_ Hm]]; [set_solver|].
  apply elem_of_union. right. by eapply (pi_registered _ HI).
Qed.

Lemma disconnect_inv node r : PeersInv (peers r) -> PeersInv (peers (disconnect_node node r)).
Proof using Type.
  intros HI. unfold disconnect_node. simpl.
  destruct (connected_nodes (peers r) !! node); [by apply inv_drop_connection|done].
Qed.

Lemma disconnect_if_current_inv node gen r :
  PeersInv (peers r) -> PeersInv (peers (disconnect_node_if_current node gen r)).
Proof using Type.
  intros HI. unfold disconnect_node_if_current. simpl.
  destruct (current_connection node gen (peers r)); [by apply inv_drop_connection|done].
Qed.

Lemma send_status_peers connected outcome r : peers (send_status connected outcome r) = peers r.
Proof using Type. by destruct connected, outcome. Qed.

Lemma route_generic_inv target frame outcome r d r' :
  PeersInv (peers r) -> control_kind frame = WaitAck ->
  route_frame_locked target frame outcome r = (d, r') -> PeersInv (peers r').
Proof using Type.
  intros HI Hk Hr. destruct (accepted d) eqn:Hd.
  - by apply (inv_route target frame outcome None r d r' HI Hr Hd).
  - apply rejected_unchanged in Hr; [|done]. by subst.
Qed.

Lemma route_frame_inv target frame outcome r :
  PeersInv (peers r) -> PeersInv (peers (route_frame target frame outcome r).2).
Proof using Type.
  intros HI. unfold route_frame. destruct (has_exactly_one_generic_payload frame) eqn:Hg; [|done]. simpl.
  destruct (route_frame_locked target frame outcome r) as [d r'] eqn:Hr.
  apply route_generic_inv in Hr; [|done|by apply generic_kind]. by destruct (accepted d).
Qed.

Lemma abandon_inv n id r : PeersInv (peers r) -> PeersInv (peers (abandon_frame n id r)).
Proof using Type. exact (inv_release n id (peers r)). Qed.

Lemma complete_inv kind value dest id r :
  PeersInv (peers r) -> PeersInv (peers (complete_control kind value dest id r).2).
Proof using Type.
  intros HI. destruct (complete_control kind value dest id r) as [c r'] eqn:Hc. simpl.
  destruct c.
  - apply complete_control_accepted in Hc as (w & _ & _ & -> & _); [|done]. by apply abandon_inv.
  - apply complete_control_refused in Hc as ->; done.
  - apply complete_control_refused in Hc as ->; done.
Qed.

Lemma evict_inv s ok s' :
  PeersInv s -> evict_published s = (ok, s') ->
  PeersInv s' /\ published_tasks s' ⊆ published_tasks s
  /\ (ok = true -> Z.of_nat (size (published_tasks s')) < MAX_RETAINED_PUBLISHED_TASKS).
Proof using Type.
  intros HI He. pose proof (evict_ok s ok s' (pi_published _ HI) He) as (Hp & Hsub & Hroom).
  split; [|done]. unfold evict_published in He.
  destruct (make_room _ _ _) as [ok' [[order tasks] index]]. injection He as <- <-. by apply inv_published.
Qed.

Lemma record_inv key m p s :
  PeersInv s -> Z.of_nat (size (published_tasks s)) < MAX_RETAINED_PUBLISHED_TASKS ->
  published_tasks s !! key = None -> PeersInv (record_publication key m p s).
Proof using Type.
  intros [H1 H2 H3 H4 H5] Hroom Hk. split; simpl; try done. by apply record_ok.
Qed.

Lemma publish_inv src dest task_id identity routed frame p outcome r :
  PeersInv (peers r) ->
  PeersInv (peers (publish_task_frame src dest task_id identity routed frame p outcome r).2).
Proof using Type.
  intros HI. unfold publish_task_frame.
  destruct (is_exact_task_frame frame routed) eqn:Hx; [|done]. simpl.
  destruct (published_tasks (peers r) !! (src, dest, task_id)) as [old|] eqn:Hold; [done|].
  destruct (_ || _ : bool); [done|].
  destruct (evict_published (peers r)) as [ok s] eqn:He.
  destruct (evict_inv _ _ _ HI He) as (HI' & Hsub & Hroom). destruct ok; [|done]. simpl.
  destruct (route_frame_locked dest frame outcome _) as [d r'] eqn:Hr. simpl.
  eapply route_generic_inv; [|by eapply exact_task_kind|exact Hr]. simpl.
  apply record_inv; [done|auto|]. eapply lookup_weaken_None; done.
Qed.

Lemma classify_inv src dest task_id t p r :
  PeersInv (peers r) -> PeersInv (peers (classify_published_task src dest task_id t p r).2).
Proof using Type.
  intros HI. unfold classify_published_task.
  destruct (published_tasks (peers r) !! (src, dest, task_id)) as [old|] eqn:Hold; [done|].
  destruct (evict_published (peers r)) as [ok s] eqn:He.
  destruct (evict_inv _ _ _ HI He) as (HI' & Hsub & Hroom). destruct ok; [|done]. simpl.
  apply record_inv; [done|auto|]. eapply lookup_weaken_None; done.
Qed.

Lemma forget_inv src dest task_id id r :
  PeersInv (peers r) -> PeersInv (peers (forget_published_task src dest task_id id r)).
Proof using Type.
  intros HI. unfold forget_published_task. simpl.
  destruct (published_tasks (peers r) !! (src, dest, task_id)) as [p|] eqn:Hp; [|done].
  destruct (_ && _) eqn:Hc; [|done]. apply andb_true_iff in Hc as [[_ Ha]%andb_true_iff _].
  apply negb_true_iff in Ha. destruct HI as [H1 H2 H3 H4 H5]. split; simpl; try done.
  by eapply forget_ok.
Qed.

Lemma relay_step_inv op r : PeersInv (peers r) -> PeersInv (peers (relay_step op r)).
Proof using Type.
  intros HI. destruct op; simpl.
  - done.
  - by apply inv_libp2p.
  - by apply inv_libp2p.
  - by apply inv_ensure_mailbox, inv_registered.
  - by apply connect_inv.
  - by apply disconnect_inv.
  - by apply disconnect_if_current_inv.
  - unfold disconnect_node_with_status. rewrite send_status_peers. by apply disconnect_inv.
  - unfold disconnect_node_with_status_if_current. rewrite send_status_peers.
    by apply disconnect_if_current_inv.
  - by apply route_frame_inv.
  - unfold route_frame_waiting_for_ack.
    destruct (has_exactly_one_generic_payload frame) eqn:Hg; [|done]. simpl.
    pose proof (route_waiting_inv WaitAck target frame outcome r HI (generic_kind _ Hg)) as HI'.
    destruct (route_waiting _ _ _ _ _) as [[d c] r']. by destruct c.
  - unfold route_nodescale_identity_bind_waiting_for_completion.
    destruct (typed_direct_control_target_matches_frame_destination target frame); [|done]. simpl.
    destruct (is_bind_frame frame) eqn:Hb; [|done]. by apply route_waiting_inv, bind_kind.
  - unfold route_nodescale_identity_challenge_waiting_for_completion.
    destruct (typed_direct_control_target_matches_frame_destination target frame); [|done]. simpl.
    destruct (is_challenge_frame frame) eqn:Hb; [|done]. by apply route_waiting_inv, challenge_kind.
  - unfold route_fleet_observation_waiting_for_completion.
    destruct (_ && is_fleet_frame frame) eqn:Hb; [|done]. simpl.
    apply andb_true_iff in Hb as [_ Hb]. by apply route_waiting_inv, fleet_kind.
  - by apply complete_inv.
  - by apply complete_inv.
  - by apply complete_inv.
  - by apply abandon_inv.
  - by apply ack_frame_inv.
  - by apply publish_inv.
  - by apply classify_inv.
  - by apply forget_inv.
Qed.

Lemma relay_run_inv ops r : PeersInv (peers r) -> PeersInv (peers (relay_run ops r)).
Proof using Type. revert r. induction ops as [|op ops IH]; intros r HI; [done|]. apply IH. by apply relay_step_inv. Qed.
End relay_invariants.
