(* ===== verification/RelayDelivery.v ===== *)
(** * What the relay runtime guarantees

    The theorems about sequences of calls: a frame waits in its owner's
    mailbox until the owner settles it and is replayed in order on the next
    connection; an acknowledgement or a completion is accepted from the owner
    only; a waiter hears at most once; a publication is remembered until it
    was acknowledged. *)
From S2P Require Import Prelude Ident RelayRuntime RelayInv.
From stdpp Require Import options.

Section relay_delivery.
Context {Message : Type} `{EqDecision Message}.
Implicit Types (f : RelayFrame Message) (s : PeerState Message) (r : Relay Message).

(** ** Waiters *)

(** The channels that received a value. *)
Definition told (l : list (Output (Message := Message))) : list Channel :=
  omap (fun o => match o with OutValue c _ => Some c | _ => None end) l.

(** What a call does to the waiters: some go without a word, one is installed,
    or one is told and goes. *)
Inductive chan_step r r' : Prop :=
| cs_quiet :
    (forall k, waiters k (peers r') ⊆ waiters k (peers r)) ->
    next_channel r' = next_channel r -> told (trace r') = told (trace r) -> chan_step r r'
| cs_open kind (key : FrameKey) :
    (forall k, waiters k (peers r')
      = if decide (k = kind) then <[key := next_channel r]> (waiters k (peers r))
        else waiters k (peers r)) ->
    next_channel r' = S (next_channel r) -> told (trace r') = told (trace r) -> chan_step r r'
| cs_told kind (key : FrameKey) c :
    waiters kind (peers r) !! key = Some c -> waiters kind (peers r') !! key = None ->
    (forall k, waiters k (peers r') ⊆ waiters k (peers r)) ->
    next_channel r' = next_channel r -> told (trace r') = told (trace r) ++ [c] -> chan_step r r'.

Lemma quiet_same r r' :
  (forall k, waiters k (peers r') = waiters k (peers r)) ->
  next_channel r' = next_channel r -> told (trace r') = told (trace r) -> chan_step r r'.
Proof using Type. intros Hw. apply cs_quiet. intros k. by rewrite Hw. Qed.

Lemma told_app l l' : told (l ++ l') = told l ++ told l'.
Proof using Type. apply omap_app. Qed.

Lemma told_frames c (l : list (RelayFrame Message)) : told (OutFrame c <$> l) = [].
Proof using Type. by induction l. Qed.

Lemma own_frame_waiters n id frame s k : waiters k (own_frame n id frame s) = waiters k s.
Proof using Type. by destruct k. Qed.

Lemma on_connected_waiters g s k : waiters k (on_connected_nodes g s) = waiters k s.
Proof using Type. by destruct k. Qed.

(** The routing step alone does not touch the waiters. *)
Lemma route_locked_quiet n frame outcome r :
  let p := route_frame_locked n frame outcome r in
  (forall k, waiters k (peers p.2) = waiters k (peers r))
  /\ next_channel p.2 = next_channel r /\ told (trace p.2) = told (trace r).
Proof using Type.
  destruct (route_frame_locked_effect n frame outcome r) as [He _].
  destruct He as [d Hd|c r' Hc Hp Ht Hn|r' Hp Ht Hn]; simpl.
  - done.
  - split; [intros k; by rewrite Hp, own_frame_waiters|]. split; [done|].
    rewrite Ht, told_app. simpl. by rewrite app_nil_r.
  - split; [|split; [done|by rewrite Ht]]. intros k.
    by destruct Hp as [->| ->]; rewrite ?on_connected_waiters, own_frame_waiters.
Qed.

Lemma route_waiting_channels kind n frame outcome r :
  chan_step r (route_waiting kind n frame outcome r).2.
Proof using Type.
  unfold route_waiting. pose proof (route_locked_quiet n frame outcome r) as (Hw & Hn & Ht).
  destruct (route_frame_locked n frame outcome r) as [d r']. simpl in *.
  destruct (accepted d); simpl.
  - apply (cs_open _ _ kind (n, trim (frame_id frame))); simpl; [|congruence|done].
    intros k. rewrite waiters_on, !Hw, Hn. case_decide as Hk; [by subst k|done].
  - by apply quiet_same.
Qed.

Lemma abandon_waiters n id r k :
  waiters k (peers (abandon_frame n id r)) = delete (n, id) (waiters k (peers r)).
Proof using Type. by destruct k. Qed.

Lemma complete_channels kind value dest id r :
  PeersInv (peers r) -> chan_step r (complete_control kind value dest id r).2.
Proof using Type.
  intros HI. destruct (complete_control kind value dest id r) as [c r'] eqn:Hc. simpl.
  destruct c.
  - apply complete_control_accepted in Hc as (w & Hw & _ & Hp & Ht & Hn); [|done].
    eapply (cs_told _ _ kind); [exact Hw|..|done|].
    + rewrite Hp, abandon_waiters. by rewrite lookup_delete_eq.
    + intros k. rewrite Hp, abandon_waiters. apply delete_subseteq.
    + by rewrite Ht, told_app.
  - apply complete_control_refused in Hc as ->; [by apply quiet_same|done..].
  - apply complete_control_refused in Hc as ->; [by apply quiet_same|done..].
Qed.

Lemma ack_channels dest id r : PeersInv (peers r) -> chan_step r (ack_frame dest id r).2.
Proof using Type.
  intros HI. destruct (ack_frame_effect dest id r HI) as [c _ _|r' _ Ha Hn Ht]; [by apply quiet_same|].
  simpl. destruct (frame_ack_waiters (peers r) !! (trim dest, trim id)) as [w|] eqn:Hw.
  - eapply (cs_told _ _ WaitAck); [exact Hw|..|done|].
    + rewrite (ab_waiters _ _ _ _ Ha). by rewrite lookup_delete_eq.
    + intros k. rewrite (ab_waiters _ _ _ _ Ha). apply delete_subseteq.
    + by rewrite Ht, told_app.
  - apply cs_quiet; [|done|].
    + intros k. rewrite (ab_waiters _ _ _ _ Ha). apply delete_subseteq.
    + by rewrite Ht, app_nil_r.
Qed.

Lemma evict_waiters s ok s' k : evict_published s = (ok, s') -> waiters k s' = waiters k s.
Proof using Type.
  unfold evict_published. destruct (make_room _ _ _) as [ok' [[order tasks] index]].
  intros [= <- <-]. by destruct k.
Qed.

Lemma record_waiters key m p s k : waiters k (record_publication key m p s) = waiters k s.
Proof using Type. by destruct k. Qed.

Lemma publish_channels src dest task_id identity routed frame p outcome r :
  chan_step r (publish_task_frame src dest task_id identity routed frame p outcome r).2.
Proof using Type.
  unfold publish_task_frame. destruct (is_exact_task_frame frame routed); [|by apply quiet_same]. simpl.
  destruct (published_tasks (peers r) !! (src, dest, task_id)) as [old|]; [by apply quiet_same|].
  destruct (_ || _ : bool); [by apply quiet_same|].
  destruct (evict_published (peers r)) as [ok s] eqn:He.
  destruct ok; simpl; [|apply quiet_same; try done; intros k; by eapply evict_waiters].
  pose proof (route_locked_quiet dest frame outcome
    (on_peers (fun _ => record_publication (src, dest, task_id) identity p s) r)) as (Hw & Hn & Ht).
  destruct (route_frame_locked dest frame outcome _) as [d r']. simpl in *.
  apply quiet_same; try done. intros k. simpl. rewrite Hw, record_waiters. by eapply evict_waiters.
Qed.

Lemma classify_channels src dest task_id t p r :
  chan_step r (classify_published_task src dest task_id t p r).2.
Proof using Type.
  unfold classify_published_task.
  destruct (published_tasks (peers r) !! (src, dest, task_id)) as [old|]; [by apply quiet_same|].
  destruct (evict_published (peers r)) as [ok s] eqn:He.
  destruct ok; apply quiet_same; try done; intros k; simpl; rewrite ?record_waiters;
    by eapply evict_waiters.
Qed.

Lemma drop_connection_waiters node s k : waiters k (drop_connection node s) ⊆ waiters k s.
Proof using Type. destruct k; [done..|]. apply map_filter_subseteq. Qed.

Lemma relay_step_channels op r : PeersInv (peers r) -> chan_step r (relay_step op r).
Proof using Type.
  intros HI. destruct op; simpl.
  - by apply quiet_same.
  - by apply quiet_same.
  - by apply quiet_same.
  - by apply quiet_same.
  - unfold connect_node_fenced. destruct (replay _ _ _) as [[] sent]; apply quiet_same; try done;
      try (by intros []); simpl; try done; by rewrite told_app, told_frames, app_nil_r.
  - apply cs_quiet; try done. unfold disconnect_node. simpl. intros k.
    destruct (connected_nodes (peers r) !! node); [apply drop_connection_waiters|done].
  - apply cs_quiet; try done. unfold disconnect_node_if_current. simpl. intros k.
    destruct (current_connection node gen (peers r)); [apply drop_connection_waiters|done].
  - apply cs_quiet; unfold disconnect_node_with_status, send_status.
    + intros k. destruct (connected_nodes (peers r) !! node) eqn:E, outcome; simpl;
        rewrite ?E; simpl; try done; apply drop_connection_waiters.
    + by destruct (connected_nodes (peers r) !! node), outcome.
    + destruct (connected_nodes (peers r) !! node), outcome; simpl; try done.
      rewrite told_app. simpl. by rewrite app_nil_r.
  - apply cs_quiet; unfold disconnect_node_with_status_if_current, send_status.
    + intros k. destruct (current_connection node gen (peers r)) eqn:E, outcome; simpl;
        rewrite ?E; simpl; try done; apply drop_connection_waiters.
    + by destruct (current_connection node gen (peers r)), outcome.
    + destruct (current_connection node gen (peers r)), outcome; simpl; try done.
      rewrite told_app. simpl. by rewrite app_nil_r.
  - unfold route_frame. destruct (has_exactly_one_generic_payload frame); [|by apply quiet_same]. simpl.
    pose proof (route_locked_quiet target frame outcome r) as (Hw & Hn & Ht).
    destruct (route_frame_locked target frame outcome r) as [d r']. simpl in *.
    destruct (accepted d); by apply quiet_same.
  - unfold route_frame_waiting_for_ack.
    destruct (has_exactly_one_generic_payload frame); [|by apply quiet_same]. simpl.
    pose proof (route_waiting_channels WaitAck target frame outcome r) as Hc.
    destruct (route_waiting _ _ _ _ _) as [a r']. simpl in *. destruct (is_some a.2); [|done].
    destruct Hc; [by apply cs_quiet|by eapply cs_open|by eapply cs_told].
  - unfold route_nodescale_identity_bind_waiting_for_completion.
    destruct (typed_direct_control_target_matches_frame_destination target frame), (is_bind_frame frame);
      try (by apply quiet_same). apply route_waiting_channels.
  - unfold route_nodescale_identity_challenge_waiting_for_completion.
    destruct (typed_direct_control_target_matches_frame_destination target frame),
      (is_challenge_frame frame); try (by apply quiet_same). apply route_waiting_channels.
  - unfold route_fleet_observation_waiting_for_completion.
    destruct (_ && is_fleet_frame frame); [|by apply quiet_same]. apply route_waiting_channels.
  - by apply complete_channels.
  - by apply complete_channels.
  - by apply complete_channels.
  - apply cs_quiet; try done. intros k. rewrite abandon_waiters. apply delete_subseteq.
  - by apply ack_channels.
  - apply publish_channels.
  - apply classify_channels.
  - unfold forget_published_task. apply quiet_same; try done. simpl. intros k.
    destruct (published_tasks (peers r) !! _) as [p|]; [|done]. destruct (_ && _); [|done]. by destruct k.
Qed.

(** Channels are opened once and told once. *)
Record channels_ok r : Prop := {
  ch_fresh k (key : FrameKey) c : waiters k (peers r) !! key = Some c ->
    (c < next_channel r)%nat /\ c ∉ told (trace r);
  ch_inj k (key : FrameKey) k' (key' : FrameKey) c : waiters k (peers r) !! key = Some c ->
    waiters k' (peers r) !! key' = Some c -> k = k' /\ key = key';
  ch_told : NoDup (told (trace r));
  ch_told_fresh c : c ∈ told (trace r) -> (c < next_channel r)%nat;
}.

Lemma chan_step_ok r r' : chan_step r r' -> channels_ok r -> channels_ok r'.
Proof using Type.
  intros Hs [H1 H2 H3 H4].
  destruct Hs as [Hw Hn Ht|kind key Hw Hn Ht|kind key c Hc Hgone Hw Hn Ht].
  - split; rewrite ?Hn, ?Ht; try done.
    + intros k key c Hk. eapply H1, lookup_weaken; [exact Hk|apply Hw].
    + intros k key k' key' c Hk Hk'. eapply H2; eapply lookup_weaken; eauto.
  - assert (Hcase : forall k key' c, waiters k (peers r') !! key' = Some c ->
      (k = kind /\ key' = key /\ c = next_channel r) \/ waiters k (peers r) !! key' = Some c).
    { intros k key' c. rewrite Hw. case_decide as Hk; [|by right]. subst k.
      rewrite lookup_insert_Some. naive_solver. }
    split; rewrite ?Hn, ?Ht; try done.
    + intros k key' c [(_ & _ & ->)|Hk]%Hcase.
      * split; [lia|]. intros Hin%H4. lia.
      * apply H1 in Hk as [Hlt Hnot]. split; [lia|done].
    + intros k ky k' ky' c [(-> & -> & ->)|Hk]%Hcase [(-> & -> & ?)|Hk']%Hcase; subst; try done.
      * apply H1 in Hk' as [? _]. lia.
      * apply H1 in Hk as [? _]. lia.
      * by eapply H2.
    + intros c Hin%H4. lia.
  - assert (Hold : forall k ky c', waiters k (peers r') !! ky = Some c' ->
      waiters k (peers r) !! ky = Some c') by (intros; eapply lookup_weaken; eauto).
    destruct (H1 _ _ _ Hc) as [Hlt Hnot].
    split; rewrite ?Hn, ?Ht.
    + intros k ky c' Hk. pose proof (Hold _ _ _ Hk) as Hk0. destruct (H1 _ _ _ Hk0) as [Hl Hno].
      split; [done|]. rewrite elem_of_app, list_elem_of_singleton. intros [?| ->]; [done|].
      destruct (H2 _ _ _ _ _ Hc Hk0) as [<- <-]. discriminate (eq_trans (eq_sym Hk) Hgone).
    + intros k ky k' ky' c' Hk Hk'. eauto.
    + apply NoDup_app. split; [done|]. split; [|apply NoDup_singleton].
      by intros x Hx ->%list_elem_of_singleton.
    + intros c' [Hin| ->%list_elem_of_singleton]%elem_of_app; [by apply H4|done].
Qed.

Lemma relay_run_channels ops r :
  PeersInv (peers r) -> channels_ok r -> channels_ok (relay_run ops r).
Proof using Type.
  revert r. induction ops as [|op ops IH]; intros r HI Hc; [done|]. apply IH.
  - by apply relay_step_inv.
  - by eapply chan_step_ok, Hc; apply relay_step_channels.
Qed.

Lemma new_relay_channels : channels_ok (new_relay (Message := Message)).
Proof using Type.
  split; simpl.
  - intros [] key c Hk; discriminate (eq_trans (eq_sym Hk) (lookup_empty key)).
  - intros [] key k' key' c Hk; discriminate (eq_trans (eq_sym Hk) (lookup_empty key)).
  - constructor.
  - intros c Hin. by inversion Hin.
Qed.

(** ** Mailboxes *)

(** The calls that take the frame out of the mailbox of [n]: an answer by the
    owner, an abandonment, or, for a fleet observation, the end of the
    owner's connection. *)
Definition settles (op : RelayOp Message) (n : string) f : bool :=
  match op with
  | RCompleteBind d i _ | RCompleteChallenge d i _ | RCompleteFleet d i _ | RAck d i =>
      bool_decide (trim d = n) && bool_decide (trim i = fid f)
  | RAbandon d i => bool_decide (d = n) && bool_decide (i = fid f)
  | RDisconnect d | RDisconnectIfCurrent d _ | RDisconnectStatus d _
  | RDisconnectStatusIfCurrent d _ _ =>
      bool_decide (d = n) && is_some (fleet_observation_publish_v1 f)
  | _ => false
  end.

(** The frame that a call may add to the mailbox of its target. *)
Definition routes (op : RelayOp Message) : option (string * RelayFrame Message) :=
  match op with
  | RRoute n f _ | RRouteAck n f _ | RRouteBind n f _ | RRouteChallenge n f _ | RRouteFleet n f _
  | RPublish _ n _ _ _ f _ _ => Some (n, f)
  | _ => None
  end.

(** The mailbox after a call: some frames went, one may have joined. *)
Definition mailbox_step (gone joins : RelayFrame Message -> Prop) (n : string) s s' : Prop :=
  exists (keep : RelayFrame Message -> bool) new,
    mailbox n s' = filter (fun f => keep f = true) (mailbox n s) ++ new
    /\ (forall f, keep f = false -> gone f) /\ forall f, f ∈ new -> joins f.

(** What a routing adds to the mailbox of [n]. *)
Definition grows_by (target : string) frame (n : string) s s' : Prop :=
  exists new, mailbox n s' = mailbox n s ++ new /\ forall f, f ∈ new -> n = target /\ f = frame.

Lemma grows_none target frame n s s' : mailbox n s' = mailbox n s -> grows_by target frame n s s'.
Proof using Type. intros Hm. exists []. rewrite Hm, app_nil_r. split; [done|]. by intros f ?%elem_of_nil. Qed.

Lemma mailbox_grows gone (joins : RelayFrame Message -> Prop) target frame n s s' :
  grows_by target frame n s s' -> (n = target -> joins frame) -> mailbox_step gone joins n s s'.
Proof using Type.
  intros (new & Hm & Hnew) Hj. exists (fun _ => true), new. split; [|split; [done|]].
  - rewrite Hm, filter_keeps_all by done. done.
  - intros f [-> ->]%Hnew. auto.
Qed.

Lemma mailbox_same gone joins n s s' : mailbox n s' = mailbox n s -> mailbox_step gone joins n s s'.
Proof using Type.
  intros Hm. exists (fun _ => true), []. rewrite Hm, filter_keeps_all, app_nil_r by done.
  split; [done|]. split; [done|]. by intros f ?%elem_of_nil.
Qed.

Lemma mailbox_stays gone joins n s s' : mailboxes s' = mailboxes s -> mailbox_step gone joins n s s'.
Proof using Type. intros Hm. apply mailbox_same. unfold mailbox. by rewrite Hm. Qed.

Lemma mailbox_retain (keep : RelayFrame Message -> bool) (gone joins : RelayFrame Message -> Prop)
    m n s s' :
  mailboxes s' = alter (filter (fun f => keep f = true)) m (mailboxes s) ->
  (forall f, m = n -> keep f = false -> gone f) -> mailbox_step gone joins n s s'.
Proof using Type.
  intros Hm Hk. exists (fun f => if decide (m = n) then keep f else true), [].
  split; [|split; [intros f; case_decide; [by apply Hk|done]|by intros f ?%elem_of_nil]].
  change (mailbox n s') with (mbox (mailboxes s') n). rewrite Hm, mbox_alter by done.
  rewrite app_nil_r. case_decide; [done|]. by rewrite filter_keeps_all by done.
Qed.

Lemma own_frame_mailbox target id frame n s :
  grows_by target frame n s (own_frame target id frame s).
Proof using Type.
  pose proof (mbox_insert (mailboxes s) target (mbox (mailboxes s) target ++ [frame]) n) as Hm.
  case_decide as Hn; [|by apply grows_none]. subst n. exists [frame]. split; [exact Hm|].
  by intros f ->%list_elem_of_singleton.
Qed.

Lemma route_locked_mailbox target frame outcome n r :
  grows_by target frame n (peers r) (peers (route_frame_locked target frame outcome r).2).
Proof using Type.
  destruct (route_frame_locked_effect target frame outcome r) as [He _].
  destruct He as [d Hd|c r' Hc Hp Ht Hn|r' Hp Ht Hn]; simpl.
  - by apply grows_none.
  - rewrite Hp. apply own_frame_mailbox.
  - destruct Hp as [->| ->]; apply own_frame_mailbox.
Qed.

Lemma on_waiters_mailboxes k g s : mailboxes (on_waiters k g s) = mailboxes s.
Proof using Type. by destruct k. Qed.

Lemma route_waiting_mailbox kind target frame outcome n r :
  grows_by target frame n (peers r) (peers (route_waiting kind target frame outcome r).2).
Proof using Type.
  unfold route_waiting. destruct (route_locked_mailbox target frame outcome n r) as (new & Hn & Hnew).
  destruct (route_frame_locked target frame outcome r) as [d r']. simpl in Hn.
  exists new. split; [|done]. rewrite <- Hn. destruct (accepted d); [|done]. simpl. unfold mailbox.
  by rewrite on_waiters_mailboxes.
Qed.

Lemma complete_mailbox kind value dest id joins n r :
  PeersInv (peers r) ->
  mailbox_step (fun f => bool_decide (trim dest = n) && bool_decide (trim id = fid f) = true) joins n
    (peers r) (peers (complete_control kind value dest id r).2).
Proof using Type.
  intros HI. destruct (complete_control kind value dest id r) as [c r'] eqn:Hc. simpl.
  destruct c.
  - apply complete_control_accepted in Hc as (w & _ & _ & Hp & _); [|done].
    apply (mailbox_retain (other_frame (trim id)) _ _ (trim dest)); [by rewrite Hp|].
    intros f -> [=Hf%negb_false_iff]. unfold fid. rewrite bool_decide_true by done.
    apply bool_decide_eq_true in Hf. by rewrite bool_decide_true.
  - apply complete_control_refused in Hc as ->; [by apply mailbox_stays|done..].
  - apply complete_control_refused in Hc as ->; [by apply mailbox_stays|done..].
Qed.

Lemma ack_mailbox dest id joins n r :
  PeersInv (peers r) ->
  mailbox_step (fun f => bool_decide (trim dest = n) && bool_decide (trim id = fid f) = true) joins n
    (peers r) (peers (ack_frame dest id r).2).
Proof using Type.
  intros HI. destruct (ack_frame_effect dest id r HI) as [c _ _|r' _ Ha _ _]; [by apply mailbox_stays|].
  apply (mailbox_retain (other_frame (trim id)) _ _ (trim dest)); [exact (ab_mailboxes _ _ _ _ Ha)|].
  intros f -> [=Hf%negb_false_iff]. unfold fid. rewrite bool_decide_true by done.
  apply bool_decide_eq_true in Hf. by rewrite bool_decide_true.
Qed.

Lemma drop_connection_mailbox node joins n s :
  mailbox_step (fun f => bool_decide (node = n) && is_some (fleet_observation_publish_v1 f) = true) joins n
    s (drop_connection node s).
Proof using Type.
  apply (mailbox_retain (fun f => negb (is_some (fleet_observation_publish_v1 f))) _ _ node); [done|].
  intros f -> ->%negb_false_iff. by rewrite bool_decide_true.
Qed.

Lemma evict_mailboxes s ok s' : evict_published s = (ok, s') -> mailboxes s' = mailboxes s.
Proof using Type.
  unfold evict_published. destruct (make_room _ _ _) as [ok' [[order tasks] index]].
  by intros [= <- <-].
Qed.

Lemma publish_mailbox src dest task_id identity routed frame p outcome n r :
  grows_by dest frame n (peers r)
    (peers (publish_task_frame src dest task_id identity routed frame p outcome r).2).
Proof using Type.
  assert (Hsame : grows_by dest frame n (peers r) (peers r)) by by apply grows_none.
  unfold publish_task_frame. destruct (is_exact_task_frame frame routed); [|done]. simpl.
  destruct (published_tasks (peers r) !! (src, dest, task_id)) as [old|]; [done|].
  destruct (_ || _ : bool); [done|].
  destruct (evict_published (peers r)) as [ok s] eqn:He.
  assert (Hmb : mailbox n s = mailbox n (peers r)).
  { unfold mailbox. apply evict_mailboxes in He. by rewrite He. }
  destruct ok; simpl; [|by apply grows_none].
  destruct (route_locked_mailbox dest frame outcome n
    (on_peers (fun _ => record_publication (src, dest, task_id) identity p s) r)) as (new & Hn & Hnew).
  destruct (route_frame_locked dest frame outcome _) as [d r']. simpl in *.
  exists new. split; [|done]. rewrite Hn. by rewrite <- Hmb.
Qed.

Lemma ensure_mailbox_mailbox node n s : mailbox n (ensure_mailbox node s) = mailbox n s.
Proof using Type. exact (mbox_ensure node (mailboxes s) n). Qed.

(** Frames leave a mailbox only by the calls that settle them. *)
Lemma relay_step_mailbox op n r :
  PeersInv (peers r) ->
  mailbox_step (fun f => settles op n f = true) (fun f => routes op = Some (n, f)) n
    (peers r) (peers (relay_step op r)).
Proof using Type.
  intros HI.
  assert (Hgrow : forall target frame gone r', routes op = Some (target, frame) ->
    grows_by target frame n (peers r) (peers r') ->
    mailbox_step gone (fun f => routes op = Some (n, f)) n (peers r) (peers r')).
  { intros target frame gone r' Hop Hg. eapply mailbox_grows; [exact Hg|]. by intros ->. }
  destruct op; simpl.
  - by apply mailbox_stays.
  - by apply mailbox_stays.
  - by apply mailbox_stays.
  - apply mailbox_same.
    exact (ensure_mailbox_mailbox node n (on_registered (fun g => {[node]} ∪ g) (peers r))).
  - apply mailbox_stays. unfold connect_node_fenced. by destruct (replay _ _ _) as [[] sent].
  - unfold disconnect_node. simpl.
    destruct (connected_nodes (peers r) !! node); [apply drop_connection_mailbox|by apply mailbox_stays].
  - unfold disconnect_node_if_current. simpl.
    destruct (current_connection node gen (peers r));
      [apply drop_connection_mailbox|by apply mailbox_stays].
  - unfold disconnect_node_with_status. rewrite send_status_peers. simpl.
    destruct (connected_nodes (peers r) !! node); [apply drop_connection_mailbox|by apply mailbox_stays].
  - unfold disconnect_node_with_status_if_current. rewrite send_status_peers. simpl.
    destruct (current_connection node gen (peers r));
      [apply drop_connection_mailbox|by apply mailbox_stays].
  - eapply Hgrow; [done|]. unfold route_frame.
    destruct (has_exactly_one_generic_payload frame); [|by apply grows_none]. simpl.
    destruct (route_locked_mailbox target frame outcome n r) as (new & Hn & Hnew).
    destruct (route_frame_locked target frame outcome r) as [d r'].
    exists new. by destruct (accepted d).
  - eapply Hgrow; [done|]. unfold route_frame_waiting_for_ack.
    destruct (has_exactly_one_generic_payload frame); [|by apply grows_none]. simpl.
    destruct (route_waiting_mailbox WaitAck target frame outcome n r) as (new & Hn & Hnew).
    destruct (route_waiting _ _ _ _ _) as [a r'].
    exists new. by destruct (is_some a.2).
  - eapply Hgrow; [done|]. unfold route_nodescale_identity_bind_waiting_for_completion.
    destruct (typed_direct_control_target_matches_frame_destination target frame), (is_bind_frame frame);
      try (by apply grows_none). apply route_waiting_mailbox.
  - eapply Hgrow; [done|]. unfold route_nodescale_identity_challenge_waiting_for_completion.
    destruct (typed_direct_control_target_matches_frame_destination target frame),
      (is_challenge_frame frame); try (by apply grows_none). apply route_waiting_mailbox.
  - eapply Hgrow; [done|]. unfold route_fleet_observation_waiting_for_completion.
    destruct (_ && is_fleet_frame frame); [|by apply grows_none]. apply route_waiting_mailbox.
  - by apply complete_mailbox.
  - by apply complete_mailbox.
  - by apply complete_mailbox.
  - apply (mailbox_retain (other_frame id) _ _ destination); [done|].
    intros f -> [=Hf%negb_false_iff%bool_decide_eq_true]. simpl. unfold fid. by rewrite !bool_decide_true.
  - by apply ack_mailbox.
  - eapply Hgrow; [done|]. apply publish_mailbox.
  - apply mailbox_stays. unfold classify_published_task.
    destruct (published_tasks (peers r) !! _) as [old|]; [done|].
    destruct (evict_published (peers r)) as [ok s] eqn:He. apply evict_mailboxes in He.
    by destruct ok.
  - apply mailbox_stays. unfold forget_published_task. simpl.
    destruct (published_tasks (peers r) !! _) as [p|]; [|done]. by destruct (_ && _).
Qed.

Lemma unsettled_stays op n f r :
  PeersInv (peers r) -> f ∈ mailbox n (peers r) -> settles op n f = false ->
  f ∈ mailbox n (peers (relay_step op r)).
Proof using Type.
  intros HI Hf Hs. destruct (relay_step_mailbox op n r HI) as (keep & new & -> & Hk & _).
  apply elem_of_app. left. apply list_elem_of_filter. split; [|done].
  destruct (keep f) eqn:E; [done|]. apply Hk in E. congruence.
Qed.

Lemma unsettled_stays_run ops n f : forall r,
  PeersInv (peers r) -> f ∈ mailbox n (peers r) -> (forall op, op ∈ ops -> settles op n f = false) ->
  f ∈ mailbox n (peers (relay_run ops r)).
Proof using Type.
  induction ops as [|op ops IH]; intros r HI Hf Hs; [done|]. apply IH.
  - by apply relay_step_inv.
  - apply unsettled_stays; [done..|]. apply Hs. left.
  - intros op' Hop. apply Hs. by right.
Qed.

(** ** Replay *)

Lemma replay_prefix try_send pending : forall n stream_open sent,
  replay (Message := Message) try_send n pending = (stream_open, sent) ->
  exists rest, pending = sent ++ rest /\ (stream_open = true <-> rest = []).
Proof using Type.
  induction pending as [|f pending IH]; intros n stream_open sent; simpl.
  - intros [= <- <-]. by exists [].
  - destruct (try_send n).
    + destruct (replay try_send (S n) pending) as [o l] eqn:E. intros [= <- <-].
      destruct (IH _ _ _ E) as (rest & -> & Ho). by exists rest.
    + intros [= <- <-]. by exists (f :: pending).
    + intros [= <- <-]. by exists (f :: pending).
Qed.

Lemma replay_all try_send pending : forall n,
  (forall i, try_send i = Sent) -> replay (Message := Message) try_send n pending = (true, pending).
Proof using Type.
  induction pending as [|f pending IH]; intros n Hs; [done|]. simpl. by rewrite Hs, IH.
Qed.

(** Nothing in a mailbox has been acknowledged. *)
Lemma pending_is_mailbox n s :
  PeersInv s -> filter (fun f => is_acked n f (acknowledged_frames s) = false) (mailbox n s)
  = mailbox n s.
Proof using Type.
  intros HI. apply filter_keeps_all. intros f Hf. unfold is_acked.
  apply andb_false_iff. right. apply bool_decide_eq_false. apply (ak_disjoint _ _ _ (pi_acked _ HI)).
  apply (ow_owned _ _ _ (pi_owned _ HI)). exact (list_elem_of_fmap_2 fid _ f Hf).
Qed.

(** ** The theorems *)

Lemma reachable_inv ops : PeersInv (peers (relay_run ops (new_relay (Message := Message)))).
Proof using Type. apply relay_run_inv, new_relay_inv. Qed.

(** C18: in every state the relay can reach, the tables of [PeerState] agree.
    The owned frames are exactly the frames of the mailboxes, no mailbox holds
    two frames of one id, a typed control frame (and no other frame) has the
    waiter of its kind, no owned frame is remembered as acknowledged; and at
    most 8192 frames are owned, 8192 acknowledgements remembered and 8192
    publications retained. *)
Theorem relay_tables_agree (ops : list (RelayOp Message)) :
  PeersInv (peers (relay_run ops new_relay)).
Proof using Type. apply reachable_inv. Qed.

(** A waiter hears at most once. In every reachable state no oneshot channel
    has received two values, no channel is installed under two keys, and an
    installed one has received nothing and its frame is still owned. *)
Theorem waiters_hear_at_most_once (ops : list (RelayOp Message)) :
  let r := relay_run ops new_relay in
  NoDup (told (trace r))
  /\ (forall k key k' key' c, waiters k (peers r) !! key = Some c ->
        waiters k' (peers r) !! key' = Some c -> k = k' /\ key = key')
  /\ (forall k key c, waiters k (peers r) !! key = Some c ->
        c ∉ told (trace r) /\ key ∈ frame_destinations (peers r)).
Proof using Type.
  pose proof (reachable_inv ops) as HI.
  pose proof (relay_run_channels ops _ new_relay_inv new_relay_channels) as [H1 H2 H3 _].
  split; [done|]. split; [exact H2|]. intros k [n id] c Hk. split; [by eapply H1|].
  eapply (owned_waiter _ _ (fun k => waiters k _) k); [apply HI|by eexists].
Qed.


(** A connection attempt replays a prefix of the mailbox, and the stream is
    registered, under a new generation, exactly when it took all of it; the
    mailbox and the ownership of its frames stay as they were. *)
Theorem connection_replays_a_prefix (ops : list (RelayOp Message)) (n : string)
    (to : StreamSender) (try_send : nat -> SendOutcome) :
  let r := relay_run ops new_relay in
  let p := connect_node_fenced n to try_send r in
  exists sent rest, mailbox n (peers r) = sent ++ rest
    /\ trace p.2 = trace r ++ (OutFrame to <$> sent) /\ p.1.1 = length sent
    /\ connected_nodes (peers p.2) = (if decide (rest = []) then <[n := MkConnected p.1.2 to]> else id)
         (connected_nodes (peers r))
    /\ mailboxes (peers p.2) = mailboxes (peers r)
    /\ frame_destinations (peers p.2) = frame_destinations (peers r).
Proof using Type.
  intros r p. pose proof (pending_is_mailbox n (peers r) (reachable_inv ops)) as Hp.
  subst p. unfold connect_node_fenced. simpl. unfold mailbox in *. simpl in *. rewrite Hp.
  destruct (replay try_send 0 _) as [stream_open sent] eqn:E.
  destruct (replay_prefix _ _ _ _ _ E) as (rest & Hrest & Hopen). exists sent, rest. simpl.
  split; [done|]. split; [by destruct stream_open|]. split; [done|].
  destruct stream_open; simpl.
  - by rewrite decide_True by by apply Hopen.
  - rewrite decide_False; [done|]. intros ?%Hopen. done.
Qed.

(** ** Acknowledgement by the owner *)

Lemma expire_keeps_last order : forall acked order' acked',
  expire_acknowledgements order acked = (order', acked') -> order <> [] -> last order' = last order.
Proof using Type.
  induction order as [|k order IH]; intros acked order' acked'; [done|]. simpl. intros He _.
  destruct (Z.ltb_spec MAX_RECENT_ACKNOWLEDGEMENTS (Z.of_nat (S (length order)))) as [Hlt|Hle].
  - destruct order as [|k' order]; [simpl in Hlt; unfold MAX_RECENT_ACKNOWLEDGEMENTS in Hlt; lia|].
    rewrite (IH _ _ _ He) by done. done.
  - by injection He as <- <-.
Qed.

(** The frame acknowledged last is always remembered. *)
Lemma remember_keeps key s :
  acked_ok (frame_destinations s) (acknowledged_frames s) (acknowledged_frame_order s) ->
  key ∉ acknowledged_frames s ->
  key ∈ acknowledged_frames (remember_acknowledgement key s).
Proof using Type.
  intros [Hm Hnd Hb Hd] Hk. unfold remember_acknowledgement. rewrite bool_decide_false by done.
  destruct (expire_acknowledgements _ _) as [order' acked'] eqn:E. simpl.
  assert (Horder : forall x, x ∈ {[key]} ∪ acknowledged_frames s
                   <-> x ∈ acknowledged_frame_order s ++ [key]).
  { intros x. rewrite elem_of_union, elem_of_singleton, Hm, elem_of_app, list_elem_of_singleton. tauto. }
  assert (Hnd' : NoDup (acknowledged_frame_order s ++ [key])).
  { apply NoDup_app. split; [done|]. split; [|by apply NoDup_singleton].
    intros x Hx ->%list_elem_of_singleton. by apply Hk, Hm. }
  destruct (expire_acknowledgements_ok _ _ _ _ Horder Hnd' E) as (H1 & _).
  apply H1. apply expire_keeps_last in E; [|by destruct (acknowledged_frame_order s)].
  rewrite last_snoc in E. by apply last_Some_elem_of.
Qed.

(** A frame its owner can acknowledge: it is owned and no typed waiter waits for it. *)
Definition awaits_generic_ack (key : FrameKey) s : bool :=
  negb (is_empty key.1) && bool_decide (key ∈ frame_destinations s)
  && negb (is_some (direct_control_waiters s !! key) || is_some (challenge_control_waiters s !! key)
           || is_some (fleet_observation_waiters s !! key)).

Lemma awaits_generic_ack_spec key s :
  awaits_generic_ack key s = true <->
  key.1 <> ""%string /\ key ∈ frame_destinations s
  /\ forall k, k <> WaitAck -> waiters k s !! key = None.
Proof using Type.
  unfold awaits_generic_ack. rewrite !andb_true_iff, bool_decide_eq_true, !negb_true_iff, typed_waiter.
  unfold is_empty. rewrite bool_decide_eq_false. tauto.
Qed.

(** Only the destination acknowledges, and only a frame without a typed
    waiter. When the trimmed pair is such an owned frame the answer is
    [Accepted]: the frame leaves the owner's mailbox and no other, its key is
    remembered as acknowledged, and its waiter, if any, is told. Every other
    acknowledgement changes nothing at all, and is answered [Accepted] only
    when the same frame was acknowledged before. *)
Theorem only_the_destination_acknowledges (ops : list (RelayOp Message)) (dest id : string) :
  let r := relay_run ops new_relay in
  let key := (trim dest, trim id) in
  let p := ack_frame dest id r in
  if awaits_generic_ack key (peers r)
  then p.1 = AckAccepted
       /\ frame_destinations (peers p.2) = frame_destinations (peers r) ∖ {[key]}
       /\ key ∈ acknowledged_frames (peers p.2)
       /\ (forall n, mailbox n (peers p.2)
             = if decide (trim dest = n)
               then filter (fun f => other_frame (trim id) f = true) (mailbox n (peers r))
               else mailbox n (peers r))
       /\ trace p.2 = trace r ++ match frame_ack_waiters (peers r) !! key with
                                 | Some c => [OutValue c CompletedAck] | None => [] end
  else p.2 = r /\ (p.1 = AckAccepted -> key ∈ acknowledged_frames (peers r)).
Proof using Type.
  intros r key p. pose proof (reachable_inv ops : PeersInv (peers r)) as HI.
  assert (Heff : ack_effect (trim dest) (trim id) r p) by by apply ack_frame_effect.
  destruct (awaits_generic_ack key (peers r)) eqn:Hg.
  - apply awaits_generic_ack_spec in Hg as (Hd & Hk & Hg).
    destruct Heff as [c Hc Hno|r' _ Ha Hn Ht].
    { destruct (Hno Hd Hk) as (kind & Hkind & [w Hw]). specialize (Hg kind Hkind).
      discriminate (eq_trans (eq_sym Hw) Hg). }
    destruct Ha. simpl. split; [done|]. split; [done|]. split; [|split; [|done]].
    + rewrite ab_frames. apply remember_keeps; [apply HI|]. by apply (ak_disjoint _ _ _ (pi_acked _ HI)).
    + intros n. change (mailbox n (peers r')) with (mbox (mailboxes (peers r')) n).
      rewrite ab_mailboxes. by apply mbox_alter.
  - destruct Heff as [c Hc Hno|r' Hd Ha _ _]; [done|]. exfalso. apply not_true_iff_false in Hg.
    apply Hg, awaits_generic_ack_spec. split; [done|]. split; [apply Ha|]. apply Ha.
Qed.

(** An owned frame has an id. *)
Lemma owned_id_nonempty n id s :
  PeersInv s -> (n, id) ∈ frame_destinations s -> is_empty id = false.
Proof using Type.
  intros HI Hk. destruct (owned_frame _ _ _ _ _ (pi_owned _ HI) Hk) as (f & Hf & <-).
  apply bool_decide_eq_false. by apply (ow_payload _ _ _ (pi_owned _ HI) _ _ Hf).
Qed.

(** A typed control frame is settled by the matching completion of its
    destination and by nothing else. With a waiter of the kind under the
    trimmed pair, the completion is accepted: the frame leaves the mailbox and
    the ownership table, no waiter is left under its key, and the waiter is
    told the value. Without one the completion is refused and changes
    nothing. *)
Theorem completions_settle_their_waiter (ops : list (RelayOp Message)) (kind : WaiterKind)
    (value : Completion) (dest id : string) :
  let r := relay_run ops new_relay in
  let key := (trim dest, trim id) in
  let p := complete_control kind value dest id r in
  match (if is_empty (trim dest) then None else waiters kind (peers r) !! key) with
  | Some c =>
      p.1 = ControlAccepted
      /\ frame_destinations (peers p.2) = frame_destinations (peers r) ∖ {[key]}
      /\ (forall n, mailbox n (peers p.2)
            = if decide (trim dest = n)
              then filter (fun f => other_frame (trim id) f = true) (mailbox n (peers r))
              else mailbox n (peers r))
      /\ (forall k, waiters k (peers p.2) = delete key (waiters k (peers r)))
      /\ trace p.2 = trace r ++ [OutValue c value]
  | None => p.1 <> ControlAccepted /\ p.2 = r
  end.
Proof using Type.
  intros r key p. pose proof (reachable_inv ops : PeersInv (peers r)) as HI.
  assert (Hp : complete_control kind value dest id r = p) by done.
  destruct p as [c r'] eqn:Ep. clear Ep.
  assert (Hacc : c = ControlAccepted <->
    is_Some (if is_empty (trim dest) then None else waiters kind (peers r) !! key)).
  { split.
    - intros ->. destruct (complete_control_accepted _ _ _ _ _ _ HI Hp) as (w & Hw & _).
      unfold complete_control in Hp. destruct (is_empty (trim dest)); [done|]. by exists w.
    - intros [w Hw]. destruct (is_empty (trim dest)) eqn:Hd; [done|].
      assert (Hk : key ∈ frame_destinations (peers r)) by
        (eapply (owned_waiter _ _ (fun k => waiters k _) kind); [apply HI|by exists w]).
      unfold complete_control in Hp. fold key in Hp. rewrite Hd, (owned_id_nonempty _ _ _ HI Hk) in Hp.
      simpl in Hp. rewrite Hw in Hp. simpl in Hp.
      rewrite bool_decide_true in Hp by (by destruct kind). by injection Hp as <- _. }
  destruct (if is_empty (trim dest) then None else _) as [w|] eqn:Hw.
  - destruct Hacc as [_ Hc]. rewrite (Hc ltac:(by eexists)) in *. clear Hc.
    destruct (complete_control_accepted _ _ _ _ _ _ HI Hp) as (w' & Hw' & _ & Hpe & Ht & _).
    destruct (is_empty (trim dest)); [done|].
    assert (w' = w) as -> by (apply Some_inj; exact (eq_trans (eq_sym Hw') Hw)).
    simpl. rewrite Hpe. split; [done|]. split; [done|]. split; [|split; [|done]].
    + intros n. exact (mbox_alter _ (mailboxes (peers r)) (trim dest) n eq_refl).
    + intros k. apply abandon_waiters.
  - simpl. split; [intros Hc; by apply Hacc in Hc as [? ?]|].
    apply (complete_control_refused _ _ _ _ _ _ _ HI Hp). intros Hc. by apply Hacc in Hc as [? ?].
Qed.

(** ** Routing *)

Lemma acceptable_mailboxed n frame outcome r d r' :
  route_frame_locked n frame outcome r = (d, r') -> accepted d = true ->
  mailbox n (peers r') = mailbox n (peers r) ++ [frame]
  /\ frame_destinations (peers r') = {[(n, fid frame)]} ∪ frame_destinations (peers r)
  /\ trace r' = trace r ++ match d, connected_nodes (peers r) !! n with
                           | Delivered, Some c => [OutFrame (sender c) frame]
                           | _, _ => [] end
  /\ published_tasks (peers r') = published_tasks (peers r).
Proof using Type.
  intros Hr Hd. destruct (route_frame_locked_effect n frame outcome r) as [He _]. rewrite Hr in He.
  assert (Hown : mailbox n (own_frame n (fid frame) frame (peers r)) = mailbox n (peers r) ++ [frame]).
  { change (mailbox n (own_frame n (fid frame) frame (peers r)))
      with (mbox (<[n := mbox (mailboxes (peers r)) n ++ [frame]]> (mailboxes (peers r))) n).
    by rewrite mbox_insert, decide_True. }
  inversion He as [d0 Hd0|c r0 Hc Hp Ht _|r0 Hp Ht _]; subst.
  - congruence.
  - rewrite Hp, Ht, Hc. done.
  - rewrite Ht. rewrite app_nil_r. by destruct Hp as [->| ->].
Qed.

(** Routing a task or result frame. It is accepted exactly when the frame has one
    payload and an id, the id is neither owned by the target nor recently
    acknowledged by it, and neither table is full. An accepted frame joins the
    end of the target's mailbox, becomes owned, counts as routed, and is sent
    at once exactly when the answer is [Delivered]; a rejected one changes
    nothing but the connection gauge. *)
Theorem route_frame_spec (ops : list (RelayOp Message)) (n : string) (frame : RelayFrame Message)
    (outcome : SendOutcome) :
  let r := relay_run ops new_relay in
  let p := route_frame n frame outcome r in
  (accepted p.1 = true <->
    has_exactly_one_generic_payload frame = true /\ acceptable n frame (peers r))
  /\ (if accepted p.1
      then mailbox n (peers p.2) = mailbox n (peers r) ++ [frame]
           /\ frame_destinations (peers p.2) = {[(n, fid frame)]} ∪ frame_destinations (peers r)
           /\ trace p.2 = trace r ++ match p.1, connected_nodes (peers r) !! n with
                                     | Delivered, Some c => [OutFrame (sender c) frame]
                                     | _, _ => [] end
           /\ tasks_routed p.2 = as_u64 (tasks_routed r + 1)
      else peers p.2 = peers r /\ trace p.2 = trace r /\ tasks_routed p.2 = tasks_routed r).
Proof using Type.
  intros r p. subst p. unfold route_frame.
  destruct (has_exactly_one_generic_payload frame); simpl; [|split; [by split; [|intros [? _]]|done]].
  pose proof (route_frame_locked_effect n frame outcome r) as [He Hac].
  assert (Htr : tasks_routed (route_frame_locked n frame outcome r).2 = tasks_routed r).
  { unfold route_frame_locked. by repeat (case_match; simpl). }
  destruct (route_frame_locked n frame outcome r) as [d r'] eqn:Hr. simpl in *.
  split; [rewrite Hac; tauto|]. destruct (accepted d) eqn:Hd; simpl.
  - pose proof (acceptable_mailboxed _ _ _ _ _ _ Hr Hd) as (H1 & H2 & H3 & _). by rewrite Htr.
  - by rewrite (rejected_unchanged _ _ _ _ _ _ Hr Hd).
Qed.

(** ** Publications *)

Lemma make_room_keeps key p order : forall tasks index ok order' tasks' index',
  tasks !! key = Some p -> key ∉ order ->
  make_room (Message := Message) order tasks index = (ok, (order', tasks', index')) ->
  tasks' !! key = Some p.
Proof using Type.
  induction order as [|k order IH]; intros tasks index ok order' tasks' index' Hp Hn; simpl;
    destruct (Z.ltb _ _); try by intros [= <- <- <- <-].
  apply not_elem_of_cons in Hn as [Hne Hn].
  destruct (tasks !! k) as [q|]; intros He; eapply IH; try exact He; try done.
  by rewrite lookup_delete_ne.
Qed.

(** Eviction takes acknowledged publications only. *)
Lemma evict_keeps s ok s' key p :
  PeersInv s -> evict_published s = (ok, s') ->
  published_tasks s !! key = Some p -> acknowledged p = false -> published_tasks s' !! key = Some p.
Proof using Type.
  intros HI He Hp Ha. unfold evict_published in He.
  destruct (make_room _ _ _) as [ok' [[order tasks] index]] eqn:Hm. injection He as <- <-. simpl.
  eapply make_room_keeps; [exact Hp| |exact Hm].
  intros (q & Hq & Hqa)%(pu_order _ _ (pi_published _ HI)). congruence.
Qed.

Lemma record_keeps key key' m q s p :
  published_tasks s !! key' = None -> published_tasks s !! key = Some p ->
  published_tasks (record_publication key' m q s) !! key = Some p.
Proof using Type.
  intros Hn Hp. simpl. rewrite lookup_insert_ne; [done|]. intros ->. congruence.
Qed.

Lemma evict_none s ok s' key :
  PeersInv s -> evict_published s = (ok, s') -> published_tasks s !! key = None ->
  published_tasks s' !! key = None.
Proof using Type.
  intros HI He Hn. destruct (evict_inv _ _ _ HI He) as (_ & Hsub & _). by eapply lookup_weaken_None.
Qed.

(** The publications and their index stay. *)
Definition same_publications s s' : Prop :=
  published_tasks s' = published_tasks s /\ published_frame_index s' = published_frame_index s.

Lemma route_locked_published n frame outcome r :
  same_publications (peers r) (peers (route_frame_locked n frame outcome r).2).
Proof using Type.
  destruct (route_frame_locked_effect n frame outcome r) as [He _].
  destruct He as [d Hd|c r' Hc Hp Ht Hn|r' Hp Ht Hn]; simpl; [done|by rewrite Hp|].
  by destruct Hp as [->| ->].
Qed.

Lemma on_waiters_published k g s : same_publications s (on_waiters k g s).
Proof using Type. by destruct k. Qed.

Lemma route_waiting_published kind n frame outcome r :
  same_publications (peers r) (peers (route_waiting kind n frame outcome r).2).
Proof using Type.
  unfold route_waiting. pose proof (route_locked_published n frame outcome r) as Hp.
  destruct (route_frame_locked n frame outcome r) as [d r']. simpl in *.
  destruct (accepted d); simpl; [|done]. by destruct kind.
Qed.

Lemma complete_published kind value dest id r :
  PeersInv (peers r) ->
  same_publications (peers r) (peers (complete_control kind value dest id r).2).
Proof using Type.
  intros HI. destruct (complete_control kind value dest id r) as [c r'] eqn:Hc. simpl.
  destruct c.
  - apply complete_control_accepted in Hc as (w & _ & _ & -> & _); done.
  - apply complete_control_refused in Hc as ->; done.
  - apply complete_control_refused in Hc as ->; done.
Qed.

(** What a call does to the publications. *)
Inductive publication_step (op : RelayOp Message) s s' : Prop :=
| ps_same : same_publications s s' -> publication_step op s s'
| ps_evict : same_publications (evict_published s).2 s' -> publication_step op s s'
| ps_record key m p :
    published_tasks s !! key = None ->
    same_publications (record_publication key m p (evict_published s).2) s' ->
    publication_step op s s'
| ps_ack dest id :
    op = RAck dest id ->
    published_tasks s' = published_tasks (mark_published_task_acknowledged (trim dest) (trim id) s) ->
    published_frame_index s' = published_frame_index s -> publication_step op s s'
| ps_forget src dest task_id id p :
    op = RForget src dest task_id id ->
    published_tasks s !! (src, dest, task_id) = Some p -> receipt_frame_id (receipt p) = id ->
    published_tasks s' = delete (src, dest, task_id) (published_tasks s) ->
    published_frame_index s' = delete (dest, id) (published_frame_index s) ->
    publication_step op s s'.

Lemma relay_step_publications op r :
  PeersInv (peers r) -> publication_step op (peers r) (peers (relay_step op r)).
Proof using Type.
  intros HI. destruct op; simpl; try by apply ps_same.
  - apply ps_same. unfold connect_node_fenced. by destruct (replay _ _ _) as [[] sent].
  - apply ps_same. unfold disconnect_node. simpl. by destruct (connected_nodes (peers r) !! node).
  - apply ps_same. unfold disconnect_node_if_current. simpl.
    by destruct (current_connection node gen (peers r)).
  - apply ps_same. unfold disconnect_node_with_status. rewrite send_status_peers. simpl.
    by destruct (connected_nodes (peers r) !! node).
  - apply ps_same. unfold disconnect_node_with_status_if_current. rewrite send_status_peers. simpl.
    by destruct (current_connection node gen (peers r)).
  - apply ps_same. unfold route_frame. destruct (has_exactly_one_generic_payload frame); [|done]. simpl.
    pose proof (route_locked_published target frame outcome r) as Hr.
    destruct (route_frame_locked target frame outcome r) as [d r']. by destruct (accepted d).
  - apply ps_same. unfold route_frame_waiting_for_ack.
    destruct (has_exactly_one_generic_payload frame); [|done]. simpl.
    pose proof (route_waiting_published WaitAck target frame outcome r) as Hr.
    destruct (route_waiting _ _ _ _ _) as [a r']. by destruct (is_some a.2).
  - apply ps_same. unfold route_nodescale_identity_bind_waiting_for_completion.
    destruct (typed_direct_control_target_matches_frame_destination target frame), (is_bind_frame frame);
      try done. apply route_waiting_published.
  - apply ps_same. unfold route_nodescale_identity_challenge_waiting_for_completion.
    destruct (typed_direct_control_target_matches_frame_destination target frame),
      (is_challenge_frame frame); try done. apply route_waiting_published.
  - apply ps_same. unfold route_fleet_observation_waiting_for_completion.
    destruct (_ && is_fleet_frame frame); [|done]. apply route_waiting_published.
  - apply ps_same. by apply complete_published.
  - apply ps_same. by apply complete_published.
  - apply ps_same. by apply complete_published.
  - destruct (ack_frame_effect destination id r HI) as [c _ _|r' _ Hack _ _]; [by apply ps_same|].
    by eapply ps_ack; [|apply Hack..].
  - unfold publish_task_frame. destruct (is_exact_task_frame frame routed_task); [|by apply ps_same]. simpl.
    destruct (published_tasks (peers r) !! (source, destination, task_id)) as [old|] eqn:Hold;
      [by apply ps_same|].
    destruct (_ || _ : bool); [by apply ps_same|].
    destruct (evict_published (peers r)) as [ok s] eqn:He.
    destruct ok; [|by apply ps_evict; rewrite He]. simpl.
    eapply (ps_record _ _ _ (source, destination, task_id) identity_task receipt); [done|]. rewrite He.
    pose proof (route_locked_published destination frame outcome
      (on_peers (fun _ => record_publication (source, destination, task_id) identity_task receipt s) r)) as Hr.
    by destruct (route_frame_locked destination frame outcome _) as [d r'].
  - unfold classify_published_task.
    destruct (published_tasks (peers r) !! (source, destination, task_id)) as [old|] eqn:Hold;
      [by apply ps_same|].
    destruct (evict_published (peers r)) as [ok s] eqn:He. destruct ok; [|by apply ps_evict; rewrite He].
    eapply (ps_record _ _ _ (source, destination, task_id) t receipt); [done|]. by rewrite He.
  - unfold forget_published_task. simpl.
    destruct (published_tasks (peers r) !! (source, destination, task_id)) as [q|] eqn:Hq;
      [|by apply ps_same].
    destruct (_ && _) eqn:Hc; [|by apply ps_same].
    apply andb_true_iff in Hc as [[Hid%bool_decide_eq_true _]%andb_true_iff _].
    by eapply ps_forget.
Qed.

(** An index entry leads to the publication whose receipt carries the frame id. *)
Definition index_ok (tasks : gmap TaskPublishKey (PublishedTaskRecord (Message := Message)))
    (index : gmap FrameKey TaskPublishKey) : Prop :=
  forall (n id : string) (key : TaskPublishKey), index !! (n, id) = Some key ->
    key.1.2 = n /\ exists p, tasks !! key = Some p /\ receipt_frame_id (receipt p) = id.

Definition publications_ok s : Prop := index_ok (published_tasks s) (published_frame_index s).

Lemma index_delete tasks index key p :
  index_ok tasks index -> tasks !! key = Some p ->
  index_ok (delete key tasks) (delete (key.1.2, receipt_frame_id (receipt p)) index).
Proof using Type.
  intros Hi Hp n id k [Hne Hk]%lookup_delete_Some.
  destruct (Hi _ _ _ Hk) as [Hn (q & Hq & Hid)]. split; [done|]. exists q.
  split; [|done]. rewrite lookup_delete_ne; [done|]. intros ->.
  assert (q = p) as -> by (apply Some_inj; exact (eq_trans (eq_sym Hq) Hp)). congruence.
Qed.

Lemma make_room_index order : forall tasks index ok order' tasks' index',
  index_ok tasks index -> make_room order tasks index = (ok, (order', tasks', index')) ->
  index_ok tasks' index'.
Proof using Type.
  induction order as [|k order IH]; intros tasks index ok order' tasks' index' Hi; simpl;
    destruct (Z.ltb _ _); try by intros [= <- <- <- <-].
  destruct (tasks !! k) as [q|] eqn:Hq; intros He; eapply IH; try exact He; [|done].
  by apply index_delete.
Qed.

Lemma evict_index s : publications_ok s -> publications_ok (evict_published s).2.
Proof using Type.
  intros Hi. unfold evict_published.
  destruct (make_room _ _ _) as [ok' [[order tasks] index]] eqn:Hm. by eapply make_room_index.
Qed.

Lemma record_index key m p s :
  publications_ok s -> published_tasks s !! key = None ->
  publications_ok (record_publication key m p s).
Proof using Type.
  intros Hi Hn n id k. simpl. rewrite lookup_insert_Some. intros [[[= <- <-] <-]|[_ Hk]].
  - split; [done|]. eexists. by rewrite lookup_insert_eq.
  - destruct (Hi _ _ _ Hk) as [Hkn (q & Hq & Hid)]. split; [done|]. exists q. split; [|done].
    rewrite lookup_insert_ne; [done|]. intros <-. discriminate (eq_trans (eq_sym Hq) Hn).
Qed.

Lemma mark_lookup n id s (key : TaskPublishKey) :
  published_tasks (mark_published_task_acknowledged n id s) !! key
  = match published_tasks s !! key with
    | Some p => Some (if bool_decide (published_frame_index s !! (n, id) = Some key)
                      then set_acknowledged p else p)
    | None => None
    end.
Proof using Type.
  unfold mark_published_task_acknowledged.
  destruct (published_frame_index s !! (n, id)) as [k|] eqn:Hk; [|by destruct (published_tasks s !! key)].
  destruct (published_tasks s !! k) as [p|] eqn:Hp.
  - destruct (decide (k = key)) as [->|Hne].
    + rewrite Hp, bool_decide_true by done. destruct (acknowledged p) eqn:Ha; [rewrite Hp|].
      * f_equal. destruct p. simpl in Ha. by subst.
      * simpl. by rewrite lookup_insert_eq.
    + rewrite bool_decide_false by congruence. destruct (acknowledged p) eqn:Ha; [by destruct (_ !! key)|].
      simpl. rewrite lookup_insert_ne by done. by destruct (_ !! key).
  - destruct (published_tasks s !! key) as [q|] eqn:Hq; [|done].
    rewrite bool_decide_false; [done|]. intros [= ->]. congruence.
Qed.

Lemma same_publications_index s s' :
  same_publications s s' -> publications_ok s -> publications_ok s'.
Proof using Type. unfold publications_ok. by intros [-> ->]. Qed.

Lemma publication_step_index op s s' :
  PeersInv s -> publication_step op s s' -> publications_ok s -> publications_ok s'.
Proof using Type.
  intros HI Hs Hi. destruct Hs as [Hs|Hs|key m p Hn Hs|dest id _ Ht Hx|src dest task_id id p _ Hp Hid Ht Hx].
  - by eapply same_publications_index.
  - by eapply same_publications_index, evict_index.
  - eapply same_publications_index; [exact Hs|]. apply record_index; [by apply evict_index|].
    destruct (evict_published s) as [ok s1] eqn:He. by eapply evict_none.
  - intros n i key. rewrite Hx, Ht. intros Hk. destruct (Hi _ _ _ Hk) as [Hkn (p & Hp & Hpid)].
    split; [done|]. rewrite mark_lookup, Hp. eexists. split; [done|]. by destruct (bool_decide _).
  - unfold publications_ok. rewrite Ht, Hx, <- Hid. by apply (index_delete _ _ (src, dest, task_id) p).
Qed.

Lemma reachable_index ops : publications_ok (peers (relay_run ops (new_relay (Message := Message)))).
Proof using Type.
  assert (H0 : publications_ok (peers (new_relay (Message := Message)))).
  { intros n id key Hk. simpl in Hk. by rewrite lookup_empty in Hk. }
  pose proof (new_relay_inv (Message := Message)) as HI0. revert H0 HI0. generalize (new_relay (Message := Message)).
  induction ops as [|op ops IH]; intros r Hi HI; [done|]. simpl. apply IH.
  - by eapply publication_step_index, Hi; [|apply relay_step_publications].
  - by apply relay_step_inv.
Qed.

(** An unacknowledged publication after a call. *)
Lemma publication_stays op (key : TaskPublishKey) p r :
  PeersInv (peers r) -> publications_ok (peers r) ->
  published_tasks (peers r) !! key = Some p -> acknowledged p = false ->
  (forall id, op <> RForget key.1.1 key.1.2 key.2 id) ->
  (forall m id, op = RAck m id -> ~ (trim m = key.1.2 /\ trim id = receipt_frame_id (receipt p))) ->
  published_tasks (peers (relay_step op r)) !! key = Some p.
Proof using Type.
  intros HI Hi Hp Ha Hf Hack.
  destruct (relay_step_publications op r HI)
    as [[-> _]|[-> _]|k m q Hn [-> _]|dest id Hop Ht _|src dest task_id id q Hop _ _ Ht _]; [done|..].
  - destruct (evict_published (peers r)) as [ok s] eqn:He. by eapply evict_keeps.
  - destruct (evict_published (peers r)) as [ok s] eqn:He.
    apply record_keeps; [by eapply evict_none|by eapply evict_keeps].
  - rewrite Ht, mark_lookup, Hp. rewrite bool_decide_false; [done|]. intros Hk.
    destruct (Hi _ _ _ Hk) as [Hn (q & Hq & Hid)]. apply (Hack dest id Hop). split; [done|].
    assert (q = p) as -> by (apply Some_inj; exact (eq_trans (eq_sym Hq) Hp)). done.
  - rewrite Ht, lookup_delete_ne; [done|]. intros <-. by apply (Hf id).
Qed.

Lemma publication_stays_run later (key : TaskPublishKey) p : forall r,
  PeersInv (peers r) -> publications_ok (peers r) ->
  published_tasks (peers r) !! key = Some p -> acknowledged p = false ->
  (forall op, op ∈ later -> (forall id, op <> RForget key.1.1 key.1.2 key.2 id)
    /\ forall m id, op = RAck m id -> ~ (trim m = key.1.2 /\ trim id = receipt_frame_id (receipt p))) ->
  published_tasks (peers (relay_run later r)) !! key = Some p.
Proof using Type.
  induction later as [|op later IH]; intros r HI Hi Hp Ha Hops; [done|]. simpl.
  destruct (Hops op ltac:(left)) as [Hf Hack]. apply IH.
  - by apply relay_step_inv.
  - by eapply publication_step_index, Hi; [|apply relay_step_publications].
  - by apply publication_stays.
  - done.
  - intros op' Hop. apply Hops. by right.
Qed.

Lemma publish_new src dest task_id identity routed frame p outcome r q d r1 :
  publish_task_frame src dest task_id identity routed frame p outcome r = (PublishNew q d, r1) ->
  q = p /\ published_tasks (peers r1) !! (src, dest, task_id) = Some (MkPublished identity p false).
Proof using Type.
  unfold publish_task_frame. destruct (is_exact_task_frame frame routed); [|done]. simpl.
  destruct (published_tasks (peers r) !! (src, dest, task_id)) as [old|].
  { by destruct (bool_decide (envelope old = identity)). }
  destruct (_ || _ : bool); [done|].
  destruct (evict_published (peers r)) as [ok s]. destruct ok; [|done]. simpl.
  pose proof (route_locked_published dest frame outcome
    (on_peers (fun _ => record_publication (src, dest, task_id) identity p s) r)) as [Hr _].
  destruct (route_frame_locked dest frame outcome _) as [d' r2]. simpl in *.
  intros [= <- <- <-]. split; [done|]. simpl. rewrite Hr. by rewrite lookup_insert_eq.
Qed.

(** Publishing is idempotent until the publication is acknowledged. An
    accepted publication is remembered with its receipt through every sequence
    of calls in which its destination does not acknowledge the receipt's frame
    and the publication is not forgotten: publishing the task again is
    answered [Retry] with the first receipt, another task under the same
    identity is a [Conflict], and both leave the relay as it is. *)
Theorem publication_is_idempotent (ops later : list (RelayOp Message))
    (src dest task_id : string) (identity routed identity' routed' : Message)
    (frame frame' : RelayFrame Message) (p p' q : PublishedTaskReceipt) (d : FrameDelivery)
    (outcome outcome' : SendOutcome) (r1 : Relay Message) :
  publish_task_frame src dest task_id identity routed frame p outcome (relay_run ops new_relay)
    = (PublishNew q d, r1) ->
  (forall op, op ∈ later -> (forall id, op <> RForget src dest task_id id)
     /\ forall m id, op = RAck m id -> ~ (trim m = dest /\ trim id = receipt_frame_id p)) ->
  is_exact_task_frame frame' routed' = true ->
  q = p
  /\ publish_task_frame src dest task_id identity' routed' frame' p' outcome' (relay_run later r1)
     = ((if bool_decide (identity = identity') then PublishRetry p else PublishConflict),
        relay_run later r1).
Proof using Type.
  intros Hnew Hlater Hx. pose proof (reachable_inv ops) as HI.
  destruct (publish_new _ _ _ _ _ _ _ _ _ _ _ _ Hnew) as [-> Hrec]. split; [done|].
  assert (Hop : r1 = relay_step (RPublish src dest task_id identity routed frame p outcome)
                       (relay_run ops new_relay)) by (simpl; by rewrite Hnew).
  assert (Hstill : published_tasks (peers (relay_run later r1)) !! (src, dest, task_id)
                   = Some (MkPublished identity p false)).
  { apply publication_stays_run; [..|exact Hrec|done|exact Hlater]; rewrite Hop.
    - by apply relay_step_inv.
    - eapply publication_step_index; [exact HI|by apply relay_step_publications|apply reachable_index]. }
  unfold publish_task_frame. rewrite Hx. simpl. by rewrite Hstill.
Qed.

(** ** Fencing *)

(** The generations of [connect_node_fenced] cycle through 1 .. 2^64 - 1. *)
Definition LAST_GENERATION : Z := 18446744073709551615.

Lemma next_generation_cycle g :
  0 <= g <= LAST_GENERATION -> as_next_generation g = g mod LAST_GENERATION + 1.
Proof using Type.
  unfold as_next_generation, LAST_GENERATION, as_u64. intros Hg.
  destruct (decide (g = 18446744073709551615)) as [->|Hne]; [done|].
  rewrite !Z.mod_small by lia. lia.
Qed.

Lemma next_generation_range g : 1 <= as_next_generation g <= LAST_GENERATION.
Proof using Type.
  unfold as_next_generation, LAST_GENERATION, as_u64.
  pose proof (Z.mod_pos_bound (g + 1) 18446744073709551616). lia.
Qed.

Definition is_connect (op : RelayOp Message) : bool :=
  match op with RConnect _ _ _ => true | _ => false end.

Lemma route_locked_generation n frame outcome r :
  next_connection_generation (peers (route_frame_locked n frame outcome r).2)
  = next_connection_generation (peers r).
Proof using Type. unfold route_frame_locked. by repeat (case_match; simpl). Qed.

Lemma route_waiting_generation kind n frame outcome r :
  next_connection_generation (peers (route_waiting kind n frame outcome r).2)
  = next_connection_generation (peers r).
Proof using Type.
  unfold route_waiting. pose proof (route_locked_generation n frame outcome r) as Hg.
  destruct (route_frame_locked n frame outcome r) as [d r']. simpl in *.
  destruct (accepted d); [|done]. by destruct kind.
Qed.

Lemma ack_generation dest id r :
  next_connection_generation (peers (ack_frame dest id r).2) = next_connection_generation (peers r).
Proof using Type.
  unfold ack_frame, settle_waiter, mark_published_task_acknowledged, remember_acknowledgement.
  repeat (case_match; simpl); try done.
Qed.

Lemma relay_step_generation op r :
  next_connection_generation (peers (relay_step op r))
  = (if is_connect op then as_next_generation else id) (next_connection_generation (peers r)).
Proof using Type.
  destruct op; simpl; try done.
  - unfold connect_node_fenced. by destruct (replay _ _ _) as [[] sent].
  - unfold disconnect_node. simpl. by case_match.
  - unfold disconnect_node_if_current. simpl. by case_match.
  - unfold disconnect_node_with_status. rewrite send_status_peers. simpl. by case_match.
  - unfold disconnect_node_with_status_if_current. rewrite send_status_peers. simpl. by case_match.
  - unfold route_frame. case_match; [done|].
    pose proof (route_locked_generation target frame outcome r) as Hg.
    destruct (route_frame_locked target frame outcome r) as [d r']. by destruct (accepted d).
  - unfold route_frame_waiting_for_ack. case_match; [done|].
    pose proof (route_waiting_generation WaitAck target frame outcome r) as Hg.
    destruct (route_waiting _ _ _ _ _) as [a r']. by destruct (is_some a.2).
  - unfold route_nodescale_identity_bind_waiting_for_completion.
    do 2 (case_match; [done|]). apply route_waiting_generation.
  - unfold route_nodescale_identity_challenge_waiting_for_completion.
    do 2 (case_match; [done|]). apply route_waiting_generation.
  - unfold route_fleet_observation_waiting_for_completion. case_match; [done|].
    apply route_waiting_generation.
  - unfold complete_nodescale_identity_bind, complete_control. by repeat (case_match; simpl).
  - unfold complete_nodescale_identity_challenge, complete_control. by repeat (case_match; simpl).
  - unfold complete_fleet_observation, complete_control. by repeat (case_match; simpl).
  - apply ack_generation.
  - unfold publish_task_frame, evict_published. case_match; [done|]. case_match; [done|].
    case_match; [done|]. destruct (make_room _ _ _) as [ok [[order tasks] index]]. destruct ok; [|done]. simpl.
    match goal with |- context [route_frame_locked ?n ?f ?o ?x] =>
      pose proof (route_locked_generation n f o x) as Hg; destruct (route_frame_locked n f o x) as [d r'] end.
    exact Hg.
  - unfold classify_published_task, evict_published. case_match; [done|].
    destruct (make_room _ _ _) as [ok [[order tasks] index]]. by destruct ok.
  - unfold forget_published_task. simpl. by repeat case_match.
Qed.

Definition connects (ops : list (RelayOp Message)) : nat :=
  length (filter (fun op => is_connect op = true) ops).

Lemma run_generation ops : forall r,
  1 <= next_connection_generation (peers r) <= LAST_GENERATION ->
  next_connection_generation (peers (relay_run ops r))
  = (next_connection_generation (peers r) - 1 + Z.of_nat (connects ops)) mod LAST_GENERATION + 1.
Proof using Type.
  unfold connects. induction ops as [|op ops IH]; intros r Hg; simpl.
  - rewrite Z.mod_small; unfold LAST_GENERATION in *; lia.
  - pose proof (relay_step_generation op r) as Hop. rewrite filter_cons.
    destruct (is_connect op) eqn:Hc; simpl in *.
    + rewrite IH by (rewrite Hop; apply next_generation_range).
      rewrite Hop, next_generation_cycle by lia. f_equal.
      replace (_ mod _ + 1 - 1 + Z.of_nat (length (filter _ ops)))
        with (next_connection_generation (peers r) mod LAST_GENERATION
              + Z.of_nat (length (filter (fun op => is_connect op = true) ops))) by lia.
      rewrite Z.add_mod_idemp_l by (unfold LAST_GENERATION; lia). f_equal. lia.
    + rewrite IH by by rewrite Hop. by rewrite Hop.
Qed.

Lemma connect_generation n to try_send r :
  (connect_node_fenced n to try_send r).1.2
    = next_connection_generation (peers (connect_node_fenced n to try_send r).2).
Proof using Type. unfold connect_node_fenced. by destruct (replay _ _ _) as [[] sent]. Qed.

Lemma connect_registers n to try_send r :
  (forall i, try_send i = Sent) ->
  connected_nodes (peers (connect_node_fenced n to try_send r).2) !! n
  = Some (MkConnected (connect_node_fenced n to try_send r).1.2 to).
Proof using Type.
  intros Hs. unfold connect_node_fenced. rewrite replay_all by done. simpl. by rewrite lookup_insert_eq.
Qed.

(** A stream that was replaced cannot take down its successor. Once a node
    connected again, fewer than 2^64 - 2 connections after a stream of its own
    was opened, a fenced disconnect with the old stream's generation changes
    neither the peers nor what was sent, while the new generation does end the
    connection. *)
Theorem replaced_stream_cannot_disconnect (ops later : list (RelayOp Message)) (n : string)
    (to to' : StreamSender) (try_send try_send' : nat -> SendOutcome) :
  let p1 := connect_node_fenced n to try_send (relay_run ops new_relay) in
  let p2 := connect_node_fenced n to' try_send' (relay_run later p1.2) in
  Z.of_nat (connects later) + 1 < LAST_GENERATION ->
  (forall i, try_send' i = Sent) ->
  peers (disconnect_node_if_current n p1.1.2 p2.2) = peers p2.2
  /\ (forall outcome, trace (disconnect_node_with_status_if_current n p1.1.2 outcome p2.2) = trace p2.2)
  /\ connected_nodes (peers p2.2) !! n = Some (MkConnected p2.1.2 to')
  /\ connected_nodes (peers (disconnect_node_if_current n p2.1.2 p2.2)) !! n = None.
Proof using Type.
  intros p1 p2 Hlt Hs.
  assert (Hc : connected_nodes (peers p2.2) !! n = Some (MkConnected p2.1.2 to'))
    by by apply connect_registers.
  assert (Hne : p2.1.2 <> p1.1.2).
  { assert (Hg1 : 1 <= next_connection_generation (peers p1.2) <= LAST_GENERATION).
    { pose proof (relay_step_generation (RConnect n to try_send) (relay_run ops new_relay)) as Hg.
      simpl in Hg. fold p1 in Hg. rewrite Hg. apply next_generation_range. }
    pose proof (relay_step_generation (RConnect n to' try_send') (relay_run later p1.2)) as Hg2.
    simpl in Hg2. fold p2 in Hg2.
    pose proof (run_generation later p1.2 Hg1) as Hr.
    subst p1 p2. rewrite !connect_generation, Hg2, Hr.
    set (g := next_connection_generation _) in *. set (k := Z.of_nat (connects later)) in *.
    assert (Hk : 0 <= k) by lia.
    rewrite next_generation_cycle; [|pose proof (Z.mod_pos_bound (g - 1 + k) LAST_GENERATION); unfold LAST_GENERATION in *; lia].
    rewrite Z.add_mod_idemp_l by (unfold LAST_GENERATION; lia).
    intros Heq. apply (f_equal (fun x => x - 1)) in Heq.
    pose proof (Z.mod_small (g - 1) LAST_GENERATION ltac:(lia)) as Hsm.
    assert (Hdiv : (k + 1) mod LAST_GENERATION = 0).
    { replace (k + 1) with ((g - 1 + k + 1) - (g - 1)) by lia. rewrite Zminus_mod, Hsm.
      replace ((g - 1 + k + 1) mod LAST_GENERATION) with (g - 1) by lia. by rewrite Z.sub_diag. }
    rewrite Z.mod_small in Hdiv by lia. lia. }
  assert (Hstale : current_connection n p1.1.2 (peers p2.2) = None).
  { unfold current_connection. rewrite Hc. simpl. by rewrite (proj2 (Z.eqb_neq _ _) Hne). }
  split; [|split; [|split; [done|]]].
  - unfold disconnect_node_if_current. simpl. by rewrite Hstale.
  - intros outcome. unfold disconnect_node_with_status_if_current. by rewrite Hstale.
  - unfold disconnect_node_if_current, current_connection. simpl. rewrite Hc. simpl. rewrite Z.eqb_refl.
    simpl. apply lookup_delete_eq.
Qed.
End relay_delivery.

(** ** Concrete runs *)

(** A task frame whose message is a string. *)
Definition task_frame (id body : string) : RelayFrame string :=
  MkFrame id (Some body) None "" "" None None None None None.

Definition one_receipt : PublishedTaskReceipt := MkReceipt "frame-1" 1.


Lemma publication_is_idempotent_witness :
  exists r1, publish_task_frame (Message := string) "node-a" "node-b" "task-1" "task" "task"
      (task_frame "frame-1" "task") one_receipt Full (relay_run [] new_relay)
      = (PublishNew one_receipt Mailboxed, r1)
    /\ (publish_task_frame "node-a" "node-b" "task-1" "task" "task" (task_frame "frame-2" "task")
          (MkReceipt "frame-2" 2) Full (relay_run [RAck "node-b" "frame-9"] r1)).1
       = PublishRetry one_receipt.
Proof.
  destruct (publish_task_frame (Message := string) "node-a" "node-b" "task-1" "task" "task"
      (task_frame "frame-1" "task") one_receipt Full (relay_run [] new_relay)) as [a r1] eqn:Hp.
  assert (Ha : a = PublishNew one_receipt Mailboxed)
    by (change a with (a, r1).1; rewrite <- Hp; vm_compute; reflexivity).
  subst a. exists r1. split; [reflexivity|].
  assert (Hops : forall op, op ∈ [RAck (Message := string) "node-b" "frame-9"] ->
    (forall id, op <> RForget "node-a" "node-b" "task-1" id)
    /\ forall m id, op = RAck m id -> ~ (trim m = "node-b"%string /\ trim id = receipt_frame_id one_receipt)).
  { intros op ->%list_elem_of_singleton. split; [discriminate|].
    intros m id [= <- <-] [_ Hid]. vm_compute in Hid. discriminate. }
  destruct (publication_is_idempotent (Message := string) [] [RAck "node-b" "frame-9"] "node-a" "node-b"
    "task-1" "task" "task" "task" "task" (task_frame "frame-1" "task") (task_frame "frame-2" "task")
    one_receipt (MkReceipt "frame-2" 2) one_receipt Mailboxed Full Full r1 Hp Hops eq_refl) as [_ Heq].
  rewrite Heq. reflexivity.
Defined.

Lemma replaced_stream_cannot_disconnect_witness :
  let p1 := connect_node_fenced (Message := string) "node-a" 1%nat (fun _ => Sent) (relay_run [] new_relay) in
  let p2 := connect_node_fenced "node-a" 2%nat (fun _ => Sent) (relay_run [] p1.2) in
  connected_nodes (peers (disconnect_node_if_current "node-a" p1.1.2 p2.2)) !! "node-a"%string
  = Some (MkConnected p2.1.2 2%nat).
Proof.
  intros p1 p2.
  destruct (replaced_stream_cannot_disconnect (Message := string) [] [] "node-a" 1%nat 2%nat
    (fun _ => Sent) (fun _ => Sent)) as (Hp & _ & Hc & _);
    [unfold LAST_GENERATION, connects; simpl; lia|reflexivity|].
  exact (eq_trans (f_equal (fun s => connected_nodes s !! "node-a"%string) Hp) Hc).
Defined.
