(* ===== verification/Policy.v ===== *)
(** * The policy crate (crates/keryx-policy/src/lib.rs)

    Node keys and identities, token authentication, capability rules and the
    redaction of secrets. Reading the operating system's random source and the
    key file is a parameter of the reader: a key is what was read. A Rust
    panic (a slice inside a character) is [None]. *)
From S2P Require Import Prelude Ident Text.
From stdpp Require Import options.
From Stdlib Require Import Ascii.

(** ** Slicing *)

(** A position in a string at which a character starts, or its end. *)
Definition is_char_boundary (l : list ascii) (i : nat) : bool :=
  match drop i l with
  | [] => Nat.eqb i (length l)
  | c :: _ => negb ((128 <=? byte_of c) && (byte_of c <? 192))
  end.

(** [&s[i..]]: a panic when [i] is not a character boundary. *)
Definition slice_from (l : list ascii) (i : nat) : option (list ascii) :=
  if is_char_boundary l i then Some (drop i l) else None.

(** ** Hexadecimal *)

Definition HEX : list ascii := bytes_of "0123456789abcdef".

Definition hex_digit (n : Z) : ascii := nth (Z.to_nat n) HEX "0"%char.

Definition hex_encode (bytes : list Z) : list ascii :=
  flat_map (fun byte => [hex_digit (Z.shiftr byte 4); hex_digit (Z.land byte 15)]) bytes.

Definition hex_value (c : ascii) : Result Z string :=
  let b := byte_of c in
  if (48 <=? b) && (b <=? 57) then Ok (b - 48)
  else if (97 <=? b) && (b <=? 102) then Ok (b - 97 + 10)
  else if (65 <=? b) && (b <=? 70) then Ok (b - 65 + 10)
  else Err "invalid hex in key"%string.

(** The loop over [chunks_exact(2)]. *)
Fixpoint hex_chunks (input : list ascii) : Result (list Z) string :=
  match input with
  | c0 :: c1 :: input =>
      let? h := hex_value c0 in
      let? l := hex_value c1 in
      let? out := hex_chunks input in
      Ok (Z.lor (Z.shiftl h 4) l :: out)
  | _ => Ok []
  end.

Definition hex_decode_exact (n : nat) (input : list ascii) : Result (list Z) string :=
  if negb (Nat.eqb (length input) (n * 2)) then Err "invalid key length"%string
  else hex_chunks input.

(** ** Node keys *)

Definition NODE_KEY_BYTES : nat := 32.
Definition NODE_KEY_PREFIX : string := "keryx-node-key-v1:".

Record NodeKey : Type := MkNodeKey { secret : list Z }.

(** The values of [[u8; 32]]. *)
Definition key_bytes (l : list Z) : Prop :=
  length l = NODE_KEY_BYTES /\ forall b, b ∈ l -> 0 <= b < 256.

Record NodeId : Type := MkNodeId { node_str : string }.

#[export] Instance NodeId_eq_dec : EqDecision NodeId.
Proof. solve_decision. Defined.
#[export] Instance NodeId_countable : Countable NodeId.
Proof. apply (inj_countable' node_str MkNodeId). by intros []. Defined.

Definition node_id (k : NodeKey) : NodeId :=
  MkNodeId ("node-" ++ of_bytes (hex_encode (take 16 (secret k)))).

Definition to_persisted_string (k : NodeKey) : string :=
  NODE_KEY_PREFIX ++ of_bytes (hex_encode (secret k)).

Definition from_persisted_str (input : string) : Result NodeKey string :=
  let trimmed := trim input in
  let hex := match strip_prefix NODE_KEY_PREFIX trimmed with Some h => h | None => trimmed end in
  let? bytes := hex_decode_exact NODE_KEY_BYTES (bytes_of hex) in
  Ok (MkNodeKey bytes).

(** [store] writes this text, [load] reads a text this way. *)
Definition stored_text (k : NodeKey) : string :=
  to_persisted_string k ++ String "010"%char "".
Definition load_text (raw : string) : Result NodeKey string := from_persisted_str (trim raw).

(** ** Identities *)

Inductive IdentityError : Type :=
| Empty (kind : string)
| InvalidCharacter (kind value : string)
| MalformedScopedAgent
| IdentityValidation (e : ValidationError).

Definition is_component_byte (c : ascii) : bool :=
  is_ascii_alphanumeric c || bool_decide (c = "-"%char) || bool_decide (c = "_"%char)
  || bool_decide (c = "."%char) || bool_decide (c = ":"%char).

Definition validate_component (kind value : string) : Result string IdentityError :=
  let trimmed := trim value in
  if bool_decide (trimmed = ""%string) then Err (Empty kind)
  else if forallb is_component_byte (bytes_of trimmed) then Ok trimmed
  else Err (InvalidCharacter kind trimmed).

Definition NodeId_new (value : string) : Result NodeId IdentityError :=
  result_map MkNodeId (validate_component "NodeId" value).

Record ScopedAgentIdentity : Type := MkScoped {
  scoped_node_id : NodeId;
  agent_id : AgentId;
}.

#[export] Instance ScopedAgentIdentity_eq_dec : EqDecision ScopedAgentIdentity.
Proof. solve_decision. Defined.
#[export] Instance ScopedAgentIdentity_countable : Countable ScopedAgentIdentity.
Proof.
  apply (inj_countable' (fun s => (scoped_node_id s, agent_id s)) (fun p => MkScoped p.1 p.2)).
  by intros [].
Defined.

Definition parse_scoped (value : string) : Result ScopedAgentIdentity IdentityError :=
  match split_once "/"%char (bytes_of value) with
  | None => Err MalformedScopedAgent
  | Some (node, agent) =>
      let? n := NodeId_new (of_bytes node) in
      let? a := map_err IdentityValidation (Id_new "AgentId" (of_bytes agent)) in
      Ok (MkScoped n a)
  end.

Definition scoped_to_string (s : ScopedAgentIdentity) : string :=
  node_str (scoped_node_id s) ++ "/" ++ as_str (agent_id s).

Definition is_under_node (s : ScopedAgentIdentity) (n : NodeId) : bool :=
  bool_decide (scoped_node_id s = n).

(** ** Token authentication *)

Inductive AuthError : Type := UnknownNode | InvalidToken | RevokedNode | MissingToken | WeakToken.

#[export] Instance AuthError_eq_dec : EqDecision AuthError.
Proof. solve_decision. Defined.

Record NodeToken : Type := MkToken { token_str : string }.

Definition NodeToken_new (value : string) : Result NodeToken AuthError :=
  let trimmed := trim value in
  if (Z.of_nat (String.length trimmed) <? 16) then Err WeakToken else Ok (MkToken trimmed).

(** The comparison loop: it looks at every position of the longer operand. *)
Definition constant_time_eq (left right : list Z) : bool :=
  let max_len := Nat.max (length left) (length right) in
  let diff := Z.lxor (Z.of_nat (length left)) (Z.of_nat (length right)) in
  let diff := fold_left (fun diff idx =>
                Z.lor diff (Z.lxor (nth idx left 0) (nth idx right 0))) (seq 0 max_len) diff in
  diff =? 0.

Record NodeTokenAuthenticator : Type := MkAuthenticator {
  tokens : gmap NodeId NodeToken;
  revoked : gset NodeId;
}.

Definition new_authenticator : NodeTokenAuthenticator := MkAuthenticator ∅ ∅.

Definition insert_token (n : NodeId) (t : NodeToken) (a : NodeTokenAuthenticator) :=
  MkAuthenticator (<[n := t]> (tokens a)) (revoked a ∖ {[n]}).

Definition revoke (n : NodeId) (a : NodeTokenAuthenticator) :=
  MkAuthenticator (tokens a) ({[n]} ∪ revoked a).

Inductive AuthDecision : Type := Allowed | Denied (e : AuthError).

Definition token_bytes (s : string) : list Z := byte_of <$> bytes_of s.

Definition authenticate (n : NodeId) (presented_token : string) (a : NodeTokenAuthenticator)
    : AuthDecision :=
  if bool_decide (n ∈ revoked a) then Denied RevokedNode
  else match tokens a !! n with
       | None => Denied UnknownNode
       | Some expected =>
           if constant_time_eq (token_bytes (token_str expected)) (token_bytes presented_token)
           then Allowed else Denied InvalidToken
       end.

(** ** Capability rules *)

Inductive CapabilityPermission : Type := Allow | Deny | ApprovalRequired.

Definition permission_as_str (p : CapabilityPermission) : string :=
  match p with
  | Allow => "allow" | Deny => "deny" | ApprovalRequired => "approval_required"
  end.

(** [replace([' ', '.'], "_")]. *)
Definition normalize_permission (value : string) : string :=
  of_bytes ((fun c => if bool_decide (c = " "%char) || bool_decide (c = "."%char) then "_"%char else c)
            <$> bytes_of (to_ascii_lowercase (trim value))).

Definition permission_from_str (value : string) : option CapabilityPermission :=
  let v := normalize_permission value in
  if bool_decide (v ∈ ["allow"; "allowed"]%string) then Some Allow
  else if bool_decide (v ∈ ["deny"; "denied"]%string) then Some Deny
  else if bool_decide (v ∈ ["approvalrequired"; "approval_required"; "approval-required";
                            "requireapproval"; "requiresapproval"]%string)
  then Some ApprovalRequired
  else None.

Record PolicySubject : Type := MkSubject {
  subject_node : NodeId;
  subject_agent : option ScopedAgentIdentity;
}.

Definition subject_of_node (n : NodeId) : PolicySubject := MkSubject n None.
Definition subject_of_agent (a : ScopedAgentIdentity) : PolicySubject :=
  MkSubject (scoped_node_id a) (Some a).

Record CapabilityPolicy : Type := MkPolicy {
  default_permission : CapabilityPermission;
  global_rules : gmap string CapabilityPermission;
  node_rules : gmap (NodeId * string) CapabilityPermission;
  agent_rules : gmap (ScopedAgentIdentity * string) CapabilityPermission;
}.

Definition new_policy (d : CapabilityPermission) : CapabilityPolicy := MkPolicy d ∅ ∅ ∅.

Definition set_global (capability : string) (permission : CapabilityPermission)
    (p : CapabilityPolicy) : CapabilityPolicy :=
  MkPolicy (default_permission p) (<[capability := permission]> (global_rules p)) (node_rules p)
    (agent_rules p).
Definition set_node (n : NodeId) (capability : string) (permission : CapabilityPermission)
    (p : CapabilityPolicy) : CapabilityPolicy :=
  MkPolicy (default_permission p) (global_rules p) (<[(n, capability) := permission]> (node_rules p))
    (agent_rules p).
Definition set_agent (a : ScopedAgentIdentity) (capability : string)
    (permission : CapabilityPermission) (p : CapabilityPolicy) : CapabilityPolicy :=
  MkPolicy (default_permission p) (global_rules p) (node_rules p)
    (<[(a, capability) := permission]> (agent_rules p)).

Inductive PolicyDecision : Type :=
| DecideAllow (capability : string)
| DecideDeny (capability reason : string)
| DecideApproval (capability reason : string).

Definition from_permission (p : CapabilityPermission) (capability : string) : PolicyDecision :=
  match p with
  | Allow => DecideAllow capability
  | Deny => DecideDeny capability "capability denied by policy"
  | ApprovalRequired => DecideApproval capability "operator approval required"
  end.

Definition is_allowed (d : PolicyDecision) : bool :=
  match d with DecideAllow _ => true | _ => false end.
Definition requires_approval (d : PolicyDecision) : bool :=
  match d with DecideApproval _ _ => true | _ => false end.

(** [Option::or_else]. *)
Definition or_else {A} (o : option A) (k : option A) : option A :=
  match o with Some a => Some a | None => k end.

Definition evaluate (p : CapabilityPolicy) (subject : PolicySubject) (capability : string)
    : PolicyDecision :=
  let permission :=
    default (default_permission p)
      (or_else (or_else (match subject_agent subject with
                         | Some agent => agent_rules p !! (agent, capability)
                         | None => None
                         end)
                        (node_rules p !! (subject_node subject, capability)))
               (global_rules p !! capability)) in
  from_permission permission capability.

(** ** Redaction *)

Definition is_secret_key (key : string) : bool :=
  let normalized := bytes_of (to_ascii_lowercase key) in
  existsb (fun needle => contains (bytes_of needle) normalized)
    ["secret"; "token"; "password"; "passwd"; "api_key"; "apikey"; "authorization"; "bearer";
     "private_key"; "node_key"; "node_token"; "credential"]%string.

Definition looks_like_bearer_token (value : list ascii) : bool :=
  bool_decide (to_ascii_lowercase (of_bytes value) = "bearer"%string)
  || match strip_prefix "Bearer" (of_bytes value) with
     | Some suffix => starts_with (bytes_of ".") (bytes_of suffix)
                      || starts_with (bytes_of "_") (bytes_of suffix)
     | None => false
     end.

Definition REDACTED : string := "[REDACTED]".

Definition is_separator (c : ascii) : bool := bool_decide (c = ","%char) || bool_decide (c = ";"%char).

Fixpoint skip_separators (l : list ascii) : list ascii :=
  match l with
  | c :: l' => if is_separator c then skip_separators l' else l
  | [] => []
  end.

(** [trim_matches]. *)
Definition trim_separators (l : list ascii) : list ascii :=
  rev (skip_separators (rev (skip_separators l))).

Definition redact_token (token : list ascii) : option (list ascii) :=
  let trimmed := trim_separators token in
  match slice_from token (length trimmed) with
  | None => None
  | Some suffix =>
      match (match split_once "="%char trimmed with
             | Some (key, _) => Some (key, "="%char)
             | None => match split_once ":"%char trimmed with
                       | Some (key, _) => Some (key, ":"%char)
                       | None => None
                       end
             end) with
      | None => Some (if looks_like_bearer_token trimmed then bytes_of REDACTED else token)
      | Some (key, sep) =>
          Some (if is_secret_key (of_bytes key) then key ++ sep :: bytes_of REDACTED ++ suffix
                else token)
      end
  end.

(** [split_whitespace]: the words between White_Space characters. *)
Definition end_word (word : list ascii) : list (list ascii) :=
  match word with [] => [] | _ => [rev word] end.

Fixpoint split_words (word : list ascii) (l : list ascii) : list (list ascii) :=
  match l with
  | [] => end_word word
  | c1 :: l1 =>
      if ws1 c1 then end_word word ++ split_words [] l1
      else match l1 with
           | c2 :: l2 =>
               if ws2 c1 c2 then end_word word ++ split_words [] l2
               else match l2 with
                    | c3 :: l3 =>
                        if ws3 c1 c2 c3 then end_word word ++ split_words [] l3
                        else split_words (c1 :: word) l1
                    | [] => split_words (c1 :: word) l1
                    end
           | [] => split_words (c1 :: word) l1
           end
  end.

Definition split_whitespace (l : list ascii) : list (list ascii) := split_words [] l.

(** [collect::<Vec<_>>().join(" ")]. *)
Fixpoint join_space (l : list (list ascii)) : list ascii :=
  match l with
  | [] => []
  | [w] => w
  | w :: l => w ++ " "%char :: join_space l
  end.

Fixpoint redact_all (l : list (list ascii)) : option (list (list ascii)) :=
  match l with
  | [] => Some []
  | w :: l => match redact_token w, redact_all l with
              | Some w', Some l' => Some (w' :: l')
              | _, _ => None
              end
  end.

Definition redact_secrets (input : string) : option string :=
  match redact_all (split_whitespace (bytes_of input)) with
  | Some words => Some (of_bytes (join_space words))
  | None => None
  end.

Definition redact_value (key value : string) : option string :=
  if is_secret_key key then Some REDACTED else redact_secrets value.

Definition redact_metadata (metadata : gmap string string) : option (gmap string string) :=
  map_fold (fun key value out =>
      match out, redact_value key value with
      | Some out, Some value => Some (<[key := value]> out)
      | _, _ => None
      end) (Some ∅) metadata.

(** ** Audit events *)

Inductive SecurityAuditEventType : Type :=
| NodeAuthentication | CapabilityDecision | AuditApprovalRequested | AuditApprovalGranted
| AuditApprovalDenied | SecretRedacted.

Record SecurityAuditEvent : Type := MkAudit {
  audit_event_type : SecurityAuditEventType;
  audit_node_id : option NodeId;
  audit_agent_id : option string;
  audit_capability : option string;
  audit_decision : string;
  audit_reason : string;
  audit_metadata : gmap string string;
}.

Definition auth_error_text (e : AuthError) : string :=
  match e with
  | UnknownNode => "unknown node"
  | InvalidToken => "invalid node token"
  | RevokedNode => "node is revoked"
  | MissingToken => "node token is required"
  | WeakToken => "node token must be at least 16 bytes"
  end.

Definition audit_policy_decision (subject : option PolicySubject) (capability : string)
    (decision : PolicyDecision) : option SecurityAuditEvent :=
  let '(label, reason) :=
    match decision with
    | DecideAllow _ => ("allow", "capability allowed")%string
    | DecideDeny _ reason => ("deny"%string, reason)
    | DecideApproval _ reason => ("approval_required"%string, reason)
    end in
  match redact_secrets reason with
  | Some reason =>
      Some (MkAudit CapabilityDecision (subject_node <$> subject)
              (match subject with Some s => scoped_to_string <$> subject_agent s | None => None end)
              (Some capability) label reason ∅)
  | None => None
  end.

Definition audit_auth_decision (n : option NodeId) (decision : AuthDecision)
    : option SecurityAuditEvent :=
  let '(label, reason) :=
    match decision with
    | Allowed => ("allow", "node token accepted")%string
    | Denied e => ("deny"%string, auth_error_text e)
    end in
  match redact_secrets reason with
  | Some reason => Some (MkAudit NodeAuthentication n None None label reason ∅)
  | None => None
  end.

Definition with_metadata (key value : string) (e : SecurityAuditEvent) : option SecurityAuditEvent :=
  match redact_value key value with
  | Some value =>
      Some (MkAudit (audit_event_type e) (audit_node_id e) (audit_agent_id e) (audit_capability e)
              (audit_decision e) (audit_reason e) (<[key := value]> (audit_metadata e)))
  | None => None
  end.

(** ** Node keys are read back *)

Lemma hex_digit_value n : 0 <= n < 16 -> hex_value (hex_digit n) = Ok n.
Proof.
  assert (Hall : Forall (fun n => hex_value (hex_digit n) = Ok n) (seqZ 0 16))
    by (apply (bool_decide_eq_true_1 _); vm_compute; reflexivity).
  intros Hn. rewrite Forall_forall in Hall. apply Hall, elem_of_seqZ. lia.
Qed.

Lemma hex_digit_allowed n : 0 <= n < 16 -> is_allowed_id_char (hex_digit n) = true.
Proof.
  assert (Hall : Forall (fun n => is_allowed_id_char (hex_digit n) = true) (seqZ 0 16))
    by (apply (bool_decide_eq_true_1 _); vm_compute; reflexivity).
  intros Hn. rewrite Forall_forall in Hall. apply Hall, elem_of_seqZ. lia.
Qed.

Lemma byte_nibbles b : 0 <= b < 256 ->
  0 <= Z.shiftr b 4 < 16 /\ 0 <= Z.land b 15 < 16
  /\ Z.lor (Z.shiftl (Z.shiftr b 4) 4) (Z.land b 15) = b.
Proof.
  assert (Hall : Forall (fun b => 0 <= Z.shiftr b 4 < 16 /\ 0 <= Z.land b 15 < 16
    /\ Z.lor (Z.shiftl (Z.shiftr b 4) 4) (Z.land b 15) = b) (seqZ 0 256))
    by (apply (bool_decide_eq_true_1 _); vm_compute; reflexivity).
  intros Hb. rewrite Forall_forall in Hall. apply Hall, elem_of_seqZ. lia.
Qed.

Lemma hex_encode_cons b bytes :
  hex_encode (b :: bytes) = hex_digit (Z.shiftr b 4) :: hex_digit (Z.land b 15) :: hex_encode bytes.
Proof. done. Qed.

Lemma hex_chunks_encode bytes :
  (forall b, b ∈ bytes -> 0 <= b < 256) -> hex_chunks (hex_encode bytes) = Ok bytes.
Proof.
  induction bytes as [|b bytes IH]; intros Hb; [done|]. rewrite hex_encode_cons. simpl.
  destruct (byte_nibbles b (Hb b ltac:(left))) as (H1 & H2 & H3).
  rewrite !hex_digit_value by done.
  rewrite IH by (intros x Hx; apply Hb; by right). by rewrite H3.
Qed.

Lemma hex_encode_length bytes : length (hex_encode bytes) = (length bytes * 2)%nat.
Proof. induction bytes as [|b bytes IH]; [done|]. rewrite hex_encode_cons. simpl. by rewrite IH. Qed.

Lemma hex_encode_allowed bytes :
  (forall b, b ∈ bytes -> 0 <= b < 256) -> forallb is_allowed_id_char (hex_encode bytes) = true.
Proof.
  induction bytes as [|b bytes IH]; intros Hb; [done|]. rewrite hex_encode_cons. simpl.
  destruct (byte_nibbles b (Hb b ltac:(left))) as (H1 & H2 & _).
  rewrite !hex_digit_allowed by done. apply IH. intros x Hx. apply Hb. by right.
Qed.

Lemma persisted_allowed k :
  key_bytes (secret k) -> forallb is_allowed_id_char (bytes_of (to_persisted_string k)) = true.
Proof.
  intros [_ Hb]. unfold to_persisted_string. rewrite bytes_of_app, forallb_app, bytes_of_of_bytes.
  by rewrite hex_encode_allowed.
Qed.

(** A node key survives its key file. For every 32-byte key, the text that
    [store] writes is read back by [load] as the same key, and so is the
    persisted text itself. *)
Theorem node_key_round_trip (k : NodeKey) :
  key_bytes (secret k) ->
  load_text (stored_text k) = Ok k /\ from_persisted_str (to_persisted_string k) = Ok k.
Proof.
  intros Hk. pose proof (persisted_allowed k Hk) as Ha. destruct Hk as [Hl Hb].
  assert (Hp : from_persisted_str (to_persisted_string k) = Ok k).
  { unfold from_persisted_str. rewrite trim_allowed by done. unfold to_persisted_string.
    rewrite strip_prefix_app. unfold hex_decode_exact. rewrite bytes_of_of_bytes, hex_encode_length, Hl.
    rewrite hex_chunks_encode by done. by destruct k. }
  split; [|done]. unfold load_text, stored_text. by rewrite trim_newline.
Qed.

Definition some_key : NodeKey := MkNodeKey (seqZ 100 32).

Lemma node_key_round_trip_witness : load_text (stored_text some_key) = Ok some_key.
Proof.
  apply (node_key_round_trip some_key). split; [reflexivity|].
  intros b Hb. apply elem_of_seqZ in Hb. lia.
Defined.

(** ** Authentication *)

Lemma fold_lor_zero (f : nat -> Z) l : forall d,
  fold_left (fun d i => Z.lor d (f i)) l d = 0 <-> d = 0 /\ forall i, i ∈ l -> f i = 0.
Proof.
  induction l as [|i l IH]; intros d; simpl.
  - split; [intros ->; split; [done|]; intros i Hi; by inversion Hi|by intros [-> _]].
  - rewrite IH, Z.lor_eq_0_iff. setoid_rewrite elem_of_cons. naive_solver.
Qed.

(** The loop of [constant_time_eq] decides equality. *)
Lemma constant_time_eq_spec l r : constant_time_eq l r = bool_decide (l = r).
Proof.
  apply eq_true_iff_eq. rewrite bool_decide_eq_true. unfold constant_time_eq. rewrite Z.eqb_eq.
  rewrite (fold_lor_zero (fun i => Z.lxor (nth i l 0) (nth i r 0))), Z.lxor_eq_0_iff.
  split; [|intros ->; split; [done|]; intros i _; apply Z.lxor_nilpotent].
  intros [Hlen Hnth]. apply (nth_ext _ _ 0 0); [lia|]. intros i Hi.
  apply Z.lxor_eq, Hnth, elem_of_seq. lia.
Qed.

#[export] Instance byte_of_inj : Inj (=) (=) byte_of.
Proof.
  intros a b. unfold byte_of. intros H%Nat2Z.inj.
  rewrite <- (ascii_nat_embedding a), <- (ascii_nat_embedding b). by rewrite H.
Qed.

Lemma token_bytes_inj s t : token_bytes s = token_bytes t -> s = t.
Proof.
  unfold token_bytes. intros H%(inj (fmap byte_of)).
  rewrite <- (of_bytes_bytes_of s), <- (of_bytes_bytes_of t). by rewrite H.
Qed.

Inductive AuthOp : Type := AllowNode (n : NodeId) (t : NodeToken) | RevokeNode (n : NodeId).

Definition auth_step (a : NodeTokenAuthenticator) (op : AuthOp) : NodeTokenAuthenticator :=
  match op with AllowNode n t => insert_token n t a | RevokeNode n => revoke n a end.

(** The last word on a node: its token, or its revocation. *)
Definition last_word (n : NodeId) (ops : list AuthOp) : option (option NodeToken) :=
  fold_left (fun acc op => match op with
                           | AllowNode m t => if decide (m = n) then Some (Some t) else acc
                           | RevokeNode m => if decide (m = n) then Some None else acc
                           end) ops None.

Lemma auth_run n ops : forall a acc,
  (match acc with
   | None => n ∉ revoked a /\ tokens a !! n = None
   | Some None => n ∈ revoked a
   | Some (Some t) => n ∉ revoked a /\ tokens a !! n = Some t
   end) ->
  let a' := fold_left auth_step ops a in
  match fold_left (fun acc op => match op with
                           | AllowNode m t => if decide (m = n) then Some (Some t) else acc
                           | RevokeNode m => if decide (m = n) then Some None else acc
                           end) ops acc with
  | None => n ∉ revoked a' /\ tokens a' !! n = None
  | Some None => n ∈ revoked a'
  | Some (Some t) => n ∉ revoked a' /\ tokens a' !! n = Some t
  end.
Proof.
  induction ops as [|op ops IH]; intros a acc Hacc; [exact Hacc|]. simpl. apply IH.
  destruct op as [m t|m]; simpl; case_decide as Hm; subst.
  - split; [set_solver|]. by rewrite lookup_insert_eq.
  - destruct acc as [[t'|]|]; simpl in *; rewrite ?lookup_insert_ne by done; set_solver.
  - set_solver.
  - destruct acc as [[t'|]|]; set_solver.
Qed.

(** A token authenticates a node exactly when it is, byte for byte, the
    token last issued to the node and the node was not revoked since. The
    comparison looks at every byte of the longer token; unknown, revoked and
    mistaken nodes are told apart. *)
Theorem authentication_follows_the_last_word (ops : list AuthOp) (n : NodeId) (presented : string) :
  authenticate n presented (fold_left auth_step ops new_authenticator)
  = match last_word n ops with
    | None => Denied UnknownNode
    | Some None => Denied RevokedNode
    | Some (Some t) => if bool_decide (token_str t = presented) then Allowed else Denied InvalidToken
    end.
Proof.
  assert (H0 : n ∉ revoked new_authenticator /\ tokens new_authenticator !! n = None) by set_solver.
  pose proof (auth_run n ops new_authenticator None H0) as H. unfold authenticate, last_word.
  destruct (fold_left _ ops None) as [[t|]|].
  - destruct H as [Hr Ht]. rewrite bool_decide_false by done. rewrite Ht, constant_time_eq_spec.
    destruct (bool_decide_reflect (token_str t = presented)) as [->|Hne];
      [by rewrite bool_decide_true|]. rewrite bool_decide_false; [done|].
    by intros ?%token_bytes_inj.
  - by rewrite bool_decide_true.
  - destruct H as [Hr Ht]. rewrite bool_decide_false by done. by rewrite Ht.
Qed.

(** ** Capability rules *)

Inductive PolicyOp : Type :=
| SetGlobal (capability : string) (p : CapabilityPermission)
| SetNode (n : NodeId) (capability : string) (p : CapabilityPermission)
| SetAgent (a : ScopedAgentIdentity) (capability : string) (p : CapabilityPermission).

Definition policy_step (p : CapabilityPolicy) (op : PolicyOp) : CapabilityPolicy :=
  match op with
  | SetGlobal c q => set_global c q p
  | SetNode n c q => set_node n c q p
  | SetAgent a c q => set_agent a c q p
  end.

(** The permission of the last operation that [select] accepts. *)
Definition last_rule (select : PolicyOp -> option CapabilityPermission) (ops : list PolicyOp)
    : option CapabilityPermission :=
  fold_left (fun acc op => or_else (select op) acc) ops None.

Definition for_global (c : string) (op : PolicyOp) : option CapabilityPermission :=
  match op with SetGlobal c' q => if decide (c' = c) then Some q else None | _ => None end.
Definition for_node (n : NodeId) (c : string) (op : PolicyOp) : option CapabilityPermission :=
  match op with SetNode n' c' q => if decide ((n', c') = (n, c)) then Some q else None | _ => None end.
Definition for_agent (a : ScopedAgentIdentity) (c : string) (op : PolicyOp)
    : option CapabilityPermission :=
  match op with SetAgent a' c' q => if decide ((a', c') = (a, c)) then Some q else None | _ => None end.

Lemma lookup_fold_rules {K} `{Countable K} (field : CapabilityPolicy -> gmap K CapabilityPermission)
    (select : PolicyOp -> option CapabilityPermission) (k : K) :
  (forall p op, field (policy_step p op) !! k = or_else (select op) (field p !! k)) ->
  forall ops p, field (fold_left policy_step ops p) !! k
    = fold_left (fun acc op => or_else (select op) acc) ops (field p !! k).
Proof.
  intros Hstep ops. induction ops as [|op ops IH]; intros p; [done|]. simpl. by rewrite IH, Hstep.
Qed.

Lemma default_stays ops : forall p,
  default_permission (fold_left policy_step ops p) = default_permission p.
Proof. induction ops as [|op ops IH]; intros p; [done|]. simpl. rewrite IH. by destruct op. Qed.

(** The most specific rule decides. After any sequence of [set_*] calls the
    permission of a subject is the one last set for its agent, else for its
    node, else globally, else the default. *)
Theorem most_specific_rule_decides (d : CapabilityPermission) (ops : list PolicyOp)
    (subject : PolicySubject) (capability : string) :
  evaluate (fold_left policy_step ops (new_policy d)) subject capability
  = from_permission
      (match match subject_agent subject with
             | Some a => last_rule (for_agent a capability) ops
             | None => None
             end with
       | Some q => q
       | None => match last_rule (for_node (subject_node subject) capability) ops with
                 | Some q => q
                 | None => match last_rule (for_global capability) ops with
                           | Some q => q
                           | None => d
                           end
                 end
       end) capability.
Proof.
  unfold evaluate, last_rule.
  rewrite (lookup_fold_rules global_rules (for_global capability)), default_stays; cycle 1.
  { intros p [c q|n c q|a c q]; simpl; [|done..]. case_decide as Hc; simpl.
    - by rewrite Hc, lookup_insert_eq.
    - by rewrite lookup_insert_ne. }
  rewrite (lookup_fold_rules node_rules (for_node (subject_node subject) capability)); cycle 1.
  { intros p [c q|n c q|a c q]; simpl; [done| |done]. case_decide as Hc; simpl.
    - by rewrite Hc, lookup_insert_eq.
    - by rewrite lookup_insert_ne. }
  assert (Ha : forall a, agent_rules (fold_left policy_step ops (new_policy d)) !! (a, capability)
    = fold_left (fun acc op => or_else (for_agent a capability op) acc) ops None).
  { intros a. rewrite (lookup_fold_rules agent_rules (for_agent a capability)); [done|].
    intros p [c q|n c q|a' c q]; simpl; [done..|]. case_decide as Hc; simpl.
    - by rewrite Hc, lookup_insert_eq.
    - by rewrite lookup_insert_ne. }
  simpl. rewrite lookup_empty, lookup_empty.
  destruct (subject_agent subject) as [a|]; simpl; rewrite ?Ha; [destruct (fold_left _ ops None); [done|]|];
    simpl; by do 2 (destruct (fold_left _ ops None); [done|]; simpl).
Qed.

(** ** Redaction *)

Lemma skip_separators_app p l :
  forallb is_separator p = true -> skip_separators (p ++ l) = skip_separators l.
Proof. induction p as [|c p IH]; [done|]. simpl. intros [-> Hp]%andb_true_iff. by apply IH. Qed.

Lemma skip_separators_head c l : is_separator c = false -> skip_separators (c :: l) = c :: l.
Proof. simpl. by intros ->. Qed.

(** The body of a word without its outer separators. *)
Lemma trim_separators_body p c body d q :
  forallb is_separator p = true -> forallb is_separator q = true ->
  is_separator c = false -> is_separator d = false ->
  trim_separators (p ++ (c :: body ++ [d]) ++ q) = c :: body ++ [d].
Proof.
  intros Hp Hq Hc Hd. unfold trim_separators.
  rewrite skip_separators_app by done. simpl app. rewrite skip_separators_head by done.
  rewrite app_comm_cons, rev_app_distr, skip_separators_app by by rewrite forallb_rev.
  rewrite app_comm_cons, rev_app_distr. simpl app at 1.
  rewrite skip_separators_head by done. simpl rev. rewrite rev_app_distr, rev_involutive. done.
Qed.

Lemma split_once_first c key l : c ∉ key -> split_once c (key ++ c :: l) = Some (key, l).
Proof.
  induction key as [|a key IH]; intros Hc; simpl; [by rewrite bool_decide_true|].
  apply not_elem_of_cons in Hc as [Hne Hc]. rewrite bool_decide_false by congruence.
  by rewrite IH.
Qed.

(** What redaction leaves of a secret assignment. For a word
    [key=value], with separators in front and behind, whose key is a secret
    key, the value is replaced; but a word with [n] separators in front keeps
    the last [n] bytes of the value visible, and redaction panics when they do
    not begin at a character. *)
Theorem redaction_of_a_secret_assignment (front back key value : list ascii) (k d : ascii) :
  forallb is_separator front = true -> forallb is_separator back = true ->
  is_separator k = false -> is_separator d = false -> "="%char ∉ (k :: key) ->
  is_secret_key (of_bytes (k :: key)) = true ->
  (length front <= length (value ++ [d]))%nat ->
  let visible := drop (length (value ++ [d]) - length front) (value ++ [d]) ++ back in
  redact_token (front ++ (k :: key ++ "="%char :: value ++ [d]) ++ back)
  = if is_char_boundary visible 0
    then Some (k :: key ++ "="%char :: bytes_of REDACTED ++ visible) else None.
Proof.
  intros Hf Hb Hk Hd Heq Hsecret Hlen visible. unfold redact_token.
  assert (Htrim : trim_separators (front ++ (k :: key ++ "="%char :: value ++ [d]) ++ back)
                  = k :: key ++ "="%char :: value ++ [d]).
  { pose proof (trim_separators_body front k (key ++ "="%char :: value) d back Hf Hb Hk Hd) as Ht.
    by rewrite <- app_assoc in Ht. }
  rewrite Htrim.
  assert (Hdrop : drop (length (k :: key ++ "="%char :: value ++ [d]))
                    (front ++ (k :: key ++ "="%char :: value ++ [d]) ++ back) = visible).
  { subst visible. set (v := value ++ [d]) in *.
    rewrite app_assoc, (drop_app_le (front ++ k :: key ++ "="%char :: v) back)
      by (rewrite length_app; simpl; lia).
    f_equal. rewrite drop_app_ge by (simpl; rewrite length_app; simpl; lia).
    replace (k :: key ++ "="%char :: v) with ((k :: key ++ ["="%char]) ++ v)
      by (simpl; by rewrite <- app_assoc).
    rewrite drop_app_ge by (rewrite !length_app; simpl; rewrite length_app; simpl; lia).
    f_equal. rewrite !length_app. simpl. rewrite length_app. simpl. lia. }
  assert (Hslice : slice_from (front ++ (k :: key ++ "="%char :: value ++ [d]) ++ back)
                     (length (k :: key ++ "="%char :: value ++ [d]))
                   = if is_char_boundary visible 0 then Some visible else None).
  { unfold slice_from, is_char_boundary at 1. rewrite Hdrop. unfold is_char_boundary. rewrite drop_0.
    destruct visible as [|c l]; [|done].
    apply (f_equal length) in Hdrop. rewrite length_drop in Hdrop. change (length (A := ascii) []) with 0%nat in Hdrop.
    rewrite (proj2 (Nat.eqb_eq _ _)); [done|]. rewrite !length_app in *. simpl in *.
    rewrite !length_app in *. simpl in *. lia. }
  rewrite Hslice. destruct (is_char_boundary visible 0); [|done].
  change (k :: key ++ "="%char :: value ++ [d]) with ((k :: key) ++ "="%char :: (value ++ [d])).
  rewrite split_once_first by done. by rewrite Hsecret.
Qed.

Lemma redaction_of_a_secret_assignment_witness :
  redact_token (bytes_of ",token=hunter2") = Some (bytes_of "token=[REDACTED]2").
Proof.
  exact (redaction_of_a_secret_assignment (bytes_of ",") [] (bytes_of "oken") (bytes_of "hunter")
    "t"%char "2"%char eq_refl eq_refl eq_refl eq_refl
    (bool_decide_eq_true_1 ("="%char ∉ bytes_of "token") eq_refl) eq_refl
    (bool_decide_eq_true_1 (1 <= 7)%nat eq_refl)).
Defined.

(** The credential after [Bearer] stays visible. *)
Lemma bearer_credential_stays_visible :
  redact_secrets "Authorization: Bearer abc123" = Some "Authorization:[REDACTED] [REDACTED] abc123"%string.
Proof. reflexivity. Qed.

(** Redaction panics on a separator followed by a two-byte character. *)
Lemma redaction_panics : redact_secrets (of_bytes ["044"%char; "195"%char; "169"%char]) = None.
Proof. reflexivity. Qed.

(** ** Identities *)

Lemma component_no_slash n : forallb is_component_byte n = true -> "/"%char ∉ n.
Proof.
  intros Hn Hin%list_elem_of_In. pose proof (proj1 (forallb_forall _ _) Hn _ Hin) as H.
  vm_compute in H. done.
Qed.

(** A scoped agent identity survives its text form. *)
Lemma scoped_identity_round_trip (s : ScopedAgentIdentity) :
  NodeId_new (node_str (scoped_node_id s)) = Ok (scoped_node_id s) ->
  parse_scoped (scoped_to_string s) = Ok s.
Proof.
  intros Hn. unfold parse_scoped, scoped_to_string. rewrite !bytes_of_app.
  assert (Hslash : "/"%char ∉ bytes_of (node_str (scoped_node_id s))).
  { unfold NodeId_new, validate_component in Hn. destruct (bool_decide _); [done|].
    destruct (forallb is_component_byte (bytes_of (trim _))) eqn:Hf; [|done].
    simpl in Hn. injection Hn as Hs. apply component_no_slash. by rewrite <- Hs. }
  change (bytes_of "/" ++ bytes_of (as_str (agent_id s))) with ("/"%char :: bytes_of (as_str (agent_id s))).
  rewrite split_once_first by done. rewrite !of_bytes_bytes_of, Hn, Id_new_as_str.
  simpl. by destruct s.
Qed.

Lemma permission_round_trip p : permission_from_str (permission_as_str p) = Some p.
Proof. by destruct p. Qed.
