(* ===== verification/Security.v ===== *)
(** * Relay security settings (crates/keryx-relay/src/security.rs)

    The peer allowlist and the node-token table of the relay. TOML parsing,
    the libp2p peer ids and their keys belong to libraries: a configuration
    file is what its parser made of it, peer ids and the derivation of one
    from a public key are parameters. The node-token table sits behind a lock
    that every method takes once. *)
From S2P Require Import Prelude Ident Text Policy.
From stdpp Require Import options.
From Stdlib Require Import Ascii.

Abbreviation NodeId := (Id "NodeId").

(** What reading and parsing a configuration file gave. *)
Inductive SourceFile (A : Type) : Type :=
| FileMissing
| FileUnreadable
| FileMalformed
| FileParsed (content : A).
Arguments FileMissing {A}.
Arguments FileUnreadable {A}.
Arguments FileMalformed {A}.
Arguments FileParsed {A} content.

Inductive LoadError : Type :=
| ReadFailed
| ParseFailed
| InvalidPeer (value : string)
| InvalidBase64
| KeyLength (found : nat)
| InvalidKeyBytes
| EntryWithoutPeer
| InvalidNode (value : string)
| WeakNodeToken (node_id : NodeId)
| InvalidRevokedNode (value : string).

(** ** Allowlist *)

Inductive EmptyAllowlistPolicy : Type := PolicyDeny | PolicyAllow.
Inductive EnforcementMode : Type := AllowAll | DenyAll | AllowSet.

#[export] Instance EmptyAllowlistPolicy_eq_dec : EqDecision EmptyAllowlistPolicy.
Proof. solve_decision. Defined.

Record AllowlistEntry : Type := MkEntry {
  entry_peer_id : option string;
  entry_ed25519_public_key_b64 : option string;
}.

Section allowlist.
(** libp2p's peer ids, their text form, and the peer id of an Ed25519 key;
    base64 decoding. *)
Context {Peer : Type} `{Countable Peer}.
Context (parse_peer : string -> option Peer) (peer_of_key : list Z -> option Peer)
  (base64_decode : string -> option (list Z)).

Record Allowlist : Type := MkAllowlist {
  allowed_peers : gset Peer;
  empty_policy : EmptyAllowlistPolicy;
}.

Definition enforcement_mode (a : Allowlist) : EnforcementMode :=
  if bool_decide (empty_policy a = PolicyAllow) && bool_decide (allowed_peers a = ∅) then AllowAll
  else if bool_decide (allowed_peers a = ∅) then DenyAll else AllowSet.

Definition is_peer_allowed (p : Peer) (a : Allowlist) : bool :=
  match enforcement_mode a with
  | AllowAll => true
  | DenyAll => false
  | AllowSet => bool_decide (p ∈ allowed_peers a)
  end.

Definition base64_decode_32 (input : string) : Result (list Z) LoadError :=
  let? bytes := ok_or (base64_decode (trim input)) InvalidBase64 in
  if negb (Nat.eqb (length bytes) 32) then Err (KeyLength (length bytes)) else Ok bytes.

Definition entry_peer (e : AllowlistEntry) : Result Peer LoadError :=
  match entry_peer_id e with
  | Some peer_id => ok_or (parse_peer peer_id) (InvalidPeer peer_id)
  | None =>
      match entry_ed25519_public_key_b64 e with
      | Some key_b64 =>
          let? bytes := base64_decode_32 key_b64 in
          ok_or (peer_of_key bytes) InvalidKeyBytes
      | None => Err EntryWithoutPeer
      end
  end.

Definition load_allowlist_file (file : SourceFile (list AllowlistEntry))
    (policy : EmptyAllowlistPolicy) : Result Allowlist LoadError :=
  match file with
  | FileMissing => Ok (MkAllowlist ∅ policy)
  | FileUnreadable => Err ReadFailed
  | FileMalformed => Err ParseFailed
  | FileParsed entries =>
      let? peers := try_map entry_peer entries in
      Ok (MkAllowlist (list_to_set peers) policy)
  end.

(** [RelayTomlConfig::load_allowlist]: no path, no peers. *)
Definition load_allowlist (path : option (SourceFile (list AllowlistEntry)))
    (policy : EmptyAllowlistPolicy) : Result Allowlist LoadError :=
  match path with
  | None => Ok (MkAllowlist ∅ policy)
  | Some file => load_allowlist_file file policy
  end.

(** [reload]: the error leaves the list as it was. *)
Definition reload_allowlist (file : SourceFile (list AllowlistEntry)) (a : Allowlist)
    : Result unit LoadError * Allowlist :=
  match load_allowlist_file file (empty_policy a) with
  | Ok fresh => (Ok tt, MkAllowlist (allowed_peers fresh) (empty_policy a))
  | Err e => (Err e, a)
  end.
End allowlist.
Arguments Allowlist Peer {_ _}.

(** ** Node tokens *)

Record NodeTokenAuth : Type := MkNodeTokenAuth {
  auth_tokens : gmap NodeId string;
  revoked_nodes : gset NodeId;
}.

(** [NodeTokenAuth::default()]. *)
Definition no_tokens : NodeTokenAuth := MkNodeTokenAuth ∅ ∅.

Inductive NodeAuthFailure : Type :=
| FailUnknownNode (node_id : string)
| FailMissingToken (node_id : string)
| FailInvalidToken (node_id : string)
| FailRevokedNode (node_id : string).

Definition failure_node_id (f : NodeAuthFailure) : string :=
  match f with
  | FailUnknownNode n | FailMissingToken n | FailInvalidToken n | FailRevokedNode n => n
  end.

Definition failure_reason (f : NodeAuthFailure) : string :=
  match f with
  | FailUnknownNode _ => "unknown_node"
  | FailMissingToken _ => "missing_token"
  | FailInvalidToken _ => "invalid_token"
  | FailRevokedNode _ => "revoked_node"
  end.

Definition is_configured (a : NodeTokenAuth) : bool := negb (bool_decide (auth_tokens a = ∅)).
Definition is_revoked (n : NodeId) (a : NodeTokenAuth) : bool := bool_decide (n ∈ revoked_nodes a).

(** The relay's own copy of the comparison loop. *)
Definition relay_constant_time_eq (left right : list Z) : bool :=
  let max_len := Nat.max (length left) (length right) in
  let diff := Z.lxor (Z.of_nat (length left)) (Z.of_nat (length right)) in
  let diff := fold_left (fun diff index =>
                Z.lor diff (Z.lxor (nth index left 0) (nth index right 0))) (seq 0 max_len) diff in
  diff =? 0.

Definition authenticate_optional (node_id : NodeId) (presented_token : option string)
    (a : NodeTokenAuth) : Result NodeId NodeAuthFailure :=
  if bool_decide (node_id ∈ revoked_nodes a) then Err (FailRevokedNode (as_str node_id))
  else
    match auth_tokens a !! node_id with
    | None => Err (FailUnknownNode (as_str node_id))
    | Some expected =>
        match presented_token with
        | None => Err (FailMissingToken (as_str node_id))
        | Some presented_token =>
            if relay_constant_time_eq (token_bytes expected) (token_bytes presented_token)
            then Ok node_id else Err (FailInvalidToken (as_str node_id))
        end
    end.

Definition authenticate_node (node_id : NodeId) (presented_token : string)
    : NodeTokenAuth -> Result NodeId NodeAuthFailure :=
  authenticate_optional node_id (Some presented_token).

Record NodeTokenEntry : Type := MkTokenEntry {
  token_node_id : string;
  entry_token : string;
}.

Record NodeTokenFile : Type := MkTokenFile {
  file_tokens : list NodeTokenEntry;
  file_revoked_nodes : list string;
}.

(** One entry of the table: its node and trimmed token. *)
Definition token_of_entry (e : NodeTokenEntry) : Result (NodeId * string) LoadError :=
  match Id_new "NodeId" (token_node_id e) with
  | Err _ => Err (InvalidNode (token_node_id e))
  | Ok node_id =>
      if Z.of_nat (String.length (trim (entry_token e))) <? 16 then Err (WeakNodeToken node_id)
      else Ok (node_id, trim (entry_token e))
  end.

Definition revoked_of_text (value : string) : Result NodeId LoadError :=
  match Id_new "NodeId" value with
  | Err _ => Err (InvalidRevokedNode value)
  | Ok node_id => Ok node_id
  end.

(** The table built by inserting the entries one after the other. *)
Definition insert_all (l : list (NodeId * string)) (m : gmap NodeId string) : gmap NodeId string :=
  fold_left (fun m e => <[e.1 := e.2]> m) l m.

Definition from_entries (entries : list NodeTokenEntry) (revoked : list string)
    : Result NodeTokenAuth LoadError :=
  let? tokens := try_map token_of_entry entries in
  let? revoked := try_map revoked_of_text revoked in
  Ok (MkNodeTokenAuth (insert_all tokens ∅) (list_to_set revoked)).

Definition load_token_file (file : SourceFile NodeTokenFile) : Result NodeTokenAuth LoadError :=
  match file with
  | FileMissing | FileUnreadable => Err ReadFailed
  | FileMalformed => Err ParseFailed
  | FileParsed f => from_entries (file_tokens f) (file_revoked_nodes f)
  end.

(** [HashMap::extend], [HashSet::extend]. *)
Definition extend_auth (a additional : NodeTokenAuth) : NodeTokenAuth :=
  MkNodeTokenAuth (auth_tokens additional ∪ auth_tokens a)
    (revoked_nodes a ∪ revoked_nodes additional).

Definition load_node_token_auth (path : option (SourceFile NodeTokenFile))
    (node_tokens : list NodeTokenEntry) (revoked : list string) : Result NodeTokenAuth LoadError :=
  let? auth := match path with Some file => load_token_file file | None => Ok no_tokens end in
  let? inline := from_entries node_tokens revoked in
  Ok (extend_auth auth inline).

(** [reload_from_path]. *)
Definition reload_from_path (file : SourceFile NodeTokenFile) (current : NodeTokenAuth)
    : Result unit LoadError * NodeTokenAuth :=
  match load_token_file file with
  | Ok replacement => (Ok tt, replacement)
  | Err e => (Err e, current)
  end.

Definition reload_node_token_auth (path : option (SourceFile NodeTokenFile))
    (node_tokens : list NodeTokenEntry) (revoked : list string) (current : NodeTokenAuth)
    : Result unit LoadError * NodeTokenAuth :=
  match load_node_token_auth path node_tokens revoked with
  | Ok replacement => (Ok tt, replacement)
  | Err e => (Err e, current)
  end.

(** ** Lemmas *)

Lemma relay_constant_time_eq_spec l r : relay_constant_time_eq l r = bool_decide (l = r).
Proof. exact (constant_time_eq_spec l r). Qed.

Lemma insert_all_lookup l : forall m n,
  insert_all l m !! n = fold_left (fun acc e => if decide (e.1 = n) then Some e.2 else acc) l (m !! n).
Proof.
  induction l as [|[k t] l IH]; intros m n; [done|]. simpl. rewrite IH. f_equal. simpl.
  case_decide as Hk; [subst; apply lookup_insert_eq|by apply lookup_insert_ne].
Qed.

(** The token of the last entry that names the node. *)
Definition last_token (n : NodeId) (entries : list NodeTokenEntry) (o : option string) : option string :=
  fold_left (fun acc e => if decide (trim (token_node_id e) = as_str n)
                          then Some (trim (entry_token e)) else acc) entries o.

Lemma entry_ok e n t : token_of_entry e = Ok (n, t) ->
  as_str n = trim (token_node_id e) /\ t = trim (entry_token e) /\ 16 <= Z.of_nat (String.length t).
Proof.
  unfold token_of_entry. destruct (Id_new "NodeId" (token_node_id e)) as [i|] eqn:Hi; [|done].
  destruct (Z.ltb_spec (Z.of_nat (String.length (trim (entry_token e)))) 16); [done|].
  intros [= <- <-]. by apply Id_new_ok in Hi.
Qed.

Lemma last_token_entries n entries l o :
  Forall2 (fun e p => token_of_entry e = Ok p) entries l ->
  fold_left (fun acc (p : NodeId * string) => if decide (p.1 = n) then Some p.2 else acc) l o
  = last_token n entries o.
Proof.
  intros Hl. revert o. induction Hl as [|e [m t] entries l He Hl IH]; intros o; [done|]. simpl.
  destruct (entry_ok _ _ _ He) as (Hm & -> & _). rewrite <- Hm.
  destruct (decide (m = n)) as [->|Hne].
  - rewrite decide_True by done. apply IH.
  - rewrite decide_False; [apply IH|]. by intros ?%as_str_inj.
Qed.

Lemma from_entries_ok entries revoked a :
  from_entries entries revoked = Ok a ->
  (forall n, auth_tokens a !! n = last_token n entries None)
  /\ (forall n, n ∈ revoked_nodes a <-> as_str n ∈ trim <$> revoked).
Proof.
  unfold from_entries. destruct (try_map token_of_entry entries) as [l|] eqn:Hl; [|done].
  destruct (try_map revoked_of_text revoked) as [rs|] eqn:Hr; [|done]. intros [= <-]. simpl.
  apply try_map_inv in Hl, Hr. split.
  - intros n. rewrite insert_all_lookup, lookup_empty. by apply last_token_entries.
  - intros n. rewrite elem_of_list_to_set. clear -Hr.
    induction Hr as [|v m revoked rs Hv _ IH]; [split; intros Hin; by inversion Hin|].
    rewrite fmap_cons, !elem_of_cons, IH. unfold revoked_of_text in Hv.
    destruct (Id_new "NodeId" v) as [i|] eqn:Hi; [|done]. injection Hv as ->. apply Id_new_ok in Hi.
    rewrite <- Hi. split; [intros [->|?]; auto|]. intros [?%as_str_inj|?]; auto.
Qed.

(** ** Theorems *)

Definition configured_tokens (path : option (SourceFile NodeTokenFile)) : list NodeTokenEntry :=
  match path with Some (FileParsed f) => file_tokens f | _ => [] end.
Definition configured_revoked (path : option (SourceFile NodeTokenFile)) : list string :=
  match path with Some (FileParsed f) => file_revoked_nodes f | _ => [] end.

(** A token reload is all or nothing, and a loaded table says what the
    configuration says. A failed reload leaves every node authenticating as
    before. After a successful one a node is refused as revoked exactly when
    the file or the inline settings revoke it; otherwise it needs the trimmed
    token of its last entry, an inline entry before one of the file. *)
Theorem token_reload_is_all_or_nothing (path : option (SourceFile NodeTokenFile))
    (inline : list NodeTokenEntry) (revoked : list string) (current : NodeTokenAuth) (n : NodeId)
    (presented : option string) :
  let (r, a) := reload_node_token_auth path inline revoked current in
  match r with
  | Err _ => a = current
  | Ok _ =>
      authenticate_optional n presented a
      = (if bool_decide (as_str n ∈ trim <$> (configured_revoked path ++ revoked))
         then Err (FailRevokedNode (as_str n))
         else match last_token n (configured_tokens path ++ inline) None with
              | None => Err (FailUnknownNode (as_str n))
              | Some token =>
                  match presented with
                  | None => Err (FailMissingToken (as_str n))
                  | Some t => if bool_decide (token = t) then Ok n
                              else Err (FailInvalidToken (as_str n))
                  end
              end)
  end.
Proof.
  unfold reload_node_token_auth.
  destruct (load_node_token_auth path inline revoked) as [a|] eqn:Hl; [|done].
  unfold load_node_token_auth in Hl.
  destruct (match path with Some file => load_token_file file | None => Ok no_tokens end)
    as [base|] eqn:Hb; [|done].
  destruct (from_entries inline revoked) as [extra|] eqn:He; [|done]. injection Hl as <-.
  destruct (from_entries_ok _ _ _ He) as [Het Her].
  assert (Hbase : (forall m, auth_tokens base !! m = last_token m (configured_tokens path) None)
    /\ (forall m, m ∈ revoked_nodes base <-> as_str m ∈ trim <$> configured_revoked path)).
  { destruct path as [[| | |f]|]; try done; [by apply from_entries_ok in Hb|]. injection Hb as <-.
    split; intros m; simpl; [apply lookup_empty|]. set_solver. }
  destruct Hbase as [Hbt Hbr]. unfold authenticate_optional. simpl.
  assert (Hrev : n ∈ revoked_nodes base ∪ revoked_nodes extra
                 <-> as_str n ∈ trim <$> (configured_revoked path ++ revoked)).
  { rewrite elem_of_union, Hbr, Her, fmap_app, elem_of_app. done. }
  rewrite (bool_decide_ext _ _ Hrev). destruct (bool_decide _); [done|].
  assert (Htok : (auth_tokens extra ∪ auth_tokens base) !! n
                 = last_token n (configured_tokens path ++ inline) None).
  { rewrite lookup_union, Het, Hbt. unfold last_token. rewrite fold_left_app.
    generalize (fold_left (fun acc e => if decide (trim (token_node_id e) = as_str n)
      then Some (trim (entry_token e)) else acc) (configured_tokens path) None) as o. clear.
    induction inline as [|e inline IH] using rev_ind; intros o; simpl; [by destruct o|].
    rewrite !fold_left_app. simpl. case_decide; [by destruct o|]. apply IH. }
  rewrite Htok. destruct (last_token _ _ _) as [token|]; [|done]. destruct presented as [t|]; [|done].
  rewrite relay_constant_time_eq_spec.
  destruct (bool_decide_reflect (token = t)) as [->|Hne]; [by rewrite bool_decide_true|].
  rewrite bool_decide_false; [done|]. by intros ?%token_bytes_inj.
Qed.

(** An allowlist admits a peer exactly when one of its entries stands for the
    peer, or when it is empty and the policy is to allow. *)
Lemma allowlist_admits {Peer} `{Countable Peer} (parse_peer : string -> option Peer)
    (peer_of_key : list Z -> option Peer) (base64_decode : string -> option (list Z))
    (entries : list AllowlistEntry) (policy : EmptyAllowlistPolicy) (a : Allowlist Peer) (p : Peer) :
  load_allowlist_file parse_peer peer_of_key base64_decode (FileParsed entries) policy = Ok a ->
  is_peer_allowed p a = true <->
  (entries = [] /\ policy = PolicyAllow)
  \/ exists e, e ∈ entries /\ entry_peer parse_peer peer_of_key base64_decode e = Ok p.
Proof.
  simpl. destruct (try_map _ entries) as [ps|] eqn:Hps; [|done]. intros [= <-].
  apply try_map_inv in Hps. unfold is_peer_allowed, enforcement_mode. simpl.
  assert (Hin : p ∈ ps <-> exists e, e ∈ entries
            /\ entry_peer parse_peer peer_of_key base64_decode e = Ok p).
  { clear -Hps. induction Hps as [|e q es ps He _ IH].
    - split; [intros Hi; by inversion Hi|]. intros (e & He & _). by inversion He.
    - rewrite elem_of_cons, IH. setoid_rewrite elem_of_cons. split.
      + intros [->|(e' & ? & ?)]; [by exists e; auto|by exists e'; auto].
      + intros (e' & [->|?] & He'); [left; congruence|right; by exists e']. }
  destruct ps as [|q ps].
  - apply Forall2_nil_inv_r in Hps as ->. simpl. rewrite !(bool_decide_true (∅ = ∅)) by done.
    destruct policy; simpl; split; try done; [|by left].
    intros [[_ ?]|(e & He & _)]; [done|by inversion He].
  - assert (Hne : list_to_set (C := gset Peer) (q :: ps) <> ∅) by set_solver.
    rewrite !(bool_decide_false (list_to_set (q :: ps) = ∅)) by done. rewrite andb_false_r.
    rewrite bool_decide_eq_true, elem_of_list_to_set, Hin. split; [by right|].
    intros [[-> _]|?]; [by inversion Hps|done].
Qed.
