(* ===== verification/Registry.v ===== *)
(** * The skill registry of the relay

    crates/keryx-relay/src/registry.rs and its gRPC surface
    registry_server.rs. The registry sits behind a lock; a method takes it for
    one or two critical sections, and each of them is a function of the state.
    Clock readings are arguments. A monotonic instant counts nanoseconds up to
    the platform's limit, past which [Instant + Duration] panics; a panic is
    an error of its own and leaves the state it found. Gossip payloads are
    recorded in [gossip], encoded by the parameter of the reader's choice. *)
From S2P Require Import Prelude Ident Text Policy Security.
From stdpp Require Import options.

(** ** Data *)

Record StoredSkill : Type := MkSkill {
  skill_id : string;
  skill_description : string;
  skill_tags : list string;
}.

Record Registration : Type := MkRegistration {
  reg_peer_id : PeerId;
  reg_skills : list StoredSkill;
  reg_name : string;
  reg_description : string;
  reg_protocol_features : list string;
  reg_expires_at : Z;
  reg_expires_at_unix_ms : Z;
  reg_updated_at_unix_ms : Z;
}.

Record GossipRegistration : Type := MkGossip {
  g_peer_id : string;
  g_skills : list StoredSkill;
  g_name : string;
  g_description : string;
  g_protocol_features : list string;
  g_expires_at_unix_ms : Z;
  g_updated_at_unix_ms : Z;
}.

Inductive RegistryGossipMessage : Type :=
| GossipUpsert (registration : GossipRegistration)
| GossipRemove (peer_id : string) (updated_at_unix_ms : Z)
| GossipSnapshot (registrations : list GossipRegistration).

(** [RegistryState], with the gossip sent. *)
Record RegistryState : Type := MkRegistry {
  nodes : gmap PeerId Registration;
  skill_index : gmap string (gset PeerId);
  gossip : list RegistryGossipMessage;
}.

Definition empty_registry : RegistryState := MkRegistry ∅ ∅ [].

(** One reading of both clocks. *)
Record Clock : Type := MkClock {
  instant : Z;
  unix_ms : Z;
}.

(** [Instant] holds seconds in an [i64]. *)
Definition INSTANT_MAX : Z := i64_max * 1000000000 + 999999999.

Inductive RegistryPanic : Type := InstantOverflow.

Abbreviation Reg := (ST RegistryState RegistryPanic).

Definition instant_add (t d : Z) : Result Z RegistryPanic :=
  if t + d <=? INSTANT_MAX then Ok (t + d) else Err InstantOverflow.

(** [Duration::from_secs], in nanoseconds. *)
Definition from_secs (s : Z) : Z := s * 1000000000.
Definition DEFAULT_REGISTRATION_TTL : Z := from_secs 300.

Definition millis_u64 (d : Z) : Z := Z.min (d / 1000000) u64_max.

(** ** The state under the lock *)

Definition drop_from_index (p : PeerId) (index : gmap string (gset PeerId)) : gmap string (gset PeerId) :=
  filter (fun kv => kv.2 <> ∅) ((fun peers => peers ∖ {[p]}) <$> index).

Definition remove_peer (p : PeerId) (s : RegistryState) : RegistryState :=
  match nodes s !! p with
  | Some _ => MkRegistry (delete p (nodes s)) (drop_from_index p (skill_index s)) (gossip s)
  | None => s
  end.

Definition index_skill (p : PeerId) (index : gmap string (gset PeerId)) (k : StoredSkill)
    : gmap string (gset PeerId) :=
  if bool_decide (trim (skill_id k) = ""%string) then index
  else partial_alter (fun o => Some ({[p]} ∪ default ∅ o)) (skill_id k) index.

Definition insert_registration (r : Registration) (s : RegistryState) : RegistryState :=
  let s := remove_peer (reg_peer_id r) s in
  MkRegistry (<[reg_peer_id r := r]> (nodes s))
    (fold_left (index_skill (reg_peer_id r)) (reg_skills r) (skill_index s)) (gossip s).

(** The expired peers of the sweep, and the sweep. *)
Definition expired_peers (now : Z) (s : RegistryState) : list PeerId :=
  (filter (fun pr => reg_expires_at pr.2 <= now) (map_to_list (nodes s))).*1.

Definition purge_expired_locked (now : Z) (s : RegistryState) : RegistryState :=
  fold_left (fun s p => remove_peer p s) (expired_peers now s) s.

Definition emit_gossip (m : RegistryGossipMessage) (s : RegistryState) : RegistryState :=
  MkRegistry (nodes s) (skill_index s) (gossip s ++ [m]).

Definition gossip_of (r : Registration) : GossipRegistration :=
  MkGossip (as_str (reg_peer_id r)) (reg_skills r) (reg_name r) (reg_description r)
    (reg_protocol_features r) (reg_expires_at_unix_ms r) (reg_updated_at_unix_ms r).

(** ** Operations *)

Section registry.
(** The configured lifetime of a registration. *)
Context (default_ttl : Z).

Definition ttl_or_default (ttl : option Z) : Z := default default_ttl ttl.

(** The sum of milliseconds wraps, as release builds do. *)
Definition registration_for (p : PeerId) (skills : list StoredSkill) (name description : string)
    (ttl : option Z) (t : Clock) : Result Registration RegistryPanic :=
  let ttl := ttl_or_default ttl in
  let now_ms := unix_ms t in
  let? expires_at := instant_add (instant t) ttl in
  Ok (MkRegistration p skills name description [] expires_at
        (as_u64 (now_ms + millis_u64 ttl)) now_ms).

Definition with_features (features : list string) (r : Registration) : Registration :=
  MkRegistration (reg_peer_id r) (reg_skills r) (reg_name r) (reg_description r) features
    (reg_expires_at r) (reg_expires_at_unix_ms r) (reg_updated_at_unix_ms r).

Definition upsert_registration (r : Registration) (t : Clock) : Reg unit :=
  modify (purge_expired_locked (instant t)) ;;;
  modify (insert_registration r) ;;;
  modify (emit_gossip (GossipUpsert (gossip_of r))).

(** [t1] stamps the registration, [t2] is read under the lock. *)
Definition register_with_features (p : PeerId) (skills : list StoredSkill)
    (name description : string) (features : list string) (ttl : option Z) (t1 t2 : Clock) : Reg unit :=
  let! r := lift (registration_for p skills name description ttl t1) in
  upsert_registration (with_features features r) t2.

Definition register (p : PeerId) (skills : list StoredSkill) (name description : string)
    (ttl : option Z) (t1 t2 : Clock) : Reg unit :=
  register_with_features p skills name description [] ttl t1 t2.

(** The registration refreshed by [upsert_node] and [add_skills]. *)
Definition keep_text (given existing : string) : string :=
  if negb (bool_decide (trim given = ""%string)) || bool_decide (existing = ""%string)
  then given else existing.

Definition refresh (name description : string) (ttl : option Z) (t : Clock) (r : Registration)
    : Result Registration RegistryPanic :=
  let ttl := ttl_or_default ttl in
  let? expires_at := instant_add (instant t) ttl in
  Ok (MkRegistration (reg_peer_id r) (reg_skills r) (keep_text name (reg_name r))
        (keep_text description (reg_description r)) (reg_protocol_features r) expires_at
        (as_u64 (unix_ms t + millis_u64 ttl)) (unix_ms t)).

(** The current registration of the peer, or a fresh one. *)
Definition current_or_new (p : PeerId) (ttl : option Z) (t : Clock) (s : RegistryState)
    : Result Registration RegistryPanic :=
  match nodes s !! p with
  | Some r => Ok r
  | None => registration_for p [] "" "" ttl t
  end.

Definition upsert_node (p : PeerId) (name description : string) (ttl : option Z)
    (t1 t2 t3 : Clock) : Reg unit :=
  modify (purge_expired_locked (instant t1)) ;;;
  let! s := get in
  let! r := lift (current_or_new p ttl t2 s) in
  let! r := lift (refresh name description ttl t3 r) in
  modify (insert_registration r) ;;;
  modify (emit_gossip (GossipUpsert (gossip_of r))).

Definition touch_node (p : PeerId) (ttl : option Z) (t1 t2 t3 : Clock) : Reg unit :=
  upsert_node p "" "" ttl t1 t2 t3.

(** Replace the first skill of the same id, or append. *)
Fixpoint put_skill (k : StoredSkill) (l : list StoredSkill) : list StoredSkill :=
  match l with
  | [] => [k]
  | c :: l => if bool_decide (skill_id c = skill_id k) then k :: l else c :: put_skill k l
  end.

Definition merge_skills (existing incoming : list StoredSkill) : list StoredSkill :=
  fold_left (fun existing k => if bool_decide (trim (skill_id k) = ""%string) then existing
                               else put_skill k existing) incoming existing.

Definition with_skills (skills : list StoredSkill) (r : Registration) : Registration :=
  MkRegistration (reg_peer_id r) skills (reg_name r) (reg_description r) (reg_protocol_features r)
    (reg_expires_at r) (reg_expires_at_unix_ms r) (reg_updated_at_unix_ms r).

Definition add_skills (p : PeerId) (skills : list StoredSkill) (name description : string)
    (ttl : option Z) (t1 t2 t3 : Clock) : Reg unit :=
  match skills with
  | [] => upsert_node p name description ttl t1 t2 t3
  | _ =>
      modify (purge_expired_locked (instant t1)) ;;;
      let! s := get in
      let! r := lift (current_or_new p ttl t2 s) in
      let! r := lift (refresh name description ttl t3 r) in
      let r := with_skills (merge_skills (reg_skills r) skills) r in
      modify (insert_registration r) ;;;
      modify (emit_gossip (GossipUpsert (gossip_of r)))
  end.

Definition purge_expired (t : Clock) : Reg unit := modify (purge_expired_locked (instant t)).

(** [get]: the sweep and the read are two critical sections. *)
Definition get_registration (p : PeerId) (t : Clock) : Reg (option Registration) :=
  purge_expired t ;;;
  let! s := get in ret (nodes s !! p).

Definition with_updated (ms : Z) (r : Registration) : Registration :=
  MkRegistration (reg_peer_id r) (reg_skills r) (reg_name r) (reg_description r)
    (reg_protocol_features r) (reg_expires_at r) (reg_expires_at_unix_ms r) ms.

(** The critical section of [unregister]: [None] when it returns [false] early,
    otherwise whether the peer was removed. *)
Definition unregister_locked (p : PeerId) (skill_ids : list string) (t1 t2 : Clock)
    : Reg (option bool) :=
  modify (purge_expired_locked (instant t1)) ;;;
  let! s := get in
  match skill_ids with
  | [] =>
      modify (remove_peer p) ;;;
      ret (Some (bool_decide (is_Some (nodes s !! p))))
  | _ =>
      match nodes s !! p with
      | None => ret None
      | Some r =>
          let skills := filter (fun k => skill_id k ∉ skill_ids) (reg_skills r) in
          match skills with
          | [] => modify (remove_peer p) ;;; ret (Some true)
          | _ =>
              modify (insert_registration (with_updated (unix_ms t2) (with_skills skills r))) ;;;
              ret (Some false)
          end
      end
  end.

Definition unregister (p : PeerId) (skill_ids : list string) (t1 t2 t3 : Clock) : Reg bool :=
  let! o := unregister_locked p skill_ids t1 t2 in
  match o with
  | None => ret false
  | Some true =>
      modify (emit_gossip (GossipRemove (as_str p) (unix_ms t3))) ;;; ret true
  | Some false =>
      let! r := get_registration p t3 in
      match r with
      | Some r => modify (emit_gossip (GossipUpsert (gossip_of r))) ;;; ret true
      | None => ret true
      end
  end.

(** ** Queries *)

Definition skill_matches (want : option string) (tags : list string) (k : StoredSkill) : bool :=
  (match want with
   | Some w => bool_decide (w = ""%string) || bool_decide (skill_id k = w)
   | None => true
   end)
  && (bool_decide (tags = [])
      || forallb (fun tag => existsb (fun t => bool_decide (t = tag)) (skill_tags k)) tags).

Definition registration_matches (r : Registration) (want : option string) (tags : list string)
    : bool := existsb (skill_matches want tags) (reg_skills r).

Definition peer_key (r : Registration) : string := as_str (reg_peer_id r).

(** The read of [discover]. *)
Definition discover_read (want : option string) (tags : list string) (limit : nat)
    (s : RegistryState) : list Registration :=
  let out :=
    match want with
    | Some w =>
        if bool_decide (w = ""%string)
        then filter (fun r => bool_decide (tags = []) || registration_matches r None tags = true)
               (map_to_list (nodes s)).*2
        else filter (fun r => registration_matches r (Some w) tags = true)
               (omap (fun p => nodes s !! p) (elements (default ∅ (skill_index s !! w))))
    | None => filter (fun r => bool_decide (tags = []) || registration_matches r None tags = true)
                (map_to_list (nodes s)).*2
    end in
  let sorted := sort_on String.le peer_key out in
  match limit with O => sorted | _ => take limit sorted end.

Definition discover (want : option string) (tags : list string) (limit : nat) (t : Clock)
    : Reg (list Registration) :=
  purge_expired t ;;;
  let! s := get in ret (discover_read want tags limit s).

Definition supports_protocol_feature (p : PeerId) (feature : string) (t : Clock) : Reg bool :=
  modify (purge_expired_locked (instant t)) ;;;
  let! s := get in
  ret (match nodes s !! p with
       | Some r => existsb (fun c => bool_decide (c = feature)) (reg_protocol_features r)
       | None => false
       end).

Definition protocol_features (p : PeerId) (t : Clock) : Reg (list string) :=
  purge_expired t ;;;
  let! s := get in ret (match nodes s !! p with Some r => reg_protocol_features r | None => [] end).

Definition registration_count (t : Clock) : Reg nat :=
  purge_expired t ;;;
  let! s := get in ret (size (nodes s)).

(** The snapshot lists the registrations in the order of the hash map. *)
Definition gossip_snapshot (t : Clock) : Reg RegistryGossipMessage :=
  purge_expired t ;;;
  let! s := get in ret (GossipSnapshot (gossip_of <$> (map_to_list (nodes s)).*2)).

(** [apply_gossip_bytes]: a decoded payload is ignored. *)
Definition apply_gossip (decoded : option RegistryGossipMessage) : Reg bool :=
  ret (match decoded with Some _ => true | None => false end).
End registry.

(** ** The gRPC surface *)

Inductive StatusCode : Type := Unauthenticated | InvalidArgument | PermissionDeniedCode.
Record Status : Type := MkStatus { status_code : StatusCode; status_message : string }.

(** The two metadata values of a request, as far as they are text. *)
Record RequestMetadata : Type := MkMetadata {
  md_node_id : option string;
  md_node_token : option string;
}.

Definition authenticate_mutation (node_auth : option NodeTokenAuth) (md : RequestMetadata)
    (claimed_peer_id : string) : Result PeerId Status :=
  match node_auth with
  | None => Err (MkStatus Unauthenticated "registry mutation requires node authentication")
  | Some auth =>
      let claimed_peer_id := trim claimed_peer_id in
      let? metadata_node_id :=
        ok_or (match trim <$> md_node_id md with
               | Some v => if bool_decide (v = ""%string) then None else Some v
               | None => None
               end) (MkStatus Unauthenticated "node id metadata is required") in
      let? node_id :=
        map_err (fun _ => MkStatus Unauthenticated "invalid node identity metadata")
          (Id_new "NodeId" metadata_node_id) in
      let? _ :=
        map_err (fun f => MkStatus Unauthenticated
                            ("node authentication failed: " ++ failure_reason f))
          (authenticate_optional node_id (md_node_token md) auth) in
      if bool_decide (claimed_peer_id = ""%string)
      then Err (MkStatus InvalidArgument "peer id is required")
      else if negb (bool_decide (metadata_node_id = claimed_peer_id))
      then Err (MkStatus PermissionDeniedCode
                  "claimed peer id does not match authenticated node metadata")
      else map_err (fun _ => MkStatus Unauthenticated "invalid node identity metadata")
             (Id_new "PeerId" metadata_node_id)
  end.

Record RegisterSkillsRequest : Type := MkRegisterRequest {
  rq_peer_id : string;
  rq_skills : list StoredSkill;
  rq_name : string;
  rq_description : string;
  rq_ttl_seconds : Z;
  rq_protocol_features : list string;
}.

(** The gauge is set when the server has metrics; counting sweeps. *)
Definition sync_registry_metric (metrics : bool) (t : Clock) : Reg (option nat) :=
  if metrics then (let! count := registration_count t in ret (Some count)) else ret None.

(** A mutation: the status is decided before the registry is touched; the
    answer [true] is the [accepted] field. *)
Definition register_skills (default_ttl : Z) (node_auth : option NodeTokenAuth) (md : RequestMetadata)
    (metrics : bool) (rq : RegisterSkillsRequest) (t1 t2 t4 : Clock) : Reg (Result bool Status) :=
  match authenticate_mutation node_auth md (rq_peer_id rq) with
  | Err status => ret (Err status)
  | Ok peer_id =>
      let ttl := if rq_ttl_seconds rq =? 0 then None else Some (from_secs (rq_ttl_seconds rq)) in
      register_with_features default_ttl peer_id (rq_skills rq) (rq_name rq) (rq_description rq)
        (rq_protocol_features rq) ttl t1 t2 ;;;
      let! _ := sync_registry_metric metrics t4 in
      ret (Ok true)
  end.

Definition unregister_skills (node_auth : option NodeTokenAuth) (md : RequestMetadata)
    (metrics : bool) (peer_id : string) (skill_ids : list string) (t1 t2 t3 t4 : Clock)
    : Reg (Result bool Status) :=
  match authenticate_mutation node_auth md peer_id with
  | Err status => ret (Err status)
  | Ok p =>
      unregister p skill_ids t1 t2 t3 ;;;
      let! _ := sync_registry_metric metrics t4 in
      ret (Ok true)
  end.

Definition discover_by_skill (wanted : string) (tags : list string) (limit : nat) (t : Clock)
    : Reg (list Registration) :=
  discover (if bool_decide (wanted = ""%string) then None else Some wanted) tags limit t.

(** The [expires_at] of a listed registration, at the clock [t]. *)
Definition proto_expires_ms (r : Registration) (t : Clock) : Z :=
  if instant t <=? reg_expires_at r
  then as_i64 (as_i64 (unix_ms t) + as_i64 ((reg_expires_at r - instant t) / 1000000)) else 0.

(** ** The index agrees with the registrations *)

(** The peers a skill id is indexed under. *)
Definition indexed (index : gmap string (gset PeerId)) (w : string) : gset PeerId :=
  default ∅ (index !! w).

Definition advertises (r : Registration) (w : string) : Prop :=
  trim w <> ""%string /\ w ∈ skill_id <$> reg_skills r.

Record registry_ok (s : RegistryState) : Prop := {
  rg_keys p r : nodes s !! p = Some r -> reg_peer_id r = p;
  rg_index w p : p ∈ indexed (skill_index s) w <->
    exists r, nodes s !! p = Some r /\ advertises r w;
  rg_nonempty w ps : skill_index s !! w = Some ps -> ps <> ∅;
}.

Lemma indexed_drop p index w : indexed (drop_from_index p index) w = indexed index w ∖ {[p]}.
Proof.
  unfold indexed, drop_from_index. rewrite map_lookup_filter, lookup_fmap.
  destruct (index !! w) as [ps|]; simpl; [|set_solver].
  destruct (decide (ps ∖ {[p]} = ∅)) as [He|Hne].
  - rewrite option_guard_False by (simpl; tauto). simpl. by rewrite He.
  - by rewrite option_guard_True by done.
Qed.

Lemma drop_nonempty p index w ps : drop_from_index p index !! w = Some ps -> ps <> ∅.
Proof. unfold drop_from_index. by intros [_ H]%map_lookup_filter_Some. Qed.

Lemma indexed_skill p index k w :
  indexed (index_skill p index k) w
  = if decide (w = skill_id k /\ trim w <> ""%string) then {[p]} ∪ indexed index w else indexed index w.
Proof.
  unfold index_skill, indexed. destruct (bool_decide_reflect (trim (skill_id k) = ""%string)) as [Hb|Hb].
  - rewrite decide_False; [done|]. by intros [-> ?].
  - destruct (decide (w = skill_id k)) as [->|Hne].
    + rewrite decide_True by done. by rewrite lookup_partial_alter_eq.
    + rewrite decide_False by tauto. by rewrite lookup_partial_alter_ne.
Qed.

Lemma indexed_skills p skills w : forall index,
  indexed (fold_left (index_skill p) skills index) w
  = if decide (w ∈ skill_id <$> skills /\ trim w <> ""%string) then {[p]} ∪ indexed index w
    else indexed index w.
Proof.
  induction skills as [|k skills IH]; intros index.
  - rewrite decide_False; [done|]. intros [Hin _]. by inversion Hin.
  - simpl fold_left. rewrite IH, indexed_skill. rewrite fmap_cons.
    destruct (decide (w ∈ skill_id <$> skills /\ trim w <> ""%string)) as [[Hin Ht]|Hn].
    + rewrite (decide_True _ (P := w ∈ _ :: _ /\ _)) by (split; [by right|done]).
      case_decide; set_solver.
    + destruct (decide (w = skill_id k /\ trim w <> ""%string)) as [[-> Ht]|Hk].
      * rewrite decide_True by (split; [left|done]). done.
      * rewrite decide_False; [done|]. rewrite elem_of_cons. naive_solver.
Qed.

Lemma index_skills_nonempty p skills w ps : forall index,
  (forall w ps, index !! w = Some ps -> ps <> ∅) ->
  fold_left (index_skill p) skills index !! w = Some ps -> ps <> ∅.
Proof.
  induction skills as [|k skills IH]; intros index Hi; [apply Hi|]. simpl. apply IH.
  intros w' ps'. unfold index_skill. destruct (bool_decide _); [apply Hi|].
  destruct (decide (w' = skill_id k)) as [->|Hne].
  - rewrite lookup_partial_alter_eq. intros [= <-]. set_solver.
  - rewrite lookup_partial_alter_ne by done. apply Hi.
Qed.

Lemma remove_peer_ok p s : registry_ok s -> registry_ok (remove_peer p s).
Proof.
  intros [H1 H2 H3]. unfold remove_peer. destruct (nodes s !! p) as [r|] eqn:Hp; [|done].
  split; simpl.
  - intros q r' [_ Hq]%lookup_delete_Some. by apply H1.
  - intros w q. rewrite indexed_drop, elem_of_difference, elem_of_singleton, H2.
    setoid_rewrite lookup_delete_Some. naive_solver.
  - intros w ps. apply drop_nonempty.
Qed.

Lemma remove_peer_lookup p s q :
  nodes (remove_peer p s) !! q = if decide (p = q) then None else nodes s !! q.
Proof.
  unfold remove_peer. destruct (nodes s !! p) as [r|] eqn:Hp; simpl.
  - case_decide as Hq; [subst; by rewrite lookup_delete_eq|by rewrite lookup_delete_ne].
  - case_decide as Hq; [by subst|done].
Qed.

Lemma insert_registration_lookup r s q :
  nodes (insert_registration r s) !! q
  = if decide (reg_peer_id r = q) then Some r else nodes s !! q.
Proof.
  unfold insert_registration. simpl. case_decide as Hq.
  - subst. by rewrite lookup_insert_eq.
  - rewrite lookup_insert_ne by done. rewrite remove_peer_lookup. by rewrite decide_False.
Qed.

Lemma insert_registration_ok r s : registry_ok s -> registry_ok (insert_registration r s).
Proof.
  intros Hs. pose proof (remove_peer_ok (reg_peer_id r) s Hs) as [H1 H2 H3]. split.
  - intros q r'. rewrite insert_registration_lookup. case_decide as Hq; [by intros [= <-]|].
    apply Hs.
  - intros w q. unfold insert_registration at 1. simpl. rewrite indexed_skills.
    setoid_rewrite insert_registration_lookup.
    assert (Hq : q ∈ indexed (skill_index (remove_peer (reg_peer_id r) s)) w <->
      reg_peer_id r <> q /\ exists r', nodes s !! q = Some r' /\ advertises r' w).
    { rewrite H2. setoid_rewrite remove_peer_lookup. case_decide as Hq; naive_solver. }
    destruct (decide (reg_peer_id r = q)) as [Hr|Hr].
    + case_decide as Hw.
      * split; [|set_solver]. intros _. exists r. unfold advertises. tauto.
      * rewrite Hq. split; [tauto|]. intros (r' & [= <-] & Ha). destruct Hw. unfold advertises in Ha. tauto.
    + case_decide as Hw; [rewrite elem_of_union, elem_of_singleton|]; rewrite Hq; naive_solver.
  - intros w ps. apply index_skills_nonempty. apply H3.
Qed.

Lemma purge_ok now s : registry_ok s -> registry_ok (purge_expired_locked now s).
Proof.
  unfold purge_expired_locked. generalize (expired_peers now s). intros l. revert s.
  induction l as [|p l IH]; intros s Hs; [done|]. apply IH. by apply remove_peer_ok.
Qed.

Lemma remove_all_lookup l q : forall s,
  nodes (fold_left (fun s p => remove_peer p s) l s) !! q
  = if decide (q ∈ l) then None else nodes s !! q.
Proof.
  induction l as [|p l IH]; intros s.
  - rewrite decide_False; [done|]. intros Hin. by inversion Hin.
  - simpl. rewrite IH, remove_peer_lookup.
    destruct (decide (q ∈ l)) as [Hin|Hn]; [by rewrite decide_True by by right|].
    destruct (decide (p = q)) as [->|Hne]; [by rewrite decide_True by left|].
    rewrite decide_False; [done|]. by intros [->|?]%elem_of_cons.
Qed.

Lemma elem_of_expired now s p :
  p ∈ expired_peers now s <-> exists r, nodes s !! p = Some r /\ reg_expires_at r <= now.
Proof.
  unfold expired_peers. rewrite list_elem_of_fmap. split.
  - intros ([q r] & -> & [He Hin]%list_elem_of_filter). apply elem_of_map_to_list in Hin. by exists r.
  - intros (r & Hp & He). exists (p, r). split; [done|]. apply list_elem_of_filter.
    split; [done|]. by apply elem_of_map_to_list.
Qed.

(** The sweep keeps exactly the registrations that expire later. *)
Lemma purge_lookup now s p r :
  nodes (purge_expired_locked now s) !! p = Some r <->
  nodes s !! p = Some r /\ now < reg_expires_at r.
Proof.
  unfold purge_expired_locked. rewrite remove_all_lookup. case_decide as Hin.
  - apply elem_of_expired in Hin as (r' & Hp & He). split; [done|]. intros [Hp' Hlt].
    assert (r' = r) as -> by congruence. lia.
  - split; [|tauto]. intros Hp. split; [done|].
    destruct (Z.lt_ge_cases now (reg_expires_at r)) as [|Hge]; [done|].
    destruct Hin. apply elem_of_expired. by exists r.
Qed.

(** ** Calls *)

Inductive RegistryOp : Type :=
| OpRegister (p : PeerId) (skills : list StoredSkill) (name description : string)
    (features : list string) (ttl : option Z) (t1 t2 : Clock)
| OpUpsertNode (p : PeerId) (name description : string) (ttl : option Z) (t1 t2 t3 : Clock)
| OpAddSkills (p : PeerId) (skills : list StoredSkill) (name description : string)
    (ttl : option Z) (t1 t2 t3 : Clock)
| OpUnregister (p : PeerId) (skill_ids : list string) (t1 t2 t3 : Clock)
| OpSweep (t : Clock).

(** The state after a call, a panicking one included; a query sweeps. *)
Definition registry_step (ttl0 : Z) (op : RegistryOp) (s : RegistryState) : RegistryState :=
  match op with
  | OpRegister p skills name description features ttl t1 t2 =>
      (register_with_features ttl0 p skills name description features ttl t1 t2 s).2
  | OpUpsertNode p name description ttl t1 t2 t3 =>
      (upsert_node ttl0 p name description ttl t1 t2 t3 s).2
  | OpAddSkills p skills name description ttl t1 t2 t3 =>
      (add_skills ttl0 p skills name description ttl t1 t2 t3 s).2
  | OpUnregister p skill_ids t1 t2 t3 => (unregister p skill_ids t1 t2 t3 s).2
  | OpSweep t => (purge_expired t s).2
  end.

Definition registry_run (ttl0 : Z) (ops : list RegistryOp) : RegistryState :=
  fold_left (fun s op => registry_step ttl0 op s) ops empty_registry.

Lemma emit_ok m s : registry_ok s -> registry_ok (emit_gossip m s).
Proof. by intros [H1 H2 H3]. Qed.

#[local] Hint Resolve purge_ok insert_registration_ok remove_peer_ok emit_ok : core.

Lemma upsert_node_ok ttl0 p name description ttl t1 t2 t3 s :
  registry_ok s -> registry_ok (upsert_node ttl0 p name description ttl t1 t2 t3 s).2.
Proof.
  intros Hs. unfold upsert_node, bind, modify, get, lift.
  destruct (current_or_new _ _ _ _ _) as [r|]; simpl; [|auto].
  destruct (refresh _ _ _ _ _ r) as [r'|]; simpl; auto.
Qed.

Lemma get_registration_state p t s : (get_registration p t s).2 = purge_expired_locked (instant t) s.
Proof. done. Qed.

Lemma unregister_ok p ids t1 t2 t3 s : registry_ok s -> registry_ok (unregister p ids t1 t2 t3 s).2.
Proof.
  intros Hs. unfold unregister, unregister_locked, bind, modify, get, ret, get_registration, purge_expired.
  pose proof (purge_ok (instant t1) s Hs) as Hp. set (s1 := purge_expired_locked (instant t1) s) in *.
  unfold bind, modify. simpl. fold s1. destruct ids as [|id ids]; simpl.
  - destruct (bool_decide _); simpl; [auto|].
    destruct (nodes _ !! p); simpl; auto.
  - destruct (nodes s1 !! p) as [r|]; simpl; [|done].
    destruct (filter _ _) as [|k l]; simpl; [auto|].
    destruct (_ !! p); simpl; auto 7.
Qed.

Lemma registry_step_ok ttl0 op s : registry_ok s -> registry_ok (registry_step ttl0 op s).
Proof.
  intros Hs. destruct op as [p skills name description features ttl t1 t2|
    p name description ttl t1 t2 t3|p skills name description ttl t1 t2 t3|p ids t1 t2 t3|t]; simpl.
  - unfold register_with_features, upsert_registration, bind, modify, lift.
    destruct (registration_for _ _ _ _ _ _ _) as [r|]; simpl; auto.
  - by apply upsert_node_ok.
  - unfold add_skills. destruct skills as [|k skills]; [by apply upsert_node_ok|].
    unfold bind, modify, get, lift.
    destruct (current_or_new _ _ _ _ _) as [r|]; simpl; [|auto].
    destruct (refresh _ _ _ _ _ r) as [r'|]; simpl; auto.
  - by apply unregister_ok.
  - by apply purge_ok.
Qed.

Lemma empty_registry_ok : registry_ok empty_registry.
Proof.
  split; simpl.
  - intros p r. by rewrite lookup_empty.
  - intros w p. unfold indexed. rewrite lookup_empty. simpl. split; [set_solver|]. intros (r & Hr & _). by rewrite lookup_empty in Hr.
  - intros w ps. by rewrite lookup_empty.
Qed.

Lemma registry_run_ok ttl0 ops : registry_ok (registry_run ttl0 ops).
Proof.
  unfold registry_run. generalize empty_registry, empty_registry_ok.
  induction ops as [|op ops IH]; intros s Hs; [done|]. apply IH. by apply registry_step_ok.
Qed.

(** In every state the registry reaches, panicking calls included, every
    registration is stored under its own peer, the index lists a peer under a
    skill id exactly when its registration advertises that id, blank ids
    aside, and no empty index entry is kept. *)
Theorem skill_index_is_exact (ttl0 : Z) (ops : list RegistryOp) :
  registry_ok (registry_run ttl0 ops).
Proof. apply registry_run_ok. Qed.

(** ** Discovery *)

Definition all_registrations (s : RegistryState) : list Registration := (map_to_list (nodes s)).*2.

Lemma elem_of_registrations s r :
  r ∈ all_registrations s <-> exists p, nodes s !! p = Some r.
Proof.
  unfold all_registrations. rewrite list_elem_of_fmap. split.
  - intros ([p r'] & -> & Hin). exists p. by apply elem_of_map_to_list.
  - intros [p Hp]. exists (p, r). split; [done|]. by apply elem_of_map_to_list.
Qed.

Lemma NoDup_registrations s : registry_ok s -> NoDup (all_registrations s).
Proof.
  intros Hs. apply (NoDup_fmap_1 reg_peer_id).
  assert (Heq : reg_peer_id <$> all_registrations s = (map_to_list (nodes s)).*1).
  { unfold all_registrations. rewrite <- list_fmap_compose. apply list_fmap_ext.
    intros i [p r] Hi. simpl. apply (rg_keys _ Hs). apply elem_of_map_to_list.
    by eapply list_elem_of_lookup_2. }
  rewrite Heq. apply NoDup_fst_map_to_list.
Qed.

Lemma peer_key_inj s a b :
  registry_ok s -> a ∈ all_registrations s -> b ∈ all_registrations s -> peer_key a = peer_key b ->
  a = b.
Proof.
  intros Hs [p Ha]%elem_of_registrations [q Hb]%elem_of_registrations Hk.
  apply (rg_keys _ Hs) in Ha as Hp. apply (rg_keys _ Hs) in Hb as Hq.
  apply as_str_inj in Hk. congruence.
Qed.

(** Which registrations a discovery asks for. *)
Definition wanted (want : option string) (tags : list string) (r : Registration) : bool :=
  match want with
  | Some w => if bool_decide (w = ""%string)
              then bool_decide (tags = []) || registration_matches r None tags
              else negb (bool_decide (trim w = ""%string)) && registration_matches r (Some w) tags
  | None => bool_decide (tags = []) || registration_matches r None tags
  end.

Lemma matches_advertises r w tags :
  registration_matches r (Some w) tags = true -> w <> ""%string -> w ∈ skill_id <$> reg_skills r.
Proof.
  unfold registration_matches. intros (k & Hk & Hm)%existsb_exists Hne.
  apply andb_true_iff in Hm as [Hm _]. rewrite bool_decide_false in Hm by done.
  apply bool_decide_eq_true in Hm. subst w. apply list_elem_of_fmap_2. by apply list_elem_of_In.
Qed.

(** Looking the indexed peers up finds the registrations that a scan finds. *)
Lemma index_scan w tags s :
  registry_ok s -> w <> ""%string ->
  filter (fun r => registration_matches r (Some w) tags = true)
    (omap (fun p => nodes s !! p) (elements (indexed (skill_index s) w)))
  ≡ₚ filter (fun r => wanted (Some w) tags r = true) (all_registrations s).
Proof.
  intros Hs Hw. apply NoDup_Permutation.
  - apply NoDup_filter. apply (NoDup_fmap_1 reg_peer_id).
    assert (Heq : reg_peer_id <$> omap (fun p => nodes s !! p) (elements (indexed (skill_index s) w))
                  = elements (indexed (skill_index s) w)).
    { assert (Hin : forall p, p ∈ elements (indexed (skill_index s) w) -> is_Some (nodes s !! p)).
      { intros p. rewrite elem_of_elements, (rg_index _ Hs). intros (r & Hr & _). by exists r. }
      induction (elements (indexed (skill_index s) w)) as [|p l IH]; [done|]. simpl.
      destruct (Hin p ltac:(left)) as [r Hr]. rewrite Hr. simpl. rewrite (rg_keys _ Hs _ _ Hr).
      f_equal. apply IH. intros q Hq. apply Hin. by right. }
    rewrite Heq. apply NoDup_elements.
  - by apply NoDup_filter, NoDup_registrations.
  - intros r. rewrite !list_elem_of_filter, list_elem_of_omap, elem_of_registrations.
    unfold wanted. rewrite bool_decide_false by done. rewrite andb_true_iff, negb_true_iff, bool_decide_eq_false.
    setoid_rewrite elem_of_elements. setoid_rewrite (rg_index _ Hs). split.
    + intros [Hm (p & (r' & Hr' & Ht & _) & Hr)]. eauto.
    + intros [[Ht Hm] [p Hp]]. split; [done|]. exists p. split; [|done]. exists r. split; [done|].
      split; [done|]. by eapply matches_advertises.
Qed.

Lemma discover_read_is_scan want tags limit s :
  registry_ok s ->
  discover_read want tags limit s
  = (match limit with O => id | _ => take limit end)
      (sort_on String.le peer_key (filter (fun r => wanted want tags r = true) (all_registrations s))).
Proof.
  intros Hs. unfold discover_read.
  assert (Hsort : forall l, l ≡ₚ filter (fun r => wanted want tags r = true) (all_registrations s) ->
    sort_on String.le peer_key l
    = sort_on String.le peer_key (filter (fun r => wanted want tags r = true) (all_registrations s))).
  { intros l Hl. apply sort_on_unique; [apply _..| |done]. intros a b.
    rewrite Hl, !list_elem_of_filter. intros [_ Ha] [_ Hb]. by eapply peer_key_inj. }
  rewrite <- (Hsort (match want with
    | Some w => if bool_decide (w = ""%string)
        then filter (fun r => bool_decide (tags = []) || registration_matches r None tags = true)
               (map_to_list (nodes s)).*2
        else filter (fun r => registration_matches r (Some w) tags = true)
               (omap (fun p => nodes s !! p) (elements (default ∅ (skill_index s !! w))))
    | None => filter (fun r => bool_decide (tags = []) || registration_matches r None tags = true)
                (map_to_list (nodes s)).*2 end)).
  - by destruct limit.
  - unfold wanted. destruct want as [w|]; [|done]. destruct (bool_decide_reflect (w = ""%string)); [done|].
    pose proof (index_scan w tags s Hs) as Hscan. unfold wanted in Hscan.
    rewrite bool_decide_false in Hscan by done. by apply Hscan.
Qed.

(** C38: discovery through the skill index returns what a scan of all
    registrations would: exactly the registrations that have not expired at
    the sweep's clock reading and match the filters, in the order of their
    peer ids, cut to the limit (0 is no limit). *)
Theorem discovery_is_a_scan (ttl0 : Z) (ops : list RegistryOp) (want : option string)
    (tags : list string) (limit : nat) (t : Clock) :
  let s := registry_run ttl0 ops in
  (discover want tags limit t s).1
  = Ok ((match limit with O => id | _ => take limit end)
          (sort_on String.le peer_key
            (filter (fun r => (instant t <? reg_expires_at r) && wanted want tags r = true)
               (all_registrations s)))).
Proof.
  intros s. unfold discover, bind, purge_expired, modify, get, ret. simpl. f_equal.
  assert (Hs : registry_ok s) by apply registry_run_ok.
  pose proof (purge_ok (instant t) s Hs) as Hp. rewrite discover_read_is_scan by done. f_equal.
  apply sort_on_unique; [apply _..| |].
  - intros a b. rewrite !list_elem_of_filter. intros [_ Ha] [_ Hb]. by eapply peer_key_inj.
  - apply NoDup_Permutation; [by apply NoDup_filter, NoDup_registrations..|].
    intros r. rewrite !list_elem_of_filter, !elem_of_registrations. setoid_rewrite purge_lookup.
    rewrite andb_true_iff, Z.ltb_lt. naive_solver.
Qed.

(** ** Mutations over gRPC *)

Inductive Mutation : Type :=
| MutateRegister (rq : RegisterSkillsRequest)
| MutateUnregister (peer_id : string) (skill_ids : list string).

Definition claimed_peer (m : Mutation) : string :=
  match m with MutateRegister rq => rq_peer_id rq | MutateUnregister p _ => p end.

Definition mutate (ttl0 : Z) (node_auth : option NodeTokenAuth) (md : RequestMetadata) (metrics : bool)
    (m : Mutation) (t1 t2 t3 t4 : Clock) : Reg (Result bool Status) :=
  match m with
  | MutateRegister rq => register_skills ttl0 node_auth md metrics rq t1 t2 t4
  | MutateUnregister p ids => unregister_skills node_auth md metrics p ids t1 t2 t3 t4
  end.

(** The caller proved to be the peer: the metadata, the claim and the peer are
    one text, and the metadata carries the node's token. *)
Definition proves_identity (node_auth : option NodeTokenAuth) (md : RequestMetadata) (claim : string)
    (q : PeerId) : Prop :=
  exists auth (n : NodeId) token, node_auth = Some auth
    /\ trim <$> md_node_id md = Some (as_str q) /\ trim claim = as_str q /\ as_str n = as_str q
    /\ n ∉ revoked_nodes auth /\ auth_tokens auth !! n = Some token /\ md_node_token md = Some token.

Lemma authenticate_optional_ok n presented a m :
  authenticate_optional n presented a = Ok m ->
  m = n /\ n ∉ revoked_nodes a /\ exists token, auth_tokens a !! n = Some token /\ presented = Some token.
Proof.
  unfold authenticate_optional. destruct (bool_decide_reflect (n ∈ revoked_nodes a)); [done|].
  destruct (auth_tokens a !! n) as [token|]; [|done]. destruct presented as [u|]; [|done].
  rewrite relay_constant_time_eq_spec. case_bool_decide as Heq; [|done]. intros [= <-].
  apply token_bytes_inj in Heq as ->. split; [done|]. split; [done|]. by exists u.
Qed.

Lemma id_text_stable {kind kind'} (i : Id kind) (j : Id kind') raw :
  Id_new kind raw = Ok i -> Id_new kind' raw = Ok j -> as_str i = as_str j.
Proof. intros Hi%Id_new_ok Hj%Id_new_ok. congruence. Qed.

Lemma authenticate_mutation_ok node_auth md claim p :
  authenticate_mutation node_auth md claim = Ok p -> proves_identity node_auth md claim p.
Proof.
  unfold authenticate_mutation. destruct node_auth as [a|]; [|done].
  destruct (md_node_id md) as [raw|] eqn:Hmd; simpl; [|done].
  destruct (bool_decide_reflect (trim raw = ""%string)) as [|Hne]; simpl; [done|].
  destruct (Id_new "NodeId" (trim raw)) as [n|] eqn:Hn; simpl; [|done].
  destruct (authenticate_optional n (md_node_token md) a) as [m|] eqn:Ha; simpl; [|done].
  destruct (bool_decide (trim claim = ""%string)); [done|].
  destruct (bool_decide_reflect (trim raw = trim claim)) as [Hclaim|]; simpl; [|done].
  destruct (Id_new "PeerId" (trim raw)) as [q|] eqn:Hq; simpl; [|done]. intros [= <-].
  apply Id_new_ok in Hn, Hq. rewrite trim_trim in Hn, Hq.
  apply authenticate_optional_ok in Ha as (_ & Hr & token & Ht & Hp).
  exists a, n, token. rewrite Hmd. simpl. by rewrite Hq, Hn, <- Hclaim.
Qed.

(** Registering and unregistering a peer touch that peer's registration and
    expired ones only. *)
Definition touches (p : PeerId) (now : Z) (s s' : RegistryState) : Prop :=
  forall q, q <> p -> nodes s' !! q = nodes s !! q
    \/ exists r, nodes s !! q = Some r /\ reg_expires_at r <= now /\ nodes s' !! q = None.

Lemma purge_touches p now s : touches p now s (purge_expired_locked now s).
Proof.
  intros q _. destruct (nodes s !! q) as [r|] eqn:Hq.
  - destruct (Z.lt_ge_cases now (reg_expires_at r)) as [Hlt|Hge].
    + left. apply purge_lookup. by split.
    + right. exists r. split; [done|]. split; [done|]. apply eq_None_not_Some. intros [r' Hr'].
      apply purge_lookup in Hr' as [Hr' Hlt]. assert (r' = r) as -> by congruence. lia.
  - left. apply eq_None_not_Some. intros [r' Hr']. apply purge_lookup in Hr' as [Hr' _]. congruence.
Qed.

Lemma touches_trans p now1 now2 s1 s2 s3 :
  touches p now1 s1 s2 -> touches p now2 s2 s3 -> touches p (Z.max now1 now2) s1 s3.
Proof.
  intros H1 H2 q Hq. destruct (H1 q Hq) as [E1|(r & Hr & He & Hn)], (H2 q Hq) as [E2|(r' & Hr' & He' & Hn')].
  - left. congruence.
  - right. exists r'. rewrite <- E1. split; [done|]. split; [lia|done].
  - right. exists r. split; [done|]. split; [lia|]. congruence.
  - congruence.
Qed.

Lemma insert_touches r now s : touches (reg_peer_id r) now s (insert_registration r s).
Proof. intros q Hq. left. rewrite insert_registration_lookup. by rewrite decide_False. Qed.

Lemma remove_touches p now s : touches p now s (remove_peer p s).
Proof. intros q Hq. left. rewrite remove_peer_lookup. by rewrite decide_False. Qed.

Lemma touches_weaken p now now' s s' : now <= now' -> touches p now s s' -> touches p now' s s'.
Proof.
  intros Hle H q Hq. destruct (H q Hq) as [?|(r & ? & ? & ?)]; [by left|right; exists r].
  split; [done|]. split; [lia|done].
Qed.

Lemma register_touches ttl0 p skills name description features ttl t1 t2 s :
  touches p (instant t2) s
    (register_with_features ttl0 p skills name description features ttl t1 t2 s).2.
Proof.
  unfold register_with_features, upsert_registration, bind, modify, lift, registration_for.
  destruct (instant_add _ _) as [e|]; simpl; [|by intros q Hq; left].
  eapply touches_weaken, (touches_trans p (instant t2) (instant t2));
    [|apply purge_touches|]; [lia|].
  match goal with |- touches p _ _ (emit_gossip _ ?s') => change (touches p (instant t2)
    (purge_expired_locked (instant t2) s) s') end.
  exact (insert_touches (MkRegistration p skills name description features e _ _) _ _).
Qed.

Lemma unregister_touches p ids t1 t2 t3 s :
  registry_ok s ->
  touches p (Z.max (instant t1) (instant t3)) s (unregister p ids t1 t2 t3 s).2.
Proof.
  intros Hs. pose proof (purge_ok (instant t1) s Hs) as Hok.
  assert (H1 : touches p (instant t1) s (purge_expired_locked (instant t1) s)) by apply purge_touches.
  unfold unregister, unregister_locked, bind, modify, get, ret, get_registration, purge_expired.
  unfold bind, modify. simpl. set (s1 := purge_expired_locked (instant t1) s) in *.
  assert (Hdone : forall s2, touches p (instant t1) s1 s2 ->
    touches p (Z.max (instant t1) (instant t3)) s s2).
  { intros s2 H2. eapply touches_weaken, touches_trans; [|exact H1|exact H2]. lia. }
  assert (Hget : forall s2, touches p (instant t1) s1 s2 ->
    touches p (Z.max (instant t1) (instant t3)) s (purge_expired_locked (instant t3) s2)).
  { intros s2 H2. eapply touches_weaken, touches_trans;
      [|eapply touches_trans; [exact H1|exact H2]|apply purge_touches]. lia. }
  destruct ids as [|id ids]; simpl.
  - pose proof (remove_touches p (instant t1) s1) as Hr.
    destruct (bool_decide _); simpl; [by apply Hdone|].
    destruct (nodes _ !! p); simpl; by apply Hget.
  - destruct (nodes s1 !! p) as [r|] eqn:Hp; simpl; [|apply Hdone; intros q Hq; by left].
    apply (rg_keys _ Hok) in Hp.
    destruct (filter _ _) as [|k l]; simpl; [apply Hdone, remove_touches|].
    match goal with |- context [insert_registration ?x s1] =>
      pose proof (insert_touches x (instant t1) s1) as Hi; set (y := x) in *;
      assert (Hy : reg_peer_id y = p) by exact Hp; rewrite Hy in Hi end.
    destruct (_ !! p); simpl; by apply Hget.
Qed.

Lemma metric_touches p metrics t s : touches p (instant t) s (sync_registry_metric metrics t s).2.
Proof. destruct metrics; [apply purge_touches|by intros q _; left]. Qed.

(** The last of a call's clock readings. *)
Definition latest (t1 t2 t3 t4 : Clock) : Z :=
  Z.max (Z.max (instant t1) (Z.max (instant t2) (instant t3))) (instant t4).

Lemma then_metric_touches {A} p now metrics t4 (c : Reg A) s :
  touches p now s (c s).2 ->
  touches p (Z.max now (instant t4)) s
    (bind c (fun _ => bind (sync_registry_metric metrics t4) (fun _ => ret (Ok (E := Status) true))) s).2.
Proof.
  intros H. unfold bind. destruct (c s) as [[a|e] s1]; simpl in *.
  - eapply touches_trans; [exact H|].
    pose proof (metric_touches p metrics t4 s1) as Hm.
    destruct (sync_registry_metric metrics t4 s1) as [[o|e] s2]; exact Hm.
  - eapply touches_weaken; [|exact H]. lia.
Qed.

Lemma mutate_touches ttl0 node_auth md metrics m t1 t2 t3 t4 s : registry_ok s ->
  (mutate ttl0 node_auth md metrics m t1 t2 t3 t4 s).2 = s
  \/ exists p, authenticate_mutation node_auth md (claimed_peer m) = Ok p
       /\ touches p (latest t1 t2 t3 t4) s (mutate ttl0 node_auth md metrics m t1 t2 t3 t4 s).2.
Proof.
  intros Hs. destruct m as [rq|claim ids]; unfold mutate, register_skills, unregister_skills, claimed_peer.
  - destruct (authenticate_mutation node_auth md (rq_peer_id rq)) as [p|]; [|by left].
    right. exists p. split; [done|]. eapply touches_weaken; [|apply then_metric_touches, register_touches].
    unfold latest. lia.
  - destruct (authenticate_mutation node_auth md claim) as [p|]; [|by left].
    right. exists p. split; [done|]. eapply touches_weaken; [|apply then_metric_touches, (unregister_touches _ _ t1 t2 t3 _ Hs)].
    unfold latest. lia.
Qed.

(** C37: only its owner changes a registration. Whatever a registration or
    unregistration request claims, a peer's entry changes only when the
    entry had expired by the call's clock readings, or when the request's metadata
    names that very peer, carries the token of its node, the node is not
    revoked, and the claim is the same peer. *)
Theorem only_the_owner_changes_a_registration (ttl0 : Z) (ops : list RegistryOp)
    (node_auth : option NodeTokenAuth) (md : RequestMetadata) (metrics : bool) (m : Mutation)
    (t1 t2 t3 t4 : Clock) (q : PeerId) :
  let s := registry_run ttl0 ops in
  let s' := (mutate ttl0 node_auth md metrics m t1 t2 t3 t4 s).2 in
  nodes s' !! q = nodes s !! q
  \/ (exists r, nodes s !! q = Some r /\ nodes s' !! q = None
        /\ reg_expires_at r <= latest t1 t2 t3 t4)
  \/ proves_identity node_auth md (claimed_peer m) q.
Proof.
  intros s s'. subst s'.
  assert (Hcase : forall p s', authenticate_mutation node_auth md (claimed_peer m) = Ok p ->
    touches p (latest t1 t2 t3 t4) s s' ->
    nodes s' !! q = nodes s !! q
    \/ (exists r, nodes s !! q = Some r /\ nodes s' !! q = None
          /\ reg_expires_at r <= latest t1 t2 t3 t4)
    \/ proves_identity node_auth md (claimed_peer m) q).
  { intros p s' Hauth Ht. destruct (decide (q = p)) as [->|Hne].
    - right. right. by apply authenticate_mutation_ok.
    - destruct (Ht q Hne) as [?|(r & ? & ? & ?)]; [by left|]. right. left. by exists r. }
  destruct (mutate_touches ttl0 node_auth md metrics m t1 t2 t3 t4 s (registry_run_ok ttl0 ops))
    as [->|(p & Hp & Ht)]; [by left|by apply (Hcase p)].
Qed.

(** A lifetime past the range of the clock panics the handler. *)
Lemma long_lifetime_panics ttl0 node_auth md metrics rq p t1 t2 t4 s :
  authenticate_mutation node_auth md (rq_peer_id rq) = Ok p -> rq_ttl_seconds rq <> 0 ->
  INSTANT_MAX < instant t1 + from_secs (rq_ttl_seconds rq) ->
  register_skills ttl0 node_auth md metrics rq t1 t2 t4 s = (Err InstantOverflow, s).
Proof.
  intros Ha Httl Hlong. unfold register_skills. rewrite Ha.
  rewrite (proj2 (Z.eqb_neq _ _) Httl).
  unfold register_with_features, registration_for, bind, lift, ttl_or_default, instant_add. simpl.
  by rewrite (proj2 (Z.leb_gt _ _) Hlong).
Qed.
