(* ===== verification/Wire.v ===== *)
(** * Messages between the daemon and its clients

    proto/hermes/keryx/v1 (task.proto, result.proto, daemon.proto) and the
    functions of keryx-daemon/src/lib.rs that read and answer them: parsing of
    identifiers, labels, and the gRPC status of every store error. A message
    is a record; a [map<string, string>] is a [gmap]. What prost and thiserror
    generate is the class [Wire]: the encoding of an envelope depends on the
    order in which its hash maps happen to be iterated over, so the encoder
    takes that order as an argument. *)
From S2P Require Import Prelude Ident Lifecycle StoreModel.
From stdpp Require Import options.
#[local] Open Scope Z_scope.

(** ** Messages *)

Abbreviation Metadata := (gmap string string).

(** The messages that hold one text: [TaskId], [AgentId], [LeaseId], ... *)
Record ProtoId : Type := MkProtoId { value : string }.

#[export] Instance ProtoId_eq_dec : EqDecision ProtoId.
Proof. solve_decision. Defined.

Record TaskMessagePart : Type := MkPart {
  pt_media_type : string;
  pt_text : string;
  pt_raw : bytes;
  pt_metadata : Metadata;
}.
#[export] Instance TaskMessagePart_eq_dec : EqDecision TaskMessagePart.
Proof. solve_decision. Defined.

Record TaskMessage : Type := MkMessage {
  ms_parts : list TaskMessagePart;
  ms_metadata : Metadata;
}.
#[export] Instance TaskMessage_eq_dec : EqDecision TaskMessage.
Proof. solve_decision. Defined.

Record TaskEnvelope : Type := MkTaskEnvelope {
  te_task_id : option ProtoId;
  te_correlation_id : option ProtoId;
  te_idempotency_key : option ProtoId;
  te_status : Z;
  te_messages : list TaskMessage;
  te_metadata : Metadata;
  te_deadline_ms : Z;
}.
#[export] Instance TaskEnvelope_eq_dec : EqDecision TaskEnvelope.
Proof. solve_decision. Defined.

Record TaskArtifact : Type := MkTaskArtifact {
  ta_path : string;
  ta_media_type : string;
  ta_metadata : Metadata;
  ta_content : bytes;
  ta_byte_len : Z;
  ta_sha256 : string;
  ta_content_present : bool;
}.

Record ResultArtifact : Type := MkResultArtifact {
  ra_path : string;
  ra_media_type : string;
  ra_metadata : Metadata;
  ra_artifact_id : option ProtoId;
  ra_sha256 : string;
  ra_byte_len : Z;
  ra_content : bytes;
  ra_content_present : bool;
}.
#[export] Instance ResultArtifact_eq_dec : EqDecision ResultArtifact.
Proof. solve_decision. Defined.

Record TaskResultEnvelope : Type := MkResultEnvelope {
  re_protocol_version : Z;
  re_task_id : option ProtoId;
  re_correlation_id : option ProtoId;
  re_outcome : Z;
  re_executor_peer_id : string;
  re_duration_ms : Z;
  re_completed_at_ms : Z;
  re_error_reason : string;
  re_result_metadata : Metadata;
  re_output_artifacts : list ResultArtifact;
}.
#[export] Instance TaskResultEnvelope_eq_dec : EqDecision TaskResultEnvelope.
Proof. solve_decision. Defined.

Module TerminalOutcome.
Inductive TerminalOutcome : Type :=
| Unspecified | Completed | Failed | Canceled | TimedOut | Rejected.

#[global] Instance TerminalOutcome_eq_dec : EqDecision TerminalOutcome.
Proof. solve_decision. Defined.

(** [outcome as i32] and [TerminalOutcome::try_from]. *)
Definition to_i32 (o : TerminalOutcome) : Z :=
  match o with
  | Unspecified => 0 | Completed => 1 | Failed => 2
  | Canceled => 3 | TimedOut => 4 | Rejected => 5
  end.
Definition try_from (n : Z) : option TerminalOutcome :=
  if n =? 0 then Some Unspecified else if n =? 1 then Some Completed
  else if n =? 2 then Some Failed else if n =? 3 then Some Canceled
  else if n =? 4 then Some TimedOut else if n =? 5 then Some Rejected else None.

Lemma try_from_to_i32 o : try_from (to_i32 o) = Some o.
Proof. by destruct o. Qed.
End TerminalOutcome.
Abbreviation TerminalOutcome := TerminalOutcome.TerminalOutcome.

(** ** gRPC statuses *)

Inductive Code : Type :=
| InvalidArgument | NotFound | AlreadyExists | PermissionDenied | FailedPrecondition
| Aborted | ResourceExhausted | Unavailable | Unauthenticated | Internal | DataLoss
| DeadlineExceeded | OutOfRange | Unimplemented | Cancelled | Unknown.

Record Status : Type := MkStatus { code : Code; message : string }.

(** ** What the code generators provide *)

Class Wire : Type := {
  (** [encode_to_vec], given the iteration order of the message's hash maps. *)
  encode_envelope : nat -> TaskEnvelope -> bytes;
  encoded_len : TaskEnvelope -> Z;
  decode_envelope : bytes -> Result TaskEnvelope string;
  encode_result : nat -> TaskResultEnvelope -> bytes;
  decode_result : bytes -> Result TaskResultEnvelope string;
  (** [serde_json] on lists of texts. *)
  features_to_json : list string -> string;
  features_from_json : string -> Result (list string) string;
  (** [to_string] of the error types. *)
  store_error_text : StoreError -> string;
  validation_error_text : ValidationError -> string;
}.

(** Decoding gives back the message, whatever the order it was encoded in. *)
Class WireLaws (W : Wire) : Prop := {
  decode_encode_envelope order e : decode_envelope (encode_envelope order e) = Ok e;
  encoded_len_spec order e : Z.of_nat (length (encode_envelope order e)) = encoded_len e;
  decode_encode_result order r : decode_result (encode_result order r) = Ok r;
}.

Section statuses.
Context `{W : Wire}.

Definition remote_reason_text (r : RemoteResultTerminalReason) : string :=
  match r with DeadlineExpired => "deadline_expired" | ReasonCanceled => "canceled" end.

(** ** Errors as statuses *)

Definition store_error_to_status (error : StoreError) : Status :=
  let error_detail := store_error_text error in
  match error with
  | StoreError.TaskNotFound task_id =>
      MkStatus NotFound ("task not found: " +:+ as_str task_id)
  | StoreError.TaskAlreadyExists task_id =>
      MkStatus AlreadyExists ("task already exists: " +:+ as_str task_id)
  | StoreError.TaskEnvelopeNotFound task_id =>
      MkStatus NotFound ("task envelope not found: " +:+ as_str task_id)
  | StoreError.TaskEnvelopeMismatch task_id envelope_task_id =>
      MkStatus FailedPrecondition ("task envelope id " +:+ as_str envelope_task_id
        +:+ " does not match task " +:+ as_str task_id)
  | StoreError.TaskEnvelopeConflict task_id =>
      MkStatus AlreadyExists ("task envelope conflicts with the stored envelope for task "
        +:+ as_str task_id)
  | StoreError.TransportContextNotFound task_id =>
      MkStatus NotFound ("transport context not found for task " +:+ as_str task_id)
  | StoreError.TransportContextConflict task_id =>
      MkStatus AlreadyExists ("transport context conflicts for task " +:+ as_str task_id)
  | StoreError.TaskExecutorMismatch task_id expected actual =>
      MkStatus FailedPrecondition ("task " +:+ as_str task_id +:+ " targets executor "
        +:+ as_str expected +:+ ", not local peer " +:+ as_str actual)
  | StoreError.TransportContextTaskMismatch task_id context_task_id =>
      MkStatus FailedPrecondition ("transport context task " +:+ as_str context_task_id
        +:+ " does not match task " +:+ as_str task_id)
  | StoreError.TerminalResultNotFound task_id =>
      MkStatus NotFound ("terminal result not found for task " +:+ as_str task_id)
  | StoreError.TerminalResultConflict task_id =>
      MkStatus AlreadyExists ("terminal result conflicts for task " +:+ as_str task_id)
  | StoreError.TerminalResultTaskMismatch task_id result_task_id =>
      MkStatus FailedPrecondition ("terminal result task " +:+ as_str result_task_id
        +:+ " does not match task " +:+ as_str task_id)
  | StoreError.TerminalResultNotTerminal task_id =>
      MkStatus FailedPrecondition ("terminal result for task " +:+ as_str task_id
        +:+ " is not terminal")
  | StoreError.ResultDeliveryLeaseMismatch delivery_id =>
      MkStatus PermissionDenied ("result delivery lease mismatch: " +:+ delivery_id)
  | StoreError.RemoteResultExecutorMismatch task_id expected actual =>
      MkStatus PermissionDenied ("remote result executor mismatch for task " +:+ as_str task_id
        +:+ ": expected " +:+ as_str expected +:+ ", got " +:+ as_str actual)
  | StoreError.RemoteResultTerminallySettled task_id reason =>
      MkStatus FailedPrecondition ("remote result for task " +:+ as_str task_id
        +:+ " was settled against terminal reason " +:+ remote_reason_text reason)
  | StoreError.RemoteResultTerminalArtifactsRejected task_id reason =>
      MkStatus FailedPrecondition ("remote result for task " +:+ as_str task_id
        +:+ " carries artifacts that cannot settle terminal reason " +:+ remote_reason_text reason)
  | StoreError.ArtifactNotFound artifact_id =>
      MkStatus NotFound ("artifact not found: " +:+ as_str artifact_id)
  | StoreError.IdempotencyConflict key existing_task_id =>
      MkStatus AlreadyExists ("idempotency key " +:+ as_str key +:+ " already belongs to task "
        +:+ as_str existing_task_id)
  | StoreError.Validation (LimitExceededError _ _ _) => MkStatus ResourceExhausted error_detail
  | StoreError.Validation error => MkStatus FailedPrecondition (validation_error_text error)
  | StoreError.CorruptEventStream task_id =>
      MkStatus DataLoss ("corrupt event stream for task " +:+ as_str task_id)
  | StoreError.LeaseNotFound task_id =>
      MkStatus NotFound ("lease not found for task " +:+ as_str task_id)
  | StoreError.LeaseConflict task_id =>
      MkStatus Aborted ("task " +:+ as_str task_id +:+ " already has an active lease")
  | StoreError.TaskDeadlineExpired _ _ _ => MkStatus FailedPrecondition error_detail
  | StoreError.CancellationLeaseProofRequired task_id =>
      MkStatus PermissionDenied
        ("running task cancellation requires active lease ownership proof for " +:+ as_str task_id)
  | StoreError.LeaseMismatch task_id lease_id =>
      MkStatus PermissionDenied ("lease " +:+ as_str lease_id +:+ " does not own task "
        +:+ as_str task_id)
  | StoreError.LeaseOwnerMismatch task_id worker_id =>
      MkStatus PermissionDenied ("worker " +:+ as_str worker_id
        +:+ " does not own active lease for task " +:+ as_str task_id)
  | StoreError.LeaseOwnerMissing task_id lease_id =>
      MkStatus FailedPrecondition ("lease " +:+ as_str lease_id +:+ " for task " +:+ as_str task_id
        +:+ " is missing a worker owner")
  | StoreError.ArtifactTooLarge _ _ => MkStatus ResourceExhausted error_detail
  | StoreError.ArtifactLengthMismatch _ _ | StoreError.DigestMismatch _ _
  | StoreError.OriginResultArtifactIdMismatch _ _
  | StoreError.OriginResultArtifactOrdinalMismatch _ _
  | StoreError.OriginResultArtifactTaskMismatch _ _ => MkStatus InvalidArgument error_detail
  | StoreError.OriginResultArtifactConflict _ => MkStatus AlreadyExists error_detail
  | StoreError.InvalidLeaseExpiry _ _ _ _ => MkStatus InvalidArgument error_detail
  | StoreError.UnsupportedSchema _ _ | StoreError.MigrationFailed _ | StoreError.BlobDir _
  | StoreError.UnrepairedCorruption _ => MkStatus Internal error_detail
  | StoreError.LockPoisoned | StoreError.Database _ => MkStatus Internal error_detail
  end.

Definition limit_exceeded_to_status (error : LimitExceeded) : Status :=
  store_error_to_status (StoreError.Validation (limit_exceeded_into_validation error)).

(** ** Reading requests *)

Definition invalid_argument (text : string) : Status := MkStatus InvalidArgument text.

(** [parse_required_task_id] and its siblings: the field's name and the
    identifier's type vary. *)
Definition parse_required_id (kind field : string) (id : option ProtoId) : Result (Id kind) Status :=
  let? trimmed := ok_or (i ← id;
                         let trimmed := trim (value i) in
                         if bool_decide (trimmed = "") then None else Some trimmed)
                    (invalid_argument (field +:+ " is required")) in
  map_err (fun error => invalid_argument (validation_error_text error)) (Id_new kind trimmed).

Definition parse_required_task_id : option ProtoId -> Result TaskId Status :=
  parse_required_id "TaskId" "task_id".
Definition parse_required_agent_id : option ProtoId -> Result AgentId Status :=
  parse_required_id "AgentId" "worker_id".
Definition parse_required_lease_id : option ProtoId -> Result LeaseId Status :=
  parse_required_id "LeaseId" "lease_id".
Definition parse_required_artifact_id : option ProtoId -> Result ArtifactId Status :=
  parse_required_id "ArtifactId" "artifact_id".

Definition parse_optional_agent_id (id : option ProtoId) : Result (option AgentId) Status :=
  transpose ((fun i => parse_required_agent_id (Some i)) <$> id).
Definition parse_optional_lease_id (id : option ProtoId) : Result (option LeaseId) Status :=
  transpose ((fun i => parse_required_lease_id (Some i)) <$> id).

Definition parse_optional_idempotency_key (key : option ProtoId)
    : Result (option IdempotencyKey) Status :=
  match key with
  | None => Ok None
  | Some key =>
      let trimmed := trim (value key) in
      if bool_decide (trimmed = "") then Ok None
      else map_err (fun error => invalid_argument (validation_error_text error))
             (result_map Some (Id_new "IdempotencyKey" trimmed))
  end.

Definition deadline_from_envelope (envelope : TaskEnvelope) : Result (option Z) Status :=
  if te_deadline_ms envelope <? 0
  then Err (invalid_argument "deadline_ms must be zero or a positive Unix epoch timestamp")
  else Ok (if 0 <? te_deadline_ms envelope then Some (te_deadline_ms envelope) else None).

Definition proto_id {kind} (i : Id kind) : ProtoId := MkProtoId (as_str i).

Definition task_status_label (status : TaskStatus) : string :=
  match status with
  | Pending => "pending" | Running => "running"
  | Completed => "completed" | Failed => "failed"
  end.

Definition terminal_outcome (n : Z) : TerminalOutcome :=
  default TerminalOutcome.Unspecified (TerminalOutcome.try_from n).

Definition terminal_result_status (result : TaskResultEnvelope) : Result string Status :=
  match terminal_outcome (re_outcome result) with
  | TerminalOutcome.Completed => Ok "completed"
  | TerminalOutcome.Failed => Ok "failed"
  | TerminalOutcome.Canceled => Ok "canceled"
  | TerminalOutcome.TimedOut => Ok "timed_out"
  | TerminalOutcome.Rejected => Ok "rejected"
  | TerminalOutcome.Unspecified =>
      Err (MkStatus DataLoss "stored terminal result has no terminal outcome")
  end.

Definition terminal_outcome_status (outcome : Z) : Result TaskStatus Status :=
  match terminal_outcome outcome with
  | TerminalOutcome.Completed => Ok Completed
  | TerminalOutcome.Failed | TerminalOutcome.Canceled | TerminalOutcome.TimedOut
  | TerminalOutcome.Rejected => Ok Failed
  | TerminalOutcome.Unspecified => Err (invalid_argument "terminal outcome is required")
  end.

Definition normalized_cancel_reason (reason : string) : string :=
  let trimmed := trim reason in
  if bool_decide (trimmed = "") then "canceled by request" else trimmed.

(** ** Lemmas *)

(** An identifier that the daemon sent is read back as itself. *)
Lemma parse_proto_id kind field (i : Id kind) :
  parse_required_id kind field (Some (proto_id i)) = Ok i.
Proof.
  unfold parse_required_id, proto_id. simpl.
  rewrite (valid_id_trim (as_str i)) by apply Is_true_true, id_valid.
  rewrite bool_decide_false.
  - simpl. by rewrite Id_new_as_str.
  - intros E. pose proof (id_valid i) as H. by rewrite E in H.
Qed.

Lemma parse_required_id_ok kind field o (i : Id kind) :
  parse_required_id kind field o = Ok i -> exists p, o = Some p /\ as_str i = trim (value p).
Proof.
  unfold parse_required_id. destruct o as [p|]; [|done]. simpl.
  case_bool_decide; [done|]. simpl.
  destruct (Id_new kind (trim (value p))) as [j|] eqn:E; [|done]. simpl. intros [= ->].
  exists p. split; [done|]. apply Id_new_ok in E. by rewrite E, trim_trim.
Qed.
End statuses.
