(* ===== verification/Rpc.v ===== *)
(** * Requests and responses of the daemon service

    The messages of proto/hermes/keryx/v1/daemon.proto that the handlers of
    keryx-daemon/src/lib.rs take and return. *)
From S2P Require Import Prelude Ident StoreModel Wire.
From stdpp Require Import options.

(** ** Tasks *)

Record SubmitTaskRequest : Type := MkSubmitTask { st_envelope : option TaskEnvelope }.

Record SubmitRemoteTaskRequest : Type := MkSubmitRemote {
  sm_envelope : option TaskEnvelope;
  sm_authenticated_sender_peer_id : string;
  sm_destination_peer_id : string;
  sm_relay_frame_id : string;
}.

Record SubmitTaskResponse : Type := MkSubmitted {
  sb_task_id : option ProtoId;
  sb_status : string;
}.

Record ClaimTaskRequest : Type := MkClaimTask {
  ct_task_id : option ProtoId;
  ct_worker_id : option ProtoId;
  ct_lease_duration_ms : Z;
}.

Record ClaimTaskResponse : Type := MkClaimed {
  cl_task_id : option ProtoId;
  cl_lease_id : option ProtoId;
  cl_worker_id : option ProtoId;
  cl_leased_at_ms : Z;
  cl_expires_at_ms : Z;
  cl_status : string;
  cl_retry_count : Z;
  cl_dead_lettered : bool;
}.

Record ClaimNextTaskRequest : Type := MkClaimNext {
  cn_worker_id : option ProtoId;
  cn_accepted_skill_ids : list string;
  cn_accepted_capability_ids : list string;
  cn_lease_duration_ms : Z;
  cn_wait_timeout_ms : Z;
}.

Record ClaimNextTaskResponse : Type := MkClaimedNext {
  nx_has_task : bool;
  nx_envelope : option TaskEnvelope;
  nx_task_id : option ProtoId;
  nx_lease_id : option ProtoId;
  nx_worker_id : option ProtoId;
  nx_leased_at_ms : Z;
  nx_expires_at_ms : Z;
  nx_status : string;
  nx_retry_count : Z;
  nx_dead_lettered : bool;
  nx_sender_peer_id : string;
}.

Record HeartbeatRequest : Type := MkHeartbeat {
  hb_task_id : option ProtoId;
  hb_lease_id : option ProtoId;
  hb_worker_id : option ProtoId;
  hb_lease_duration_ms : Z;
}.

Record HeartbeatResponse : Type := MkHeartbeatDone {
  hd_lease_id : option ProtoId;
  hd_expires_at_ms : Z;
}.

Record CompleteTaskRequest : Type := MkCompleteTask {
  cp_task_id : option ProtoId;
  cp_lease_id : option ProtoId;
  cp_worker_id : option ProtoId;
  cp_duration_ms : Z;
  cp_result_metadata : Metadata;
  cp_output_artifacts : list TaskArtifact;
}.

Record CompleteTaskResponse : Type := MkCompletedTask {
  cd_task_id : option ProtoId;
  cd_status : string;
  cd_duration_ms : Z;
  cd_result_metadata : Metadata;
  cd_output_artifacts : list TaskArtifact;
}.

Record FailTaskRequest : Type := MkFailTask {
  ft_task_id : option ProtoId;
  ft_lease_id : option ProtoId;
  ft_worker_id : option ProtoId;
  ft_duration_ms : Z;
  ft_error_reason : string;
  ft_failure_metadata : Metadata;
}.

Record FailTaskResponse : Type := MkFailedTask {
  fd_task_id : option ProtoId;
  fd_status : string;
  fd_duration_ms : Z;
  fd_error_reason : string;
  fd_failure_metadata : Metadata;
  fd_retry_count : Z;
  fd_dead_lettered : bool;
}.

Record CancelTaskRequest : Type := MkCancelTask {
  ca_task_id : option ProtoId;
  ca_reason : string;
  ca_metadata : Metadata;
  ca_lease_id : option ProtoId;
  ca_worker_id : option ProtoId;
}.

Record CancelTaskResponse : Type := MkCanceledTask {
  cc_task_id : option ProtoId;
  cc_status : string;
  cc_reason : string;
  cc_canceled : bool;
}.

Record GetTaskResultRequest : Type := MkGetTaskResult { gr_task_id : option ProtoId }.

Record GetTaskResultResponse : Type := MkTaskResult {
  gt_found : bool;
  gt_status : string;
  gt_result : option TaskResultEnvelope;
  gt_update_sequence : Z;
  gt_terminal_result_unavailable : bool;
  gt_data_unavailable_reason : string;
}.

(** ** Result deliveries and remote results *)

Record ClaimNextResultDeliveryRequest : Type := MkClaimDelivery {
  cr_worker_id : string;
  cr_lease_duration_ms : Z;
}.

Record ClaimNextResultDeliveryResponse : Type := MkClaimedDelivery {
  nd_has_delivery : bool;
  nd_delivery_id : string;
  nd_target_peer_id : string;
  nd_result : option TaskResultEnvelope;
  nd_attempt_count : Z;
  nd_lease_expires_at_ms : Z;
}.

Record AckResultDeliveryRequest : Type := MkAckDelivery {
  ak_delivery_id : string;
  ak_worker_id : string;
  ak_lease_expires_at_ms : Z;
}.

Record FailResultDeliveryRequest : Type := MkFailDelivery {
  fr_delivery_id : string;
  fr_worker_id : string;
  fr_error_reason : string;
  fr_retry_delay_ms : Z;
  fr_dead_letter : bool;
  fr_lease_expires_at_ms : Z;
}.

Record IngestRemoteResultRequest : Type := MkIngest {
  ig_result : option TaskResultEnvelope;
  ig_authenticated_executor_peer_id : string;
  ig_destination_peer_id : string;
  ig_relay_frame_id : string;
}.

Record IngestRemoteResultResponse : Type := MkIngested {
  in_task_id : option ProtoId;
  in_status : string;
}.

(** ** Artifacts *)

Record PutArtifactRequest : Type := MkPutArtifact {
  pa_task_id : option ProtoId;
  pa_artifact_id : option ProtoId;
  pa_media_type : string;
  pa_content : bytes;
}.

(** [PutArtifactResponse] and [ArtifactSummary] have the same fields. *)
Record ArtifactSummary : Type := MkSummary {
  su_artifact_id : option ProtoId;
  su_task_id : option ProtoId;
  su_digest : string;
  su_media_type : string;
  su_byte_len : Z;
  su_inline : bool;
  su_created_at : string;
}.

Record GetArtifactRequest : Type := MkGetArtifact {
  ga_artifact_id : option ProtoId;
  ga_metadata_only : bool;
}.

Record GetArtifactResponse : Type := MkArtifactContent {
  gc_summary : ArtifactSummary;
  gc_content : bytes;
}.
