(* ===== verification/Program.v ===== *)
(** * Handlers as programs over the store, and their interleavings

    A handler of the daemon is an [async fn]: between two awaited calls other
    handlers run. A handler is a program, a tree of the effects it asks for:
    store calls, clock readings, metrics, the submission lock. [run] performs
    a program without interruption; a [Pool] interleaves several, one effect
    at a time, in the order of a schedule. The effects are performed on any
    store that offers the interface of Api. *)
From S2P Require Import Prelude Ident Lifecycle StoreModel Api MemStore SqlStore Wire.
From stdpp Require Import options.
#[local] Open Scope Z_scope.

(** ** Store calls with the type of their answer *)

Definition answer (op : Op) : Type :=
  match op with
  | OpAccept _ | OpAcceptEnvelope _ _ | OpAcceptContext _ _ _ | OpLease _ _ | OpLeaseForPeer _ _ _
  | OpComplete _ _ _ | OpFail _ _ _ _ _ | OpRetry _ _ _ | OpDeadLetter _ _ _ _ | OpCancel _ _
  | OpTransition _ _ | OpLegacy _ _ | OpCancelResult _ _ _ _ _ | OpCompleteResult _ _ _ _
  | OpFailResult _ _ _ _ _ _ | OpGet _ | OpReplay _ => TaskRecord
  | OpPutContext _ | OpGetContext _ => TaskTransportContextRecord
  | OpRenew _ _ _ _ _ => LeaseRecord
  | OpFailDeadlines _ _ => list TaskRecord
  | OpRecover _ _ => RecoveryReport
  | OpGetEnvelope _ => TaskEnvelopeRecord
  | OpPendingEnvelopes _ | OpClaimable _ _ => list PendingTaskEnvelope
  | OpCount _ => Z
  | OpEvents _ => list TaskEventRecord
  | OpActiveLease _ => option LeaseRecord
  | OpGetResult _ => TerminalResultRecord
  end.

Definition call {S} `{StoreApi S} (op : Op) : ST S StoreError (answer op) :=
  match op with
  | OpAccept t => api_accept_task t
  | OpAcceptEnvelope t e => api_accept_task_with_envelope t e
  | OpAcceptContext t e c => api_accept_task_with_envelope_and_context t e c
  | OpPutContext c => api_put_transport_context c
  | OpLease i l => api_lease_task i l
  | OpLeaseForPeer i l p => api_lease_task_for_peer i l p
  | OpRenew i lid w now exp => api_renew_lease i lid w now exp
  | OpComplete i lid w => api_complete_task i lid w
  | OpFail i lid w reason policy => api_fail_task i lid w reason policy
  | OpRetry i lid w => api_retry_task i lid w
  | OpDeadLetter i lid w reason => api_dead_letter_task i lid w reason
  | OpCancel i now => api_cancel_task i now
  | OpFailDeadlines now limit => api_fail_expired_deadlines now limit
  | OpTransition i to => api_transition_task i to
  | OpLegacy i e => api_accept_legacy_event i e
  | OpRecover now limit => api_recover_stale_leases now limit
  | OpCancelResult i lid w now r => api_cancel_task_with_result i lid w now r
  | OpCompleteResult i lid w r => api_complete_task_with_result i lid w r
  | OpFailResult i lid w reason policy r => api_fail_task_with_result i lid w reason policy r
  | OpGet i => api_get_task i
  | OpGetEnvelope i => api_get_task_envelope i
  | OpPendingEnvelopes n => api_pending_task_envelopes n
  | OpClaimable p n => api_claimable_pending_task_envelopes p n
  | OpCount st => api_count_tasks_by_status st
  | OpEvents i => api_events_for_task i
  | OpReplay i => api_replay_task i
  | OpActiveLease i => api_active_lease i
  | OpGetContext i => api_get_transport_context i
  | OpGetResult i => api_get_terminal_result i
  end.

(** The answer as the untyped reply of [run_op]. *)
Definition wrap (op : Op) : answer op -> Reply :=
  match op with
  | OpAccept _ | OpAcceptEnvelope _ _ | OpAcceptContext _ _ _ | OpLease _ _ | OpLeaseForPeer _ _ _
  | OpComplete _ _ _ | OpFail _ _ _ _ _ | OpRetry _ _ _ | OpDeadLetter _ _ _ _ | OpCancel _ _
  | OpTransition _ _ | OpLegacy _ _ | OpCancelResult _ _ _ _ _ | OpCompleteResult _ _ _ _
  | OpFailResult _ _ _ _ _ _ | OpGet _ | OpReplay _ => RTask
  | OpPutContext _ | OpGetContext _ => RContext
  | OpRenew _ _ _ _ _ => RLease
  | OpFailDeadlines _ _ => RTasks
  | OpRecover _ _ => RReport
  | OpGetEnvelope _ => REnvelope
  | OpPendingEnvelopes _ | OpClaimable _ _ => RPending
  | OpCount _ => RCount
  | OpEvents _ => REvents
  | OpActiveLease _ => RLeaseOpt
  | OpGetResult _ => RResult
  end.

Lemma run_op_call {S} `{StoreApi S} op (s : S) : run_op op s = reply (wrap op) (call op) s.
Proof. by destruct op. Qed.

Lemma wrap_inj op : Inj (=) (=) (wrap op).
Proof. destruct op; intros x y E; exact (f_equal (fun r => match r with
  | RTask t => t | _ => x end) E) || (injection E; auto). Qed.

(** ** Effects *)

Inductive Counter : Type :=
| TasksSubmitted | TasksClaimed | TasksCompleted | TasksFailed | Heartbeats | LeasesRecovered
| RecoveryTicks | DeadLetters | CancelRequests | TasksCanceled.

Inductive Effect : Type :=
| UnixMsNow
| HashOrder
| Store (op : Op)
| RetainedBytes
| Count (c : Counter)
| RecordDeadlineScan (now_ms failures : Z)
| LockSubmissions
| UnlockSubmissions
| NotifyWaiters
| StillRunning.

Definition effect_reply (e : Effect) : Type :=
  match e with
  | UnixMsNow => Z
  | HashOrder => nat
  | Store op => StoreResult (answer op)
  | RetainedBytes => StoreResult Z
  | Count _ | RecordDeadlineScan _ _ | LockSubmissions | UnlockSubmissions | NotifyWaiters
  | StillRunning => unit
  end.

(** ** Programs *)

Inductive Prog (E A : Type) : Type :=
| Done (r : Result A E)
| Panic
| Call (e : Effect) (k : effect_reply e -> Prog E A).
Arguments Done {E A} r.
Arguments Panic {E A}.
Arguments Call {E A} e k.

Fixpoint bindP {E A B} (p : Prog E A) (k : A -> Prog E B) : Prog E B :=
  match p with
  | Done (Ok a) => k a
  | Done (Err e) => Done (Err e)
  | Panic => Panic
  | Call e c => Call e (fun x => bindP (c x) k)
  end.

(** [.map_err(f)] on what a program returns. *)
Fixpoint map_errP {E E' A} (f : E -> E') (p : Prog E A) : Prog E' A :=
  match p with
  | Done r => Done (map_err f r)
  | Panic => Panic
  | Call e c => Call e (fun x => map_errP f (c x))
  end.

(** A [match] on what an awaited program returned. *)
Fixpoint handleP {E E' A B} (p : Prog E A) (k : Result A E -> Prog E' B) : Prog E' B :=
  match p with
  | Done r => k r
  | Panic => Panic
  | Call e c => Call e (fun x => handleP (c x) k)
  end.

Notation "'do!' x := p 'in' k" := (bindP p (fun x => k))
  (at level 10, x pattern, p at level 100, k at level 200) : keryx_scope.

Definition retP {E A} (a : A) : Prog E A := Done (Ok a).
Definition throwP {E A} (e : E) : Prog E A := Done (Err e).
Definition liftP {E A} (r : Result A E) : Prog E A := Done r.

Definition unix_ms_now {E} : Prog E Z := Call UnixMsNow (fun z => retP z).
Definition hash_order {E} : Prog E nat := Call HashOrder (fun n => retP n).
Definition store (op : Op) : Prog StoreError (answer op) := Call (Store op) (fun r => Done r).
Definition ask_retained_bytes : Prog StoreError Z := Call RetainedBytes (fun r => Done r).
Definition count {E} (c : Counter) : Prog E unit := Call (Count c) (fun _ => retP tt).
Definition notify_waiters {E} : Prog E unit := Call NotifyWaiters (fun _ => retP tt).

(** Where a loop stands when the fuel of its model is used up: a thread that
    has not ended and has no step of the model left. It never proceeds. *)
Definition still_running {E A} : Prog E A := Call StillRunning (fun _ => Panic).

(** What a guard that is dropped at the end of its scope does: on every way
    out, a panic included. *)
Fixpoint finally {E A} (e : Effect) (p : Prog E A) : Prog E A :=
  match p with
  | Done r => Call e (fun _ => Done r)
  | Panic => Call e (fun _ => Panic)
  | Call f c => Call f (fun x => finally e (c x))
  end.

(** [let _guard = submit_backpressure_lock.lock().await]. *)
Definition with_submission_lock {E A} (p : Prog E A) : Prog E A :=
  Call LockSubmissions (fun _ => finally UnlockSubmissions p).

(** ** The daemon's state *)

Record Metrics : Type := MkMetrics {
  tasks_submitted : Z;
  tasks_claimed : Z;
  tasks_completed : Z;
  tasks_failed : Z;
  heartbeats : Z;
  leases_recovered : Z;
  recovery_ticks : Z;
  dead_letters : Z;
  active_leases : Z;
}.

Record CancellationState : Type := MkCancellation {
  cancel_requests : Z;
  tasks_canceled : Z;
  deadline_ticks : Z;
  deadline_failures : Z;
  last_deadline_scan_ms : Z;
  last_deadline_failures : Z;
}.

Definition no_metrics : Metrics := MkMetrics 0 0 0 0 0 0 0 0 0.
Definition no_cancellations : CancellationState := MkCancellation 0 0 0 0 0 0.

(** [fetch_add(1)] on an [AtomicU64], [fetch_add] and [fetch_sub] on the
    [AtomicI64] gauge. *)
Definition bump (x : Z) : Z := as_u64 (x + 1).
Definition gauge_add (x d : Z) : Z := as_i64 (x + d).

Definition count_metric (c : Counter) (m : Metrics) : Metrics :=
  let 'MkMetrics sub cl co fa hb lr rt dl act := m in
  match c with
  | TasksSubmitted => MkMetrics (bump sub) cl co fa hb lr rt dl act
  | TasksClaimed => MkMetrics sub (bump cl) co fa hb lr rt dl (gauge_add act 1)
  | TasksCompleted => MkMetrics sub cl (bump co) fa hb lr rt dl (gauge_add act (-1))
  | TasksFailed => MkMetrics sub cl co (bump fa) hb lr rt dl (gauge_add act (-1))
  | Heartbeats => MkMetrics sub cl co fa (bump hb) lr rt dl act
  | LeasesRecovered => MkMetrics sub cl co fa hb (bump lr) rt dl (gauge_add act (-1))
  | RecoveryTicks => MkMetrics sub cl co fa hb lr (bump rt) dl act
  | DeadLetters => MkMetrics sub cl co fa hb lr rt (bump dl) act
  | CancelRequests | TasksCanceled => m
  end.

Definition count_cancellation (c : Counter) (s : CancellationState) : CancellationState :=
  let 'MkCancellation req can ticks fails scan last := s in
  match c with
  | CancelRequests => MkCancellation (bump req) can ticks fails scan last
  | TasksCanceled => MkCancellation req (bump can) ticks fails scan last
  | _ => s
  end.

Definition record_deadline_scan (now_ms failures : Z) (s : CancellationState) : CancellationState :=
  MkCancellation (cancel_requests s) (tasks_canceled s) (bump (deadline_ticks s))
    (as_u64 (deadline_failures s + failures)) now_ms failures.

(** The world: the store, the counters, whether the submission lock is taken,
    and what the clock and the hash seeds will say next. *)
Record World (S : Type) : Type := MkWorld {
  w_store : S;
  w_clock : nat -> Z;
  w_orders : nat -> nat;
  w_metrics : Metrics;
  w_cancellation : CancellationState;
  w_locked : bool;
}.
Arguments MkWorld {S} w_store w_clock w_orders w_metrics w_cancellation w_locked.
Arguments w_store {S} w.
Arguments w_clock {S} w.
Arguments w_orders {S} w.
Arguments w_metrics {S} w.
Arguments w_cancellation {S} w.
Arguments w_locked {S} w.

(** A store with the query that only the daemon asks. *)
Class DaemonStore (S : Type) : Type := {
  daemon_api :: StoreApi S;
  api_retained_bytes : ST S StoreError Z;
}.

Section perform.
Context {S : Type} `{DaemonStore S}.

Definition on_store (f : S -> S) (w : World S) : World S :=
  MkWorld (f (w_store w)) (w_clock w) (w_orders w) (w_metrics w) (w_cancellation w) (w_locked w).

Definition with_store (w : World S) (s : S) : World S := on_store (fun _ => s) w.

Definition perform (e : Effect) (w : World S) : effect_reply e * World S :=
  let 'MkWorld s clock orders m c lock := w in
  match e with
  | UnixMsNow => (clock 0%nat, MkWorld s (fun n => clock (Datatypes.S n)) orders m c lock)
  | HashOrder => (orders 0%nat, MkWorld s clock (fun n => orders (Datatypes.S n)) m c lock)
  | Store op => let (r, s') := call op s in (r, MkWorld s' clock orders m c lock)
  | RetainedBytes =>
      let (r, s') := api_retained_bytes s in (r, MkWorld s' clock orders m c lock)
  | Count k => (tt, MkWorld s clock orders (count_metric k m) (count_cancellation k c) lock)
  | RecordDeadlineScan now n =>
      (tt, MkWorld s clock orders m (record_deadline_scan now n c) lock)
  | LockSubmissions => (tt, MkWorld s clock orders m c true)
  | UnlockSubmissions => (tt, MkWorld s clock orders m c false)
  | NotifyWaiters | StillRunning => (tt, w)
  end.

(** A handler on its own: what it returned, [None] for a panic. *)
Fixpoint run {E A} (p : Prog E A) (w : World S) : option (Result A E) * World S :=
  match p with
  | Done r => (Some r, w)
  | Panic => (None, w)
  | Call e k => let (x, w') := perform e w in run (k x) w'
  end.

(** ** Interleaving *)

(** A lock that is taken is waited for, and a loop without fuel stands still. *)
Definition enabled (e : Effect) (w : World S) : bool :=
  match e with LockSubmissions => negb (w_locked w) | StillRunning => false | _ => true end.

Record Pool (E A : Type) : Type := MkPool { threads : list (Prog E A); world : World S }.
Arguments MkPool {E A} threads world.
Arguments threads {E A} p.
Arguments world {E A} p.

(** Thread [i] performs its next effect, if it has one and may. *)
Definition advance {E A} (i : nat) (p : Pool E A) : Pool E A :=
  match threads p !! i with
  | Some (Call e k) =>
      if enabled e (world p)
      then let (x, w') := perform e (world p) in MkPool (<[i := k x]> (threads p)) w'
      else p
  | _ => p
  end.

Fixpoint run_schedule {E A} (schedule : list nat) (p : Pool E A) : Pool E A :=
  match schedule with
  | [] => p
  | i :: schedule => run_schedule schedule (advance i p)
  end.
End perform.
Arguments Pool S E A : clear implicits.
Arguments MkPool {S E A} threads world.
Arguments threads {S E A} p.
Arguments world {S E A} p.

(** ** The two stores *)

#[export] Instance sql_daemon violation : DaemonStore Conn := {
  daemon_api := sql_api violation;
  api_retained_bytes := retained_task_envelope_bytes;
}.

(** What the in-memory store would answer. *)
Definition mem_retained_bytes : ST InMemoryState StoreError Z := fun s =>
  (Ok (as_u64 (foldr Z.add 0
    ((fun e => Z.of_nat (length (en_encoded_envelope e))) <$> (map_to_list (envelopes s)).*2))), s).

#[export] Instance mem_daemon : DaemonStore InMemoryState := {
  daemon_api := mem_api;
  api_retained_bytes := mem_retained_bytes;
}.
