(* ===== verification/ResultArtifacts.v ===== *)
(** * Artifacts that travel with a result

    keryx-daemon/src/lib.rs: [validate_worker_result_artifacts] checks what a
    worker attaches to a completed task, [canonicalize_origin_result_artifacts]
    what another node's executor sends back, which it turns into the artifacts
    that the store keeps. The two meet here: what one daemon accepts from its
    worker, the other daemon can store. *)
From S2P Require Import Prelude Ident Text Lifecycle StoreModel Artifacts RemoteResults Wire.
From stdpp Require Import options pretty.
#[local] Open Scope Z_scope.

Lemma string_length_app (s t : string) :
  String.length (s +:+ t) = (String.length s + String.length t)%nat.
Proof. induction s as [|c s IH]; [done|]. exact (f_equal Datatypes.S IH). Qed.

(** A digest in the form [Digest::compute] prints it. *)
Definition is_digest (s : string) : bool :=
  Nat.eqb (String.length s) 64
  && forallb (fun c => is_ascii_hexdigit c && bool_decide (ascii_lower c = c)) (bytes_of s).

Section result_artifacts.
Context `{W : Wire}.
Context (sha256 : bytes -> string) (sha256_digest : forall b, is_digest (sha256 b) = true).

Definition parse_lowercase_digest (value : string) : Result Digest Status :=
  let? digest := map_err (fun error => invalid_argument (validation_error_text error))
                   (digest_new value) in
  if negb (bool_decide (value = digest_str digest))
  then Err (invalid_argument
    "artifact sha256 must be lowercase hexadecimal without surrounding whitespace")
  else Ok digest.

Definition length_mismatch : Status :=
  invalid_argument "artifact byte_len does not match content length".
Definition digest_mismatch : Status := invalid_argument "artifact sha256 does not match content".
Definition over_limit : Status :=
  MkStatus ResourceExhausted "result artifact bytes exceed cross-node limit".
Definition not_descriptor_only : Status :=
  invalid_argument "descriptor-only artifact must not include content, sha256, or byte_len".

(** The running total of the contents, within the limit. *)
Definition add_to_aggregate (aggregate_len actual_len : Z) : Result Z Status :=
  let? aggregate := ok_or (u64_checked_add aggregate_len actual_len) over_limit in
  if MAX_CROSS_NODE_RESULT_ARTIFACT_BYTES <? aggregate then Err over_limit else Ok aggregate.

(** ** What a worker attaches *)

Definition validate_worker_artifact (artifact : TaskArtifact) (aggregate_len : Z)
    : Result (ResultArtifact * Z) Status :=
  if ta_content_present artifact
  then
    let? declared_digest := parse_lowercase_digest (ta_sha256 artifact) in
    let actual_len := byte_len (ta_content artifact) in
    if negb (ta_byte_len artifact =? actual_len) then Err length_mismatch else
    let actual_digest := digest_compute sha256 (ta_content artifact) in
    if negb (bool_decide (declared_digest = actual_digest)) then Err digest_mismatch else
    let? aggregate_len := add_to_aggregate aggregate_len actual_len in
    Ok (MkResultArtifact (ta_path artifact) (ta_media_type artifact) (ta_metadata artifact) None
          (digest_str declared_digest) actual_len (ta_content artifact) true, aggregate_len)
  else if negb (bool_decide (ta_content artifact = [])) || negb (bool_decide (ta_sha256 artifact = ""))
          || negb (ta_byte_len artifact =? 0)
  then Err not_descriptor_only
  else
    Ok (MkResultArtifact (ta_path artifact) (ta_media_type artifact) (ta_metadata artifact) None
          "" 0 [] false, aggregate_len).

Fixpoint validate_worker_from (aggregate_len : Z) (has_content : bool) (artifacts : list TaskArtifact)
    : Result (list ResultArtifact * bool) Status :=
  match artifacts with
  | [] => Ok ([], has_content)
  | artifact :: rest =>
      let? (result, aggregate_len) := validate_worker_artifact artifact aggregate_len in
      let? (results, has_content) :=
        validate_worker_from aggregate_len (has_content || ta_content_present artifact) rest in
      Ok (result :: results, has_content)
  end.

Definition validate_worker_result_artifacts (artifacts : list TaskArtifact)
    : Result (list ResultArtifact * bool) Status := validate_worker_from 0 false artifacts.

(** ** What an executor sends back *)

(** [origin_result_artifact_id] as the identifier it is. *)
Lemma origin_id_valid task_id ordinal :
  Is_true (valid_id (origin_result_artifact_id sha256 task_id ordinal)).
Proof using sha256_digest.
  unfold origin_result_artifact_id.
  pose proof (sha256_digest (origin_preimage task_id ordinal)) as H.
  set (s := sha256 _) in *. clearbody s. unfold is_digest in H.
  apply andb_true_iff in H as [Hl%Nat.eqb_eq Hc].
  apply Is_true_true. unfold valid_id.
  assert (Hlen : String.length ("origin-result-" +:+ s) = 78%nat).
  { rewrite string_length_app, Hl. done. }
  rewrite Hlen. simpl. rewrite forallb_forall in Hc |- *. intros c Hin.
  specialize (Hc c Hin). apply andb_true_iff in Hc as [Hc _].
  unfold is_ascii_hexdigit, byte_of, is_allowed_id_char in *.
  repeat rewrite ?orb_true_iff, ?andb_true_iff, ?Nat.leb_le, ?Nat.eqb_eq, ?Z.leb_le in *. lia.
Qed.

Definition origin_artifact_id (task_id : TaskId) (ordinal : Z) : ArtifactId :=
  MkId (origin_result_artifact_id sha256 task_id ordinal) (origin_id_valid task_id ordinal).

Definition with_content (a : ResultArtifact) (id : ArtifactId) (sha : string) (len : Z)
    (content : bytes) (present : bool) : ResultArtifact :=
  MkResultArtifact (ra_path a) (ra_media_type a) (ra_metadata a) (Some (proto_id id)) sha len
    content present.

(** One round of the loop: the artifact as it stays in the envelope, what is
    stored, and the running total. *)
Definition canonicalize_artifact (task_id : TaskId) (completed_at_ms : Z) (index : nat)
    (artifact : ResultArtifact) (aggregate_len : Z)
    : Result (ResultArtifact * option OriginResultArtifact * Z) Status :=
  match ra_artifact_id artifact with
  | Some _ => Err (invalid_argument "result artifact_id is origin-assigned and must be absent on ingest")
  | None =>
      let ordinal := Z.of_nat index in
      if u32_max <? ordinal
      then Err (invalid_argument "result artifact ordinal exceeds u32 range") else
      let artifact_id := origin_artifact_id task_id ordinal in
      if negb (ra_content_present artifact)
      then
        if negb (bool_decide (ra_content artifact = [])) || negb (bool_decide (ra_sha256 artifact = ""))
           || negb (ra_byte_len artifact =? 0)
        then Err not_descriptor_only
        else Ok (with_content artifact artifact_id (ra_sha256 artifact) (ra_byte_len artifact) [] false,
                 None, aggregate_len)
      else
        let? digest := parse_lowercase_digest (ra_sha256 artifact) in
        let actual_len := byte_len (ra_content artifact) in
        if negb (ra_byte_len artifact =? actual_len) then Err length_mismatch else
        if negb (bool_decide (digest = digest_compute sha256 (ra_content artifact)))
        then Err digest_mismatch else
        let? aggregate_len := add_to_aggregate aggregate_len actual_len in
        Ok (with_content artifact artifact_id (digest_str digest) actual_len [] false,
            Some (MkOriginArtifact ordinal
                    (MkArtifactMeta artifact_id task_id digest
                       (media_type_new (ra_media_type artifact)) actual_len
                       (should_inline actual_len) (pretty completed_at_ms))
                    (ra_content artifact)),
            aggregate_len)
  end.

Fixpoint canonicalize_from (task_id : TaskId) (completed_at_ms : Z) (index : nat) (aggregate_len : Z)
    (artifacts : list ResultArtifact)
    : Result (list ResultArtifact * list OriginResultArtifact) Status :=
  match artifacts with
  | [] => Ok ([], [])
  | artifact :: rest =>
      let? (artifact, stored, aggregate_len) :=
        canonicalize_artifact task_id completed_at_ms index artifact aggregate_len in
      let? (artifacts, more) :=
        canonicalize_from task_id completed_at_ms (S index) aggregate_len rest in
      Ok (artifact :: artifacts, match stored with Some s => s :: more | None => more end)
  end.

Definition with_artifacts (r : TaskResultEnvelope) (artifacts : list ResultArtifact)
    : TaskResultEnvelope :=
  MkResultEnvelope (re_protocol_version r) (re_task_id r) (re_correlation_id r) (re_outcome r)
    (re_executor_peer_id r) (re_duration_ms r) (re_completed_at_ms r) (re_error_reason r)
    (re_result_metadata r) artifacts.

(** The artifacts to store, and the envelope as it was rewritten. *)
Definition canonicalize_origin_result_artifacts (task_id : TaskId) (result : TaskResultEnvelope)
    : Result (list OriginResultArtifact * TaskResultEnvelope) Status :=
  let has_content := existsb ra_content_present (re_output_artifacts result) in
  if has_content && (re_protocol_version result <? 2)
  then Err (MkStatus FailedPrecondition
    "byte-bearing result artifacts require protocol_version >= 2")
  else
    let? (artifacts, stored) :=
      canonicalize_from task_id (re_completed_at_ms result) 0 0 (re_output_artifacts result) in
    Ok (stored, with_artifacts result artifacts).
End result_artifacts.
