(* ===== verification/Daemon.v ===== *)
(** * The daemon's task service

    keryx-daemon/src/lib.rs: authorization, the submission limits and the
    handlers of the task RPCs, as programs over the store; the ticks of the
    background loops (deadline_enforcement_loop.rs, lease_recovery_loop.rs,
    health_loop.rs). A handler starts by entering the in-flight guard, which
    Shutdown models; what follows is here. *)
From S2P Require Import Prelude Ident Text Lifecycle StoreModel Api Policy Wire Rpc Program.
From S2P Require Import ResultArtifacts.
From stdpp Require Import pretty options.
From Stdlib Require Import Ascii.
#[local] Open Scope Z_scope.

(** ** Configuration *)

Record KeryxDaemonConfig : Type := MkConfig {
  local_peer_id : PeerId;
  lease_default_ttl_ms : Z;
  fail_retry_policy : RetryPolicy;
  limits : LimitsConfig;
  daemon_rpc_token : option string;
  send_task_timeout_ms : Z;
}.

Definition CLAIM_NEXT_SCAN_LIMIT : nat := 256.
Definition MAX_CLAIM_NEXT_WAIT_MS : Z := 30000.
Definition RESULT_ARTIFACT_BYTES_FEATURE : string := "result_artifact_bytes_v1".
Definition AUTHENTICATED_SOURCE_FEATURES_METADATA_KEY : string :=
  "keryx.authenticated_source_protocol_features".

(** ** Authorization *)

(** The comparison loop: it looks at every position of the longer operand. *)
Definition constant_time_token_eq (left right : list Z) : bool :=
  let diff := Z.lxor (Z.of_nat (length left)) (Z.of_nat (length right)) in
  let width := Nat.max (length left) (length right) in
  fold_left (fun diff index =>
      Z.lor diff (Z.lxor (nth index left 0) (nth index right 0))) (seq 0 width) diff =? 0.

(** [authorize_daemon_request], given the authorization header if it is there
    and is text. *)
Definition authorize_daemon_request (cfg : KeryxDaemonConfig) (authorization : option string)
    : Result unit Status :=
  match daemon_rpc_token cfg with
  | None => Ok tt
  | Some expected =>
      let missing := MkStatus Unauthenticated "daemon RPC bearer token is required" in
      let? raw := ok_or authorization missing in
      let? supplied := ok_or (supplied ← Text.strip_prefix "Bearer " raw;
                              if bool_decide (supplied = "") then None else Some supplied) missing in
      if constant_time_token_eq (token_bytes expected) (token_bytes supplied) then Ok tt
      else Err (MkStatus PermissionDenied "daemon RPC bearer token is invalid")
  end.

(** ** Small helpers *)

Definition with_deadline (t : TaskRecord) (deadline_ms : option Z) : TaskRecord :=
  MkTaskRecord (tr_id t) (tr_status t) (tr_idempotency_key t) deadline_ms (tr_retry_count t)
    (tr_dead_lettered t) (tr_dead_letter_reason t).

Definition normalize_lease_duration_ms (cfg : KeryxDaemonConfig) (duration_ms : Z) : Z :=
  if duration_ms <=? 0 then lease_default_ttl_ms cfg else duration_ms.

Definition normalize_claim_wait_ms (wait_timeout_ms : Z) : Z :=
  if wait_timeout_ms <=? 0 then 0 else Z.min wait_timeout_ms MAX_CLAIM_NEXT_WAIT_MS.

(** [None] where [expect] panics. *)
Definition new_lease_id (task_id : TaskId) (leased_at_ms : Z) : option LeaseId :=
  match Id_new "LeaseId" ("lease-" +:+ as_str task_id +:+ "-" +:+ pretty leased_at_ms) with
  | Ok lease_id => Some lease_id
  | Err _ => None
  end.

Definition normalized_filter_set (values : list string) : gset string :=
  list_to_set (filter (fun value => value <> "") (trim <$> values)).

Definition metadata_matches_any (envelope : TaskEnvelope) (keys : list string)
    (accepted : gset string) : bool :=
  if bool_decide (accepted = ∅) then true
  else
    existsb (fun value => bool_decide (value ∈ accepted))
      (filter (fun value => value <> "")
        ((fun piece => trim (of_bytes piece)) <$>
          (omap (fun key => te_metadata envelope !! key) keys
             ≫= (fun value => split_on ","%char (bytes_of value))))).

Definition envelope_matches_claim_filters (envelope : TaskEnvelope)
    (accepted_skill_ids accepted_capability_ids : gset string) : bool :=
  metadata_matches_any envelope ["skill"; "skill_id"; "target_skill_id"; "skills"]
    accepted_skill_ids
  && metadata_matches_any envelope
       ["capability"; "capability_id"; "target_capability_id"; "capabilities"]
       accepted_capability_ids.

Definition empty_claim_next_response : ClaimNextTaskResponse :=
  MkClaimedNext false None None None None 0 0 "" 0 false "".

Definition data_loss (text : string) : Status := MkStatus DataLoss text.
Definition shutting_down : Status := MkStatus Unavailable "daemon is shutting down".

Section daemon.
Context `{W : Wire}.
Context (sha256 : bytes -> string).
Context (cfg : KeryxDaemonConfig).

(** A store call of a handler: [.await.map_err(store_error_to_status)?]. *)
Definition store_rpc (op : Op) : Prog Status (answer op) := map_errP store_error_to_status (store op).

(** [check_...().map_err(|error| StoreError::Validation(error.into()))?]. *)
Definition check_limit (r : Result unit LimitExceeded) : Prog StoreError unit :=
  liftP (map_err (fun e => StoreError.Validation (limit_exceeded_into_validation e)) r).

(** ** Submission under the limits *)

Definition accept_pending_task_with_backpressure (record : TaskRecord) (envelope_bytes : Z)
    : Prog StoreError TaskRecord :=
  do! _ := check_limit (check_envelope_bytes (limits cfg) envelope_bytes) in
  with_submission_lock (
    do! pending_count := store (OpCount Pending) in
    do! _ := check_limit (check_pending_tasks (limits cfg) pending_count) in
    do! accepted := store (OpAccept record) in
    do! _ := notify_waiters in
    retP accepted).

(** The two checks that every queued envelope passes. *)
Definition check_capacity (envelope : TaskEnvelopeRecord) : Prog StoreError unit :=
  do! pending_count := store (OpCount Pending) in
  do! _ := check_limit (check_pending_tasks (limits cfg) pending_count) in
  do! retained_bytes := ask_retained_bytes in
  check_limit (check_retained_envelope_bytes (limits cfg) retained_bytes
                 (Z.of_nat (length (en_encoded_envelope envelope)))).

Definition accept_pending_task_with_envelope_backpressure (record : TaskRecord)
    (envelope : TaskEnvelopeRecord) : Prog StoreError TaskRecord :=
  do! _ := check_limit (check_envelope_bytes (limits cfg)
                          (Z.of_nat (length (en_encoded_envelope envelope)))) in
  with_submission_lock (
    do! _ := check_capacity envelope in
    do! accepted := store (OpAcceptEnvelope record envelope) in
    do! _ := notify_waiters in
    retP accepted).

Definition accept_pending_remote_task_with_backpressure (record : TaskRecord)
    (envelope : TaskEnvelopeRecord) (context : TaskTransportContextRecord)
    : Prog StoreError TaskRecord :=
  do! _ := check_limit (check_envelope_bytes (limits cfg)
                          (Z.of_nat (length (en_encoded_envelope envelope)))) in
  with_submission_lock (
    handleP (store (OpGet (tr_id record))) (fun known =>
      match known with
      | Ok _ => store (OpAcceptContext record envelope context)
      | Err (StoreError.TaskNotFound _) =>
          do! _ := check_capacity envelope in
          do! accepted := store (OpAcceptContext record envelope context) in
          do! _ := notify_waiters in
          retP accepted
      | Err error => throwP error
      end)).

(** ** Submission *)

Definition submitted (accepted : TaskRecord) : SubmitTaskResponse :=
  MkSubmitted (Some (proto_id (tr_id accepted))) (task_status_label (tr_status accepted)).

Definition submit_task (request : SubmitTaskRequest) : Prog Status SubmitTaskResponse :=
  do! envelope := liftP (ok_or (st_envelope request) (invalid_argument "envelope is required")) in
  do! task_id := liftP (parse_required_task_id (te_task_id envelope)) in
  do! idempotency_key := liftP (parse_optional_idempotency_key (te_idempotency_key envelope)) in
  do! _ := liftP (map_err limit_exceeded_to_status
                    (check_envelope_bytes (limits cfg) (encoded_len envelope))) in
  do! deadline_ms := liftP (deadline_from_envelope envelope) in
  do! order := hash_order in
  do! now_ms := unix_ms_now in
  let record := with_deadline (new_task_record task_id Pending idempotency_key) deadline_ms in
  let envelope_record := MkEnvelope task_id (encode_envelope order envelope) now_ms in
  do! accepted := map_errP store_error_to_status
                    (accept_pending_task_with_envelope_backpressure record envelope_record) in
  do! _ := count TasksSubmitted in
  retP (submitted accepted).

Definition parse_peer (text : string) : Result PeerId Status :=
  map_err (fun error => invalid_argument (validation_error_text error)) (Id_new "PeerId" (trim text)).

Definition submit_remote_task (request : SubmitRemoteTaskRequest) : Prog Status SubmitTaskResponse :=
  do! envelope := liftP (ok_or (sm_envelope request) (invalid_argument "envelope is required")) in
  do! task_id := liftP (parse_required_task_id (te_task_id envelope)) in
  do! sender := liftP (parse_peer (sm_authenticated_sender_peer_id request)) in
  do! destination := liftP (parse_peer (sm_destination_peer_id request)) in
  if negb (bool_decide (destination = local_peer_id cfg))
  then throwP (MkStatus PermissionDenied "remote task destination does not match local peer") else
  do! idempotency_key := liftP (parse_optional_idempotency_key (te_idempotency_key envelope)) in
  do! order := hash_order in
  do! now_ms := unix_ms_now in
  do! deadline_ms := liftP (deadline_from_envelope envelope) in
  let record := with_deadline (new_task_record task_id Pending idempotency_key) deadline_ms in
  do! accepted := map_errP store_error_to_status
    (accept_pending_remote_task_with_backpressure record
       (MkEnvelope task_id (encode_envelope order envelope) now_ms)
       (MkContext task_id (Some sender) None destination (Some (sm_relay_frame_id request)) now_ms)) in
  do! _ := count TasksSubmitted in
  retP (submitted accepted).

(** ** Claims *)

Definition claimed (task : TaskRecord) (lease : LeaseRecord) (worker_id : AgentId)
    : ClaimTaskResponse :=
  MkClaimed (Some (proto_id (tr_id task))) (Some (proto_id (lr_lease_id lease)))
    (Some (proto_id worker_id)) (lr_leased_at_ms lease) (lr_expires_at_ms lease)
    (task_status_label (tr_status task)) (tr_retry_count task) (tr_dead_lettered task).

Definition claim_task (request : ClaimTaskRequest) : Prog Status ClaimTaskResponse :=
  do! task_id := liftP (parse_required_task_id (ct_task_id request)) in
  do! worker_id := liftP (parse_required_agent_id (ct_worker_id request)) in
  let lease_duration_ms := normalize_lease_duration_ms cfg (ct_lease_duration_ms request) in
  do! now_ms := unix_ms_now in
  do! _ := store_rpc (OpFailDeadlines now_ms None) in
  do! leased_at_ms := unix_ms_now in
  match new_lease_id task_id leased_at_ms with
  | None => Panic
  | Some lease_id =>
      let lease := new_lease lease_id task_id worker_id leased_at_ms
                     (i64_saturating_add leased_at_ms lease_duration_ms) in
      do! task := store_rpc (OpLeaseForPeer task_id lease (local_peer_id cfg)) in
      do! _ := count TasksClaimed in
      retP (claimed task lease worker_id)
  end.

(** The peer that sent a task; a failed look-up reads as none. *)
Definition return_peer_for_task {E} (task_id : TaskId) : Prog E (option PeerId) :=
  handleP (store (OpGetContext task_id)) (fun context =>
    retP (match context with
          | Ok context => tc_authenticated_sender_peer_id context
          | Err _ => None
          end)).

Definition claimed_next (envelope : TaskEnvelope) (task : TaskRecord) (lease : LeaseRecord)
    (worker_id : AgentId) (sender : option PeerId) : ClaimNextTaskResponse :=
  MkClaimedNext true (Some envelope) (Some (proto_id (tr_id task)))
    (Some (proto_id (lr_lease_id lease))) (Some (proto_id worker_id)) (lr_leased_at_ms lease)
    (lr_expires_at_ms lease) (task_status_label (tr_status task)) (tr_retry_count task)
    (tr_dead_lettered task) (default "" (as_str <$> sender)).

(** The loop over the candidates. *)
Fixpoint claim_first (worker_id : AgentId) (skills capabilities : gset string)
    (lease_duration_ms : Z) (candidates : list PendingTaskEnvelope)
    : Prog Status (option ClaimNextTaskResponse) :=
  match candidates with
  | [] => retP None
  | candidate :: rest =>
      let next := claim_first worker_id skills capabilities lease_duration_ms rest in
      let task_id := tr_id (pe_task candidate) in
      do! envelope := liftP (map_err (fun error => data_loss ("stored envelope for task "
                                        +:+ as_str task_id +:+ " is invalid: " +:+ error))
                               (decode_envelope (en_encoded_envelope (pe_envelope candidate)))) in
      if negb (envelope_matches_claim_filters envelope skills capabilities) then next
      else
        do! leased_at_ms := unix_ms_now in
        match new_lease_id task_id leased_at_ms with
        | None => Panic
        | Some lease_id =>
            let lease := new_lease lease_id task_id worker_id leased_at_ms
                           (i64_saturating_add leased_at_ms lease_duration_ms) in
            handleP (store (OpLeaseForPeer task_id lease (local_peer_id cfg))) (fun leased =>
              match leased with
              | Ok task =>
                  do! _ := count TasksClaimed in
                  do! sender := return_peer_for_task (tr_id task) in
                  retP (Some (claimed_next envelope task lease worker_id sender))
              | Err (StoreError.LeaseConflict _) | Err (StoreError.TaskNotFound _)
              | Err (StoreError.Validation (InvalidTaskTransition _ _)) => next
              | Err error => throwP (store_error_to_status error)
              end)
        end
  end.

Definition try_claim_next_task (worker_id : AgentId) (skills capabilities : gset string)
    (lease_duration_ms : Z) : Prog Status (option ClaimNextTaskResponse) :=
  do! now_ms := unix_ms_now in
  do! _ := store_rpc (OpFailDeadlines now_ms None) in
  do! candidates := store_rpc (OpClaimable (local_peer_id cfg) CLAIM_NEXT_SCAN_LIMIT) in
  claim_first worker_id skills capabilities lease_duration_ms candidates.

(** What ends a round of waiting. *)
Inductive Wakeup : Type := Notified | DeadlineReached | ShutdownSignalled.

(** What a claim that waits meets: the [Instant] (in nanoseconds) at which it
    began, and for each round the [Instant] at which it compared the time with
    its deadline and what ended its [select!]. The loop has no bound of its own:
    [fuel] is how often the model follows it from one round into the next. *)
Record Round : Type := MkRound { checked_at : Z; woken_by : Wakeup }.
Record Waiting : Type := MkWaiting { fuel : nat; began_at : Z; rounds : nat -> Round }.

Fixpoint claim_rounds (attempt : Prog Status (option ClaimNextTaskResponse))
    (wait_timeout_ms deadline : Z) (fuel : nat) (rounds : nat -> Round)
    : Prog Status ClaimNextTaskResponse :=
  do! response := attempt in
  match response with
  | Some response => retP response
  | None =>
      if (wait_timeout_ms =? 0) || (deadline <=? checked_at (rounds 0%nat))
      then retP empty_claim_next_response
      else match woken_by (rounds 0%nat) with
           | Notified =>
               match fuel with
               | O => still_running
               | S fuel => claim_rounds attempt wait_timeout_ms deadline fuel (fun n => rounds (S n))
               end
           | DeadlineReached => retP empty_claim_next_response
           | ShutdownSignalled => throwP shutting_down
           end
  end.

(** [Instant::now() + Duration::from_millis(wait_timeout_ms)]. *)
Definition claim_deadline (began_at wait_timeout_ms : Z) : Z := began_at + wait_timeout_ms * 1000000.

Definition claim_next_task (request : ClaimNextTaskRequest) (waiting : Waiting)
    : Prog Status ClaimNextTaskResponse :=
  do! worker_id := liftP (parse_required_agent_id (cn_worker_id request)) in
  let skills := normalized_filter_set (cn_accepted_skill_ids request) in
  let capabilities := normalized_filter_set (cn_accepted_capability_ids request) in
  let lease_duration_ms := normalize_lease_duration_ms cfg (cn_lease_duration_ms request) in
  let wait_timeout_ms := normalize_claim_wait_ms (cn_wait_timeout_ms request) in
  let deadline := claim_deadline (began_at waiting) wait_timeout_ms in
  claim_rounds (try_claim_next_task worker_id skills capabilities lease_duration_ms)
    wait_timeout_ms deadline (fuel waiting) (rounds waiting).

Definition heartbeat (request : HeartbeatRequest) : Prog Status HeartbeatResponse :=
  do! task_id := liftP (parse_required_task_id (hb_task_id request)) in
  do! lease_id := liftP (parse_required_lease_id (hb_lease_id request)) in
  do! worker_id := liftP (parse_required_agent_id (hb_worker_id request)) in
  let lease_duration_ms := normalize_lease_duration_ms cfg (hb_lease_duration_ms request) in
  do! now_ms := unix_ms_now in
  do! renewed := store_rpc (OpRenew task_id lease_id worker_id now_ms
                              (i64_saturating_add now_ms lease_duration_ms)) in
  do! _ := count Heartbeats in
  retP (MkHeartbeatDone (Some (proto_id (lr_lease_id renewed))) (lr_expires_at_ms renewed)).

(** ** Reports *)

Definition authenticated_source_features_for_task (task_id : TaskId) : Prog Status (list string) :=
  do! record := store_rpc (OpGetEnvelope task_id) in
  do! envelope := liftP (map_err (fun error => data_loss ("invalid stored task envelope: " +:+ error))
                           (decode_envelope (en_encoded_envelope record))) in
  match te_metadata envelope !! AUTHENTICATED_SOURCE_FEATURES_METADATA_KEY with
  | None => retP []
  | Some encoded_features =>
      liftP (map_err (fun error =>
                data_loss ("invalid authenticated source feature snapshot: " +:+ error))
               (features_from_json encoded_features))
  end.

(** The correlation id of the stored envelope; every failure reads as none. *)
Definition stored_correlation_id {E} (task_id : TaskId) : Prog E (option ProtoId) :=
  handleP (store (OpGetEnvelope task_id)) (fun record =>
    retP (match record with
          | Ok record =>
              match decode_envelope (en_encoded_envelope record) with
              | Ok envelope => te_correlation_id envelope
              | Err _ => None
              end
          | Err _ => None
          end)).

Definition build_terminal_result (task_id : TaskId) (outcome : TerminalOutcome) (duration_ms : Z)
    (error_reason : string) (result_metadata : Metadata) (artifacts : list TaskArtifact)
    : Prog Status TaskResultEnvelope :=
  do! correlation_id := stored_correlation_id task_id in
  do! (output_artifacts, has_content) :=
    liftP (validate_worker_result_artifacts sha256 artifacts) in
  do! completed_at_ms := unix_ms_now in
  retP (MkResultEnvelope (if has_content then 2 else 1) (Some (proto_id task_id)) correlation_id
          (TerminalOutcome.to_i32 outcome) (as_str (local_peer_id cfg)) duration_ms completed_at_ms
          error_reason result_metadata output_artifacts).

(** Byte-bearing results go only to a peer that can take them. *)
Definition check_return_peer_features (task_id : TaskId) (return_peer_id : option PeerId)
    (has_content : bool) : Prog Status unit :=
  match return_peer_id with
  | Some return_peer_id =>
      if has_content
      then
        do! features := authenticated_source_features_for_task task_id in
        if existsb (fun feature => bool_decide (feature = RESULT_ARTIFACT_BYTES_FEATURE)) features
        then retP tt
        else throwP (MkStatus FailedPrecondition ("destination peer " +:+ as_str return_peer_id
               +:+ " did not advertise protocol feature " +:+ RESULT_ARTIFACT_BYTES_FEATURE
               +:+ " when the task was accepted"))
      else retP tt
  | None => retP tt
  end.

Definition complete_task (request : CompleteTaskRequest) : Prog Status CompleteTaskResponse :=
  do! task_id := liftP (parse_required_task_id (cp_task_id request)) in
  do! lease_id := liftP (parse_required_lease_id (cp_lease_id request)) in
  do! worker_id := liftP (parse_required_agent_id (cp_worker_id request)) in
  do! (_, has_content) :=
    liftP (validate_worker_result_artifacts sha256 (cp_output_artifacts request)) in
  do! return_peer_id := return_peer_for_task task_id in
  do! _ := check_return_peer_features task_id return_peer_id has_content in
  do! result := build_terminal_result task_id TerminalOutcome.Completed (cp_duration_ms request) ""
                  (cp_result_metadata request) (cp_output_artifacts request) in
  do! order := hash_order in
  let stored := MkTerminalResult task_id (encode_result order result) Completed return_peer_id
                  (local_peer_id cfg) (re_completed_at_ms result) in
  do! task := store_rpc (OpCompleteResult task_id lease_id worker_id stored) in
  do! _ := count TasksCompleted in
  retP (MkCompletedTask (Some (proto_id (tr_id task))) (task_status_label (tr_status task))
          (cp_duration_ms request) (cp_result_metadata request) (cp_output_artifacts request)).

Definition fail_task (request : FailTaskRequest) : Prog Status FailTaskResponse :=
  do! task_id := liftP (parse_required_task_id (ft_task_id request)) in
  do! lease_id := liftP (parse_required_lease_id (ft_lease_id request)) in
  do! worker_id := liftP (parse_required_agent_id (ft_worker_id request)) in
  do! result := build_terminal_result task_id TerminalOutcome.Failed (ft_duration_ms request)
                  (ft_error_reason request) (ft_failure_metadata request) [] in
  do! order := hash_order in
  do! return_peer_id := return_peer_for_task task_id in
  let stored := MkTerminalResult task_id (encode_result order result) Failed return_peer_id
                  (local_peer_id cfg) (re_completed_at_ms result) in
  do! task := store_rpc (OpFailResult task_id lease_id worker_id (ft_error_reason request)
                           (fail_retry_policy cfg) stored) in
  do! _ := count TasksFailed in
  do! _ := (if tr_dead_lettered task then count DeadLetters else retP tt) in
  retP (MkFailedTask (Some (proto_id (tr_id task))) (task_status_label (tr_status task))
          (ft_duration_ms request) (ft_error_reason request) (ft_failure_metadata request)
          (tr_retry_count task) (tr_dead_lettered task)).

(** ** Cancellation *)

Definition canceled_response (task_id : TaskId) (reason : string) : CancelTaskResponse :=
  MkCanceledTask (Some (proto_id task_id)) "canceled" reason true.

Definition existing_canceled_response (task_id : TaskId)
    : Prog Status (option CancelTaskResponse) :=
  handleP (store (OpGetResult task_id)) (fun stored =>
    match stored with
    | Err (StoreError.TerminalResultNotFound _) => retP None
    | Err error => throwP (store_error_to_status error)
    | Ok stored =>
        do! result := liftP (map_err (fun error => data_loss ("stored terminal result for task "
                                        +:+ as_str task_id +:+ " is invalid: " +:+ error))
                               (decode_result (rs_encoded_result stored))) in
        if negb (re_outcome result =? TerminalOutcome.to_i32 TerminalOutcome.Canceled)
        then retP None
        else retP (Some (canceled_response task_id (re_error_reason result)))
    end).

(** A task that another node executes is not canceled here. *)
Definition check_local_executor (task_id : TaskId) : Prog Status unit :=
  handleP (store (OpGetContext task_id)) (fun context =>
    match context with
    | Ok context =>
        match tc_expected_executor_peer_id context with
        | Some expected =>
            if bool_decide (expected = local_peer_id cfg) then retP tt
            else throwP (MkStatus FailedPrecondition
              "cross-node cancellation is unavailable; remote-target tasks fail closed")
        | None => retP tt
        end
    | Err (StoreError.TransportContextNotFound _) => retP tt
    | Err error => throwP (store_error_to_status error)
    end).

Definition canceled_result (task_id : TaskId) (reason : string) (metadata : Metadata) (now_ms : Z)
    : TaskResultEnvelope :=
  MkResultEnvelope 2 (Some (proto_id task_id)) None
    (TerminalOutcome.to_i32 TerminalOutcome.Canceled) (as_str (local_peer_id cfg)) 0 now_ms reason
    metadata [].

Definition cancel_task (request : CancelTaskRequest) : Prog Status CancelTaskResponse :=
  do! task_id := liftP (parse_required_task_id (ca_task_id request)) in
  do! lease_id := liftP (parse_optional_lease_id (ca_lease_id request)) in
  do! worker_id := liftP (parse_optional_agent_id (ca_worker_id request)) in
  let reason := normalized_cancel_reason (ca_reason request) in
  do! _ := check_local_executor task_id in
  do! _ := count CancelRequests in
  do! existing := existing_canceled_response task_id in
  match existing with
  | Some response => retP response
  | None =>
      do! now_ms := unix_ms_now in
      do! order := hash_order in
      do! return_peer_id := return_peer_for_task task_id in
      let result := canceled_result task_id reason (ca_metadata request) now_ms in
      handleP (store (OpCancelResult task_id lease_id worker_id now_ms
          (MkTerminalResult task_id (encode_result order result) Failed return_peer_id
             (local_peer_id cfg) now_ms))) (fun canceled =>
        match canceled with
        | Ok task =>
            do! _ := count TasksCanceled in
            retP (canceled_response (tr_id task) reason)
        | Err error =>
            handleP (existing_canceled_response task_id) (fun existing =>
              match existing with
              | Ok (Some response) => retP response
              | _ => throwP (store_error_to_status error)
              end)
        end)
  end.

(** ** Results *)

Definition get_task_result (request : GetTaskResultRequest) : Prog Status GetTaskResultResponse :=
  do! task_id := liftP (parse_required_task_id (gr_task_id request)) in
  do! task := store_rpc (OpGet task_id) in
  do! events := store_rpc (OpEvents task_id) in
  let update_sequence := Z.of_nat (length events) in
  handleP (store (OpGetResult task_id)) (fun record =>
    match record with
    | Ok record =>
        do! result := liftP (map_err (fun error => data_loss ("invalid stored terminal result: "
                                        +:+ error))
                               (decode_result (rs_encoded_result record))) in
        do! status := liftP (terminal_result_status result) in
        retP (MkTaskResult true status (Some result) update_sequence false "")
    | Err (StoreError.TerminalResultNotFound _) =>
        retP (MkTaskResult false (task_status_label (tr_status task)) None update_sequence
                (is_terminal (tr_status task))
                (if is_terminal (tr_status task) then "terminal_result_unavailable" else ""))
    | Err error => throwP (store_error_to_status error)
    end).

(** ** The service *)

Inductive DaemonRequest : Type :=
| ReqSubmitTask (r : SubmitTaskRequest)
| ReqSubmitRemoteTask (r : SubmitRemoteTaskRequest)
| ReqClaimTask (r : ClaimTaskRequest)
| ReqClaimNextTask (r : ClaimNextTaskRequest) (waiting : Waiting)
| ReqHeartbeat (r : HeartbeatRequest)
| ReqCompleteTask (r : CompleteTaskRequest)
| ReqFailTask (r : FailTaskRequest)
| ReqCancelTask (r : CancelTaskRequest)
| ReqGetTaskResult (r : GetTaskResultRequest).

Inductive DaemonResponse : Type :=
| RespSubmitted (r : SubmitTaskResponse)
| RespClaimed (r : ClaimTaskResponse)
| RespClaimedNext (r : ClaimNextTaskResponse)
| RespHeartbeat (r : HeartbeatResponse)
| RespCompleted (r : CompleteTaskResponse)
| RespFailed (r : FailTaskResponse)
| RespCanceled (r : CancelTaskResponse)
| RespTaskResult (r : GetTaskResultResponse).

Definition respond {A} (f : A -> DaemonResponse) (p : Prog Status A) : Prog Status DaemonResponse :=
  do! a := p in retP (f a).

Definition handle (request : DaemonRequest) : Prog Status DaemonResponse :=
  match request with
  | ReqSubmitTask r => respond RespSubmitted (submit_task r)
  | ReqSubmitRemoteTask r => respond RespSubmitted (submit_remote_task r)
  | ReqClaimTask r => respond RespClaimed (claim_task r)
  | ReqClaimNextTask r waiting => respond RespClaimedNext (claim_next_task r waiting)
  | ReqHeartbeat r => respond RespHeartbeat (heartbeat r)
  | ReqCompleteTask r => respond RespCompleted (complete_task r)
  | ReqFailTask r => respond RespFailed (fail_task r)
  | ReqCancelTask r => respond RespCanceled (cancel_task r)
  | ReqGetTaskResult r => respond RespTaskResult (get_task_result r)
  end.

(** Every handler of the task service authorizes its request first. *)
Definition serve (authorization : option string) (request : DaemonRequest)
    : Prog Status DaemonResponse :=
  do! _ := liftP (authorize_daemon_request cfg authorization) in
  handle request.
End daemon.

(** ** Background loops *)

(** [DeadlineEnforcementLoop::tick]. *)
Definition deadline_tick {E} : Prog E unit :=
  do! now_ms := unix_ms_now in
  handleP (store (OpFailDeadlines now_ms None)) (fun expired =>
    let failures := match expired with Ok tasks => Z.of_nat (length tasks) | Err _ => 0 end in
    Call (RecordDeadlineScan now_ms failures) (fun _ => retP tt)).

(** [LeaseRecoveryLoop::tick]. *)
Definition recovery_tick {E} : Prog E unit :=
  do! _ := count RecoveryTicks in
  do! now_ms := unix_ms_now in
  handleP (store (OpRecover now_ms None)) (fun report =>
    match report with
    | Ok report => foldr (fun _ p => do! _ := count LeasesRecovered in p) (retP tt)
                     (rr_recovered_tasks report)
    | Err _ => retP tt
    end).

Record DynamicReadiness : Type := MkReadiness { ready : bool; not_ready_reasons : list string }.

Section health.
Context `{W : Wire}.

(** [{:?}] of the corrupted tasks. *)
Definition debug_task_ids (ids : list TaskId) : string :=
  let quote := String "034"%char "" in
  "[" +:+ String.concat ", " ((fun i => "TaskId(" +:+ quote +:+ as_str i +:+ quote +:+ ")") <$> ids)
  +:+ "]".

(** [probe_store_readiness], given what the schema table says. *)
Definition probe_store_readiness {E} (supported : Z) (schema_version : StoreResult Z)
    : Prog E DynamicReadiness :=
  let schema_reasons :=
    match schema_version with
    | Ok version =>
        if version =? supported then []
        else ["schema_version mismatch: found=" +:+ pretty version +:+ " supported="
              +:+ pretty supported]
    | Err error => ["store connectivity failed: " +:+ store_error_text error]
    end in
  do! now_ms := unix_ms_now in
  handleP (store (OpRecover now_ms None)) (fun report =>
    let reasons := (schema_reasons ++
      match report with
      | Ok report =>
          match rr_corrupted_tasks report with
          | [] => []
          | corrupted => ["corruption_count=" +:+ pretty (Z.of_nat (length corrupted))
                          +:+ " corrupted_tasks=" +:+ debug_task_ids corrupted]
          end
      | Err (StoreError.UnrepairedCorruption corrupted) =>
          ["unrepaired_corruption: corrupted_tasks=" +:+ debug_task_ids corrupted]
      | Err error => ["store health probe failed: " +:+ store_error_text error]
      end)%list in
    retP (MkReadiness (bool_decide (reasons = [])) reasons)).
End health.

(** The recovery at startup: corruption that it finds ends the start. *)
Definition startup_recovery (now_ms : Z) : Prog StoreError RecoveryReport :=
  do! report := store (OpRecover now_ms None) in
  match rr_corrupted_tasks report with
  | [] => retP report
  | corrupted => throwP (StoreError.UnrepairedCorruption corrupted)
  end.
