(* ===== verification/WireSamples.v ===== *)
(** * A concrete wire format, and sample requests

    An encoder and a decoder that satisfy [WireLaws], so that the theorems
    about the daemon apply to something that runs: a byte for the order of the
    hash maps, then the bits of the message's number. *)
From S2P Require Import Prelude Ident Text Lifecycle StoreModel Samples Wire Rpc Program Daemon.
From stdpp Require Import countable options.
From Stdlib Require Import Strings.Byte Ascii.
#[local] Open Scope Z_scope.

(** ** Messages as numbers *)

#[export] Instance byte_countable : Countable Byte.byte.
Proof. apply (inj_countable Byte.to_N Byte.of_N), Byte.of_to_N. Defined.

#[export] Instance ProtoId_countable : Countable ProtoId.
Proof. apply (inj_countable' value MkProtoId). by intros []. Defined.

(** A record, from the numbers of its fields. *)
Definition field {A} `{Countable A} (p : positive) : option A := decode p.

Lemma field_encode {A} `{Countable A} (a : A) : field (encode a) = Some a.
Proof. apply decode_encode. Qed.

Ltac fields := intros []; cbv beta iota; rewrite !field_encode; reflexivity.

#[export] Instance TaskMessagePart_countable : Countable TaskMessagePart.
Proof.
  apply (inj_countable
    (fun m => [encode (pt_media_type m); encode (pt_text m); encode (pt_raw m);
               encode (pt_metadata m)])
    (fun l => match l with
       | [a; b; c; d] =>
           a ← field a; b ← field b; c ← field c; d ← field d; Some (MkPart a b c d)
       | _ => None
       end)).
  fields.
Defined.

#[export] Instance TaskMessage_countable : Countable TaskMessage.
Proof.
  apply (inj_countable (fun m => [encode (ms_parts m); encode (ms_metadata m)])
    (fun l => match l with
       | [a; b] => a ← field a; b ← field b; Some (MkMessage a b)
       | _ => None
       end)).
  fields.
Defined.

#[export] Instance TaskEnvelope_countable : Countable TaskEnvelope.
Proof.
  apply (inj_countable
    (fun e => [encode (te_task_id e); encode (te_correlation_id e); encode (te_idempotency_key e);
               encode (te_status e); encode (te_messages e); encode (te_metadata e);
               encode (te_deadline_ms e)])
    (fun l => match l with
       | [a; b; c; d; e; f; g] =>
           a ← field a; b ← field b; c ← field c; d ← field d; e ← field e; f ← field f;
           g ← field g; Some (MkTaskEnvelope a b c d e f g)
       | _ => None
       end)).
  fields.
Defined.

#[export] Instance ResultArtifact_countable : Countable ResultArtifact.
Proof.
  apply (inj_countable
    (fun r => [encode (ra_path r); encode (ra_media_type r); encode (ra_metadata r);
               encode (ra_artifact_id r); encode (ra_sha256 r); encode (ra_byte_len r);
               encode (ra_content r); encode (ra_content_present r)])
    (fun l => match l with
       | [a; b; c; d; e; f; g; h] =>
           a ← field a; b ← field b; c ← field c; d ← field d; e ← field e; f ← field f;
           g ← field g; h ← field h; Some (MkResultArtifact a b c d e f g h)
       | _ => None
       end)).
  fields.
Defined.

#[export] Instance TaskResultEnvelope_countable : Countable TaskResultEnvelope.
Proof.
  apply (inj_countable
    (fun r => [encode (re_protocol_version r); encode (re_task_id r); encode (re_correlation_id r);
               encode (re_outcome r); encode (re_executor_peer_id r); encode (re_duration_ms r);
               encode (re_completed_at_ms r); encode (re_error_reason r);
               encode (re_result_metadata r); encode (re_output_artifacts r)])
    (fun l => match l with
       | [a; b; c; d; e; f; g; h; i; j] =>
           a ← field a; b ← field b; c ← field c; d ← field d; e ← field e; f ← field f;
           g ← field g; h ← field h; i ← field i; j ← field j;
           Some (MkResultEnvelope a b c d e f g h i j)
       | _ => None
       end)).
  fields.
Defined.

(** ** Numbers as bytes *)

Fixpoint bits (p : positive) : bytes :=
  match p with xH => [] | xO p => x00 :: bits p | xI p => x01 :: bits p end.

Fixpoint of_bits (l : bytes) : positive :=
  match l with
  | [] => xH
  | b :: l => if bool_decide (b = x00) then xO (of_bits l) else xI (of_bits l)
  end.

Lemma of_bits_bits p : of_bits (bits p) = p.
Proof. induction p as [p IH|p IH|]; simpl; by f_equal. Qed.

Definition order_byte (order : nat) : Byte.byte := if Nat.even order then x00 else x01.

Definition put {A} `{Countable A} (order : nat) (a : A) : bytes := order_byte order :: bits (encode a).
Definition take_from {A} `{Countable A} (l : bytes) : Result A string :=
  match l with
  | _ :: l => ok_or (decode (of_bits l)) "invalid"
  | [] => Err "empty"
  end.

Lemma take_from_put {A} `{Countable A} order (a : A) : take_from (put order a) = Ok a.
Proof. unfold take_from, put. by rewrite of_bits_bits, decode_encode. Qed.

#[export] Instance sample_wire : Wire := {
  encode_envelope := put;
  encoded_len e := Z.of_nat (length (put 0 e));
  decode_envelope := take_from;
  encode_result := put;
  decode_result := take_from;
  features_to_json l := String.concat "," l;
  features_from_json s := Ok (of_bytes <$> split_on ","%char (bytes_of s));
  store_error_text _ := "store error";
  validation_error_text _ := "validation error";
}.

#[export] Instance sample_wire_laws : WireLaws sample_wire.
Proof. split; intros; [apply take_from_put|done|apply take_from_put]. Qed.

(** ** Samples *)

Definition sample_sha (b : bytes) : string :=
  "0123456789abcdef0123456789abcdef0123456789abcdef0123456789abcdef".

Definition sample_config : KeryxDaemonConfig :=
  MkConfig peer_a 300000 default_retry_policy default_limits (Some "secret"%string) 30000.

Definition header : option string := Some "Bearer secret"%string.

Definition sample_envelope : TaskEnvelope :=
  MkTaskEnvelope (Some (MkProtoId "task-a")) None (Some (MkProtoId "key-a")) 0 [] ∅ 0.

(** A world with a clock that starts at 100 and steps by 10. *)
Definition sample_world {S} (s : S) : World S :=
  MkWorld s (fun n => 100 + 10 * Z.of_nat n) (fun n => n) no_metrics no_cancellations false.
