(* ===== verification/LeaseIds.v ===== *)
(** * The identifiers of the daemon's leases

    [new_lease_id] makes a lease id from the task's id and the time. The task
    can be read off it, so leases of different tasks never share an id; and it
    exists only while the text still fits an identifier. *)
From S2P Require Import Prelude Ident Text Lifecycle StoreModel Wire Program ResultArtifacts Daemon.
From stdpp Require Import pretty options.
From Stdlib Require Import Ascii.
#[local] Open Scope Z_scope.

Definition is_digit (c : ascii) : bool := (48 <=? byte_of c) && (byte_of c <=? 57).

Lemma pretty_N_char_digit x : is_digit (pretty_N_char x) = true.
Proof.
  unfold pretty_N_char. destruct x as [|p]; [done|].
  repeat (destruct p as [p|p|]; try done).
Qed.

Lemma pretty_N_go_digits x : forall s,
  forallb is_digit (bytes_of s) = true -> forallb is_digit (bytes_of (pretty_N_go x s)) = true.
Proof.
  induction (N.lt_wf_0 x) as [x _ IH]. intros s Hs.
  destruct (decide (x = 0)%N) as [->|Hx]; [by rewrite pretty_N_go_0|].
  rewrite pretty_N_go_step by lia. apply IH; [apply N.div_lt; lia|].
  change (is_digit (pretty_N_char (x `mod` 10)) && forallb is_digit (bytes_of s) = true).
  by rewrite pretty_N_char_digit, Hs.
Qed.

Lemma pretty_digits z : 0 <= z -> forallb is_digit (bytes_of (pretty z)) = true.
Proof.
  intros Hz. destruct z as [|p|p]; [done| |lia]. unfold pretty, pretty_Z, pretty, pretty_positive.
  unfold pretty, pretty_N. case_decide; [done|]. by apply pretty_N_go_digits.
Qed.

(** Splitting at the last occurrence of a character. *)
Lemma split_last (c : ascii) (l1 l2 d1 d2 : list ascii) :
  c ∉ d1 -> c ∉ d2 -> (l1 ++ c :: d1 = l2 ++ c :: d2)%list -> l1 = l2.
Proof.
  intros H1 H2 E. apply (f_equal reverse) in E.
  rewrite !reverse_app, !reverse_cons, <- !app_assoc in E. simpl in E.
  rewrite <- elem_of_reverse in H1, H2.
  assert (Hr : reverse l1 = reverse l2).
  { revert E H1 H2. generalize (reverse d1) as a, (reverse d2) as b.
    induction a as [|x a IH]; intros [|y b]; simpl; intros E H1 H2; simplify_eq/=.
    - done.
    - by destruct H2; left.
    - by destruct H1; left.
    - apply (IH b); [done| |]; set_solver. }
  rewrite <- (reverse_involutive l1), Hr. apply reverse_involutive.
Qed.

Definition lease_text (task_id : TaskId) (leased_at_ms : Z) : string :=
  "lease-" +:+ as_str task_id +:+ "-" +:+ pretty leased_at_ms.

Lemma lease_text_bytes i at_ms :
  bytes_of (lease_text i at_ms)
  = (bytes_of "lease-" ++ bytes_of (as_str i) ++ "-"%char :: bytes_of (pretty at_ms))%list.
Proof. unfold lease_text. by rewrite !bytes_of_app. Qed.

Lemma dash_not_digit l : forallb is_digit l = true -> "-"%char ∉ l.
Proof.
  intros H Hin. rewrite forallb_forall in H. apply list_elem_of_In in Hin.
  by specialize (H _ Hin).
Qed.

(** The task of a lease id. *)
Lemma lease_text_inj i j a b :
  0 <= a -> 0 <= b -> lease_text i a = lease_text j b -> i = j.
Proof.
  intros Ha Hb E. apply (f_equal bytes_of) in E. rewrite !lease_text_bytes in E.
  apply app_inv_head in E. apply split_last in E; try by apply dash_not_digit, pretty_digits.
  apply (inj as_str). by rewrite <- (of_bytes_bytes_of (as_str i)), E, of_bytes_bytes_of.
Qed.

Lemma lease_text_allowed i at_ms :
  0 <= at_ms -> forallb is_allowed_id_char (bytes_of (lease_text i at_ms)) = true.
Proof.
  intros Ha. rewrite lease_text_bytes, !forallb_app. cbn [forallb].
  assert (Hi : forallb is_allowed_id_char (bytes_of (as_str i)) = true).
  { pose proof (id_valid i) as H. apply Is_true_true in H. unfold valid_id in H.
    by apply andb_true_iff in H as [_ H]. }
  rewrite Hi. cbn. apply forallb_forall. intros c Hc.
  pose proof (pretty_digits at_ms Ha) as Hd. rewrite forallb_forall in Hd. specialize (Hd c Hc).
  unfold is_digit, byte_of, is_allowed_id_char in *.
  repeat rewrite ?orb_true_iff, ?andb_true_iff, ?Nat.leb_le, ?Nat.eqb_eq, ?Z.leb_le in *. lia.
Qed.

(** The id of a lease says which task it is of. *)
Definition lease_names (i : TaskId) (lid : LeaseId) : Prop :=
  exists at_ms, 0 <= at_ms /\ as_str lid = lease_text i at_ms.

Lemma lease_names_inj i j lid : lease_names i lid -> lease_names j lid -> i = j.
Proof. intros (a & Ha & Ea) (b & Hb & Eb). apply (lease_text_inj i j a b Ha Hb). congruence. Qed.

Lemma new_lease_id_names i at_ms lid :
  0 <= at_ms -> new_lease_id i at_ms = Some lid -> lease_names i lid.
Proof.
  intros Ha. unfold new_lease_id. destruct (Id_new _ _) as [l|] eqn:E; [|done]. intros [= <-].
  exists at_ms. split; [done|]. apply Id_new_ok in E. rewrite E.
  by apply (trim_allowed (lease_text i at_ms)), lease_text_allowed.
Qed.

(** When there is a lease id: the text has to fit into 128 bytes. *)
Lemma new_lease_id_fits i at_ms :
  0 <= at_ms ->
  is_Some (new_lease_id i at_ms) <->
  (String.length (as_str i) + String.length (pretty at_ms) <= 121)%nat.
Proof.
  intros Ha. unfold new_lease_id. change ("lease-" +:+ _) with (lease_text i at_ms).
  assert (Hlen : String.length (lease_text i at_ms)
    = (7 + String.length (as_str i) + String.length (pretty at_ms))%nat).
  { unfold lease_text. rewrite !string_length_app. simpl. lia. }
  unfold Id_new, validate_identifier. cbv zeta.
  rewrite (trim_allowed (lease_text i at_ms)) by by apply lease_text_allowed.
  rewrite lease_text_allowed by done. rewrite Hlen. unfold MAX_ID_LEN. cbn [Nat.eqb plus].
  destruct (Nat.leb _ 128) eqn:E; cbn [negb orb].
  - apply Nat.leb_le in E. unfold id_of_valid. destruct (decide _) as [Hv|Hv]; simpl.
    + split; [lia|by eexists].
    + exfalso. apply Hv, Is_true_true. unfold valid_id.
      rewrite Hlen, lease_text_allowed by done. unfold MAX_ID_LEN.
      by rewrite (proj2 (Nat.leb_le _ _)) by lia.
  - apply Nat.leb_gt in E. split; [by intros [? [=]]|lia].
Qed.
