(* ===== verification/ProgramFacts.v ===== *)
(** * Reasoning about programs and pools

    [every_call Q R p]: whatever the environment answers within [R], the
    program asks only for effects in [Q]. It is what a handler guarantees
    under any interleaving; [run_schedule_ind] turns it into invariants of the
    world, [simulation] into agreement of two stores. *)
From S2P Require Import Prelude Ident Lifecycle StoreModel Api MemStore MemSpec MemInv Wire Program.
From stdpp Require Import options.

(** ** Guarantees of a program *)

Section every_call.
Context (Q : Effect -> Prop) (R : forall e, effect_reply e -> Prop).

Fixpoint every_call {E A} (p : Prog E A) : Prop :=
  match p with
  | Done _ | Panic => True
  | Call e k => Q e /\ forall x, R e x -> every_call (k x)
  end.

Lemma every_bind {E A B} (p : Prog E A) (k : A -> Prog E B) :
  every_call p -> (forall a, every_call (k a)) -> every_call (bindP p k).
Proof using Type*.
  intros Hp Hk. induction p as [[a|e]| |e c IH]; simpl in *; [apply Hk|done|done|].
  destruct Hp as [He Hc]. split; [done|]. intros x Hx. by apply IH, Hc.
Qed.

Lemma every_map_err {E E' A} (f : E -> E') (p : Prog E A) :
  every_call p -> every_call (map_errP f p).
Proof using Type*.
  intros Hp. induction p as [r| |e c IH]; simpl in *; [done|done|].
  destruct Hp as [He Hc]. split; [done|]. intros x Hx. by apply IH, Hc.
Qed.

Lemma every_handle {E E' A B} (p : Prog E A) (k : Result A E -> Prog E' B) :
  every_call p -> (forall r, every_call (k r)) -> every_call (handleP p k).
Proof using Type*.
  intros Hp Hk. induction p as [r| |e c IH]; simpl in *; [apply Hk|done|].
  destruct Hp as [He Hc]. split; [done|]. intros x Hx. by apply IH, Hc.
Qed.

Lemma every_finally {E A} f (p : Prog E A) :
  Q f -> every_call p -> every_call (finally f p).
Proof using Type*.
  intros Hf Hp. induction p as [r| |e c IH]; simpl in *; [by split|by split|].
  destruct Hp as [He Hc]. split; [done|]. intros x Hx. by apply IH, Hc.
Qed.

Lemma every_call_step {E A} e (k : effect_reply e -> Prog E A) x :
  every_call (Call e k) -> R e x -> every_call (k x).
Proof using Type*. intros [_ H]. apply H. Qed.

End every_call.

#[export] Hint Resolve every_map_err every_finally : calls.

(** A clock reading is a time after the epoch; nothing else is known of an
    answer. *)
Definition sane_reply (e : Effect) : effect_reply e -> Prop :=
  match e with
  | UnixMsNow => fun now_ms => 0 <= now_ms
  | _ => fun _ => True
  end.

Definition sane_clock {S} (w : World S) : Prop := forall n, 0 <= w_clock w n.

Section pools.
Context {S : Type} `{DaemonStore S}.

Lemma perform_sane e (w : World S) x w' :
  sane_clock w -> perform e w = (x, w') -> sane_reply e x /\ sane_clock w'.
Proof.
  intros Hc Hp. destruct w as [s clock orders m c lock]. unfold sane_clock in *. simpl in *.
  destruct e; simpl in *; try destruct (call _ _) as [? ?]; try destruct (api_retained_bytes _) as [? ?];
    simplify_eq; split; try done; simpl; intros; apply Hc.
Qed.

(** The store after an effect. *)
Definition store_step (e : Effect) (s : S) : S :=
  match e with Store op => (call op s).2 | RetainedBytes => (api_retained_bytes s).2 | _ => s end.

Lemma perform_store e (w : World S) x w' :
  perform e w = (x, w') -> w_store w' = store_step e (w_store w).
Proof.
  intros Hp. destruct w as [s clock orders m c lock]. destruct e; simpl in *; simplify_eq; try done.
  - by destruct (call op s) as [? ?]; simplify_eq.
  - by destruct (api_retained_bytes s) as [? ?]; simplify_eq.
Qed.

Lemma advance_idle {E A} i (p : Pool S E A) :
  (forall e k, threads p !! i = Some (Call e k) -> enabled e (world p) = false) ->
  advance i p = p.
Proof.
  intros Hi. unfold advance. destruct (threads p !! i) as [[| |e k]|] eqn:Ht; [done|done| |done].
  by rewrite (Hi e k).
Qed.

(** Induction along a schedule, from an invariant of the world that every
    effect in [Q] preserves. *)
Lemma run_schedule_ind {E A} (Q : Effect -> Prop) (I : World S -> Prop) :
  (forall e w x w', I w -> sane_clock w -> Q e -> enabled e w = true ->
    perform e w = (x, w') -> I w') ->
  forall schedule (p : Pool S E A),
  I (world p) -> sane_clock (world p) -> Forall (every_call Q sane_reply) (threads p) ->
  I (world (run_schedule schedule p)) /\ sane_clock (world (run_schedule schedule p))
  /\ Forall (every_call Q sane_reply) (threads (run_schedule schedule p)).
Proof.
  intros Hstep schedule. induction schedule as [|i schedule IH]; intros p HI Hc Ht; [done|].
  simpl. apply IH; clear IH; unfold advance;
    destruct (threads p !! i) as [[| |e k]|] eqn:Hi; try done;
    destruct (enabled e (world p)) eqn:Hen; try done;
    destruct (perform e (world p)) as [x w'] eqn:Hp; simpl;
    pose proof (Forall_lookup_1 _ _ _ _ Ht Hi) as Hk;
    destruct (perform_sane _ _ _ _ Hc Hp) as [Hx Hc'].
  - eapply Hstep; [exact HI|exact Hc|apply Hk|exact Hen|exact Hp].
  - done.
  - apply Forall_insert; [done|]. by eapply every_call_step.
Qed.
End pools.

(** ** Runs without interruption *)

Section runs.
Context {S : Type} `{DaemonStore S}.

(** Induction along a run, from an invariant that every effect preserves. *)
Lemma run_ind {E A} (Q : Effect -> Prop) (I : World S -> Prop) :
  (forall e w x w', I w -> sane_clock w -> Q e -> perform e w = (x, w') -> I w') ->
  forall (p : Prog E A) w o w', every_call Q sane_reply p ->
  I w -> sane_clock w -> run p w = (o, w') -> I w' /\ sane_clock w'.
Proof.
  intros Hstep p. induction p as [r| |e k IH]; intros w o w' Hp HI Hc Hr; simpl in Hr; simplify_eq;
    [done|done|].
  destruct (perform e w) as [x w1] eqn:P. destruct Hp as [He Hk].
  destruct (perform_sane _ _ _ _ Hc P) as [Hx Hc1].
  eapply IH; [by apply Hk| |exact Hc1|exact Hr]. eapply Hstep; [exact HI|exact Hc|exact He|exact P].
Qed.

Lemma run_fst {E A} (p : Prog E A) (w : World S) o : (run p w).1 = o -> run p w = (o, (run p w).2).
Proof. by intros <-; destruct (run p w). Qed.

Lemma run_bind {E A B} (p : Prog E A) (k : A -> Prog E B) (w : World S) :
  run (bindP p k) w = match run p w with
                      | (Some (Ok a), w') => run (k a) w'
                      | (Some (Err e), w') => (Some (Err e), w')
                      | (None, w') => (None, w')
                      end.
Proof.
  revert w. induction p as [[a|e]| |e c IH]; intros w; simpl; try done.
  destruct (perform e w) as [x w']. apply IH.
Qed.

Lemma run_map_err {E E' A} (f : E -> E') (p : Prog E A) (w : World S) :
  run (map_errP f p) w = (option_map (map_err f) (run p w).1, (run p w).2).
Proof.
  revert w. induction p as [r| |e c IH]; intros w; simpl; try done.
  destruct (perform e w) as [x w']. apply IH.
Qed.

Lemma run_handle {E E' A B} (p : Prog E A) (k : Result A E -> Prog E' B) (w : World S) :
  run (handleP p k) w = match run p w with
                        | (Some r, w') => run (k r) w'
                        | (None, w') => (None, w')
                        end.
Proof.
  revert w. induction p as [r| |e c IH]; intros w; simpl; try done.
  destruct (perform e w) as [x w']. apply IH.
Qed.

Lemma run_finally {E A} f (p : Prog E A) (w : World S) :
  run (finally f p) w = ((run p w).1, (perform f (run p w).2).2).
Proof.
  revert w. induction p as [r| |e c IH]; intros w; simpl.
  - by destruct (perform f w).
  - by destruct (perform f w).
  - destruct (perform e w) as [x w']. apply IH.
Qed.

Lemma run_store op (w : World S) :
  run (store op) w = (Some (call op (w_store w)).1, with_store w (call op (w_store w)).2).
Proof. destruct w as [s clock orders m c lock]. simpl. by destruct (call op s). Qed.

(** The clock has been read. *)
Definition tick (w : World S) : World S :=
  MkWorld (w_store w) (fun n => w_clock w (Datatypes.S n)) (w_orders w) (w_metrics w)
    (w_cancellation w) (w_locked w).

Lemma run_now {E A} (k : Z -> Prog E A) (w : World S) :
  run (do! z := unix_ms_now in k z) w = run (k (w_clock w 0%nat)) (tick w).
Proof. by destruct w. Qed.

Definition next_order (w : World S) : World S :=
  MkWorld (w_store w) (w_clock w) (fun n => w_orders w (Datatypes.S n)) (w_metrics w)
    (w_cancellation w) (w_locked w).

Lemma run_order {E A} (k : nat -> Prog E A) (w : World S) :
  run (do! n := hash_order in k n) w = run (k (w_orders w 0%nat)) (next_order w).
Proof. by destruct w. Qed.

Definition counted (c : Counter) (w : World S) : World S :=
  MkWorld (w_store w) (w_clock w) (w_orders w) (count_metric c (w_metrics w))
    (count_cancellation c (w_cancellation w)) (w_locked w).

Lemma run_count {E A} c (k : unit -> Prog E A) (w : World S) :
  run (do! u := count c in k u) w = run (k tt) (counted c w).
Proof. by destruct w. Qed.

Definition set_lock (b : bool) (w : World S) : World S :=
  MkWorld (w_store w) (w_clock w) (w_orders w) (w_metrics w) (w_cancellation w) b.

Lemma run_lock {E A} (p : Prog E A) (w : World S) :
  run (with_submission_lock p) w
  = ((run p (set_lock true w)).1, set_lock false (run p (set_lock true w)).2).
Proof.
  unfold with_submission_lock. destruct w as [s clock orders m c l]. simpl. rewrite run_finally.
  by destruct (run p _) as [r []].
Qed.

Lemma run_notify {E A} (k : unit -> Prog E A) (w : World S) :
  run (do! u := notify_waiters in k u) w = run (k tt) w.
Proof. by destruct w. Qed.

Lemma run_retained (w : World S) :
  run ask_retained_bytes w = (Some (api_retained_bytes (w_store w)).1,
                              with_store w (api_retained_bytes (w_store w)).2).
Proof. destruct w as [s clock orders m c lock]. simpl. by destruct (api_retained_bytes s). Qed.

Lemma run_lift {E A} (r : Result A E) (w : World S) : run (liftP r) w = (Some r, w).
Proof. done. Qed.

(** The store's part of a run. *)
Lemma with_store_same (w : World S) : with_store w (w_store w) = w.
Proof. by destruct w. Qed.

Lemma store_with_store (w : World S) s : w_store (with_store w s) = s.
Proof. by destruct w. Qed.
End runs.

#[export] Hint Rewrite @run_now @run_order @run_count @run_notify @run_bind @run_map_err @run_handle
  @run_finally @run_lock @run_store @run_retained @run_lift @store_with_store : run.

(** ** Runs that succeed *)

Section successes.
Context {S : Type} `{DaemonStore S}.

Lemma run_bind_ok {E A B} (p : Prog E A) (k : A -> Prog E B) (w : World S) b w' :
  run (bindP p k) w = (Some (Ok b), w') ->
  exists a w1, run p w = (Some (Ok a), w1) /\ run (k a) w1 = (Some (Ok b), w').
Proof. rewrite run_bind. destruct (run p w) as [[[a|e]|] w1]; naive_solver. Qed.

Lemma run_map_err_ok {E E' A} (f : E -> E') (p : Prog E A) (w : World S) a w' :
  run (map_errP f p) w = (Some (Ok a), w') -> run p w = (Some (Ok a), w').
Proof. rewrite run_map_err. destruct (run p w) as [[[x|e]|] w1]; naive_solver. Qed.

Lemma run_handle_ok {E E' A B} (p : Prog E A) (k : Result A E -> Prog E' B) (w : World S) b w' :
  run (handleP p k) w = (Some (Ok b), w') ->
  exists r w1, run p w = (Some r, w1) /\ run (k r) w1 = (Some (Ok b), w').
Proof. rewrite run_handle. destruct (run p w) as [[r|] w1]; naive_solver. Qed.

Lemma run_lift_ok {E A} (r : Result A E) (w : World S) a w' :
  run (liftP r) w = (Some (Ok a), w') -> r = Ok a /\ w' = w.
Proof. rewrite run_lift. naive_solver. Qed.

Lemma run_store_inv op (w : World S) r w' :
  run (store op) w = (Some r, w') ->
  exists s', call op (w_store w) = (r, s') /\ w' = with_store w s'.
Proof. rewrite run_store. destruct (call op (w_store w)) as [x s]. naive_solver. Qed.

Lemma run_retained_inv (w : World S) r w' :
  run ask_retained_bytes w = (Some r, w') ->
  exists s', api_retained_bytes (w_store w) = (r, s') /\ w' = with_store w s'.
Proof. rewrite run_retained. destruct (api_retained_bytes (w_store w)) as [x s]. naive_solver. Qed.

Lemma run_lock_ok {E A} (p : Prog E A) (w : World S) a w' :
  run (with_submission_lock p) w = (Some (Ok a), w') ->
  exists w1, run p (set_lock true w) = (Some (Ok a), w1) /\ w' = set_lock false w1.
Proof. rewrite run_lock. destruct (run p _) as [o w1]. simpl. naive_solver. Qed.

Lemma run_ret_ok {E A} (a b : A) (w : World S) w' :
  run (retP (E := E) a) w = (Some (Ok b), w') -> b = a /\ w' = w.
Proof. naive_solver. Qed.
End successes.

(** One step of the inversion of a successful run [H]. *)
Ltac ok_step H :=
  lazymatch type of H with
  | run (do! _ := unix_ms_now in _) _ = _ => rewrite run_now in H; cbv beta in H; ok_step H
  | run (do! _ := hash_order in _) _ = _ => rewrite run_order in H; cbv beta in H; ok_step H
  | run (do! _ := count _ in _) _ = _ => rewrite run_count in H; cbv beta in H; ok_step H
  | run (do! _ := notify_waiters in _) _ = _ => rewrite run_notify in H; cbv beta in H; ok_step H
  | run (bindP _ _) _ = _ =>
      let Hp := fresh "Hrun" in
      apply run_bind_ok in H as (? & ? & Hp & H); ok_step Hp; try ok_step H
  | run (map_errP _ _) _ = _ => apply run_map_err_ok in H; ok_step H
  | run (with_submission_lock _) _ = _ => apply run_lock_ok in H as (? & H & ?); subst; ok_step H
  | run (liftP _) _ = _ => apply run_lift_ok in H as [H ?]; subst
  | run (store _) _ = _ => apply run_store_inv in H as (? & H & ?); subst
  | run ask_retained_bytes _ = _ => apply run_retained_inv in H as (? & H & ?); subst
  | run (retP _) _ = _ => apply run_ret_ok in H as [? ?]; subst
  | run (throwP _) _ = _ => discriminate H
  | run Panic _ = _ => discriminate H
  | _ => idtac
  end.
Ltac run_ok H := progress (ok_step H).

(** ** Two stores in step

    Pools with the same threads over two stores: when every effect gets the
    same answer from both, the threads stay the same. *)
Section simulation.
Context {S1 S2 : Type} `{DaemonStore S1} `{DaemonStore S2}.
Context (Q : Effect -> Prop) (Rel : World S1 -> World S2 -> Prop).
(** What must hold of the second world for its effects to be mirrored. *)
Context (fit : World S2 -> Prop).
Context (Hperform : forall e w1 w2 x1 w1' x2 w2', Rel w1 w2 -> fit w2 -> sane_clock w2 -> Q e ->
  perform e w1 = (x1, w1') -> perform e w2 = (x2, w2') -> x1 = x2 /\ Rel w1' w2').
Context (Henabled : forall e w1 w2, Rel w1 w2 -> enabled e w1 = enabled e w2).

Fixpoint fit_along {E A} (schedule : list nat) (p : Pool S2 E A) : Prop :=
  fit (world p) /\
  match schedule with [] => True | i :: schedule => fit_along schedule (advance i p) end.

Lemma simulation {E A} schedule : forall (p1 : Pool S1 E A) (p2 : Pool S2 E A),
  threads p1 = threads p2 -> Rel (world p1) (world p2) -> sane_clock (world p2) ->
  Forall (every_call Q sane_reply) (threads p2) -> fit_along schedule p2 ->
  threads (run_schedule schedule p1) = threads (run_schedule schedule p2)
  /\ Rel (world (run_schedule schedule p1)) (world (run_schedule schedule p2)).
Proof using Hperform Henabled.
  induction schedule as [|i schedule IH]; intros [ts w1] [ts2 w2] Hts HR Hc Ht [Hfit Hrest];
    simpl in Hts; subst ts2; [done|].
  simpl. assert (Hgoal : threads (advance i (MkPool ts w1)) = threads (advance i (MkPool ts w2))
    /\ Rel (world (advance i (MkPool ts w1))) (world (advance i (MkPool ts w2)))
    /\ sane_clock (world (advance i (MkPool ts w2)))
    /\ Forall (every_call Q sane_reply) (threads (advance i (MkPool ts w2)))).
  2:{ destruct Hgoal as (? & ? & ? & ?). by apply IH. }
  clear IH Hrest. unfold advance. simpl in *.
  destruct (ts !! i) as [[| |e k]|] eqn:Hi; try done.
  rewrite (Henabled e w1 w2) by done. destruct (enabled e w2); [|done].
  destruct (perform e w1) as [x1 w1'] eqn:P1, (perform e w2) as [x2 w2'] eqn:P2. simpl.
  pose proof (Forall_lookup_1 _ _ _ _ Ht Hi) as Hk.
  destruct (Hperform e w1 w2 x1 w1' x2 w2') as [-> HR']; try done; [apply Hk|].
  destruct (perform_sane _ _ _ _ Hc P2) as [Hx Hc']. repeat split; try done.
  apply Forall_insert; [done|]. by eapply every_call_step.
Qed.
End simulation.
