(* ===== verification/DaemonCalls.v ===== *)
(** * What the daemon asks of its store

    The calls that the handlers and the background loops make, and what such a
    call leaves of the leases and the envelopes it does not concern. *)
From S2P Require Import Prelude Ident Lifecycle StoreModel Api MemStore MemSpec MemInv Wire Program.
From S2P Require Import LeaseIds ProgramFacts Daemon.
From stdpp Require Import options.
#[local] Open Scope Z_scope.

Section daemon_calls.
Context `{W : Wire}.

(** The stored bytes are an encoding of an envelope that names the task. *)
Definition encodes (i : TaskId) (e : TaskEnvelopeRecord) : Prop :=
  en_task_id e = i /\ exists order envelope,
  en_encoded_envelope e = encode_envelope order envelope
  /\ parse_required_task_id (te_task_id envelope) = Ok i.

Definition pending_task (t : TaskRecord) : Prop := fresh_task t /\ tr_status t = Pending.

Definition daemon_call (op : Op) : Prop :=
  match op with
  | OpAccept t => pending_task t
  | OpAcceptEnvelope t e | OpAcceptContext t e _ => pending_task t /\ encodes (tr_id t) e
  | OpLeaseForPeer i l _ =>
      lr_task_id l = i /\ is_Some (lr_worker_id l) /\ lease_names i (lr_lease_id l)
  | OpFailDeadlines _ limit | OpRecover _ limit => limit = None
  | OpClaimable _ n => n = CLAIM_NEXT_SCAN_LIMIT
  | OpCount st => st = Pending
  | OpRenew _ _ _ _ _ | OpCancelResult _ _ _ _ _ | OpCompleteResult _ _ _ _
  | OpFailResult _ _ _ _ _ _ | OpGet _ | OpGetEnvelope _ | OpEvents _ | OpGetContext _
  | OpGetResult _ => True
  | _ => False
  end.

Definition daemon_effect (e : Effect) : Prop :=
  match e with Store op => daemon_call op | _ => True end.
End daemon_calls.

(** ** Frames *)

(** The envelope that a call stores. *)
Definition stores_envelope (op : Op) (i : TaskId) (e : TaskEnvelopeRecord) : Prop :=
  match op with
  | OpAcceptEnvelope t e' | OpAcceptContext t e' _ => tr_id t = i /\ e' = e
  | _ => False
  end.

Lemma call_query op (s : InMemoryState) r s' :
  is_query op = true -> call op s = (r, s') -> s' = s.
Proof.
  intros Hq H. apply (query_readonly op s (result_map (wrap op) r) s' Hq).
  rewrite run_op_call. unfold reply, bind. rewrite H. by destruct r.
Qed.

Record Frame (op : Op) (s s' : InMemoryState) : Prop := {
  frame_leases i l : leases s' !! i = Some l ->
    (exists l0, leases s !! i = Some l0 /\ lr_lease_id l0 = lr_lease_id l)
    \/ exists p, op = OpLeaseForPeer i l p;
  frame_envelopes i e : envelopes s' !! i = Some e ->
    envelopes s !! i = Some e \/ stores_envelope op i e;
}.

Lemma frame_refl op s : Frame op s s.
Proof. split; eauto. Qed.

(** The leases are among the old ones, and the envelopes are the old ones. *)
Definition shrinks (s s' : InMemoryState) : Prop :=
  (forall i l, leases s' !! i = Some l ->
    exists l0, leases s !! i = Some l0 /\ lr_lease_id l0 = lr_lease_id l)
  /\ envelopes s' = envelopes s.

#[export] Instance shrinks_preorder : PreOrder shrinks.
Proof.
  split.
  - intros s. split; [eauto|done].
  - intros a b c [L1 E1] [L2 E2]. split; [|congruence]. intros i l Hl.
    destruct (L2 i l Hl) as (l1 & Hl1 & ?). destruct (L1 i l1 Hl1) as (l0 & Hl0 & ?).
    exists l0. split; [done|congruence].
Qed.

Lemma shrinks_frame op s s' : shrinks s s' -> Frame op s s'.
Proof. intros [L E]. split; [eauto|]. intros i e He. left. by rewrite <- E. Qed.

Lemma shrinks_commit_none i from e t' s : shrinks s (commit i from e t' None s).
Proof.
  split; [|by rewrite commit_envelopes]. intros j l. rewrite commit_leases.
  change (partial_alter (fun _ => None) i (leases s)) with (delete i (leases s)).
  rewrite lookup_delete_Some. intros [_ Hl]. eauto.
Qed.

Lemma shrinks_put_result i r s : shrinks s (put_result i r s).
Proof. unfold put_result. split; destruct (make_outbox r); simpl; eauto. Qed.

Lemma shrinks_result i res s r s' : result_effect i res s r s' -> shrinks s s'.
Proof.
  intros [|? ? ?|? ? ? ? ? ? ?|? ? ? ? ? ? ? ? ? ?]; try reflexivity; [apply shrinks_commit_none|].
  etrans; [apply shrinks_commit_none|apply shrinks_put_result].
Qed.

Lemma shrinks_collect {A B} (body : A -> M (list B)) :
  (forall a s r s', body a s = (r, s') -> shrinks s s') ->
  forall l s r s', for_collect body l s = (r, s') -> shrinks s s'.
Proof.
  intros Hb l. induction l as [|a l IH]; intros s r s' H; simpl in H.
  - run_inv H. reflexivity.
  - run_inv H; try (etrans; [by eapply Hb|]); by eauto.
Qed.

Lemma shrinks_fail_deadline x s r s' : fail_deadline x s = (r, s') -> shrinks s s'.
Proof.
  intros H. unfold fail_deadline in H. op_run H; try reflexivity.
  match goal with E : tasks s !! ?i = Some ?t |- _ =>
    exact (shrinks_commit_none i (tr_status t) TaskTimedOut (with_status t Failed) s) end.
Qed.

Lemma shrinks_recover_lease l s r s' : recover_lease l s = (r, s') -> shrinks s s'.
Proof.
  intros H. unfold recover_lease in H. op_run H.
  - match goal with E : tasks s !! ?i = Some ?t |- _ =>
      exact (shrinks_commit_none i (tr_status t) RecoveryAction
               (with_status t (recovered_status (tr_status t))) s) end.
  - split; [|done]. simpl. intros j l'. rewrite lookup_delete_Some. intros [_ ?]. eauto.
Qed.

Lemma frame_lease i l p s r s' :
  lease_task_for_peer i l p s = (r, s') -> Frame (OpLeaseForPeer i l p) s s'.
Proof.
  intros H. unfold lease_task_for_peer, lease_task_with_peer_guard in H.
  op_run H; try apply frame_refl.
  - split; simpl; eauto.
  - split; simpl; [|eauto]. intros j l'. rewrite lookup_insert_Some.
    intros [[<- <-]|[_ ?]]; eauto.
Qed.

Lemma frame_renew i lid w now exp s r s' :
  renew_lease i lid w now exp s = (r, s') -> Frame (OpRenew i lid w now exp) s s'.
Proof.
  intros H. unfold renew_lease in H. op_run H; try apply frame_refl.
  split; simpl; [|eauto]. intros j l'. rewrite lookup_insert_Some.
  intros [[<- <-]|[_ ?]]; eauto.
Qed.

Lemma frame_accept_envelope t e s r s' :
  accept_task_with_envelope t e s = (r, s') -> Frame (OpAcceptEnvelope t e) s s'.
Proof.
  intros H. unfold accept_task_with_envelope in H. op_run H; try apply frame_refl.
  unfold set_idempotency_opt.
  split; destruct (tr_idempotency_key t); simpl; eauto; intros j x; rewrite lookup_insert_Some;
    intros [[<- <-]|[_ ?]]; eauto.
Qed.

Lemma frame_accept_context t e c s r s' :
  accept_task_with_envelope_and_context t e c s = (r, s') -> Frame (OpAcceptContext t e c) s s'.
Proof.
  intros H. unfold accept_task_with_envelope_and_context in H. op_run H; try apply frame_refl.
  - split; simpl; eauto.
  - unfold set_idempotency_opt.
    split; destruct (tr_idempotency_key t); simpl; eauto; intros j x; rewrite lookup_insert_Some;
      intros [[<- <-]|[_ ?]]; eauto.
Qed.

Lemma frame_accept t s r s' : accept_task t s = (r, s') -> Frame (OpAccept t) s s'.
Proof.
  intros H. unfold accept_task in H. op_run H; try apply frame_refl.
  unfold set_idempotency_opt. split; destruct (tr_idempotency_key t); simpl; eauto.
Qed.

Lemma daemon_call_frame `{W : Wire} op s r s' :
  daemon_call op -> call op s = (r, s') -> Frame op s s'.
Proof.
  intros Hd H. destruct (is_query op) eqn:Hq.
  { apply call_query in H as ->; [apply frame_refl|done]. }
  destruct op; try discriminate Hq; try contradiction Hd; simpl in H;
    eauto using frame_accept, frame_accept_envelope, frame_accept_context, frame_lease, frame_renew.
  - unfold fail_expired_deadlines in H. run_inv H.
    eapply shrinks_frame, shrinks_collect; [|exact H]. apply shrinks_fail_deadline.
  - unfold recover_stale_leases in H. run_inv H.
    all: eapply shrinks_frame, shrinks_collect; [|eassumption]; apply shrinks_recover_lease.
  - eapply shrinks_frame, shrinks_result, cancel_task_with_result_effect, H.
  - eapply shrinks_frame, shrinks_result, complete_task_with_result_effect, H.
  - eapply shrinks_frame, shrinks_result, fail_task_with_result_effect, H.
Qed.
