(* ===== verification/DaemonSession.v ===== *)
(** * Sessions of the daemon

    Requests and background ticks that run side by side over one store. Every
    handler, under every interleaving, makes only the calls of DaemonCalls;
    hence the SQLite store and the in-memory store answer a whole session
    alike, and the invariants of the in-memory store hold of what the daemon
    does to it. *)
From S2P Require Import Prelude Ident Text Lifecycle StoreModel Api MemStore MemSpec MemInv SqlStore.
From S2P Require Import SqlRel SqlRefine SqlSweep SqlSession Wire Rpc Program ProgramFacts LeaseIds Daemon.
From S2P Require Import DaemonCalls WireSamples.
From stdpp Require Import options.
#[local] Open Scope Z_scope.

(** ** What runs in a daemon *)

Inductive Activity : Type :=
| Rpc (authorization : option string) (request : DaemonRequest)
| DeadlineTick
| RecoveryTick
| HealthTick (supported : Z) (schema_version : StoreResult Z).

(** What an activity ends with, for its caller. *)
Inductive Outcome : Type :=
| Responded (r : DaemonResponse)
| Ticked
| Probed (r : DynamicReadiness).

Section session.
Context `{W : Wire}.
Context (sha256 : bytes -> string) (cfg : KeryxDaemonConfig).

Definition activity (a : Activity) : Prog Status Outcome :=
  match a with
  | Rpc authorization request =>
      do! r := serve sha256 cfg authorization request in retP (Responded r)
  | DeadlineTick => do! _ := deadline_tick in retP Ticked
  | RecoveryTick => do! _ := recovery_tick in retP Ticked
  | HealthTick supported version =>
      do! r := probe_store_readiness supported version in retP (Probed r)
  end.

(** ** Every handler makes only the daemon's calls *)

Abbreviation sound := (every_call daemon_effect sane_reply).

Lemma sound_lift {E A B} (r : Result A E) (k : A -> Prog E B) :
  (forall a, r = Ok a -> sound (k a)) -> sound (do! a := liftP r in k a).
Proof. destruct r as [a|e]; simpl; auto. Qed.

Lemma sound_now {E B} (k : Z -> Prog E B) :
  (forall z, 0 <= z -> sound (k z)) -> sound (do! z := unix_ms_now in k z).
Proof. intros Hk. split; [exact I|exact Hk]. Qed.

Lemma sound_store op : daemon_call op -> sound (store op).
Proof. intros H. split; [exact H|by intros]. Qed.

Lemma sound_store_rpc op : daemon_call op -> sound (store_rpc op).
Proof. intros H. by apply every_map_err, sound_store. Qed.

Lemma sound_lock {E A} (p : Prog E A) : sound p -> sound (with_submission_lock p).
Proof. intros H. split; [exact I|]. intros ? _. by apply every_finally. Qed.

Lemma sound_lift_prog {E A} (r : Result A E) : sound (liftP r).
Proof. done. Qed.

Lemma sound_if {E A} (b : bool) (p q : Prog E A) :
  sound p -> sound q -> sound (if b then p else q).
Proof. by destruct b. Qed.

Lemma pending_new i k d : pending_task (with_deadline (new_task_record i Pending k) d).
Proof. unfold pending_task, fresh_task, in_u32, u32_max. simpl. repeat split; lia. Qed.

Lemma encodes_new i order e now :
  parse_required_task_id (te_task_id e) = Ok i ->
  encodes i (MkEnvelope i (encode_envelope order e) now).
Proof. intros H. split; [done|]. by exists order, e. Qed.

Lemma lease_call i w at_ms exp lid p :
  0 <= at_ms -> new_lease_id i at_ms = Some lid ->
  daemon_call (OpLeaseForPeer i (new_lease lid i w at_ms exp) p).
Proof.
  intros Ha Hl. simpl. split; [done|]. split; [by eexists|]. by eapply new_lease_id_names.
Qed.

Ltac call_step :=
  lazymatch goal with
  | |- sound (bindP (liftP _) _) => apply sound_lift; let H := fresh "Hok" in intros ? H
  | |- sound (bindP unix_ms_now _) => apply sound_now; let H := fresh "Hnow" in intros ? H
  | |- sound (bindP _ _) => apply every_bind; [|intros ?]
  | |- sound (map_errP _ _) => apply every_map_err
  | |- sound (handleP _ _) => apply every_handle; [|intros ?]
  | |- sound (with_submission_lock _) => apply sound_lock
  | |- sound (store_rpc _) => apply sound_store_rpc
  | |- sound (store _) => apply sound_store
  | |- sound (liftP _) => exact I
  | |- sound (retP _) => exact I
  | |- sound (throwP _) => exact I
  | |- sound (Done _) => exact I
  | |- sound Panic => exact I
  | |- sound (match ?x with _ => _ end) => destruct x eqn:?
  | |- sound (let _ := _ in _) => cbv zeta
  | |- sound (check_limit _) => exact I
  | |- sound (count _) => split; [exact I|by intros]
  | |- sound notify_waiters => split; [exact I|by intros]
  | |- sound hash_order => split; [exact I|by intros]
  | |- sound ask_retained_bytes => split; [exact I|by intros]
  | |- sound (return_peer_for_task _) => unfold return_peer_for_task
  | |- daemon_call (OpLeaseForPeer _ _ _) => apply lease_call; assumption
  | |- daemon_call (OpAcceptEnvelope _ _) => split; [apply pending_new|apply encodes_new; assumption]
  | |- daemon_call (OpAcceptContext _ _ _) =>
      split; [apply pending_new|apply encodes_new; assumption]
  | |- daemon_call _ => simpl
  | |- True => exact I
  | |- _ = _ => reflexivity
  end.
Ltac calls := repeat call_step.

Lemma submit_task_sound r : sound (submit_task cfg r).
Proof.
  unfold submit_task, accept_pending_task_with_envelope_backpressure, check_capacity. calls.
Qed.

Lemma submit_remote_task_sound r : sound (submit_remote_task cfg r).
Proof.
  unfold submit_remote_task, accept_pending_remote_task_with_backpressure, check_capacity.
  calls.
Qed.

Lemma claim_task_sound r : sound (claim_task cfg r).
Proof. unfold claim_task. calls. Qed.

Lemma claim_first_sound w skills caps d l : sound (claim_first cfg w skills caps d l).
Proof.
  induction l as [|c l IH]; [exact I|]. cbn [claim_first]. calls; assumption.
Qed.

Lemma claim_rounds_sound attempt wait deadline fuel : forall rounds,
  sound attempt -> sound (claim_rounds attempt wait deadline fuel rounds).
Proof.
  induction fuel as [|fuel IH]; intros rounds Ha; cbn [claim_rounds]; calls; auto.
  by split; [exact I|intros].
Qed.

Lemma claim_next_task_sound r waiting : sound (claim_next_task cfg r waiting).
Proof.
  unfold claim_next_task. calls. apply claim_rounds_sound. unfold try_claim_next_task. calls.
  apply claim_first_sound.
Qed.

Lemma heartbeat_sound r : sound (heartbeat cfg r).
Proof. unfold heartbeat. calls. Qed.

Lemma build_terminal_result_sound i o d e m l : sound (build_terminal_result sha256 cfg i o d e m l).
Proof. unfold build_terminal_result, stored_correlation_id. calls. Qed.

Lemma complete_task_sound r : sound (complete_task sha256 cfg r).
Proof.
  unfold complete_task, check_return_peer_features, authenticated_source_features_for_task.
  calls; apply build_terminal_result_sound.
Qed.

Lemma fail_task_sound r : sound (fail_task sha256 cfg r).
Proof. unfold fail_task. calls; apply build_terminal_result_sound. Qed.

Lemma cancel_task_sound r : sound (cancel_task cfg r).
Proof. unfold cancel_task, check_local_executor, existing_canceled_response. calls. Qed.

Lemma get_task_result_sound r : sound (get_task_result r).
Proof. unfold get_task_result. calls. Qed.

Lemma serve_sound auth r : sound (serve sha256 cfg auth r).
Proof.
  unfold serve. apply sound_lift. intros [] _.
  destruct r; simpl; unfold respond; calls;
    eauto using submit_task_sound, submit_remote_task_sound, claim_task_sound,
      claim_next_task_sound, heartbeat_sound, complete_task_sound, fail_task_sound,
      cancel_task_sound, get_task_result_sound.
Qed.

Lemma activity_sound a : sound (activity a).
Proof.
  destruct a; cbn [activity]; unfold deadline_tick, recovery_tick, probe_store_readiness; cbv zeta;
    calls; try apply serve_sound.
  - split; [exact I|by intros].
  - match goal with |- sound (foldr _ _ ?ts) => induction ts as [|? ? IH] end; [exact I|].
    cbn [foldr]. calls. done.
Qed.

(** ** The two stores answer a session alike *)

(** What each active lease is called. *)
Definition leases_named (s : InMemoryState) : Prop :=
  forall i l, leases s !! i = Some l -> lease_names i (lr_lease_id l).

Record SameWorld (a : World Conn) (b : World InMemoryState) : Prop := {
  same_store : Rel (committed (w_store a)) (w_store b);
  same_inv : Inv (w_store b);
  same_leases : leases_named (w_store b);
  same_clock : w_clock a = w_clock b;
  same_orders : w_orders a = w_orders b;
  same_metrics : w_metrics a = w_metrics b;
  same_cancellation : w_cancellation a = w_cancellation b;
  same_lock : w_locked a = w_locked b;
}.

(** There is room for 64-bit counts. *)
Definition roomy (b : World InMemoryState) : Prop :=
  logs_short (w_store b) /\ Z.of_nat (size (tasks (w_store b))) <= i64_max.

Lemma daemon_call_ok s op :
  daemon_call op -> leases_named s -> logs_short s -> Z.of_nat (size (tasks s)) <= i64_max ->
  op_ok s op.
Proof.
  intros Hd Hl Hs Hn. split; [|split; [exact Hs|]].
  - destruct op; simpl in *; try done; apply Hd.
  - destruct op; simpl in *; try done; try by subst.
    + apply Hd.
    + destruct Hd as (? & ? & Hid). split; [|done]. intros j l0 Hj E.
      apply (lease_names_inj j i (lr_lease_id l)); [rewrite <- E; by apply Hl|done].
Qed.

Lemma leases_named_call op s r s' :
  daemon_call op -> leases_named s -> call op s = (r, s') -> leases_named s'.
Proof.
  intros Hd Hl Hc i l Hi. destruct (frame_leases _ _ _ (daemon_call_frame _ _ _ _ Hd Hc) _ _ Hi)
    as [(l0 & H0 & <-)|(p & ->)]; [by apply Hl|].
  apply Hd.
Qed.

Lemma sum_permutation (l k : list Z) : l ≡ₚ k -> foldr Z.add 0 l = foldr Z.add 0 k.
Proof. induction 1; simpl; lia. Qed.

Lemma retained_sim d s :
  Rel d s ->
  retained_bytes d = foldr Z.add 0
    ((fun e => Z.of_nat (length (en_encoded_envelope e))) <$> (map_to_list (envelopes s)).*2).
Proof.
  intros HR. unfold retained_bytes. apply sum_permutation.
  rewrite (rel_envelopes _ _ HR), map_to_list_as_table, <- !list_fmap_compose. done.
Qed.

(** One store call on both sides. *)
Lemma call_sim violation op c s r1 c' r2 s' :
  Rel (committed c) s -> Inv s -> leases_named s -> op_ok s op -> daemon_call op ->
  call (H := sql_api violation) op c = (r1, c') -> call op s = (r2, s') ->
  r1 = r2 /\ Rel (committed c') s' /\ Inv s' /\ leases_named s'.
Proof.
  intros HR HI Hl Hok Hd H1 H2. destruct c as [d w].
  pose proof (op_sim violation op d w s HR HI Hok) as [Hr HR'].
  rewrite !run_op_call in Hr, HR'. unfold reply, bind in Hr, HR'. rewrite H1, H2 in Hr, HR'.
  assert (HI' : Inv s').
  { eapply Inv_steps; [exact HI|].
    apply (run_op_steps op s (result_map (wrap op) r2) s'); [apply Hok|].
    rewrite run_op_call. unfold reply, bind. rewrite H2. by destruct r2. }
  pose proof (leases_named_call _ _ _ _ Hd Hl H2) as Hl'.
  destruct r1 as [a1|e1], r2 as [a2|e2]; simpl in *; simplify_eq; try done.
  split; [|done]. f_equal. by apply (wrap_inj op).
Qed.

Lemma perform_sim violation e a b x a' y b' :
  SameWorld a b -> roomy b -> sane_clock b -> daemon_effect e ->
  perform (H := sql_daemon violation) e a = (x, a') -> perform e b = (y, b') ->
  x = y /\ SameWorld a' b'.
Proof.
  intros [HR HI Hl ? ? ? ? ?] [Hs Hn] _ He Ha Hb.
  destruct a as [c clock orders m k lock], b as [s clock' orders' m' k' lock']; simpl in *; subst.
  destruct e; simpl in *; simplify_eq; try by (split; [done|by split]).
  - destruct (call op c) as [r1 c'] eqn:H1, (call op s) as [r2 s'] eqn:H2. simplify_eq.
    destruct (call_sim violation op c s x c' y s') as (-> & ? & ? & ?); try done.
    by apply daemon_call_ok.
  - split; [|by split]. by rewrite (retained_sim _ _ HR).
Qed.

Definition pool_of {S} (activities : list Activity) (w : World S) : Pool S Status Outcome :=
  MkPool (activity <$> activities) w.

(** C3: a daemon session runs the same on both stores. Requests of any clients
    and ticks of the background loops, interleaved in any order, call by
    call: on the SQLite store every handler gets the answers it would get
    from the in-memory store, and so every request ends with the same
    response or error, and the tables represent the in-memory state in the
    end. The calls that make the two stores differ are never made. *)
Theorem daemon_sessions_agree violation activities schedule a b :
  SameWorld a b -> sane_clock b -> fit_along roomy schedule (pool_of activities b) ->
  let p := run_schedule (H := sql_daemon violation) schedule (pool_of activities a) in
  let q := run_schedule schedule (pool_of activities b) in
  threads p = threads q /\ SameWorld (world p) (world q).
Proof.
  intros HR Hc Hfit.
  apply (simulation daemon_effect SameWorld roomy); try done.
  - intros e w1 w2 x1 w1' x2 w2'. apply perform_sim.
  - intros [] w1 w2 Hw; simpl; [done..| |done|done|done]. by rewrite (same_lock _ _ Hw).
  - apply Forall_fmap, Forall_forall. intros act _. apply activity_sound.
Qed.
End session.

(** ** What sessions preserve *)

Section session_invariants.
Context `{W : Wire}.

(** The data-model invariant, with the names of the leases and the encodings
    of the envelopes. *)
Record DaemonInv (s : InMemoryState) : Prop := {
  di_inv : Inv s;
  di_leases : leases_named s;
  di_envelopes i e : envelopes s !! i = Some e -> encodes i e;
}.

Lemma daemon_inv_empty : DaemonInv empty_state.
Proof. split; first [exact Inv_empty|done]. Qed.

Lemma daemon_call_steps op s r s' : daemon_call op -> call op s = (r, s') -> steps s s'.
Proof.
  intros Hd H. apply (run_op_steps op s (result_map (wrap op) r)).
  - destruct op; simpl in *; try done; apply Hd.
  - rewrite run_op_call. unfold reply, bind. rewrite H. by destruct r.
Qed.

Lemma daemon_call_inv op s r s' :
  daemon_call op -> DaemonInv s -> call op s = (r, s') -> DaemonInv s' /\ extends s s'.
Proof.
  intros Hd [HI Hl He] H. pose proof (daemon_call_steps _ _ _ _ Hd H) as Hs.
  split; [|by apply extends_steps]. split; [by eapply Inv_steps|by eapply leases_named_call|].
  intros i e Hi. destruct (frame_envelopes _ _ _ (daemon_call_frame _ _ _ _ Hd H) _ _ Hi) as [Hi'|Hs'];
    [by apply He|].
  destruct op; try contradiction Hs'; destruct Hs' as [<- <-]; apply Hd.
Qed.

Definition grown (s0 : InMemoryState) (w : World InMemoryState) : Prop :=
  DaemonInv (w_store w) /\ extends s0 (w_store w).

Lemma perform_grown s0 e w x w' :
  grown s0 w -> daemon_effect e -> perform e w = (x, w') -> grown s0 w'.
Proof.
  intros [HI Hx] He Hp. unfold grown. rewrite (perform_store _ _ _ _ Hp).
  destruct e; simpl in *; try done. destruct (call op (w_store w)) as [r s'] eqn:Hc. simpl.
  destruct (daemon_call_inv _ _ _ _ He HI Hc) as [HI' Hx']. split; [done|by etrans].
Qed.

Lemma run_grown {E A} (p : Prog E A) w o w' :
  every_call daemon_effect sane_reply p -> DaemonInv (w_store w) -> sane_clock w ->
  run p w = (o, w') -> grown (w_store w) w' /\ sane_clock w'.
Proof.
  intros Hp HI Hc Hr. apply (run_ind daemon_effect (grown (w_store w))) with p w o; try done.
  intros e w1 x w1' Hg _ He P. by eapply perform_grown.
Qed.

(** A session, from any store the daemon may have. *)
Lemma session_grown sha256 cfg activities schedule (w : World InMemoryState) :
  DaemonInv (w_store w) -> sane_clock w ->
  let w' := world (run_schedule schedule (pool_of sha256 cfg activities w)) in
  grown (w_store w) w' /\ sane_clock w'.
Proof.
  intros HI Hc.
  destruct (run_schedule_ind (E := Status) (A := Outcome) daemon_effect (grown (w_store w)))
    with (schedule := schedule) (p := pool_of sha256 cfg activities w) as (H1 & H2 & _); try done.
  - intros e w1 x w1' Hg _ He _ P. by eapply perform_grown.
  - apply Forall_fmap, Forall_forall. intros act _. apply activity_sound.
Qed.
End session_invariants.

(** ** A session *)

Definition submit_a : DaemonRequest := ReqSubmitTask (MkSubmitTask (Some sample_envelope)).
(** A claim that does not wait. *)
Definition no_waiting : Waiting := MkWaiting 0 0 (fun n => MkRound (Z.of_nat n * 1000000) Notified).
Definition claim_a : DaemonRequest :=
  ReqClaimNextTask (MkClaimNext (Some (MkProtoId "worker-a")) [] [] 0 0) no_waiting.
Definition result_of_a : DaemonRequest := ReqGetTaskResult (MkGetTaskResult (Some (MkProtoId "task-a"))).

Definition sample_activities : list Activity :=
  [Rpc header submit_a; DeadlineTick; Rpc header claim_a; Rpc header result_of_a; Rpc None submit_a].

(** The submission and the deadline scan take turns, then the rest. *)
Definition sample_schedule : list nat :=
  [0; 1; 0; 0; 1; 0; 0; 1; 0; 0; 0; 0; 0; 2; 2; 3; 2; 2; 2; 3; 2; 3; 2; 2; 2]%nat.

Definition roomyb (b : World InMemoryState) : bool :=
  bool_decide (map_Forall (fun _ evs => Z.of_nat (length evs) < i64_max) (events (w_store b)))
  && (Z.of_nat (size (tasks (w_store b))) <=? i64_max).

Lemma roomyb_ok b : roomyb b = true -> roomy b.
Proof.
  unfold roomyb, roomy. rewrite andb_true_iff, Z.leb_le. intros [H1 H2].
  split; [by apply logs_short_dec|done].
Qed.

(** [fit_along roomy], evaluated. *)
Fixpoint roomy_alongb {E A} (schedule : list nat) (p : Pool InMemoryState E A) : bool :=
  roomyb (world p) &&
  match schedule with [] => true | i :: schedule => roomy_alongb schedule (advance i p) end.

Lemma roomy_alongb_ok {E A} schedule : forall p : Pool InMemoryState E A,
  roomy_alongb schedule p = true -> fit_along roomy schedule p.
Proof.
  induction schedule as [|i schedule IH]; intros p; cbn [roomy_alongb fit_along];
    rewrite andb_true_iff; intros [H1%roomyb_ok H2]; auto.
Qed.

Lemma sample_same : SameWorld (sample_world empty_conn) (sample_world empty_state).
Proof. split; first [exact Rel_empty|exact Inv_empty|done]. Qed.

Lemma daemon_sessions_agree_witness :
  let pool {S} (s : S) := pool_of sample_sha sample_config sample_activities (sample_world s) in
  let p := run_schedule (H := sql_daemon "UNIQUE constraint failed") sample_schedule (pool empty_conn) in
  let q := run_schedule sample_schedule (pool empty_state) in
  threads p = threads q
  /\ match threads q !! 2%nat with
     | Some (Done (Ok (Responded (RespClaimedNext r)))) => nx_envelope r
     | _ => None
     end = Some sample_envelope.
Proof.
  intros pool p q. split.
  - apply (daemon_sessions_agree sample_sha sample_config "UNIQUE constraint failed"
      sample_activities sample_schedule (sample_world empty_conn) (sample_world empty_state)
      sample_same).
    + intros n. simpl. lia.
    + apply roomy_alongb_ok. vm_compute. reflexivity.
  - vm_compute. reflexivity.
Defined.
