(* ===== verification/DaemonFacts.v ===== *)
(** * What the task service promises its clients

    Authorization, submission and its limits, over any state of the in-memory
    store that the daemon can have made; by [daemon_sessions_agree] the same
    holds of the SQLite store. *)
From S2P Require Import Prelude Ident Text Lifecycle StoreModel Api MemStore MemSpec MemInv Policy.
From S2P Require Import Wire Rpc Program ProgramFacts LeaseIds Daemon DaemonCalls WireSamples.
From S2P Require Import DaemonSession.
From stdpp Require Import pretty options.
From Stdlib Require Import Ascii.
#[local] Open Scope Z_scope.

(** ** Authorization *)

Lemma starts_with_take p s : starts_with p s = true -> s = (p ++ drop (length p) s)%list.
Proof.
  revert s. induction p as [|a p IH]; intros [|b s]; simpl; try done.
  rewrite andb_true_iff, bool_decide_eq_true. intros [-> H]. by rewrite <- IH.
Qed.

Lemma strip_prefix_Some p s r : Text.strip_prefix p s = Some r <-> s = p +:+ r.
Proof.
  split; [|intros ->; apply strip_prefix_app]. unfold Text.strip_prefix.
  destruct (starts_with _ _) eqn:E; [|done]. intros [= <-].
  apply starts_with_take, (f_equal of_bytes) in E. rewrite of_bytes_app, !of_bytes_bytes_of in E.
  exact E.
Qed.

(** The request carries the token. *)
Definition carries (token : string) (authorization : option string) : Prop :=
  authorization = Some ("Bearer " +:+ token) /\ token <> "".

#[export] Instance carries_decision token h : Decision (carries token h).
Proof. unfold carries. apply _. Defined.

Lemma constant_time_token_eq_spec l r : constant_time_token_eq l r = bool_decide (l = r).
Proof. exact (constant_time_eq_spec l r). Qed.

Lemma authorize_spec `{W : Wire} cfg token h :
  daemon_rpc_token cfg = Some token ->
  if bool_decide (carries token h) then authorize_daemon_request cfg h = Ok tt
  else exists st, authorize_daemon_request cfg h = Err st
       /\ (code st = Unauthenticated \/ code st = PermissionDenied).
Proof.
  intros Ht. unfold authorize_daemon_request. rewrite Ht.
  destruct h as [raw|]; [|simpl; eauto].
  cbn [ok_or mbind option_bind].
  destruct (Text.strip_prefix "Bearer " raw) as [supplied|] eqn:Hs; cbn [mbind option_bind ok_or].
  2:{ case_bool_decide as Hc; [|eauto]. destruct Hc as [E _]. injection E as ->.
      by rewrite (proj2 (strip_prefix_Some "Bearer " _ token)) in Hs. }
  apply strip_prefix_Some in Hs as ->.
  destruct (decide (carries token (Some ("Bearer " +:+ supplied)))) as [Hc|Hc].
  - rewrite (bool_decide_true (carries _ _)) by done. destruct Hc as [E Hne].
    apply (inj Some), (inj (String.app _)) in E as ->.
    rewrite bool_decide_false by done. cbn [ok_or].
    by rewrite constant_time_token_eq_spec, bool_decide_true.
  - rewrite (bool_decide_false (carries _ _)) by done. case_bool_decide as Hne; cbn [ok_or]; [eauto|].
    rewrite constant_time_token_eq_spec, bool_decide_false; [eauto|].
    intros <-%token_bytes_inj. by destruct Hc.
Qed.

(** C20: with a configured token, a task request is handled exactly when its
    authorization header is that token as a bearer token; any other request
    ends with [Unauthenticated] or [PermissionDenied] before it has any
    effect. The comparison loop decides equality. *)
Theorem requests_are_authorized `{W : Wire} sha256 cfg token authorization request :
  daemon_rpc_token cfg = Some token ->
  if bool_decide (carries token authorization)
  then serve sha256 cfg authorization request = handle sha256 cfg request
  else exists st, serve sha256 cfg authorization request = Done (Err st)
       /\ (code st = Unauthenticated \/ code st = PermissionDenied).
Proof.
  intros Ht. pose proof (authorize_spec cfg token authorization Ht) as H. unfold serve.
  case_bool_decide; [by rewrite H|]. destruct H as (st & -> & Hst). by exists st.
Qed.

Lemma requests_are_authorized_witness :
  serve sample_sha sample_config header submit_a = handle sample_sha sample_config submit_a
  /\ exists st, serve sample_sha sample_config (Some "Bearer Secret") submit_a = Done (Err st)
     /\ (code st = Unauthenticated \/ code st = PermissionDenied).
Proof.
  split.
  - exact (requests_are_authorized sample_sha sample_config "secret" header submit_a eq_refl).
  - exact (requests_are_authorized sample_sha sample_config "secret" (Some "Bearer Secret")
             submit_a eq_refl).
Defined.

(** ** Submission *)

Section submission.
Context `{W : Wire}.

(** The record and the envelope that a submission offers to the store. *)
Definition offered (i : TaskId) (k : option IdempotencyKey) (d : option Z) : TaskRecord :=
  with_deadline (new_task_record i Pending k) d.
Definition offered_envelope {S} (i : TaskId) (e : TaskEnvelope) (w : World S) : TaskEnvelopeRecord :=
  MkEnvelope i (encode_envelope (w_orders w 0%nat) e) (w_clock w 0%nat).

Lemma check_capacity_ok cfg envelope (w : World InMemoryState) u w' :
  run (check_capacity cfg envelope) w = (Some (Ok u), w') -> w' = w.
Proof.
  unfold check_capacity, check_limit. intros H. run_ok H.
  apply call_query in Hrun as ->; [|done]. rewrite with_store_same in *.
  injection Hrun1 as _ <-. apply with_store_same.
Qed.

Lemma submit_task_ok cfg r (w : World InMemoryState) resp w' :
  run (submit_task cfg r) w = (Some (Ok resp), w') ->
  exists e i k d (t : TaskRecord), st_envelope r = Some e
  /\ parse_required_task_id (te_task_id e) = Ok i
  /\ parse_optional_idempotency_key (te_idempotency_key e) = Ok k
  /\ deadline_from_envelope e = Ok d
  /\ call (OpAcceptEnvelope (offered i k d) (offered_envelope i e w)) (w_store w)
     = (Ok t, w_store w')
  /\ resp = submitted t.
Proof.
  unfold submit_task, accept_pending_task_with_envelope_backpressure, check_limit. intros H. run_ok H.
  apply check_capacity_ok in Hrun6 as ->. apply ok_or_ok in Hrun.
  eexists _, _, _, _, _. split_and!; done.
Qed.

Lemma idempotent_hit_inv t s i r :
  Inv s -> idempotent_hit t s = Some (i, r) ->
  exists k t0, tasks s !! i = Some t0 /\ tr_id t0 = i
  /\ r = if bool_decide (t0 = t) then Ok t0 else Err (StoreError.IdempotencyConflict k i).
Proof.
  intros HI. unfold idempotent_hit. destruct (tr_idempotency_key t) as [k|]; [|done].
  destruct (idempotency s !! k) as [j|] eqn:Hj; [|done]. intros [= <- <-].
  apply (inv_key _ HI) in Hj as (t0 & Ht0 & _). exists k, t0. split; [done|].
  split; [by eapply inv_id|]. by rewrite Ht0.
Qed.

(** What an accepted submission leaves in the store. *)
Lemma accepted_is_stored t e s u s' :
  Inv s -> accept_task_with_envelope t e s = (Ok u, s') ->
  en_task_id e = tr_id t /\ is_Some (tasks s' !! tr_id t) /\ envelopes s' !! tr_id t = Some e.
Proof.
  intros HI H. unfold accept_task_with_envelope in H. op_run H.
  - match goal with C : idempotent_hit _ _ = _ |- _ =>
      apply idempotent_hit_inv in C as (k & t0 & Ht0 & <- & Hr); [|done] end.
    case_bool_decide; simplify_eq. by rewrite Ht0.
  - by rewrite !lookup_insert_eq.
Qed.

(** A task that is known is not accepted with another envelope. *)
Lemma known_task_is_refused t e s :
  Inv s -> pending_task t -> en_task_id e = tr_id t -> is_Some (tasks s !! tr_id t) ->
  envelopes s !! tr_id t <> Some e ->
  exists err, accept_task_with_envelope t e s = (Err err, s)
  /\ code (store_error_to_status err) = AlreadyExists.
Proof.
  intros HI [Hf Hp] Hid [t0 Ht] He.
  unfold accept_task_with_envelope, validate_accepted_task_status, ensure_pending_accept,
    ensure_matching_envelope_task_id, bind, lift, get, throw, ret. rewrite Hp, Hid. simpl.
  rewrite bool_decide_true by done.
  destruct (idempotent_hit t s) as [[i r]|] eqn:Hh.
  - apply idempotent_hit_inv in Hh as (k & t1 & Ht1 & <- & ->); [|done].
    case_bool_decide; [subst t1|by eauto].
    destruct (envelopes s !! tr_id t) as [e'|]; [|by eauto].
    rewrite bool_decide_false by (by intros ->). by eauto.
  - rewrite Ht. by eauto.
Qed.

(** A check of the limits says yes, or which limit is exceeded. *)
Definition limit_error (e : StoreError) : Prop :=
  exists l, e = StoreError.Validation (limit_exceeded_into_validation l).

Lemma limit_error_code e : limit_error e -> code (store_error_to_status e) = ResourceExhausted.
Proof. by intros [[] ->]. Qed.

Lemma run_check_limit {S} `{DaemonStore S} r (w : World S) :
  exists o, run (check_limit r) w = (Some o, w)
  /\ match o with Ok _ => True | Err e => limit_error e end.
Proof. eexists. split; [reflexivity|]. destruct r; [done|by eexists]. Qed.

Lemma run_check_capacity cfg envelope (w : World InMemoryState) :
  exists o, run (check_capacity cfg envelope) w = (Some o, w)
  /\ match o with Ok _ => True | Err e => limit_error e end.
Proof.
  unfold check_capacity. rewrite run_bind, run_store. simpl call.
  cbn [api_count_tasks_by_status mem_api daemon_api mem_daemon]. unfold count_tasks_by_status, bind, get, ret.
  cbn [fst snd]. rewrite with_store_same, run_bind.
  match goal with |- context[run (check_limit ?r) w] =>
    destruct (run_check_limit r w) as (o & -> & Ho) end.
  destruct o as [u|err]; [|by exists (Err err)].
  rewrite run_bind, run_retained. cbn. rewrite with_store_same. apply run_check_limit.
Qed.

Lemma backpressure_refuses cfg t e (w : World InMemoryState) err :
  accept_task_with_envelope t e (w_store w) = (Err err, w_store w) ->
  exists err' w', run (accept_pending_task_with_envelope_backpressure cfg t e) w = (Some (Err err'), w')
  /\ w_store w' = w_store w /\ (err' = err \/ limit_error err').
Proof.
  intros Hcall. unfold accept_pending_task_with_envelope_backpressure. rewrite run_bind.
  match goal with |- context[run (check_limit ?r) w] =>
    destruct (run_check_limit r w) as ([u|err'] & -> & Ho) end; [|eauto 6].
  rewrite run_lock, run_bind.
  destruct (run_check_capacity cfg e (set_lock true w)) as ([u'|err'] & -> & Ho'); [|eauto 7].
  rewrite run_bind, run_store. change (w_store (set_lock true w)) with (w_store w).
  change (call (OpAcceptEnvelope t e)) with (accept_task_with_envelope t e). rewrite Hcall.
  simpl. eauto 7.
Qed.

(** A submission of a task that is known, at another time than its envelope
    was received. *)
Lemma known_submission_is_refused cfg r e i k d (w : World InMemoryState) e0 :
  st_envelope r = Some e -> parse_required_task_id (te_task_id e) = Ok i ->
  parse_optional_idempotency_key (te_idempotency_key e) = Ok k -> deadline_from_envelope e = Ok d ->
  Inv (w_store w) -> envelopes (w_store w) !! i = Some e0 -> en_received_at_ms e0 <> w_clock w 0%nat ->
  exists st w', run (submit_task cfg r) w = (Some (Err st), w') /\ w_store w' = w_store w
  /\ (code st = AlreadyExists \/ code st = ResourceExhausted).
Proof.
  intros He Hi Hk Hd HI Hen Hclock. unfold submit_task. rewrite He, run_bind, run_lift. cbn [ok_or].
  rewrite run_bind, run_lift, Hi, run_bind, run_lift, Hk, run_bind, run_lift.
  destruct (check_envelope_bytes _ _) as [u|l]; cbn [map_err].
  2:{ eexists _, _. split; [done|]. split; [done|]. right. apply limit_error_code. by eexists. }
  rewrite run_bind, run_lift, Hd, run_order, run_now. cbv zeta.
  destruct (known_task_is_refused (offered i k d) (offered_envelope i e w) (w_store w))
    as (err & Hcall & Hcode); try done.
  { by apply (inv_envelope _ HI) in Hen as [_ ?]. }
  { simpl. rewrite Hen. intros [= ->]. done. }
  destruct (backpressure_refuses cfg _ _ (tick (next_order w)) err Hcall) as (err' & w' & Hrun & Hw & Herr).
  rewrite run_bind, run_map_err.
  change (w_clock (next_order w) 0%nat) with (w_clock w 0%nat).
  fold (offered i k d) (offered_envelope i e w). rewrite Hrun.
  eexists _, w'. split; [done|]. split; [done|].
  destruct Herr as [->|Hl]; [by left|right; by apply limit_error_code].
Qed.

(** C31: a repeated submission is refused, never answered with the task it
    already made. Once a request was accepted, and whatever the daemon did in
    between, the same request in another millisecond ends with
    [AlreadyExists] (or a limit) and leaves the store alone: with its
    idempotency key because the stored envelope carries the time it was
    received, without one because the task exists. *)
Theorem resubmission_is_refused sha256 cfg r (w : World InMemoryState) resp w1 activities schedule :
  DaemonInv (w_store w) -> sane_clock w -> run (submit_task cfg r) w = (Some (Ok resp), w1) ->
  let w2 := world (run_schedule schedule (pool_of sha256 cfg activities w1)) in
  w_clock w2 0%nat <> w_clock w 0%nat ->
  exists st w3, run (submit_task cfg r) w2 = (Some (Err st), w3) /\ w_store w3 = w_store w2
  /\ (code st = AlreadyExists \/ code st = ResourceExhausted).
Proof.
  intros HI Hc Hrun w2 Hclock.
  destruct (run_grown _ _ _ _ (submit_task_sound cfg r) HI Hc Hrun) as [[HI1 _] Hc1].
  destruct (session_grown sha256 cfg activities schedule w1 HI1 Hc1) as [[HI2 Hx] _]. fold w2 in HI2, Hx.
  destruct (submit_task_ok _ _ _ _ _ Hrun) as (e & i & k & d & t & He & Hi & Hk & Hd & Hcall & _).
  apply accepted_is_stored in Hcall as (_ & _ & Hen); [|apply HI].
  eapply known_submission_is_refused; try done; [apply HI2| |].
  - exact (lookup_weaken _ _ _ _ Hen (ex_envelopes _ _ Hx)).
  - simpl. congruence.
Qed.
End submission.

Lemma resubmission_is_refused_witness :
  let request := MkSubmitTask (Some sample_envelope) in
  let w1 := (run (submit_task sample_config request) (sample_world empty_state)).2 in
  let w2 := world (run_schedule [1; 0; 0; 0; 1]%nat
              (pool_of sample_sha sample_config [DeadlineTick; RecoveryTick] w1)) in
  exists st w3, run (submit_task sample_config request) w2 = (Some (Err st), w3)
  /\ w_store w3 = w_store w2 /\ (code st = AlreadyExists \/ code st = ResourceExhausted).
Proof.
  apply (resubmission_is_refused sample_sha sample_config _ (sample_world empty_state)
           (MkSubmitted (Some (MkProtoId "task-a")) "pending")).
  - exact daemon_inv_empty.
  - intros n. simpl. lia.
  - apply run_fst. vm_compute. reflexivity.
  - vm_compute. discriminate.
Defined.
