(* ===== verification/DaemonClaims.v ===== *)
(** * Claiming work from the daemon

    What [claim_next_task] hands out: the oldest task that the worker asked
    for, under a lease that the store now holds, or the reason why not; and
    what a task does whose lease id does not fit. *)
From S2P Require Import Prelude Ident Text Lifecycle StoreModel Api MemStore MemSpec MemInv MemLease.
From S2P Require Import MemSweep MemQueries Wire Rpc Program ProgramFacts LeaseIds Daemon DaemonCalls.
From S2P Require Import Samples WireSamples DaemonSession.
From stdpp Require Import pretty options.
#[local] Open Scope Z_scope.

Section claims.
Context `{W : Wire} (cfg : KeryxDaemonConfig).
Abbreviation local := (local_peer_id cfg).

(** ** The candidates *)

Definition offered_tasks (s : InMemoryState) : list PendingTaskEnvelope :=
  first_pending CLAIM_NEXT_SCAN_LIMIT (claimable_list s local).

Definition wanted (skills capabilities : gset string) (c : PendingTaskEnvelope) : bool :=
  match decode_envelope (en_encoded_envelope (pe_envelope c)) with
  | Ok e => envelope_matches_claim_filters e skills capabilities
  | Err _ => false
  end.

Lemma offered_claimable s c : Inv s -> c ∈ offered_tasks s -> claimable s local c.
Proof.
  intros HI Hc. unfold offered_tasks, first_pending in Hc.
  eapply elem_of_sublist in Hc; [|apply sublist_take]. apply elem_of_sort_on in Hc.
  by apply elem_of_claimable_list.
Qed.

Lemma claimable_allowed s c :
  claimable s local c -> peer_allowed s (tr_id (pe_task c)) (Some local) = true.
Proof.
  intros (_ & _ & _ & He). unfold peer_allowed.
  destruct (expected_executor _ _) as [e|]; [|done]. by apply bool_decide_eq_true, He.
Qed.

Definition claim_lease (lid : LeaseId) (t : TaskRecord) (worker : AgentId) (at_ms duration : Z)
    : LeaseRecord := new_lease lid (tr_id t) worker at_ms (i64_saturating_add at_ms duration).

(** Leasing a candidate: granted before the deadline, and the end of the task
    after it. *)
Lemma lease_candidate s c lid worker at_ms duration :
  Inv s -> claimable s local c ->
  let t := pe_task c in
  let l := claim_lease lid t worker at_ms duration in
  call (OpLeaseForPeer (tr_id t) l local) s =
  if deadline_passed t at_ms
  then (Err (StoreError.TaskDeadlineExpired (tr_id t) (default 0 (tr_deadline_ms t)) at_ms),
        commit (tr_id t) Pending TaskTimedOut (with_status t Failed) None s)
  else (Ok (with_status t Running), leased (tr_id t) t l s).
Proof.
  intros HI Hc t l. pose proof (claimable_allowed _ _ Hc) as Hp.
  destruct Hc as (Ht & Hs & _ & _). fold t in Ht, Hs, Hp.
  assert (Hl : leases s !! tr_id t = None) by (eapply pending_not_leased; [done..|by rewrite Hs]).
  simpl call. unfold lease_task_for_peer. destruct (deadline_passed t at_ms) eqn:Hd.
  - by apply (lease_task_overdue (tr_id t) l (Some local) s t worker).
  - by apply (lease_task_granted (tr_id t) l (Some local) s t worker).
Qed.

(** What becomes of the candidate [c] with the envelope [e]. *)
Definition grant (worker : AgentId) (duration : Z) (c : PendingTaskEnvelope) (e : TaskEnvelope)
    (w : World InMemoryState)
    : option (Result (option ClaimNextTaskResponse) Status) * World InMemoryState :=
  let t := pe_task c in
  let at_ms := w_clock w 0%nat in
  match new_lease_id (tr_id t) at_ms with
  | None => (None, tick w)
  | Some lid =>
      let l := claim_lease lid t worker at_ms duration in
      if deadline_passed t at_ms
      then (Some (Err (store_error_to_status
                         (StoreError.TaskDeadlineExpired (tr_id t) (default 0 (tr_deadline_ms t)) at_ms))),
            with_store (tick w)
              (commit (tr_id t) Pending TaskTimedOut (with_status t Failed) None (w_store w)))
      else (Some (Ok (Some (claimed_next e (with_status t Running) l worker
                              (transport_contexts (w_store w) !! tr_id t
                                 ≫= tc_authenticated_sender_peer_id)))),
            counted TasksClaimed (with_store (tick w) (leased (tr_id t) t l (w_store w))))
  end.

Lemma run_return_peer {E} i (w : World InMemoryState) :
  run (return_peer_for_task (E := E) i) w
  = (Some (Ok (transport_contexts (w_store w) !! i ≫= tc_authenticated_sender_peer_id)), w).
Proof.
  unfold return_peer_for_task. rewrite run_handle, run_store. simpl call.
  unfold get_transport_context, bind, get, lift. cbn [fst snd]. rewrite with_store_same.
  by destruct (transport_contexts (w_store w) !! i).
Qed.

Lemma claim_first_run worker skills capabilities duration l (w : World InMemoryState) :
  DaemonInv (w_store w) -> (forall c, c ∈ l -> claimable (w_store w) local c) ->
  (forall c, c ∈ l -> exists e,
     decode_envelope (en_encoded_envelope (pe_envelope c)) = Ok e
     /\ parse_required_task_id (te_task_id e) = Ok (tr_id (pe_task c))) ->
  run (claim_first cfg worker skills capabilities duration l) w =
  match find (wanted skills capabilities) l with
  | None => (Some (Ok None), w)
  | Some c => match decode_envelope (en_encoded_envelope (pe_envelope c)) with
              | Ok e => grant worker duration c e w
              | Err _ => (None, w)
              end
  end.
Proof.
  intros HI Hc He. induction l as [|c l IH]; [done|]. cbn [claim_first find].
  destruct (He c) as (e & Hdec & _); [left|].
  unfold wanted at 1. rewrite Hdec. cbn [map_err]. rewrite run_bind, run_lift.
  destruct (envelope_matches_claim_filters e skills capabilities); cbn [negb].
  2:{ apply IH; intros c' Hc'; [apply Hc|apply He]; by right. }
  rewrite Hdec. unfold grant. rewrite run_now.
  destruct (new_lease_id _ _) as [lid|]; [|done].
  rewrite run_handle, run_store. cbv zeta. change (w_store (tick w)) with (w_store w).
  fold (claim_lease lid (pe_task c) worker (w_clock w 0%nat) duration).
  rewrite (lease_candidate _ c) by first [apply HI|apply Hc; left].
  destruct (deadline_passed _ _); [done|]. cbn [fst snd].
  by rewrite run_count, run_bind, run_return_peer.
Qed.

(** ** A claim that does not wait *)

(** The store after the deadline scan that opens a claim. *)
Definition scanned (w : World InMemoryState) : InMemoryState :=
  (fail_expired_deadlines (w_clock w 0%nat) None (w_store w)).2.

Lemma scanned_inv w : DaemonInv (w_store w) -> DaemonInv (scanned w).
Proof.
  intros HI. unfold scanned.
  destruct (fail_expired_deadlines (w_clock w 0%nat) None (w_store w)) as [r s'] eqn:H.
  by apply (daemon_call_inv (OpFailDeadlines (w_clock w 0%nat) None) (w_store w) r s').
Qed.

Lemma offered_decode `{!WireLaws W} s c :
  DaemonInv s -> c ∈ offered_tasks s -> exists e,
  decode_envelope (en_encoded_envelope (pe_envelope c)) = Ok e
  /\ parse_required_task_id (te_task_id e) = Ok (tr_id (pe_task c)).
Proof.
  intros HI Hc. destruct (offered_claimable _ _ (di_inv _ HI) Hc) as (_ & _ & Hen & _).
  destruct (di_envelopes _ HI _ _ Hen) as (_ & order & e & -> & He).
  exists e. split; [apply decode_encode_envelope|done].
Qed.

Lemma try_claim_run `{!WireLaws W} worker skills capabilities duration (w : World InMemoryState) :
  DaemonInv (w_store w) ->
  let w1 := with_store (tick w) (scanned w) in
  run (try_claim_next_task cfg worker skills capabilities duration) w =
  match find (wanted skills capabilities) (offered_tasks (scanned w)) with
  | None => (Some (Ok None), w1)
  | Some c => match decode_envelope (en_encoded_envelope (pe_envelope c)) with
              | Ok e => grant worker duration c e w1
              | Err _ => (None, w1)
              end
  end.
Proof.
  intros HI w1. unfold try_claim_next_task. rewrite run_now, run_bind. unfold store_rpc.
  rewrite run_map_err, run_store. change (w_store (tick w)) with (w_store w). simpl call.
  pose proof (fail_expired_deadlines_run (w_clock w 0%nat) None (w_store w) (di_inv _ HI)) as Hsweep.
  cbv zeta in Hsweep. unfold w1, scanned. rewrite Hsweep. cbn [fst snd option_map map_err].
  set (s1 := sweep _ _ _ _). rewrite run_bind, run_map_err, run_store, store_with_store.
  change (call (OpClaimable local CLAIM_NEXT_SCAN_LIMIT) s1)
    with (Ok (E := StoreError) (offered_tasks s1), s1).
  cbn [fst snd option_map map_err].
  assert (HI1 : DaemonInv s1) by by (pose proof (scanned_inv _ HI) as H; unfold scanned in H; rewrite Hsweep in H).
  rewrite claim_first_run.
  - done.
  - exact HI1.
  - intros c Hc. apply offered_claimable; [apply HI1|done].
  - intros c. by apply offered_decode.
Qed.

Lemma claim_rounds_run attempt wait deadline fuel rounds (w : World InMemoryState) o w' :
  run attempt w = (o, w') -> (o = Some (Ok None) -> wait = 0) ->
  run (claim_rounds attempt wait deadline fuel rounds) w =
  (match o with
   | Some (Ok (Some r)) => Some (Ok r)
   | Some (Ok None) => Some (Ok empty_claim_next_response)
   | Some (Err e) => Some (Err e)
   | None => None
   end, w').
Proof.
  intros H Ho. destruct fuel; cbn [claim_rounds]; rewrite run_bind, H;
    (destruct o as [[[r|]|e]|]; try done; by rewrite (Ho eq_refl)).
Qed.

Definition asked_skills (r : ClaimNextTaskRequest) : gset string :=
  normalized_filter_set (cn_accepted_skill_ids r).
Definition asked_capabilities (r : ClaimNextTaskRequest) : gset string :=
  normalized_filter_set (cn_accepted_capability_ids r).

(** C22: a claim takes the oldest task that fits. A claim that does not wait
    first fails what is overdue, then looks at the first 256 tasks of the queue
    that this daemon may run, and takes the first one whose envelope passes the
    filters of the worker. The worker gets the stored envelope, which decodes
    and names that task, and a lease that the store now holds; the task is
    running. When no task fits, the answer is empty. When the deadline passed
    between the scan and the lease, the task fails and so does the claim; when
    the lease id does not fit an identifier, the handler panics. *)
Theorem claim_next_takes_the_oldest_match `{!WireLaws W} r worker waiting (w : World InMemoryState) :
  DaemonInv (w_store w) -> parse_required_agent_id (cn_worker_id r) = Ok worker ->
  cn_wait_timeout_ms r <= 0 ->
  let at_ms := w_clock w 1%nat in
  let duration := normalize_lease_duration_ms cfg (cn_lease_duration_ms r) in
  let (o, w') := run (claim_next_task cfg r waiting) w in
  match find (wanted (asked_skills r) (asked_capabilities r)) (offered_tasks (scanned w)) with
  | None => o = Some (Ok empty_claim_next_response) /\ w_store w' = scanned w
  | Some c =>
      let t := pe_task c in
      exists e, decode_envelope (en_encoded_envelope (pe_envelope c)) = Ok e
      /\ parse_required_task_id (te_task_id e) = Ok (tr_id t)
      /\ match new_lease_id (tr_id t) at_ms with
         | None => o = None /\ w_store w' = scanned w
         | Some lid =>
             let l := claim_lease lid t worker at_ms duration in
             if deadline_passed t at_ms
             then (exists st, o = Some (Err st) /\ code st = FailedPrecondition)
                  /\ tasks (w_store w') !! tr_id t = Some (with_status t Failed)
             else o = Some (Ok (claimed_next e (with_status t Running) l worker
                               (transport_contexts (scanned w) !! tr_id t
                                  ≫= tc_authenticated_sender_peer_id)))
                  /\ leases (w_store w') !! tr_id t = Some l
                  /\ tasks (w_store w') !! tr_id t = Some (with_status t Running)
         end
  end.
Proof.
  intros HI Hworker Hwait at_ms duration. unfold claim_next_task.
  rewrite run_bind, run_lift, Hworker.
  assert (Hw0 : normalize_claim_wait_ms (cn_wait_timeout_ms r) = 0)
    by (unfold normalize_claim_wait_ms; by rewrite (proj2 (Z.leb_le _ _) Hwait)).
  erewrite claim_rounds_run; [|apply surjective_pairing|done]. rewrite try_claim_run by done.
  change (normalized_filter_set (cn_accepted_skill_ids r)) with (asked_skills r).
  change (normalized_filter_set (cn_accepted_capability_ids r)) with (asked_capabilities r).
  destruct (find _ _) as [c|] eqn:Hfind.
  2:{ done. }
  apply find_some in Hfind as [Hin%list_elem_of_In _].
  destruct (offered_decode _ _ (scanned_inv _ HI) Hin) as (e & Hdec & Hid). rewrite Hdec.
  unfold grant. change (w_clock (with_store (tick w) (scanned w)) 0%nat) with at_ms.
  fold duration. destruct (new_lease_id (tr_id (pe_task c)) at_ms) as [lid|] eqn:Hlid.
  2:{ by exists e. }
  destruct (deadline_passed (pe_task c) at_ms) eqn:Hd; exists e.
  - split; [done|]. split; [done|]. split; [by eexists|]. simpl. by rewrite lookup_insert_eq.
  - split; [done|]. split; [done|]. split; [done|]. simpl. by rewrite !lookup_insert_eq.
Qed.

Lemma unfiltered_matches e : envelope_matches_claim_filters e ∅ ∅ = true.
Proof. unfold envelope_matches_claim_filters, metadata_matches_any. by rewrite !bool_decide_true. Qed.

(** C35: one task with a long id stops every worker. Task ids of up to 128
    bytes are accepted, but the daemon puts the id and the time into the lease
    id, which has the same limit. While such a task is the oldest that the
    daemon may run, every unfiltered claim of any worker, waiting or not,
    panics and leaves it where it is. *)
Theorem long_task_id_stops_every_worker `{!WireLaws W} r worker waiting c rest (w : World InMemoryState) :
  DaemonInv (w_store w) -> parse_required_agent_id (cn_worker_id r) = Ok worker ->
  cn_accepted_skill_ids r = [] -> cn_accepted_capability_ids r = [] ->
  offered_tasks (scanned w) = c :: rest -> 0 <= w_clock w 1%nat ->
  (121 < String.length (as_str (tr_id (pe_task c))) + String.length (pretty (w_clock w 1%nat)))%nat ->
  exists w', run (claim_next_task cfg r waiting) w = (None, w') /\ w_store w' = scanned w.
Proof.
  intros HI Hworker Hs Hc Hoff Hnow Hlong. unfold claim_next_task.
  rewrite run_bind, run_lift, Hworker, Hs, Hc.
  exists (tick (with_store (tick w) (scanned w))). split; [|done].
  erewrite claim_rounds_run with (o := None); [done| |done].
  change (normalized_filter_set []) with (∅ : gset string).
  rewrite try_claim_run, Hoff by done. cbn [find].
  destruct (offered_decode (scanned w) c) as (e & Hdec & _); [by apply scanned_inv|rewrite Hoff; by left|].
  unfold wanted. rewrite Hdec, unfiltered_matches. unfold grant.
  change (w_clock (with_store (tick w) (scanned w)) 0%nat) with (w_clock w 1%nat).
  destruct (new_lease_id (tr_id (pe_task c)) (w_clock w 1%nat)) as [lid|] eqn:Hlid; [|by rewrite Hdec].
  assert (is_Some (new_lease_id (tr_id (pe_task c)) (w_clock w 1%nat))) as Hsome by by eexists.
  apply new_lease_id_fits in Hsome; [lia|done].
Qed.
End claims.

(** ** Two workers *)

Definition claim_request (worker : string) : ClaimNextTaskRequest :=
  MkClaimNext (Some (MkProtoId worker)) [] [] 0 0.

Definition after_submission (e : TaskEnvelope) : World InMemoryState :=
  (run (submit_task sample_config (MkSubmitTask (Some e))) (sample_world empty_state)).2.

Lemma after_submission_inv e : DaemonInv (w_store (after_submission e)) /\ sane_clock (after_submission e).
Proof.
  unfold after_submission. destruct (run _ _) as [o w'] eqn:Hrun.
  destruct (run_grown _ (sample_world empty_state) o w' 
    (submit_task_sound sample_config (MkSubmitTask (Some e)))) as [[HI _] Hc];
    [exact daemon_inv_empty|intros n; simpl; lia|exact Hrun|done].
Qed.

Definition first_wanted (w : World InMemoryState) : option PendingTaskEnvelope :=
  find (wanted ∅ ∅) (offered_tasks sample_config (scanned w)).

Lemma claim_next_takes_the_oldest_match_witness :
  let w := after_submission sample_envelope in
  let (o, w') := run (claim_next_task sample_config (claim_request "worker-a") no_waiting) w in
  match first_wanted w with
  | Some c => as_str (tr_id (pe_task c)) = "task-a"
              /\ (tr_status <$> tasks (w_store w') !! tr_id (pe_task c)) = Some Running
  | None => False
  end.
Proof.
  intros w. assert (Hworker : parse_required_agent_id (cn_worker_id (claim_request "worker-a"))
    = Ok worker_a) by (vm_compute; reflexivity).
  pose proof (claim_next_takes_the_oldest_match sample_config (claim_request "worker-a") worker_a no_waiting w
    (proj1 (after_submission_inv sample_envelope)) Hworker (Z.le_refl 0)) as H.
  destruct (run _ _) as [o w']. change (find _ _) with (first_wanted w) in H.
  assert (Hc : match first_wanted w with
     | Some c => as_str (tr_id (pe_task c)) = "task-a"%string /\ tr_deadline_ms (pe_task c) = None
                 /\ is_Some (new_lease_id (tr_id (pe_task c)) (w_clock w 1%nat))
     | None => False
     end) by (vm_compute; split; [done|split; [done|by eexists]]).
  destruct (first_wanted w) as [c|]; [|done]. destruct Hc as (Hid & Hd & lid & Hlid). split; [done|].
  destruct H as (e & _ & _ & H). rewrite Hlid in H. unfold deadline_passed in H. rewrite Hd in H.
  destruct H as (_ & _ & ->). done.
Defined.

(** 110 bytes: an identifier, but not with the time added. *)
Definition long_id : string := String.concat "" (repeat "aaaaaaaaaa" 12).
Definition long_envelope : TaskEnvelope := MkTaskEnvelope (Some (MkProtoId long_id)) None None 0 [] ∅ 0.

(** A claim that waits and is woken once. *)
Definition one_wakeup : Waiting :=
  MkWaiting 1 0 (fun n => MkRound (Z.of_nat n) (if (n =? 0)%nat then Notified else DeadlineReached)).

Lemma long_task_id_stops_every_worker_witness :
  let w := after_submission long_envelope in
  (exists resp, (run (submit_task sample_config (MkSubmitTask (Some long_envelope)))
                   (sample_world empty_state)).1 = Some (Ok resp))
  /\ exists w', run (claim_next_task sample_config (claim_request "worker-a") one_wakeup) w = (None, w')
     /\ w_store w' = scanned w.
Proof.
  intros w. split; [eexists; vm_compute; reflexivity|].
  assert (Hworker : parse_required_agent_id (cn_worker_id (claim_request "worker-a"))
    = Ok worker_a) by (vm_compute; reflexivity).
  destruct (offered_tasks sample_config (scanned w)) as [|c rest] eqn:Hoff.
  { assert (length (offered_tasks sample_config (scanned w)) = 1%nat) as H by (vm_compute; reflexivity).
    by rewrite Hoff in H. }
  apply (long_task_id_stops_every_worker sample_config (claim_request "worker-a") worker_a one_wakeup
           c rest w (proj1 (after_submission_inv long_envelope)) Hworker eq_refl eq_refl Hoff).
  - vm_compute. discriminate.
  - assert (match offered_tasks sample_config (scanned w) with
      | c :: _ => 121 <? Z.of_nat (String.length (as_str (tr_id (pe_task c)))
                                   + String.length (pretty (w_clock w 1%nat)))
      | [] => false
      end = true) as H by (vm_compute; reflexivity).
    rewrite Hoff in H. apply Z.ltb_lt in H. by apply Nat2Z.inj_lt.
Defined.
