(* ===== verification/QueueLock.v ===== *)
(** * The submission lock

    A submission counts the pending tasks, compares the count with the limit
    and accepts the task under one lock. Here is the discipline that every
    program of the daemon follows: what a program may do outside of the lock
    and inside of it, given what it has learnt there, and that at most one
    program of a pool is inside. *)
From S2P Require Import Prelude Ident Lifecycle StoreModel Api MemStore Wire Rpc Program ProgramFacts.
From S2P Require Import Daemon DaemonCalls DaemonSession.
From stdpp Require Import options.
#[local] Open Scope Z_scope.

(** What the holder of the lock has learnt from the store. *)
Inductive Held : Type := Nothing | Counted (pending : Z) | Known (i : TaskId).

Inductive Mode : Type := Outside | Inside (h : Held).

(** The calls that are made without looking, and whether a thread may be left
    in a loop. *)
Record Rules : Type := MkRules { quiet : Op -> bool; spins : bool }.

Section discipline.
Context (rules : Rules) (max_pending : Z).

Definition room (pending : Z) : Prop := 0 < max_pending -> pending < max_pending.

(** What lets a task in. *)
Definition admits (h : Held) (op : Op) : Prop :=
  match op, h with
  | OpAccept _, Counted c | OpAcceptEnvelope _ _, Counted c | OpAcceptContext _ _ _, Counted c => room c
  | OpAcceptContext t _ _, Known i => tr_id t = i
  | _, _ => False
  end.

Definition allowed (m : Mode) (e : Effect) : Prop :=
  match e with
  | LockSubmissions => m = Outside
  | UnlockSubmissions => m <> Outside
  | Store op => quiet rules op = true \/ match m with Inside h => admits h op | Outside => False end
  | StillRunning => spins rules = true
  | _ => True
  end.

Definition held_after (e : Effect) : effect_reply e -> Held -> Held :=
  match e with
  | Store op =>
      match op return StoreResult (answer op) -> Held -> Held with
      | OpCount Pending => fun r h => match r with Ok c => Counted c | Err _ => h end
      | OpGet i => fun r h => match r with Ok _ => Known i | Err _ => h end
      | op => fun _ h => if quiet rules op then h else Nothing
      end
  | _ => fun _ h => h
  end.

Definition mode_after (e : Effect) (x : effect_reply e) (m : Mode) : Mode :=
  match m with
  | Outside => match e with LockSubmissions => Inside Nothing | _ => Outside end
  | Inside h => match e with UnlockSubmissions => Outside | _ => Inside (held_after e x h) end
  end.

(** Whatever the answers are, the program does what its mode allows, and it
    does not end while it holds the lock. *)
Fixpoint disciplined {E A} (m : Mode) (p : Prog E A) : Prop :=
  match p with
  | Done _ | Panic => m = Outside
  | Call e k => allowed m e /\ forall x, disciplined (mode_after e x m) (k x)
  end.

(** ** Programs without the lock *)

Definition free (e : Effect) : Prop :=
  match e with
  | LockSubmissions | UnlockSubmissions => False
  | Store op => quiet rules op = true
  | StillRunning => spins rules = true
  | _ => True
  end.

Lemma free_disciplined {E A} (p : Prog E A) :
  every_call free (fun _ _ => True) p -> disciplined Outside p.
Proof.
  induction p as [r| |e k IH]; [done|done|]. intros [He Hk]. split; [destruct e; simpl in *; auto|].
  intros x. assert (mode_after e x Outside = Outside) as -> by by destruct e.
  by apply IH, Hk.
Qed.

Lemma disciplined_bind {E A B} (p : Prog E A) (k : A -> Prog E B) m :
  disciplined m p -> (forall a, disciplined Outside (k a)) -> disciplined m (bindP p k).
Proof.
  intros Hp Hk. revert m Hp. induction p as [[a|e]| |e c IH]; intros m; simpl; try done.
  - by intros ->.
  - intros [He Hc]. split; [done|]. intros x. by apply IH.
Qed.

Lemma disciplined_map_err {E E' A} (f : E -> E') (p : Prog E A) m :
  disciplined m p -> disciplined m (map_errP f p).
Proof.
  revert m. induction p as [r| |e c IH]; intros m; simpl; try done.
  intros [He Hc]. split; [done|]. intros x. by apply IH.
Qed.

(** ** Programs inside the lock *)

(** [Q] is what holds of the end, of what was learnt and of the answer. *)
Fixpoint inside {E A} (h : Held) (p : Prog E A) (Q : Held -> Result A E -> Prop) : Prop :=
  match p with
  | Done r => Q h r
  | Panic => True
  | Call e k =>
      e <> LockSubmissions /\ e <> UnlockSubmissions /\ allowed (Inside h) e
      /\ forall x, inside (held_after e x h) (k x) Q
  end.

Lemma inside_bind {E A B} (p : Prog E A) (k : A -> Prog E B) h Q :
  inside h p (fun h' r => match r with Ok a => inside h' (k a) Q | Err e => Q h' (Err e) end) ->
  inside h (bindP p k) Q.
Proof.
  revert h. induction p as [[a|e]| |e c IH]; intros h; simpl; try done.
  intros (? & ? & ? & Hc). repeat split; try done. intros x. by apply IH.
Qed.

Lemma inside_handle {E E' A B} (p : Prog E A) (k : Result A E -> Prog E' B) h Q :
  inside h p (fun h' r => inside h' (k r) Q) -> inside h (handleP p k) Q.
Proof.
  revert h. induction p as [r| |e c IH]; intros h; simpl; try done.
  intros (? & ? & ? & Hc). repeat split; try done. intros x. by apply IH.
Qed.

Lemma inside_mono {E A} (p : Prog E A) h (Q Q' : Held -> Result A E -> Prop) :
  (forall h r, Q h r -> Q' h r) -> inside h p Q -> inside h p Q'.
Proof.
  intros HQ. revert h. induction p as [r| |e c IH]; intros h; simpl; auto.
  intros (? & ? & ? & Hc). repeat split; try done. intros x. by apply IH.
Qed.

Lemma inside_finally {E A} (p : Prog E A) h :
  inside h p (fun _ _ => True) -> disciplined (Inside h) (finally UnlockSubmissions p).
Proof.
  revert h. induction p as [r| |e c IH]; intros h; simpl; try done.
  intros (He & He' & Ha & Hc). split; [done|]. intros x.
  assert (mode_after e x (Inside h) = Inside (held_after e x h)) as E' by by destruct e.
  simpl in E'. rewrite E'. by apply IH.
Qed.

Lemma inside_lock {E A} (p : Prog E A) :
  inside Nothing p (fun _ _ => True) -> disciplined Outside (with_submission_lock p).
Proof. intros H. split; [done|]. intros x. by apply inside_finally. Qed.
End discipline.

(** ** The daemon's programs *)

(** A call after which no task is pending that was not. *)
Definition no_new (op : Op) : bool :=
  match op with
  | OpLeaseForPeer _ _ _ | OpRenew _ _ _ _ _ | OpFailDeadlines _ _ | OpCancelResult _ _ _ _ _
  | OpCompleteResult _ _ _ _ | OpGet _ | OpGetEnvelope _ | OpPendingEnvelopes _ | OpClaimable _ _
  | OpCount _ | OpEvents _ | OpActiveLease _ | OpGetContext _ | OpGetResult _ => true
  | _ => false
  end.

(** The activities that put a task back into the queue. *)
Definition requeues (a : Activity) : bool :=
  match a with
  | Rpc _ (ReqFailTask _) | RecoveryTick | HealthTick _ _ => true
  | _ => false
  end.

Section programs.
Context `{W : Wire} (sha256 : bytes -> string) (cfg : KeryxDaemonConfig).
Context (rules : Rules) (Hquiet : forall op, no_new op = true -> quiet rules op = true).

Abbreviation limit := (max_pending_tasks (limits cfg)).
Abbreviation free := (every_call (free rules) (fun _ _ => True)).
Abbreviation outside := (disciplined rules limit Outside).
Abbreviation inside := (inside rules limit).

Ltac free_step :=
  lazymatch goal with
  | |- free (bindP _ _) => apply every_bind; [|intros ?]
  | |- free (map_errP _ _) => apply every_map_err
  | |- free (handleP _ _) => apply every_handle; [|intros ?]
  | |- free (store_rpc _) => apply every_map_err
  | |- free (store _) => split; [|by intros]
  | |- free (match ?x with _ => _ end) => destruct x eqn:?
  | |- free (return_peer_for_task _) => unfold return_peer_for_task
  | |- free (count _) => split; [exact I|by intros]
  | |- free unix_ms_now => split; [exact I|by intros]
  | |- free hash_order => split; [exact I|by intros]
  | |- free (liftP _) => exact I
  | |- free (retP _) => exact I
  | |- free (throwP _) => exact I
  | |- free Panic => exact I
  | |- QueueLock.free _ (Store _) => apply Hquiet; reflexivity
  | |- QueueLock.free _ _ => exact I
  end.
Ltac frees := cbv zeta; repeat free_step.

Lemma claim_task_free r : free (claim_task cfg r).
Proof using Hquiet. unfold claim_task. frees. Qed.

(** With a round within the fuel that comes after the deadline, the loop ends. *)
Lemma claim_rounds_free attempt wait deadline fuel : forall rounds,
  spins rules = true \/ (exists n, (n <= fuel)%nat /\ deadline <= checked_at (rounds n)) ->
  free attempt -> free (claim_rounds attempt wait deadline fuel rounds).
Proof using Type.
  induction fuel as [|fuel IH]; intros rounds Hend Ha; cbn [claim_rounds]; frees; try assumption.
  - split; [|by intros]. destruct Hend as [Hs|(n & Hn & Ht)]; [exact Hs|].
    assert (n = 0)%nat as -> by lia.
    match goal with H : _ || _ = false |- _ => apply orb_false_iff in H as [_ H%Z.leb_gt] end. lia.
  - apply IH; [|done]. destruct Hend as [Hs|(n & Hn & Ht)]; [by left|right].
    match goal with H : _ || _ = false |- _ => apply orb_false_iff in H as [_ H%Z.leb_gt] end.
    destruct n as [|n]; [lia|]. exists n. split; [lia|done].
Qed.

(** The time passes the deadline of the claim within the fuel. *)
Definition in_time (r : ClaimNextTaskRequest) (waiting : Waiting) : Prop :=
  exists n, (n <= fuel waiting)%nat
    /\ claim_deadline (began_at waiting) (normalize_claim_wait_ms (cn_wait_timeout_ms r))
       <= checked_at (rounds waiting n).

Lemma claim_next_task_free r waiting :
  spins rules = true \/ in_time r waiting -> free (claim_next_task cfg r waiting).
Proof using Hquiet.
  intros Hend. unfold claim_next_task. frees. apply claim_rounds_free; [done|].
  unfold try_claim_next_task. frees.
  match goal with |- free (claim_first _ _ _ _ _ ?l) => induction l as [|c l IH] end; [exact I|].
  cbn [claim_first]. frees; assumption.
Qed.

Lemma heartbeat_free r : free (heartbeat cfg r).
Proof using Hquiet. unfold heartbeat. frees. Qed.

Lemma build_terminal_result_free i o d e m l : free (build_terminal_result sha256 cfg i o d e m l).
Proof using Hquiet. unfold build_terminal_result, stored_correlation_id. frees. Qed.

Lemma complete_task_free r : free (complete_task sha256 cfg r).
Proof using Hquiet.
  unfold complete_task, check_return_peer_features, authenticated_source_features_for_task.
  frees; apply build_terminal_result_free.
Qed.

Lemma fail_task_free r :
  (forall i l w e p res, quiet rules (OpFailResult i l w e p res) = true) -> free (fail_task sha256 cfg r).
Proof using Hquiet.
  intros Hf. unfold fail_task. frees; first [apply build_terminal_result_free|apply Hf|idtac].
Qed.

Lemma cancel_task_free r : free (cancel_task cfg r).
Proof using Hquiet. unfold cancel_task, check_local_executor, existing_canceled_response. frees. Qed.

Lemma get_task_result_free r : free (get_task_result r).
Proof using Hquiet. unfold get_task_result. frees. Qed.

(** What the capacity checks leave behind. *)
Lemma check_capacity_inside envelope h :
  inside h (check_capacity cfg envelope)
    (fun h' r => match r with Ok _ => exists c, h' = Counted c /\ room limit c | Err _ => True end).
Proof using Hquiet.
  unfold check_capacity. repeat (split; [try done; left; by apply Hquiet|]).
  intros [pending|err]; [|exact I]. apply inside_bind. simpl.
  destruct (check_pending_tasks (limits cfg) pending) as [u|err] eqn:Hcheck; [|exact I].
  assert (Hroom : room limit pending).
  { unfold check_pending_tasks in Hcheck. destruct (_ && _) eqn:E; [done|].
    unfold room. lia. }
  simpl. repeat (split; [done|]). intros [retained|err]; [|exact I]. simpl.
  destruct (check_retained_envelope_bytes _ _ _); simpl; [|done]. by exists pending.
Qed.

Lemma admit_inside op h (k : answer op -> Prog StoreError TaskRecord) :
  admits limit h op ->
  (forall h' a, inside h' (k a) (fun _ _ => True)) ->
  inside h (bindP (store op) k) (fun _ _ => True).
Proof.
  intros Ha Hk. apply inside_bind. simpl. repeat (split; [done|]). split; [by right|].
  intros [a|err]; [apply Hk|done].
Qed.

(** Count, compare, accept. *)
Lemma checked_admission_inside envelope op h :
  (forall c, room limit c -> admits limit (Counted c) op) ->
  forall k : answer op -> Prog StoreError TaskRecord,
  (forall h' a, inside h' (k a) (fun _ _ => True)) ->
  inside h (do! _ := check_capacity cfg envelope in do! a := store op in k a) (fun _ _ => True).
Proof using Hquiet.
  intros Ha k Hk. apply inside_bind.
  eapply inside_mono; [|apply (check_capacity_inside envelope)].
  intros h' [u|err]; [|done]. intros (c & -> & Hc). apply admit_inside; [by apply Ha|exact Hk].
Qed.

Lemma accept_envelope_outside record envelope :
  outside (accept_pending_task_with_envelope_backpressure cfg record envelope).
Proof using Hquiet.
  unfold accept_pending_task_with_envelope_backpressure.
  apply disciplined_bind; [by apply free_disciplined|]. intros _. apply inside_lock.
  apply checked_admission_inside; [by intros c Hc|]. intros h' a. by repeat split.
Qed.

Lemma accept_remote_outside record envelope context :
  outside (accept_pending_remote_task_with_backpressure cfg record envelope context).
Proof using Hquiet.
  unfold accept_pending_remote_task_with_backpressure.
  apply disciplined_bind; [by apply free_disciplined|]. intros _. apply inside_lock.
  apply inside_handle. simpl. repeat (split; [done|]). split; [left; by apply Hquiet|].
  intros [known|err].
  - simpl. repeat (split; [done|]). split; [by right|]. by intros x.
  - destruct err; try exact I. apply checked_admission_inside; [by intros c Hc|].
    intros h' a. by repeat split.
Qed.

Lemma submit_task_outside r : outside (submit_task cfg r).
Proof using Hquiet.
  unfold submit_task.
  repeat (apply disciplined_bind; [solve [apply free_disciplined; repeat split]|intros ?]); cbv zeta.
  apply disciplined_bind; [apply disciplined_map_err, accept_envelope_outside|]. intros ac.
  by apply free_disciplined; repeat split.
Qed.

Lemma submit_remote_task_outside r : outside (submit_remote_task cfg r).
Proof using Hquiet.
  unfold submit_remote_task.
  repeat (apply disciplined_bind; [solve [apply free_disciplined; repeat split]|intros ?]); cbv zeta.
  case_match; [done|].
  repeat (apply disciplined_bind; [solve [apply free_disciplined; repeat split]|intros ?]); cbv zeta.
  apply disciplined_bind; [apply disciplined_map_err, accept_remote_outside|]. intros ac.
  by apply free_disciplined; repeat split.
Qed.

(** Every claim of the activity ends in time. *)
Definition timely (a : Activity) : Prop :=
  match a with Rpc _ (ReqClaimNextTask r waiting) => in_time r waiting | _ => True end.

Lemma serve_outside auth r :
  requeues (Rpc auth r) = false \/ (forall op, quiet rules op = true) ->
  spins rules = true \/ timely (Rpc auth r) -> outside (serve sha256 cfg auth r).
Proof using Hquiet.
  intros Hr Ht. unfold serve. apply disciplined_bind; [by apply free_disciplined|]. intros _.
  destruct r; cbn [handle respond]; apply disciplined_bind; try (by intros ?; apply free_disciplined);
    first [apply submit_task_outside|apply submit_remote_task_outside|apply free_disciplined];
    auto using claim_task_free, claim_next_task_free, heartbeat_free, complete_task_free,
      cancel_task_free, get_task_result_free.
  destruct Hr as [[=]|Hr]. by apply fail_task_free.
Qed.

(** Every activity that does not requeue obeys the discipline, and so does
    every activity when all calls count as quiet; under the rule that no thread
    is left in a loop, as long as the time passes. *)
Lemma activity_outside a :
  requeues a = false \/ (forall op, quiet rules op = true) ->
  spins rules = true \/ timely a -> outside (activity sha256 cfg a).
Proof using Hquiet.
  intros Hr Ht. destruct a; cbn [activity].
  - apply disciplined_bind; [by apply serve_outside|]. intros x. by apply free_disciplined.
  - apply free_disciplined. unfold deadline_tick. frees.
    split; [exact I|by intros].
  - apply free_disciplined. destruct Hr as [[=]|Hr]. unfold recovery_tick. frees.
    + apply Hr.
    + match goal with |- free (foldr _ _ ?ts) => induction ts as [|? ? IH] end; [exact I|].
      cbn [foldr]. frees. done.
  - apply free_disciplined. destruct Hr as [[=]|Hr]. unfold probe_store_readiness. frees. apply Hr.
Qed.
End programs.

(** ** Mutual exclusion *)

Definition is_inside (m : Mode) : bool := match m with Inside _ => true | Outside => false end.

Section pools.
Context {S : Type} `{DaemonStore S}.
Context (rules : Rules) (max_pending : Z).

(** The modes of the threads, with at most one of them inside, namely when
    the lock is taken. *)
Record Excluded {E A} (modes : list Mode) (p : Pool S E A) : Prop := {
  ex_disciplined : Forall2 (disciplined rules max_pending) modes (threads p);
  ex_taken : w_locked (world p) = true <-> exists i m, modes !! i = Some m /\ is_inside m = true;
  ex_one i j m m' : modes !! i = Some m -> is_inside m = true ->
    modes !! j = Some m' -> is_inside m' = true -> i = j;
}.

Lemma advance_inv {E A} i (p : Pool S E A) :
  advance i p = p
  \/ exists e k x w', threads p !! i = Some (Call e k) /\ enabled e (world p) = true
     /\ perform e (world p) = (x, w') /\ advance i p = MkPool (<[i := k x]> (threads p)) w'.
Proof.
  unfold advance. destruct (threads p !! i) as [[| |e k]|]; [by left|by left| |by left].
  destruct (enabled e (world p)) eqn:He; [|by left].
  destruct (perform e (world p)) as [x w'] eqn:Hp. right. by exists e, k, x, w'.
Qed.

Lemma perform_locked e (w : World S) x w' :
  perform e w = (x, w') ->
  w_locked w' = match e with LockSubmissions => true | UnlockSubmissions => false | _ => w_locked w end.
Proof.
  destruct w as [s clock orders m c lock]. destruct e; simpl; try (intros [= <- <-]; done).
  - by destruct (call op s); intros [= <- <-].
  - by destruct (api_retained_bytes s); intros [= <- <-].
Qed.

Lemma excluded_start {E A} (ps : list (Prog E A)) w :
  Forall (disciplined rules max_pending Outside) ps -> w_locked w = false ->
  Excluded (replicate (length ps) Outside) (MkPool ps w).
Proof.
  intros Hps Hw. split; simpl.
  - induction Hps; simpl; constructor; auto.
  - rewrite Hw. split; [done|]. by intros (i & m & [-> _]%lookup_replicate & ?).
  - by intros i j m m' [-> _]%lookup_replicate.
Qed.

Lemma mode_after_inside e x m :
  is_inside (mode_after rules e x m)
  = match e with LockSubmissions => true | UnlockSubmissions => false | _ => is_inside m end.
Proof. by destruct m, e. Qed.

(** One step of a thread, which moves its mode. *)
Lemma excluded_step {E A} modes (p : Pool S E A) i e k x w' :
  Excluded modes p -> threads p !! i = Some (Call e k) -> enabled e (world p) = true ->
  perform e (world p) = (x, w') ->
  exists m, modes !! i = Some m /\ allowed rules max_pending m e
  /\ Excluded (<[i := mode_after rules e x m]> modes) (MkPool (<[i := k x]> (threads p)) w').
Proof.
  intros [Hd Ht H1] Hi He Hp.
  destruct (Forall2_lookup_r _ _ _ _ _ Hd Hi) as (m & Hm & [Ha Hk]). exists m. split; [done|].
  split; [done|]. pose proof (perform_locked _ _ _ _ Hp) as Hl.
  assert (Hlen : (i < length modes)%nat) by by eapply lookup_lt_Some.
  split; simpl.
  - apply Forall2_insert; [done|]. apply Hk.
  - rewrite Hl. split.
    + intros Hlock. destruct e; try done;
        try (apply Ht in Hlock as (j & m' & Hj & Hm'); destruct (decide (j = i)) as [->|Hne];
             [simplify_eq; exists i; eexists; split; [by apply list_lookup_insert_eq|];
              by rewrite mode_after_inside
             |exists j, m'; by rewrite list_lookup_insert_ne]).
      exists i. eexists. split; [by apply list_lookup_insert_eq|]. by rewrite mode_after_inside.
    + intros (j & m' & Hj & Hm'). apply list_lookup_insert_Some in Hj as [(<- & <- & _)|(Hne & Hj)].
      * rewrite mode_after_inside in Hm'. destruct e; try done; apply Ht; by exists i, m.
      * destruct e; try (apply Ht; by exists j, m'); [done|].
        destruct m as [|h]; [by destruct Ha|]. by destruct Hne; eapply H1.
  - assert (Hold : forall j m1, <[i := mode_after rules e x m]> modes !! j = Some m1 ->
      is_inside m1 = true -> j <> i -> modes !! j = Some m1).
    { intros j m1 [(<- & _ & _)|(_ & Hj)]%list_lookup_insert_Some; done. }
    assert (Hin : is_inside (mode_after rules e x m) = true -> forall j m2,
      modes !! j = Some m2 -> is_inside m2 = true -> j = i).
    { rewrite mode_after_inside. intros Hin j m2 Hj Hm2.
      assert (w_locked (world p) = true) as Hw by (apply Ht; eauto).
      destruct e; try done; try (by eapply H1). simpl in He. by rewrite Hw in He. }
    intros j j' m1 m2 Hj Hm1 Hj' Hm2.
    destruct (decide (j = i)) as [->|Hne], (decide (j' = i)) as [->|Hne']; [done| | |].
    + rewrite list_lookup_insert_eq in Hj by done. simplify_eq. symmetry. eauto.
    + rewrite list_lookup_insert_eq in Hj' by done. simplify_eq. eauto.
    + eapply H1; eauto.
Qed.
End pools.
