(* ===== verification/QueueBound.v ===== *)
(** * The queue never outgrows its limit

    [check_pending_tasks] compares a count that was read earlier. It is enough
    because the lock is held from the count to the admission and nothing else
    adds a pending task, except giving a task back. *)
From S2P Require Import Prelude Ident Text Lifecycle StoreModel Api MemStore MemSpec MemInv Wire Rpc.
From S2P Require Import Program ProgramFacts Daemon DaemonCalls WireSamples DaemonSession QueueLock.
From stdpp Require Import options.
#[local] Open Scope Z_scope.

(** ** Pending tasks *)

Definition is_pending (kv : TaskId * TaskRecord) : Prop := tr_status kv.2 = Pending.

Definition pending_tasks (s : InMemoryState) : gmap TaskId TaskRecord := filter is_pending (tasks s).

Lemma length_filter_fmap {A B} (f : A -> B) (P : B -> Prop) `{forall b, Decision (P b)} l :
  length (filter P (f <$> l)) = length (filter (fun a => P (f a)) l).
Proof.
  induction l as [|a l IH]; [done|]. rewrite fmap_cons, !filter_cons.
  repeat case_decide; simpl; congruence.
Qed.

Lemma count_pending s :
  call (OpCount Pending) s = (Ok (Z.of_nat (size (pending_tasks s))), s).
Proof.
  simpl. unfold count_tasks_by_status, bind, get, ret. do 3 f_equal.
  unfold task_values, pending_tasks. rewrite map_filter_alt, map_size_list_to_map.
  - by rewrite length_filter_fmap.
  - eapply sublist_NoDup, fmap_sublist, sublist_filter. apply NoDup_fst_map_to_list.
Qed.

(** No task is pending that was not, and none is gone. *)
Definition drained (s s' : InMemoryState) : Prop :=
  (forall i t', tasks s' !! i = Some t' -> tr_status t' = Pending ->
     exists t, tasks s !! i = Some t /\ tr_status t = Pending)
  /\ (forall i, is_Some (tasks s !! i) -> is_Some (tasks s' !! i)).

#[export] Instance drained_preorder : PreOrder drained.
Proof.
  split.
  - intros s. split; eauto.
  - intros a b c [P1 K1] [P2 K2]. split; [|auto]. intros i t'' H1 H2.
    destruct (P2 _ _ H1 H2) as (t' & ? & ?). eauto.
Qed.

Lemma drained_count s s' :
  drained s s' -> (size (pending_tasks s') <= size (pending_tasks s))%nat.
Proof.
  intros [HP _]. rewrite <- !size_dom. apply subseteq_size. intros i Hi.
  apply elem_of_dom in Hi as [t' Hi]. apply map_lookup_filter_Some in Hi as [Hi Hp].
  destruct (HP i t' Hi Hp) as (t & Ht & Hs). apply elem_of_dom. exists t.
  by apply map_lookup_filter_Some.
Qed.

Lemma drained_same s s' : tasks s' = tasks s -> drained s s'.
Proof. intros E. split; rewrite E; eauto. Qed.

Lemma drained_update i t' s s' :
  tasks s' = <[i := t']> (tasks s) -> is_Some (tasks s !! i) -> tr_status t' <> Pending ->
  drained s s'.
Proof.
  intros E Hi Ht. split; rewrite E; intros j.
  - intros u [[<- <-]|[_ Hu]]%lookup_insert_Some; [done|eauto].
  - rewrite lookup_insert_is_Some. destruct (decide (i = j)); auto.
Qed.

Lemma drained_result i res s r s1 s' :
  drained s s1 -> store_result i res s1 = (r, s') -> drained s s'.
Proof.
  intros Hd [_ ->]%store_result_inv. etrans; [done|]. apply drained_same, put_result_tasks.
Qed.

Ltac drain :=
  first [ reflexivity
        | apply drained_same; reflexivity
        | eapply drained_update; [reflexivity|by eexists|simpl; congruence] ].

Lemma drained_lease i l p s r s' : lease_task_for_peer i l p s = (r, s') -> drained s s'.
Proof.
  intros H. unfold lease_task_for_peer, lease_task_with_peer_guard in H. op_run H; drain.
Qed.

Lemma drained_renew i lid w now exp s r s' : renew_lease i lid w now exp s = (r, s') -> drained s s'.
Proof. intros H. unfold renew_lease in H. op_run H; drain. Qed.

Lemma drained_collect {A B} (body : A -> M (list B)) :
  (forall a s r s', body a s = (r, s') -> drained s s') ->
  forall l s r s', for_collect body l s = (r, s') -> drained s s'.
Proof.
  intros Hb l. induction l as [|a l IH]; intros s r s' H; simpl in H; run_inv H;
    [reflexivity|..]; try (etrans; [by eapply Hb|]); by eauto.
Qed.

Lemma drained_deadlines now n s r s' : fail_expired_deadlines now n s = (r, s') -> drained s s'.
Proof.
  intros H. unfold fail_expired_deadlines in H. run_inv H. eapply drained_collect; [|exact H].
  clear. intros x s r s' H. unfold fail_deadline in H. op_run H; drain.
Qed.

Lemma drained_cancel i lid w now res s r s' :
  cancel_task_with_result i lid w now res s = (r, s') -> drained s s'.
Proof.
  intros H. unfold cancel_task_with_result in H. op_run H; try drain;
    match goal with E : store_result _ _ _ = _ |- _ => eapply drained_result in E; [done|drain] end.
Qed.

Lemma drained_complete i lid w res s r s' :
  complete_task_with_result i lid w res s = (r, s') -> drained s s'.
Proof.
  intros H. unfold complete_task_with_result, finish_task_in_state in H. op_run H; try drain;
    match goal with E : store_result _ _ _ = _ |- _ => eapply drained_result in E; [done|drain] end.
Qed.

Lemma no_new_drained op (s : InMemoryState) r s' :
  no_new op = true -> call op s = (r, s') -> drained s s'.
Proof.
  intros Hq H. destruct (is_query op) eqn:Hr.
  { by apply call_query in H as ->. }
  destruct op; try discriminate Hq; try discriminate Hr; simpl in H;
    eauto using drained_lease, drained_renew, drained_deadlines, drained_cancel, drained_complete.
Qed.

(** ** Admissions *)

(** A task that was not there. *)
Definition admitted (t : TaskRecord) (s s' : InMemoryState) : Prop :=
  tasks s' = tasks s \/ tasks s !! tr_id t = None /\ tasks s' = <[tr_id t := t]> (tasks s).

Lemma set_idempotency_tasks k i s : tasks (set_idempotency_opt k i s) = tasks s.
Proof. by destruct k. Qed.

Ltac admits := first [by left|right; simpl; rewrite ?set_idempotency_tasks; by split].

Lemma accept_admits t s r s' : accept_task t s = (r, s') -> admitted t s s'.
Proof. intros H. unfold accept_task in H. op_run H; admits. Qed.

Lemma accept_envelope_admits t e s r s' :
  accept_task_with_envelope t e s = (r, s') -> admitted t s s'.
Proof. intros H. unfold accept_task_with_envelope in H. op_run H; admits. Qed.

Lemma accept_context_admits t e c s r s' :
  accept_task_with_envelope_and_context t e c s = (r, s') -> admitted t s s'.
Proof. intros H. unfold accept_task_with_envelope_and_context in H. op_run H; admits. Qed.

Lemma admitted_grows t s s' :
  admitted t s s' -> (size (pending_tasks s') <= S (size (pending_tasks s)))%nat.
Proof.
  intros [E|[_ E]]; [unfold pending_tasks; rewrite E; lia|].
  assert (Hsub : dom (pending_tasks s') ⊆ {[tr_id t]} ∪ dom (pending_tasks s)).
  { intros i [u Hu]%elem_of_dom. apply map_lookup_filter_Some in Hu as [Hu Hp].
    rewrite E in Hu. apply lookup_insert_Some in Hu as [[-> _]|[_ Hu]]; [set_solver|].
    apply elem_of_union_r, elem_of_dom. exists u. by apply map_lookup_filter_Some. }
  apply subseteq_size in Hsub. rewrite <- !size_dom.
  pose proof (size_union_alt {[tr_id t]} (dom (pending_tasks s))) as Hu.
  pose proof (subseteq_size (dom (pending_tasks s) ∖ {[tr_id t]}) (dom (pending_tasks s))) as Hd.
  rewrite size_singleton in Hu. specialize (Hd ltac:(set_solver)). lia.
Qed.

(** What the holder of the lock knows. *)
Definition knows (s : InMemoryState) (h : Held) : Prop :=
  match h with
  | Nothing => True
  | Counted c => Z.of_nat (size (pending_tasks s)) <= c
  | Known i => is_Some (tasks s !! i)
  end.

Lemma knows_drained s s' h : drained s s' -> knows s h -> knows s' h.
Proof.
  intros Hd. destruct h as [|c|i]; simpl; [done| |].
  - pose proof (drained_count _ _ Hd). lia.
  - destruct Hd as [_ Hk]. apply Hk.
Qed.

(** An admission that the holder may make keeps the limit. *)
Lemma admission_fits op (s : InMemoryState) r s' max h :
  0 < max -> admits max h op -> knows s h -> Z.of_nat (size (pending_tasks s)) <= max ->
  call op s = (r, s') -> Z.of_nat (size (pending_tasks s')) <= max.
Proof.
  intros Hmax Ha Hk Hb Hc.
  assert (Hadm : exists t, admitted t s s' /\ (forall i, h = Known i -> tr_id t = i)).
  { destruct op; try contradiction Ha; simpl in Hc; exists t.
    - apply accept_admits in Hc. split; [done|]. by intros i ->.
    - apply accept_envelope_admits in Hc. split; [done|]. by intros i ->.
    - apply accept_context_admits in Hc. split; [done|]. by intros i ->. }
  destruct Hadm as (t & Hadm & Hid). destruct h as [|c|i]; [by destruct op| |].
  - pose proof (admitted_grows _ _ _ Hadm). simpl in Hk.
    assert (c < max) by (destruct op; try contradiction Ha; by apply Ha). lia.
  - destruct Hadm as [E|[Hn _]]; [unfold pending_tasks; by rewrite E|].
    rewrite (Hid i eq_refl) in Hn. simpl in Hk. rewrite Hn in Hk. by destruct Hk.
Qed.

(** ** Pools *)

(** What submissions rely on: the calls outside of the lock add no pending task. *)
Definition queue_rules : Rules := MkRules no_new true.

Section pools.
Context (max : Z) (Hmax : 0 < max).

Record Queue {E A} (modes : list Mode) (p : Pool InMemoryState E A) : Prop := {
  q_excluded : Excluded queue_rules max modes p;
  q_bound : Z.of_nat (size (pending_tasks (w_store (world p)))) <= max;
  q_knows i h : modes !! i = Some (Inside h) -> knows (w_store (world p)) h;
}.

(** What the holder knows after a call. *)
Lemma learns e (w : World InMemoryState) x w' h :
  perform e w = (x, w') -> knows (w_store w) h ->
  (match e with Store op => no_new op = true -> drained (w_store w) (w_store w') | _ => True end) ->
  knows (w_store w') (held_after queue_rules e x h).
Proof.
  intros Hp Hk Hd. pose proof (perform_store _ _ _ _ Hp) as Hs.
  destruct e; simpl in Hs; try by rewrite Hs.
  destruct w as [s clock orders m c l]. simpl in *. destruct (call op s) as [r s'] eqn:Hc. simplify_eq.
  simpl in *.
  assert (Hkeep : knows s' (if no_new op then h else Nothing)).
  { destruct (no_new op) eqn:Hq; [|exact I]. eapply knows_drained; [by apply Hd|done]. }
  destruct op; try exact Hkeep.
  - destruct x as [t|err]; [|exact Hkeep]. apply get_task_ok in Hc as [-> Ht].
    symmetry in Ht. apply ok_or_ok in Ht. by exists t.
  - destruct st; try exact Hkeep. rewrite count_pending in Hc. injection Hc as <- <-. simpl. lia.
Qed.

(** An allowed effect adds no pending task, or is an admission of the holder. *)
Lemma allowed_effect m e (w : World InMemoryState) x w' :
  allowed queue_rules max m e -> perform e w = (x, w') ->
  drained (w_store w) (w_store w')
  \/ exists op h r, e = Store op /\ m = Inside h /\ admits max h op
     /\ call op (w_store w) = (r, w_store w').
Proof.
  intros Ha Hp. pose proof (perform_store _ _ _ _ Hp) as Hs.
  destruct e; simpl in Hs; rewrite Hs; try (by left).
  destruct (call op (w_store w)) as [r s'] eqn:Hc. simpl.
  destruct Ha as [Hq|Ha]; [left; by eapply no_new_drained|].
  destruct m as [|h]; [done|]. right. by exists op, h, r.
Qed.

Lemma mode_after_knows m e (w : World InMemoryState) x w' h' :
  perform e w = (x, w') -> (forall h, m = Inside h -> knows (w_store w) h) ->
  drained (w_store w) (w_store w') \/ (exists op h, e = Store op /\ m = Inside h /\ admits max h op) ->
  mode_after queue_rules e x m = Inside h' -> knows (w_store w') h'.
Proof.
  intros Hp Hk Hd Hm. destruct m as [|h].
  - destruct e; try discriminate Hm. by injection Hm as <-.
  - assert (h' = held_after queue_rules e x h) as -> by (destruct e; simpl in *; congruence).
    destruct Hd as [Hd|(op & h0 & -> & [= <-] & Ha)].
    + apply (learns _ _ _ _ _ Hp); [by apply Hk|]. by destruct e.
    + destruct op; try contradiction Ha; exact I.
Qed.

(** A step of one thread, in the modes it leads to. *)
Lemma queue_step {E A} modes (p : Pool InMemoryState E A) i :
  Queue modes p -> exists modes', Queue modes' (advance i p).
Proof using Hmax.
  intros [Hx Hb Hk].
  destruct (advance_inv i p) as [->|(e & k & x & w' & Hi & He & Hp & ->)]; [by exists modes|].
  destruct (excluded_step _ _ _ _ _ _ _ _ _ Hx Hi He Hp) as (m & Hm & Ha & Hx').
  pose proof (allowed_effect _ _ _ _ _ Ha Hp) as Heff.
  eexists. split; [exact Hx'| |]; simpl.
  - destruct Heff as [Hd|(op & h & r & -> & -> & Hadm & Hc)].
    + pose proof (drained_count _ _ Hd). lia.
    + eapply admission_fits; eauto.
  - intros j h' [(<- & Hm' & _)|(Hne & Hj)]%list_lookup_insert_Some.
    + eapply mode_after_knows; [exact Hp| | |exact Hm']; [intros h ->; by eapply Hk|].
      destruct Heff as [Hd|(op & h & r & -> & -> & Hadm & _)]; [by left|right; by exists op, h].
    + destruct Heff as [Hd|(op & h & r & -> & -> & Hadm & _)].
      * eapply knows_drained; [exact Hd|]. by eapply Hk.
      * destruct Hne. by eapply (ex_one _ _ _ _ Hx).
Qed.

Lemma queue_run {E A} schedule : forall modes (p : Pool InMemoryState E A),
  Queue modes p -> exists modes', Queue modes' (run_schedule schedule p).
Proof using Hmax.
  induction schedule as [|i schedule IH]; intros modes p H; [by exists modes|].
  destruct (queue_step _ _ i H) as (modes' & H'). by apply (IH modes').
Qed.
End pools.

Section bound.
Context `{W : Wire}.

(** C4: submissions never fill the queue beyond its limit. Whatever
    submissions, claims, heartbeats, completions, cancellations, look-ups and
    deadline scans run side by side, interleaved call by call: after every step
    of the session at most [max_pending_tasks] tasks are pending, although each
    submission compares the limit with a count that it read several steps
    before it accepts. Reports of failures and the recovery and health ticks
    are not among these activities: they return tasks to the queue without
    asking, and with them it can hold more than the limit. *)
Theorem queue_is_bounded sha256 cfg activities schedule (w : World InMemoryState) :
  Forall (fun a => requeues a = false) activities -> w_locked w = false ->
  0 < max_pending_tasks (limits cfg) ->
  Z.of_nat (size (pending_tasks (w_store w))) <= max_pending_tasks (limits cfg) ->
  let w' := world (run_schedule schedule (pool_of sha256 cfg activities w)) in
  Z.of_nat (size (pending_tasks (w_store w'))) <= max_pending_tasks (limits cfg).
Proof.
  intros Ha Hw Hmax Hb w'.
  destruct (queue_run (max_pending_tasks (limits cfg)) Hmax schedule
      (replicate (length (activity sha256 cfg <$> activities)) Outside) (pool_of sha256 cfg activities w))
    as (modes & Hq); [|exact (q_bound _ _ _ Hq)].
  split; [apply excluded_start; [|done]|done|].
  - apply Forall_fmap. eapply Forall_impl; [exact Ha|]. intros a Hr. simpl.
    apply activity_outside; [done|by left|by left].
  - by intros i h [[=] _]%lookup_replicate.
Qed.
End bound.

(** Two submissions whose counts would both have let them in: a limit of one,
    and a schedule that gives the second its turn after the first has
    counted. *)
Definition limit_of_one : KeryxDaemonConfig :=
  MkConfig (local_peer_id sample_config) 300000 default_retry_policy
    (MkLimits 1 0 0) (Some "secret"%string) 30000.

Definition second_envelope : TaskEnvelope :=
  MkTaskEnvelope (Some (MkProtoId "task-b")) None None 0 [] ∅ 0.

Definition racing : list Activity :=
  [Rpc header submit_a; Rpc header (ReqSubmitTask (MkSubmitTask (Some second_envelope)))].

Definition racing_schedule : list nat :=
  [0; 0; 1; 1; 0; 0; 1; 1; 0; 0; 1; 0; 0; 1; 1; 1; 1; 1; 1; 1; 0; 0]%nat.

Lemma queue_is_bounded_witness :
  let p := run_schedule racing_schedule
             (pool_of sample_sha limit_of_one racing (sample_world empty_state)) in
  Z.of_nat (size (pending_tasks (w_store (world p)))) <= 1
  /\ match threads p with
     | [Done (Ok _); Done (Err st)] => code st = ResourceExhausted
     | _ => False
     end.
Proof.
  split.
  - apply (queue_is_bounded sample_sha limit_of_one racing racing_schedule (sample_world empty_state)).
    + repeat constructor.
    + reflexivity.
    + reflexivity.
    + vm_compute. discriminate.
  - vm_compute. reflexivity.
Defined.
