(* ===== verification/Termination.v ===== *)
(** * Every session ends

    No schedule that keeps giving every thread its turn leaves a request
    unanswered: the loop of a waiting claim ends with its deadline, everything
    else has finitely many steps, and the one lock is always released by a
    thread that can run. *)
From S2P Require Import Prelude Ident Text Lifecycle StoreModel Api MemStore SqlStore Wire Rpc Program.
From S2P Require Import ProgramFacts Daemon DaemonCalls WireSamples DaemonSession QueueLock QueueBound.
From stdpp Require Import options.
From Stdlib Require Import Wellfounded Relation_Operators.

(** ** Steps get smaller *)

Section smaller.
Context {E A : Type}.

(** [q] is what is left of [p] after an effect. *)
Definition after (q p : Prog E A) : Prop :=
  match p with Call e k => exists x, q = k x | _ => False end.

Lemma after_wf : well_founded after.
Proof.
  intros p. induction p as [r| |e k IH]; constructor; [done|done|]. intros q (x & ->). apply IH.
Qed.

(** One of the programs has moved on. *)
Definition moved (ts' ts : list (Prog E A)) : Prop :=
  exists i p q, ts !! i = Some p /\ after q p /\ ts' = <[i := q]> ts.

Lemma moved_wf : well_founded moved.
Proof.
  intros ts. induction ts as [|p ts IH]; [constructor; intros ts' (i & p & q & H & _); by destruct i|].
  revert ts IH. induction p as [p IHp] using (well_founded_induction after_wf). intros ts IH.
  induction IH as [ts Hts IH]. constructor. intros ts' (i & p' & q & Hi & Hq & ->).
  destruct i as [|i]; simpl in *; simplify_eq.
  - apply IHp; [done|]. by constructor.
  - apply IH. by exists i, p', q.
Qed.

Definition finished (p : Prog E A) : bool := match p with Call _ _ => false | _ => true end.
End smaller.

Section rounds.
Context {S : Type} `{DaemonStore S}.
Context (rules : Rules) (Hspins : spins rules = false) (max_pending : Z).
Context {E A : Type}.
Implicit Types (p : Pool S E A) (modes : list Mode).

Abbreviation Excluded := (Excluded rules max_pending).

Lemma advance_moves i p : advance i p = p \/ moved (threads (advance i p)) (threads p).
Proof.
  destruct (advance_inv i p) as [->|(e & k & x & w' & Hi & _ & _ & ->)]; [by left|right].
  exists i, (Call e k), (k x). split; [done|]. split; [by exists x|done].
Qed.

Lemma moved_irreflexive (ts : list (Prog E A)) : ~ moved ts ts.
Proof.
  intros Hm. induction (moved_wf ts) as [ts _ IH]. by apply (IH ts).
Qed.

(** An effect that may be performed is performed. *)
Lemma advance_enabled i e k p :
  threads p !! i = Some (Call e k) -> enabled e (world p) = true -> advance i p <> p.
Proof.
  intros Hi He Heq. apply (moved_irreflexive (threads p)). rewrite <- Heq at 1.
  unfold advance. rewrite Hi, He. destruct (perform e (world p)) as [x w'].
  exists i, (Call e k), (k x). split; [done|]. split; [by exists x|done].
Qed.

(** Some thread can always run: none is left in a loop, and the lock is free or
    its holder can. *)
Lemma someone_runs modes p :
  Excluded modes p -> Forall (fun q => finished q = true) (threads p) \/
  exists i e k, threads p !! i = Some (Call e k) /\ enabled e (world p) = true.
Proof using Hspins.
  intros Hx. destruct (w_locked (world p)) eqn:Hl.
  - right. apply (ex_taken _ _ _ _ Hx) in Hl as (i & m & Hm & Hin).
    destruct (Forall2_lookup_l _ _ _ _ _ (ex_disciplined _ _ _ _ Hx) Hm) as (q & Hq & Hd).
    destruct q as [r| |e k]; simpl in Hd; [by subst m|by subst m|].
    exists i, e, k. split; [done|]. destruct e; try done; destruct Hd as [Hd _]; simpl in Hd; [by subst m|].
    congruence.
  - destruct (decide (Forall (fun q => finished q = true) (threads p))) as [Hf|Hf]; [by left|right].
    apply not_Forall_Exists in Hf; [|apply _]. apply Exists_exists in Hf as (q & Hq & Hf).
    apply list_elem_of_lookup in Hq as (i & Hi). destruct q as [r| |e k]; [by destruct Hf|by destruct Hf|].
    destruct (Forall2_lookup_r _ _ _ _ _ (ex_disciplined _ _ _ _ Hx) Hi) as (m & _ & Ha & _).
    exists i, e, k. split; [done|]. unfold enabled. rewrite Hl. destruct e; try done.
    simpl in Ha. congruence.
Qed.

Lemma excluded_advance modes p i : Excluded modes p -> exists modes', Excluded modes' (advance i p).
Proof.
  intros Hx. destruct (advance_inv i p) as [->|(e & k & x & w' & Hi & He & Hp & ->)]; [by exists modes|].
  destruct (excluded_step _ _ _ _ _ _ _ _ _ Hx Hi He Hp) as (m & _ & _ & Hx'). by eexists.
Qed.

Lemma excluded_run schedule : forall modes p,
  Excluded modes p -> exists modes', Excluded modes' (run_schedule schedule p).
Proof.
  induction schedule as [|i schedule IH]; intros modes p Hx; [by exists modes|].
  destruct (excluded_advance _ _ i Hx) as (modes' & Hx'). by apply (IH modes').
Qed.

Abbreviation progress := (clos_trans _ (@moved E A)).

(** A round in which a runnable thread has its turn makes progress. *)
Lemma round_moves schedule p :
  run_schedule schedule p = p \/ progress (threads (run_schedule schedule p)) (threads p).
Proof.
  revert p. induction schedule as [|i schedule IH]; intros p; [by left|]. simpl.
  destruct (advance_moves i p) as [->|Hm]; [apply IH|right].
  destruct (IH (advance i p)) as [->|Hp]; [by constructor|]. by eapply t_trans, t_step.
Qed.

Lemma round_progresses schedule i e k p :
  i ∈ schedule -> threads p !! i = Some (Call e k) -> enabled e (world p) = true ->
  progress (threads (run_schedule schedule p)) (threads p).
Proof.
  revert p. induction schedule as [|j schedule IH]; intros p Hin Hi He; [by apply elem_of_nil in Hin|].
  simpl. destruct (advance_moves j p) as [Heq|Hm].
  - rewrite Heq. apply IH; try done. apply elem_of_cons in Hin as [->|]; [|done].
    by destruct (advance_enabled _ _ _ _ Hi He).
  - destruct (round_moves schedule (advance j p)) as [->|Hp]; [by constructor|].
    by eapply t_trans, t_step.
Qed.

Lemma run_schedule_app l l' p : run_schedule (l ++ l') p = run_schedule l' (run_schedule l p).
Proof. revert p. induction l as [|i l IH]; intros p; [done|]. apply IH. Qed.

Lemma threads_length schedule p : length (threads (run_schedule schedule p)) = length (threads p).
Proof.
  revert p. induction schedule as [|i schedule IH]; intros p; [done|]. simpl. rewrite IH.
  unfold advance. destruct (threads p !! i) as [[| |e k]|]; try done.
  destruct (enabled e (world p)); [|done]. destruct (perform e (world p)). simpl.
  apply length_insert.
Qed.

(** Rounds that give every thread its turn finish every thread. *)
Lemma rounds_finish (rounds : nat -> list nat) : forall p modes n,
  Excluded modes p -> (forall n i, (i < length (threads p))%nat -> i ∈ rounds n) ->
  exists count, Forall (fun q => finished q = true)
    (threads (run_schedule (concat (rounds <$> seq n count)) p)).
Proof using Hspins.
  intros p. remember (threads p) as ts eqn:Hts. revert p Hts.
  induction ts as [ts IH] using (well_founded_induction (wf_clos_trans _ _ moved_wf)).
  intros p -> modes n Hx Hfair. destruct (someone_runs _ _ Hx) as [Hf|(i & e & k & Hi & He)].
  { by exists 0%nat. }
  assert (Hin : i ∈ rounds n) by by apply Hfair, (lookup_lt_Some _ _ _ Hi).
  destruct (excluded_run (rounds n) _ _ Hx) as (modes' & Hx').
  destruct (IH _ (round_progresses _ _ _ _ _ Hin Hi He) _ eq_refl modes' (Datatypes.S n) Hx')
    as (count & Hf).
  { intros m j. rewrite threads_length. apply Hfair. }
  exists (Datatypes.S count). simpl. by rewrite run_schedule_app.
Qed.
End rounds.

Section sessions.
Context `{W : Wire} {S : Type} `{DaemonStore S}.

(** What runs in a session with [n] as the fuel of every claim's loop. *)
Definition with_fuel (n : nat) (a : Activity) : Activity :=
  match a with
  | Rpc auth (ReqClaimNextTask r w) =>
      Rpc auth (ReqClaimNextTask r (MkWaiting n (began_at w) (rounds w)))
  | _ => a
  end.

(** As long as a claim goes on from round to round, its clock goes on: no
    [Instant] is later than all of its rounds. *)
Definition time_passes (a : Activity) : Prop :=
  match a with
  | Rpc _ (ReqClaimNextTask _ w) => forall t, exists n, t <= checked_at (rounds w n)
  | _ => True
  end.

Lemma enough_fuel activities :
  Forall time_passes activities ->
  exists n, forall m, (n <= m)%nat -> Forall timely (with_fuel m <$> activities).
Proof.
  induction 1 as [|a activities Ha _ (n & IH)]; [by exists 0%nat|].
  assert (exists n, forall m, (n <= m)%nat -> timely (with_fuel m a)) as (n' & Hn').
  { destruct a as [auth r| | |]; try by exists 0%nat. destruct r as [| | |r w| | | | |]; try by exists 0%nat.
    destruct (Ha (claim_deadline (began_at w) (normalize_claim_wait_ms (cn_wait_timeout_ms r))))
      as (n' & Hn'). exists n'. intros m Hm. by exists n'. }
  exists (n `max` n')%nat. intros m Hm. simpl. constructor; [apply Hn'; lia|apply IH; lia].
Qed.

(** C10: every request is answered. Over either store, whatever the clients
    ask and however often a waiting claim is woken, when the threads of a
    session take turns, in any order and as often as one likes within a
    round, every request and every tick has ended after finitely many rounds.
    A claim that finds nothing and is woken looks again, without any bound on
    how often; its loop ends because the clock passes its deadline, so with
    enough fuel the model of no claim is left in its loop. No submission waits
    forever for the lock, because its holder can always go on and releases it
    on every way out. *)
Theorem sessions_finish sha256 cfg activities (w : World S) (turns : nat -> list nat) :
  w_locked w = false -> Forall time_passes activities ->
  (forall n i, (i < length activities)%nat -> i ∈ turns n) ->
  exists enough, forall n, (enough <= n)%nat ->
  exists count, Forall (fun q => finished q = true)
    (threads (run_schedule (concat (turns <$> seq 0 count))
       (pool_of sha256 cfg (with_fuel n <$> activities) w))).
Proof.
  intros Hw Ht Hfair. destruct (enough_fuel _ Ht) as (enough & Hfuel). exists enough. intros n Hn.
  apply (rounds_finish (MkRules (fun _ => true) false)) with (max_pending := max_pending_tasks (limits cfg))
    (modes := replicate (length (activity sha256 cfg <$> (with_fuel n <$> activities))) Outside); [done|..].
  - apply excluded_start; [|done]. apply Forall_fmap. eapply Forall_impl; [by apply Hfuel|].
    intros a Ha. simpl. apply activity_outside; [done|by right|by right].
  - intros m i Hi. apply Hfair. simpl in Hi. by rewrite !length_fmap in Hi.
Qed.
End sessions.

(** A claim that is woken every millisecond for as long as it waits, with
    nothing in the queue but a task that another worker has taken. *)
Definition busy_waiting : Waiting := MkWaiting 0 0 (fun n => MkRound (Z.of_nat n * 1000000) Notified).
Definition waiting_activities : list Activity :=
  sample_activities
  ++ [Rpc header (ReqClaimNextTask (MkClaimNext (Some (MkProtoId "worker-b")) [] [] 0 25) busy_waiting)].

Lemma sessions_finish_witness :
  exists enough, forall n, (enough <= n)%nat ->
  exists count, Forall (fun q => finished q = true)
    (threads (run_schedule (H := sql_daemon "UNIQUE constraint failed")
      (concat ((fun n => if Nat.even n then [0; 1; 0; 2; 3; 4; 5] else [5; 4; 3; 2; 1; 0])%nat <$> seq 0 count))
      (pool_of sample_sha sample_config (with_fuel n <$> waiting_activities) (sample_world empty_conn)))).
Proof.
  apply (sessions_finish (H := sql_daemon "UNIQUE constraint failed") sample_sha sample_config
           waiting_activities (sample_world empty_conn)
           (fun n => if Nat.even n then [0; 1; 0; 2; 3; 4; 5] else [5; 4; 3; 2; 1; 0])%nat).
  - reflexivity.
  - unfold waiting_activities, sample_activities, claim_a, no_waiting, busy_waiting. simpl.
    repeat (apply Forall_cons; split); try exact I; try (by apply Forall_nil);
      intros t; exists (Z.to_nat (Z.max t 0)); simpl; lia.
  - intros n i Hi. simpl in Hi. do 6 (destruct i as [|i]; [by destruct (Nat.even n); set_solver|]). lia.
Defined.
