(* ===== verification/DaemonResults.v ===== *)
(** * Results on their way home

    A result that a worker reports is stored with its task, served to whoever
    asks for it, and carried to the node that sent the task. Here: what the
    executor's daemon accepts from its worker is what the origin's daemon can
    store, and a result that was accepted stays available. *)
From S2P Require Import Prelude Ident Text Lifecycle StoreModel Api MemStore MemSpec MemInv Artifacts.
From S2P Require Import RemoteResults Wire Rpc Program ProgramFacts ResultArtifacts LeaseIds Daemon.
From S2P Require Import DaemonCalls Samples WireSamples DaemonSession.
From stdpp Require Import options.
#[local] Open Scope Z_scope.

(** ** Artifacts, from the worker to the origin *)

Section artifacts.
Context `{W : Wire}.
Context (sha256 : bytes -> string) (sha256_digest : forall b, is_digest (sha256 b) = true).

Abbreviation validate_worker_artifact := (validate_worker_artifact sha256).
Abbreviation canonicalize_artifact := (canonicalize_artifact sha256 sha256_digest).

(** What the worker's artifact becomes: its description, and the bytes to
    store if it has any. *)
Definition carries_over (task_id : TaskId) (ordinal : Z) (a : TaskArtifact) (aggregate aggregate' : Z)
    (stored : option OriginResultArtifact) : Prop :=
  match stored with
  | Some o =>
      ta_content_present a = true /\ oa_content o = ta_content a /\ oa_ordinal o = ordinal
      /\ forall next, next <= ordinal -> exists record,
           validate_origin_result_artifact sha256 task_id o next aggregate
           = Ok (record, ordinal + 1, aggregate')
  | None => ta_content_present a = false /\ aggregate' = aggregate
  end.

Lemma add_to_aggregate_ok agg len agg' :
  add_to_aggregate agg len = Ok agg' ->
  u64_checked_add agg len = Some agg' /\ MAX_CROSS_NODE_RESULT_ARTIFACT_BYTES <? agg' = false.
Proof.
  unfold add_to_aggregate. destruct (u64_checked_add agg len) as [x|]; simpl; [|done].
  destruct (_ <? x) eqn:E; [done|]. by intros [= <-].
Qed.

Lemma parse_lowercase_digest_ok v d : parse_lowercase_digest v = Ok d -> v = digest_str d.
Proof.
  unfold parse_lowercase_digest. destruct (digest_new v) as [d'|]; simpl; [|done].
  case_bool_decide as H; [|done]. by intros [= <-].
Qed.

Lemma artifact_carries_over task_id completed_at index a agg r agg' :
  Z.of_nat index < u32_max -> validate_worker_artifact a agg = Ok (r, agg') ->
  ra_content_present r = ta_content_present a
  /\ exists r' stored, canonicalize_artifact task_id completed_at index r agg = Ok (r', stored, agg')
     /\ carries_over task_id (Z.of_nat index) a agg agg' stored.
Proof.
  intros Hidx Hv. unfold ResultArtifacts.validate_worker_artifact in Hv.
  unfold ResultArtifacts.canonicalize_artifact.
  destruct (ta_content_present a) eqn:Hc.
  - destruct (parse_lowercase_digest (ta_sha256 a)) as [d|] eqn:Hd; [|done].
    destruct (ta_byte_len a =? byte_len (ta_content a)) eqn:Hl; [|done]. simpl in Hv.
    case_bool_decide as Heq; [|done]. simpl in Hv.
    destruct (add_to_aggregate agg (byte_len (ta_content a))) as [x|] eqn:Hagg; [|done].
    injection Hv as <- <-. split; [done|]. simpl.
    assert ((u32_max <? Z.of_nat index) = false) as -> by lia.
    pose proof (parse_lowercase_digest_ok _ _ Hd) as Hv. rewrite <- Hv, Hd, Z.eqb_refl. simpl.
    rewrite (bool_decide_true (d = _)) by done. simpl. rewrite Hagg. eexists _, _. split; [done|].
    repeat split; try done. intros next Hnext. eexists.
    unfold validate_origin_result_artifact.
    cbn [oa_ordinal oa_meta oa_content am_artifact_id am_task_id am_digest am_byte_len].
    assert ((Z.of_nat index <? next) = false) as -> by lia.
    assert (u32_checked_add (Z.of_nat index) 1 = Some (Z.of_nat index + 1)) as ->.
    { unfold u32_checked_add. assert ((Z.of_nat index + 1 <=? u32_max) = true) as ->; [lia|done]. }
    cbn [ok_or]. rewrite !bool_decide_true, Z.eqb_refl by done. cbn [negb].
    apply add_to_aggregate_ok in Hagg as [-> Hmax]. cbn [ok_or]. by rewrite Hmax.
  - destruct (_ || _) eqn:Hdesc; [done|]. injection Hv as <- <-. split; [done|]. simpl.
    assert ((u32_max <? Z.of_nat index) = false) as -> by lia. by eexists _, None.
Qed.

Lemma artifacts_carry_over task_id completed_at artifacts : forall index agg seen results has_content,
  Z.of_nat (index + length artifacts) <= u32_max ->
  validate_worker_from sha256 agg seen artifacts = Ok (results, has_content) ->
  has_content = seen || existsb ra_content_present results
  /\ exists results' stored,
     canonicalize_from sha256 sha256_digest task_id completed_at index agg results = Ok (results', stored)
     /\ oa_content <$> stored = ta_content <$> filter (fun a => ta_content_present a = true) artifacts
     /\ forall next, next <= Z.of_nat index -> exists records,
          validate_origin_from sha256 task_id next agg stored = Ok records.
Proof.
  induction artifacts as [|a artifacts IH]; intros index agg seen results has_content Hlen Hv.
  { injection Hv as <- <-. split; [by rewrite orb_false_r|]. exists [], []. split; [done|].
    split; [done|]. intros next _. by exists []. }
  cbn [validate_worker_from] in Hv.
  destruct (ResultArtifacts.validate_worker_artifact _ a agg) as [[r agg']|] eqn:Ha; [|done].
  destruct (validate_worker_from _ agg' _ artifacts) as [[rs hc]|] eqn:Hrest; [|done].
  injection Hv as <- <-. simpl in Hlen.
  destruct (artifact_carries_over task_id completed_at index a agg r agg') as (Hp & r' & st & Hcan & Hst);
    [lia|done|].
  destruct (IH (S index) agg' (seen || ta_content_present a) rs hc) as (Hhc & rs' & sts & Hcans & Hcont & Hval);
    [lia|done|].
  split; [by rewrite Hhc, <- orb_assoc, <- Hp|].
  cbn [canonicalize_from]. rewrite Hcan, Hcans. eexists _, _. split; [done|].
  rewrite filter_cons. destruct st as [o|]; simpl in Hst.
  - destruct Hst as (Hc & Ho & _ & Hone). rewrite decide_True by done. split; [by rewrite !fmap_cons, Ho, Hcont|].
    intros next Hnext. destruct (Hone next Hnext) as (rec & Hrec). destruct (Hval (Z.of_nat index + 1)) as (recs & Hrecs); [lia|].
    exists (rec :: recs). cbn [validate_origin_from]. by rewrite Hrec, Hrecs.
  - destruct Hst as (Hc & ->). rewrite decide_False by congruence. split; [done|].
    intros next Hnext. apply Hval. lia.
Qed.
End artifacts.

Section handover.
Context `{W : Wire}.

(** C28: what the executor accepts, the origin can store. When a worker's
    artifacts pass the executor's checks, the result envelope that it sends
    passes the origin's: canonicalisation succeeds, the store's own validation
    of the artifacts accepts what comes out, and it stores exactly the bytes
    that the worker attached, in their order. No result is lost between the
    two daemons because their checks disagree. *)
Theorem worker_artifacts_reach_the_origin sha256 sha256_digest task_id artifacts results has_content r :
  Z.of_nat (length artifacts) <= u32_max ->
  validate_worker_result_artifacts sha256 artifacts = Ok (results, has_content) ->
  re_output_artifacts r = results -> re_protocol_version r = (if has_content then 2 else 1) ->
  exists stored r' records,
    canonicalize_origin_result_artifacts sha256 sha256_digest task_id r = Ok (stored, r')
    /\ validate_origin_result_artifacts sha256 task_id stored = Ok records
    /\ oa_content <$> stored = ta_content <$> filter (fun a => ta_content_present a = true) artifacts.
Proof.
  intros Hlen Hv <- Hver.
  destruct (artifacts_carry_over sha256 sha256_digest task_id (re_completed_at_ms r) artifacts 0 0 false
              (re_output_artifacts r) has_content) as (Hhc & rs & stored & Hcan & Hcont & Hval); [done|done|].
  destruct (Hval 0) as (records & Hrecords); [done|]. exists stored, (with_artifacts r rs), records.
  split; [|done]. unfold canonicalize_origin_result_artifacts. simpl in Hhc. rewrite <- Hhc, Hver, Hcan.
  by destruct has_content.
Qed.
End handover.

Lemma sample_sha_digest b : is_digest (sample_sha b) = true. Proof. reflexivity. Qed.

Definition sample_artifacts : list TaskArtifact :=
  [MkTaskArtifact "notes.txt" "text/plain" ∅ [] 0 "" false;
   MkTaskArtifact "out.bin" "application/octet-stream" ∅ [Byte.x2a; Byte.x2b] 2 (sample_sha []) true].

Definition sample_result (artifacts : list ResultArtifact) : TaskResultEnvelope :=
  MkResultEnvelope 2 (Some (MkProtoId "task-a")) None 1 "peer-b" 5 140 "" ∅ artifacts.

Lemma worker_artifacts_reach_the_origin_witness :
  match validate_worker_result_artifacts sample_sha sample_artifacts with
  | Ok (results, has_content) => exists stored r' records,
      canonicalize_origin_result_artifacts sample_sha sample_sha_digest task_a (sample_result results)
        = Ok (stored, r')
      /\ validate_origin_result_artifacts sample_sha task_a stored = Ok records
      /\ oa_content <$> stored = [[Byte.x2a; Byte.x2b]]
  | Err _ => False
  end.
Proof.
  destruct (validate_worker_result_artifacts sample_sha sample_artifacts) as [[results hc]|] eqn:H;
    [|discriminate H].
  apply (worker_artifacts_reach_the_origin sample_sha sample_sha_digest task_a sample_artifacts results hc).
  - discriminate.
  - exact H.
  - reflexivity.
  - injection H as _ <-. reflexivity.
Defined.

(** ** A reported result stays available *)

Section results.
Context `{W : Wire} (sha256 : bytes -> string) (cfg : KeryxDaemonConfig).

(** What a successful report has stored. *)
Lemma complete_stores i lid w res s t s' :
  complete_task_with_result i lid w res s = (Ok t, s') -> terminal_results s' !! i = Some res.
Proof.
  intros H. unfold complete_task_with_result, finish_task_in_state in H. op_run H.
  - unfold existing_result in *. case_match; [|done]. case_bool_decide; naive_solver.
  - match goal with E : store_result _ _ _ = _ |- _ => apply store_result_inv in E as [_ ->] end.
    unfold put_result. destruct (make_outbox res); apply lookup_insert_eq.
Qed.

(** The envelope that a report builds. *)
Definition reports (i : TaskId) (outcome : TerminalOutcome) (duration : Z) (reason : string)
    (metadata : Metadata) (artifacts : list TaskArtifact) (result : TaskResultEnvelope) : Prop :=
  re_task_id result = Some (proto_id i) /\ re_outcome result = TerminalOutcome.to_i32 outcome
  /\ re_executor_peer_id result = as_str (local_peer_id cfg) /\ re_duration_ms result = duration
  /\ re_error_reason result = reason /\ re_result_metadata result = metadata
  /\ exists has_content,
     validate_worker_result_artifacts sha256 artifacts = Ok (re_output_artifacts result, has_content).

Lemma build_terminal_result_ok i outcome duration reason metadata artifacts (w : World InMemoryState)
    result w' :
  run (build_terminal_result sha256 cfg i outcome duration reason metadata artifacts) w
  = (Some (Ok result), w') ->
  reports i outcome duration reason metadata artifacts result.
Proof.
  unfold build_terminal_result. intros H.
  apply run_bind_ok in H as (corr & w1 & _ & H). apply run_bind_ok in H as ([outs hc] & w2 & Hv & H).
  apply run_lift_ok in Hv as [Hv ->]. run_ok H. unfold reports. simpl. eauto 10.
Qed.

Lemma complete_task_ok r (w : World InMemoryState) resp w' :
  run (complete_task sha256 cfg r) w = (Some (Ok resp), w') ->
  exists i result order peer at_ms,
    parse_required_task_id (cp_task_id r) = Ok i
    /\ reports i TerminalOutcome.Completed (cp_duration_ms r) "" (cp_result_metadata r)
         (cp_output_artifacts r) result
    /\ terminal_results (w_store w') !! i
       = Some (MkTerminalResult i (encode_result order result) Completed peer (local_peer_id cfg) at_ms).
Proof.
  unfold complete_task, store_rpc. intros H. cbv zeta in H. run_ok H.
  destruct x2 as [outs hc]. run_ok H.
  match goal with E : run (build_terminal_result _ _ _ _ _ _ _ _) _ = _ |- _ =>
    apply build_terminal_result_ok in E end.
  match goal with E : call (OpCompleteResult _ _ _ _) _ = _ |- _ => apply complete_stores in E end.
  eexists _, _, _, _, _. split; [done|]. split; [done|]. simpl. done.
Qed.

Lemma run_query op (w : World InMemoryState) r :
  call op (w_store w) = (r, w_store w) -> run (store op) w = (Some r, w).
Proof.
  intros H. rewrite run_store. change (@call _ daemon_api) with (@call _ mem_api). rewrite H.
  cbn [fst snd]. by rewrite with_store_same.
Qed.

(** A stored result is what the look-up answers. *)
Lemma served r i result order peer at_ms status (w : World InMemoryState) `{!WireLaws W} :
  DaemonInv (w_store w) -> parse_required_task_id (gr_task_id r) = Ok i ->
  terminal_result_status result = Ok status ->
  terminal_results (w_store w) !! i
  = Some (MkTerminalResult i (encode_result order result) Completed peer (local_peer_id cfg) at_ms) ->
  exists n, run (get_task_result r) w = (Some (Ok (MkTaskResult true status (Some result) n false "")), w).
Proof.
  intros HI Hi Hst Hres. destruct (inv_result _ (di_inv _ HI) _ _ Hres) as (_ & t & Ht & _).
  destruct (proj2 (inv_events _ (di_inv _ HI) i) (mk_is_Some _ _ Ht)) as (evs & Hevs).
  unfold get_task_result, store_rpc. rewrite run_bind, run_lift, Hi, run_bind, run_map_err.
  rewrite (run_query (OpGet i) w (Ok t)) by by (simpl; unfold get_task, bind, get, lift; rewrite Ht).
  cbn [fst snd option_map map_err]. rewrite run_bind, run_map_err.
  rewrite (run_query (OpEvents i) w (Ok evs))
    by by (simpl; unfold events_for_task, bind, get; rewrite Hevs).
  cbn [fst snd option_map map_err]. rewrite run_handle.
  rewrite (run_query (OpGetResult i) w (Ok (MkTerminalResult i (encode_result order result) Completed
    peer (local_peer_id cfg) at_ms)))
    by by (simpl; unfold get_terminal_result, bind, get, lift; rewrite Hres).
  rewrite run_bind, run_lift. cbn [rs_encoded_result]. rewrite decode_encode_result.
  cbn [map_err]. rewrite run_bind, run_lift, Hst. by eexists.
Qed.

(** C27: a completed result stays available. When a worker's completion was
    accepted, then after any session of the daemon a look-up of the task
    answers [completed] with the envelope of that report: its duration, its
    metadata and its validated artifacts, under the name of this executor. *)
Theorem completed_result_is_served `{!WireLaws W} r (w : World InMemoryState) resp w1
    activities schedule :
  DaemonInv (w_store w) -> sane_clock w ->
  run (complete_task sha256 cfg r) w = (Some (Ok resp), w1) ->
  let w2 := world (run_schedule schedule (pool_of sha256 cfg activities w1)) in
  exists i result n,
    parse_required_task_id (cp_task_id r) = Ok i
    /\ reports i TerminalOutcome.Completed (cp_duration_ms r) "" (cp_result_metadata r)
         (cp_output_artifacts r) result
    /\ run (get_task_result (MkGetTaskResult (cp_task_id r))) w2
       = (Some (Ok (MkTaskResult true "completed" (Some result) n false "")), w2).
Proof.
  intros HI Hc Hrun w2.
  destruct (run_grown _ _ _ _ (complete_task_sound sha256 cfg r) HI Hc Hrun) as [[HI1 _] Hc1].
  destruct (session_grown sha256 cfg activities schedule w1 HI1 Hc1) as [[HI2 Hx] _]. fold w2 in HI2, Hx.
  destruct (complete_task_ok _ _ _ _ Hrun) as (i & result & order & peer & at_ms & Hi & Hrep & Hres).
  destruct (served (MkGetTaskResult (cp_task_id r)) i result order peer at_ms "completed" w2)
    as (n & Hget); try done.
  - destruct Hrep as (_ & Ho & _). unfold terminal_result_status, terminal_outcome. by rewrite Ho.
  - exact (lookup_weaken _ _ _ _ Hres (ex_results _ _ Hx)).
  - by exists i, result, n.
Qed.
End results.

(** What the worker reports. *)
Definition completion : CompleteTaskRequest :=
  MkCompleteTask (Some (MkProtoId "task-a")) (Some (MkProtoId "lease-task-a-120"))
    (Some (MkProtoId "worker-a")) 7 {["k" := "v"]} sample_artifacts.

(** The daemon after a submission and a claim. *)
Definition claimed_world : World InMemoryState :=
  let w1 := (run (submit_task sample_config (MkSubmitTask (Some sample_envelope)))
               (sample_world empty_state)).2 in
  (run (claim_next_task sample_config
     (MkClaimNext (Some (MkProtoId "worker-a")) [] [] 0 0) no_waiting) w1).2.

Lemma claimed_world_inv : DaemonInv (w_store claimed_world) /\ sane_clock claimed_world.
Proof.
  unfold claimed_world. destruct (run (submit_task _ _) _) as [o1 w1] eqn:H1.
  destruct (run_grown _ (sample_world empty_state) o1 w1
    (submit_task_sound sample_config (MkSubmitTask (Some sample_envelope)))) as [[HI1 _] Hc1];
    [exact daemon_inv_empty|intros n; simpl; lia|exact H1|].
  cbn [snd]. destruct (run (claim_next_task _ _ _) w1) as [o2 w2] eqn:H2.
  destruct (run_grown _ w1 o2 w2 (claim_next_task_sound sample_config _ _) HI1 Hc1 H2) as [[HI2 _] Hc2].
  done.
Qed.

Lemma completed_result_is_served_witness :
  let w1 := (run (complete_task sample_sha sample_config completion) claimed_world).2 in
  let w2 := world (run_schedule [0; 1; 0; 0; 1; 1; 0]%nat
              (pool_of sample_sha sample_config [DeadlineTick; Rpc header claim_a] w1)) in
  exists i result n,
    parse_required_task_id (cp_task_id completion) = Ok i
    /\ reports sample_sha sample_config i TerminalOutcome.Completed (cp_duration_ms completion) ""
         (cp_result_metadata completion) (cp_output_artifacts completion) result
    /\ run (get_task_result (MkGetTaskResult (cp_task_id completion))) w2
       = (Some (Ok (MkTaskResult true "completed" (Some result) n false "")), w2).
Proof.
  assert (Hrun : (run (complete_task sample_sha sample_config completion) claimed_world).1
    = Some (Ok (MkCompletedTask (Some (MkProtoId "task-a")) "completed" 7 {["k" := "v"]}
                  sample_artifacts))) by (vm_compute; reflexivity).
  exact (completed_result_is_served sample_sha sample_config completion claimed_world _ _
           [DeadlineTick; Rpc header claim_a] [0; 1; 0; 0; 1; 1; 0]%nat
           (proj1 claimed_world_inv) (proj2 claimed_world_inv) (run_fst _ _ _ Hrun)).
Defined.
