(* ===== verification/DaemonTransfers.v ===== *)
(** * The daemon's artifact and result services

    keryx-daemon/src/lib.rs: the handlers that put, read, list and delete
    artifacts, that hand the deliveries of the outbox to a worker, and that
    take results from remote executors. Each is one store call between the
    reading of a request and its answer, on the SQLite store with its blob
    directory; the clock reading and the fresh artifact id are arguments. *)
From S2P Require Import Prelude Ident Text Lifecycle StoreModel Api SqlStore Artifacts RemoteResults Wire Rpc.
From S2P Require Import ResultArtifacts Program Daemon.
From stdpp Require Import pretty options.
#[local] Open Scope Z_scope.

(** A handler: state passing over the disk, failing with a status. *)
Abbreviation Rpc := (ST Disk Status).

Section transfers.
Context `{W : Wire}.
Context (sha256 : bytes -> string) (sha256_digest : forall b, is_digest (sha256 b) = true).
Context (violation row_not_found : string).
Context (cfg : KeryxDaemonConfig) (blob_dir : string).

(** [.await.map_err(store_error_to_status)?]. *)
Definition rpc {A} (m : D A) : Rpc A := fun dk =>
  let (r, dk) := m dk in (map_err store_error_to_status r, dk).

(** ** Artifacts *)

Definition summary (record : ArtifactRecord) : ArtifactSummary :=
  MkSummary (Some (proto_id (ar_artifact_id record))) (Some (proto_id (ar_task_id record)))
    (digest_str (ar_digest record)) (media_str (ar_media_type record)) (ar_byte_len record)
    (ar_inline record) (ar_created_at record).

Definition proto_artifact_summary (record : ArtifactRecord) : ArtifactSummary := summary record.

Definition parse_or_generate_artifact_id (id : option ProtoId) (fresh_uuid : string)
    : Result ArtifactId Status :=
  let generated :=
    map_err (fun error => MkStatus Internal (validation_error_text error))
      (Id_new "ArtifactId" fresh_uuid) in
  match id with
  | Some i => if bool_decide (trim (value i) = "") then generated else parse_required_artifact_id id
  | None => generated
  end.

Definition put_artifact (request : PutArtifactRequest) (fresh_uuid : string) (now_ms : Z)
    : Rpc ArtifactSummary :=
  let! task_id := lift (parse_required_task_id (pa_task_id request)) in
  let! artifact_id := lift (parse_or_generate_artifact_id (pa_artifact_id request) fresh_uuid) in
  let content := pa_content request in
  let meta := MkArtifactMeta artifact_id task_id (digest_compute sha256 content)
                (media_type_new (pa_media_type request)) (byte_len content)
                (should_inline (byte_len content)) (pretty now_ms) in
  let! record := rpc (Artifacts.put_artifact sha256 violation meta content blob_dir) in
  ret (summary record).

Definition get_artifact (request : GetArtifactRequest) : Rpc GetArtifactResponse :=
  let! artifact_id := lift (parse_required_artifact_id (ga_artifact_id request)) in
  let! (record, content) := rpc (Artifacts.get_artifact sha256 row_not_found artifact_id blob_dir) in
  ret (MkArtifactContent (summary record) (if ga_metadata_only request then [] else content)).

Definition list_artifacts (id : option ProtoId) : Rpc (list ArtifactSummary) :=
  let! task_id := lift (parse_required_task_id id) in
  let! records := rpc (list_artifacts_for_task task_id) in
  ret (proto_artifact_summary <$> records).

(** Whether an artifact was deleted; an unknown one is no error. *)
Definition delete_artifact (id : option ProtoId) : Rpc bool :=
  let! artifact_id := lift (parse_required_artifact_id id) in
  fun dk =>
    let (r, dk) := Artifacts.delete_artifact violation artifact_id blob_dir dk in
    (match r with
     | Ok _ => Ok true
     | Err (StoreError.ArtifactNotFound _) => Ok false
     | Err error => Err (store_error_to_status error)
     end, dk).

(** ** Deliveries *)

Definition no_delivery : ClaimNextResultDeliveryResponse :=
  MkClaimedDelivery false "" "" None 0 0.

Definition claim_next_result_delivery (request : ClaimNextResultDeliveryRequest) (now_ms : Z)
    : Rpc ClaimNextResultDeliveryResponse :=
  let worker_id := trim (cr_worker_id request) in
  if bool_decide (worker_id = "") then throw (invalid_argument "worker_id is required") else
  let lease_ms := Z.max (cr_lease_duration_ms request) 1000 in
  let! claimed := rpc (on_conn (SqlStore.claim_next_result_delivery worker_id now_ms lease_ms)) in
  match claimed with
  | Some (outbox, record) =>
      let! result := lift (map_err (fun error => data_loss ("invalid stored result: " +:+ error))
                             (decode_result (rs_encoded_result record))) in
      ret (MkClaimedDelivery true (ob_delivery_id outbox) (as_str (ob_target_peer_id outbox))
             (Some result) (ob_attempt_count outbox) (default 0 (ob_lease_expires_at_ms outbox)))
  | None => ret no_delivery
  end.

Definition ack_result_delivery (request : AckResultDeliveryRequest) (now_ms : Z) : Rpc unit :=
  rpc (on_conn (SqlStore.ack_result_delivery (ak_delivery_id request) (ak_worker_id request)
                  (ak_lease_expires_at_ms request) now_ms)).

Definition clamp (x low high : Z) : Z := Z.max low (Z.min x high).

Definition fail_result_delivery (request : FailResultDeliveryRequest) (now_ms : Z) : Rpc unit :=
  let retry_delay_ms := clamp (fr_retry_delay_ms request) 1000 MAX_RESULT_DELIVERY_RETRY_DELAY_MS in
  rpc (on_conn (SqlStore.fail_result_delivery (fr_delivery_id request)
                  (fr_worker_id request, fr_lease_expires_at_ms request) now_ms
                  (i64_saturating_add now_ms retry_delay_ms)
                  (fr_error_reason request) (fr_dead_letter request))).

(** ** Results of remote executors *)

(** What is wrong with the result that a settled task is expected to have. *)
Definition validate_canceled_result (task_id : TaskId) (record : TerminalResultRecord)
    : Result unit Status :=
  let? envelope := map_err (fun _ => data_loss "canceled task has a corrupt terminal result")
                     (decode_result (rs_encoded_result record)) in
  if negb (bool_decide ((value <$> re_task_id envelope) = Some (as_str task_id)))
  then Err (data_loss "canceled terminal result has mismatched task identity") else
  if negb (bool_decide (TerminalOutcome.try_from (re_outcome envelope) = Some TerminalOutcome.Canceled))
  then Err (data_loss "canceled task has a non-canceled canonical result") else
  if negb (bool_decide (re_executor_peer_id envelope = as_str (rs_executor_peer_id record)))
  then Err (data_loss "canceled terminal result has mismatched executor identity") else
  match re_output_artifacts envelope with
  | [] => Ok tt
  | _ => Err (data_loss "canceled terminal result unexpectedly references artifacts")
  end.

Definition validate_terminal_result_settlement (task_id : TaskId)
    (reason : RemoteResultTerminalReason) (canonical_result : option TerminalResultRecord)
    : Result unit Status :=
  match reason, canonical_result with
  | DeadlineExpired, Some _ =>
      Err (data_loss "deadline-expired task unexpectedly has a canonical terminal result")
  | DeadlineExpired, None => Ok tt
  | ReasonCanceled, None =>
      Err (data_loss "canceled task is missing its canonical terminal result")
  | ReasonCanceled, Some record => validate_canceled_result task_id record
  end.

(** What the request carries, once it is known to concern this daemon: the
    task, the executor, and the record and artifacts to store. *)
Definition read_remote_result (request : IngestRemoteResultRequest) (order : nat)
    : Result (TerminalResultRecord * list OriginResultArtifact) Status :=
  let? result := ok_or (ig_result request) (invalid_argument "result is required") in
  let? task_id := parse_required_task_id (re_task_id result) in
  let? executor := parse_peer (ig_authenticated_executor_peer_id request) in
  if negb (bool_decide (trim (ig_destination_peer_id request) = as_str (local_peer_id cfg)))
  then Err (MkStatus PermissionDenied "result destination does not match local peer") else
  let? envelope_executor := parse_peer (re_executor_peer_id result) in
  if negb (bool_decide (envelope_executor = executor))
  then Err (MkStatus PermissionDenied "result executor does not match authenticated executor") else
  let? terminal_status := terminal_outcome_status (re_outcome result) in
  let? (artifacts, result) :=
    canonicalize_origin_result_artifacts sha256 sha256_digest task_id result in
  Ok (MkTerminalResult task_id (encode_result order result) terminal_status None executor
        (re_completed_at_ms result), artifacts).

(** The task as it stands after the ingestion. *)
Definition ingested_task (task_id : TaskId) (outcome : RemoteResultIngestOutcome)
    : Result TaskRecord Status :=
  match outcome with
  | Applied task | Duplicate task => Ok task
  | SettledTerminal task reason canonical_result =>
      let? _ := validate_terminal_result_settlement task_id reason canonical_result in
      Ok task
  end.

Definition ingest_remote_result (request : IngestRemoteResultRequest) (order : nat)
    : Rpc IngestRemoteResultResponse :=
  let! (record, artifacts) := lift (read_remote_result request order) in
  let! outcome := rpc (ingest_remote_result_with_artifacts sha256 violation row_not_found record
                         artifacts (rs_executor_peer_id record) blob_dir) in
  let! task := lift (ingested_task (rs_task_id record) outcome) in
  ret (MkIngested (Some (proto_id (rs_task_id record))) (task_status_label (tr_status task))).
End transfers.
