(* ===== verification/ResultTransfer.v ===== *)
(** * A result travels from the executor to the origin

    The executor's daemon builds a result from its worker's report
    ([build_terminal_result]); the origin's daemon takes it in
    ([ingest_remote_result]) and serves it. Here: everything the worker
    attached can be read at the origin, and what happens when the result
    arrives a second time. *)
From S2P Require Import Prelude Ident Text Lifecycle StoreModel Api MemStore MemSpec MemInv Samples SqlStore.
From S2P Require Import SqlRel SqlSession Artifacts ArtifactSpec ArtifactRefine ArtifactFacts RemoteResults RemoteSpec.
From S2P Require Import RemoteRefine RemoteFacts Wire Rpc Program ProgramFacts ResultArtifacts Daemon WireSamples.
From S2P Require Import DaemonResults DaemonTransfers.
From stdpp Require Import options.
From Stdlib Require Import Ascii.
#[local] Open Scope Z_scope.

(** ** Media types are normal once they were normalised *)

Lemma lower_same_or_letter c :
  ascii_lower c = c \/ is_allowed_id_char c = true /\ is_allowed_id_char (ascii_lower c) = true.
Proof. destruct c as [[] [] [] [] [] [] [] []]; vm_compute; auto. Qed.

Lemma lower_lower c : ascii_lower (ascii_lower c) = ascii_lower c.
Proof. destruct c as [[] [] [] [] [] [] [] []]; reflexivity. Qed.

Lemma ws1_lower c : ws1 (ascii_lower c) = ws1 c.
Proof. destruct c as [[] [] [] [] [] [] [] []]; reflexivity. Qed.

Lemma ws2_lower a b : ws2 (ascii_lower a) (ascii_lower b) = ws2 a b.
Proof.
  destruct (lower_same_or_letter a) as [->|[Ha Ha']].
  - destruct (lower_same_or_letter b) as [->|[Hb Hb']]; [done|].
    destruct (allowed_not_ws _ Hb) as [_ H], (allowed_not_ws _ Hb') as [_ H'].
    destruct (H a a) as (_ & -> & _), (H' a a) as (_ & -> & _). done.
  - destruct (allowed_not_ws _ Ha) as [_ H], (allowed_not_ws _ Ha') as [_ H'].
    destruct (H b b) as (-> & _), (H' (ascii_lower b) b) as (-> & _). done.
Qed.

Lemma ws3_lower a b c : ws3 (ascii_lower a) (ascii_lower b) (ascii_lower c) = ws3 a b c.
Proof.
  destruct (lower_same_or_letter a) as [->|[Ha Ha']].
  - destruct (lower_same_or_letter c) as [->|[Hc Hc']].
    + destruct (lower_same_or_letter b) as [->|[Hb Hb']]; [done|].
      unfold ws3. assert (Hn : forall x, is_allowed_id_char x = true -> (nat_of_ascii x < 128)%nat).
      { intros x. unfold is_allowed_id_char.
        repeat rewrite ?orb_true_iff, ?andb_true_iff, ?Nat.leb_le, ?Nat.eqb_eq. lia. }
      apply Hn in Hb, Hb'.
      rewrite !(proj2 (Nat.eqb_neq (nat_of_ascii b) _)), !(proj2 (Nat.eqb_neq (nat_of_ascii (ascii_lower b)) _))
        by lia. done.
    + destruct (allowed_not_ws _ Hc) as [_ H], (allowed_not_ws _ Hc') as [_ H'].
      destruct (H a b) as (_ & _ & _ & ->), (H' a (ascii_lower b)) as (_ & _ & _ & ->). done.
  - destruct (allowed_not_ws _ Ha) as [_ H], (allowed_not_ws _ Ha') as [_ H'].
    destruct (H b c) as (_ & _ & -> & _), (H' (ascii_lower b) (ascii_lower c)) as (_ & _ & -> & _). done.
Qed.

Lemma skip_ws_lower rv n : forall l, (length l <= n)%nat ->
  skip_ws rv (ascii_lower <$> l) = ascii_lower <$> skip_ws rv l.
Proof.
  induction n as [|n IH]; intros l Hl; [by destruct l; [|simpl in Hl; lia]|].
  destruct l as [|c1 l1]; [done|]. simpl in *. rewrite ws1_lower.
  destruct (ws1 c1); [apply IH; lia|]. destruct l1 as [|c2 l2]; [done|]. simpl in *. rewrite !ws2_lower.
  destruct (if rv then _ else _); [apply IH; lia|]. destruct l2 as [|c3 l3]; [done|]. simpl in *.
  rewrite !ws3_lower. destruct (if rv then _ else _); [apply IH; lia|done].
Qed.

Lemma trim_lower s : trim (to_ascii_lowercase s) = to_ascii_lowercase (trim s).
Proof.
  unfold trim, to_ascii_lowercase. rewrite !bytes_of_of_bytes. f_equal. unfold trim_bytes.
  rewrite (skip_ws_lower false _ _ (le_n _)), <- map_rev, (skip_ws_lower true _ _ (le_n _)).
  by rewrite <- map_rev.
Qed.

Lemma media_type_normal v : media_type_new (media_str (media_type_new v)) = media_type_new v.
Proof.
  unfold media_type_new at 2 3. case_bool_decide as Hv; [reflexivity|]. simpl.
  unfold media_type_new. assert (to_ascii_lowercase (trim (to_ascii_lowercase (trim v)))
    = to_ascii_lowercase (trim v)) as ->.
  { rewrite trim_lower, trim_trim. unfold to_ascii_lowercase. rewrite bytes_of_of_bytes.
    f_equal. rewrite <- list_fmap_compose. apply list_fmap_ext. intros _ c _. apply lower_lower. }
  by rewrite bool_decide_false.
Qed.

(** ** What the origin stores of what the executor sent *)

Section transfer.
Context `{W : Wire}.
Context (sha256 : bytes -> string) (sha256_digest : forall b, is_digest (sha256 b) = true).

(** The executor sends what the worker attached. *)
Definition sent (a : TaskArtifact) (r : ResultArtifact) : Prop :=
  ra_content_present r = ta_content_present a
  /\ (ta_content_present a = true -> ra_content r = ta_content a).

Lemma validated_are_sent artifacts : forall agg seen results has_content,
  validate_worker_from sha256 agg seen artifacts = Ok (results, has_content) ->
  Forall2 sent artifacts results.
Proof using Type.
  induction artifacts as [|a artifacts IH]; intros agg seen results hc H; [by injection H as <- _|].
  cbn [validate_worker_from] in H.
  destruct (validate_worker_artifact _ a agg) as [[r agg']|] eqn:Ha; [|done].
  destruct (validate_worker_from _ agg' _ artifacts) as [[rs hc']|] eqn:Hrest; [|done].
  injection H as <- _. constructor; [|by eapply IH]. unfold validate_worker_artifact in Ha. unfold sent.
  destruct (ta_content_present a).
  - destruct (parse_lowercase_digest _) as [d|]; [|done].
    destruct (negb _); [done|]. destruct (negb _); [done|].
    destruct (add_to_aggregate _ _) as [x|]; [|done]. by injection Ha as <- _.
  - destruct (_ || _); [done|]. by injection Ha as <- _.
Qed.

(** The artifact with bytes at position [ordinal], as the origin stores it. *)
Definition origin_of (task_id : TaskId) (completed_at_ms ordinal : Z) (r : ResultArtifact)
    (o : OriginResultArtifact) : Prop :=
  oa_ordinal o = ordinal /\ origin_id o = origin_artifact_id sha256 sha256_digest task_id ordinal
  /\ am_media_type (oa_meta o) = media_type_new (ra_media_type r) /\ oa_content o = ra_content r.

Lemma canonicalized task_id at_ms results : forall index agg rs stored,
  canonicalize_from sha256 sha256_digest task_id at_ms index agg results = Ok (rs, stored) ->
  Forall (fun o => exists k r, results !! k = Some r /\ ra_content_present r = true
                     /\ origin_of task_id at_ms (Z.of_nat (index + k)) r o) stored
  /\ forall k r, results !! k = Some r -> ra_content_present r = true ->
       exists o, o ∈ stored /\ origin_of task_id at_ms (Z.of_nat (index + k)) r o.
Proof using Type.
  induction results as [|r results IH]; intros index agg rs stored H; [by injection H as _ <-|].
  cbn [canonicalize_from] in H.
  destruct (canonicalize_artifact _ _ _ at_ms index r agg) as [[[r' o] agg']|] eqn:Hr; [|done].
  destruct (canonicalize_from _ _ _ _ _ agg' results) as [[rs' more]|] eqn:Hrest; [|done].
  destruct (IH _ _ _ _ Hrest) as [Hall Hfind].
  assert (Hone : match o with
                 | Some o => ra_content_present r = true /\ origin_of task_id at_ms (Z.of_nat index) r o
                 | None => ra_content_present r = false end).
  { unfold canonicalize_artifact in Hr. destruct (ra_artifact_id r); [done|].
    destruct (_ <? _); [done|]. destruct (ra_content_present r); simpl in Hr.
    - destruct (parse_lowercase_digest _) as [d|]; [|done].
      destruct (negb _); [done|]. destruct (negb _); [done|].
      destruct (add_to_aggregate _ _) as [x|]; [|done]. injection Hr as _ <- _. by split.
    - destruct (_ || _); [done|]. by injection Hr as _ <- _. }
  assert (Hmore : Forall (fun o => exists k r', (r :: results) !! k = Some r' /\ ra_content_present r' = true
                            /\ origin_of task_id at_ms (Z.of_nat (index + k)) r' o) more).
  { eapply Forall_impl; [exact Hall|]. intros o' (k & r1 & Hk & Hp & Ho). exists (S k), r1.
    by replace (index + S k)%nat with (S index + k)%nat by lia. }
  injection H as _ <-. split.
  - destruct o as [o|]; [|exact Hmore]. constructor; [|exact Hmore].
    exists 0%nat, r. rewrite Nat.add_0_r. by destruct Hone.
  - intros [|k] r1 Hk Hp; simpl in Hk.
    + injection Hk as ->. destruct o as [o|]; [|congruence]. exists o. rewrite Nat.add_0_r.
      split; [by left|by destruct Hone].
    + destruct (Hfind k r1 Hk Hp) as (o' & Hin & Ho). exists o'.
      replace (index + S k)%nat with (S index + k)%nat by lia. split; [|done].
      destruct o; [by right|done].
Qed.

Lemma canonicalized_length task_id at_ms results : forall index agg rs stored,
  canonicalize_from sha256 sha256_digest task_id at_ms index agg results = Ok (rs, stored) ->
  length rs = length results.
Proof using Type.
  induction results as [|r results IH]; intros index agg rs stored H; [by injection H as <- _|].
  cbn [canonicalize_from] in H. destruct (canonicalize_artifact _ _ _ _ _ _ _) as [[[r' o] agg']|]; [|done].
  destruct (canonicalize_from _ _ _ _ _ agg' results) as [[rs' more]|] eqn:Hrest; [|done].
  injection H as <- _. simpl. f_equal. by eapply IH.
Qed.

(** The envelope the origin keeps differs in its artifacts only. *)
Lemma canonicalized_envelope task_id result stored result' :
  canonicalize_origin_result_artifacts sha256 sha256_digest task_id result = Ok (stored, result') ->
  re_outcome result' = re_outcome result /\ re_duration_ms result' = re_duration_ms result
  /\ re_result_metadata result' = re_result_metadata result
  /\ length (re_output_artifacts result') = length (re_output_artifacts result).
Proof using Type.
  unfold canonicalize_origin_result_artifacts. destruct (_ && _); [done|].
  destruct (canonicalize_from _ _ _ _ _ _ _) as [[rs st]|] eqn:H; [|done]. intros [= _ <-]. simpl.
  by rewrite (canonicalized_length _ _ _ _ _ _ _ H).
Qed.

(** ** The executor's side, on any store *)

Lemma built_result {S} `{DaemonStore S} cfg i outcome duration reason metadata artifacts (w : World S) result w' :
  run (build_terminal_result sha256 cfg i outcome duration reason metadata artifacts) w
  = (Some (Ok result), w') ->
  re_task_id result = Some (proto_id i) /\ re_outcome result = TerminalOutcome.to_i32 outcome
  /\ re_executor_peer_id result = as_str (local_peer_id cfg)
  /\ exists has_content,
       validate_worker_result_artifacts sha256 artifacts = Ok (re_output_artifacts result, has_content)
       /\ re_protocol_version result = (if has_content then 2 else 1).
Proof using Type.
  unfold build_terminal_result. intros E.
  apply run_bind_ok in E as (corr & w1 & _ & E). apply run_bind_ok in E as ([outs hc] & w2 & Hv & E).
  apply run_lift_ok in Hv as [Hv ->]. run_ok E. simpl. eauto 10.
Qed.

(** ** The origin's side *)

Context (cfg : KeryxDaemonConfig).

(** What the origin reads from a request that forwards [result]. *)
Lemma read_sent_result executor_peer i result frame artifacts has_content :
  Z.of_nat (length artifacts) <= u32_max ->
  validate_worker_result_artifacts sha256 artifacts = Ok (re_output_artifacts result, has_content) ->
  re_protocol_version result = (if has_content then 2 else 1) ->
  re_task_id result = Some (proto_id i) -> re_outcome result = TerminalOutcome.to_i32 TerminalOutcome.Completed ->
  re_executor_peer_id result = as_str executor_peer ->
  exists stored result' records,
    (forall order, read_remote_result sha256 sha256_digest cfg
       (MkIngest (Some result) (as_str executor_peer) (as_str (local_peer_id cfg)) frame) order
     = Ok (MkTerminalResult i (encode_result order result') Completed None executor_peer
             (re_completed_at_ms result), stored))
    /\ validate_origin_result_artifacts sha256 i stored = Ok records
    /\ canonicalize_origin_result_artifacts sha256 sha256_digest i result = Ok (stored, result').
Proof using Type.
  intros Hlen Hv Hver Hi Hout Hex.
  destruct (artifacts_carry_over sha256 sha256_digest i (re_completed_at_ms result) artifacts 0 0 false
              (re_output_artifacts result) has_content) as (Hhc & rs & stored & Hcan & _ & Hval); [done|done|].
  destruct (Hval 0) as (records & Hrecords); [done|].
  assert (Hc : canonicalize_origin_result_artifacts sha256 sha256_digest i result
               = Ok (stored, with_artifacts result rs)).
  { unfold canonicalize_origin_result_artifacts. simpl in Hhc. rewrite <- Hhc, Hver, Hcan.
    by destruct has_content. }
  exists stored, (with_artifacts result rs), records. split; [|done]. intros order.
  unfold read_remote_result. cbn [ig_result ig_authenticated_executor_peer_id ig_destination_peer_id ok_or].
  rewrite Hi. unfold parse_required_task_id. rewrite parse_proto_id. unfold parse_peer.
  rewrite Hex, !(valid_id_trim (as_str _)) by apply Is_true_true, id_valid.
  rewrite !Id_new_as_str. cbn [map_err]. rewrite !bool_decide_true by done. cbn [negb].
  rewrite Hout. cbn [TerminalOutcome.to_i32]. change (terminal_outcome_status 1) with (@Ok TaskStatus Status Completed).
  cbn iota. by rewrite Hc.
Qed.
End transfer.

(** ** Between the two stores *)

(** The origin's task waits for this executor: it was sent there and has not
    ended. *)
Record awaits (s : InMemoryState) (i : TaskId) (executor : PeerId) (t : TaskRecord) : Prop := {
  aw_context : exists context, transport_contexts s !! i = Some context
                 /\ tc_expected_executor_peer_id context = Some executor;
  aw_task : tasks s !! i = Some t;
  aw_open : is_terminal (tr_status t) = false;
}.

(** Nothing is stored under the identities that the first [n] artifacts get. *)
Definition ids_free (sha256 : bytes -> string) (m : gmap ArtifactId Entry) (i : TaskId) (n : nat) : Prop :=
  forall k j, (k < n)%nat -> as_str j = origin_result_artifact_id sha256 i (Z.of_nat k) -> m !! j = None.

(** The texts that are hashed on the way. *)
Definition hashes (i : TaskId) (artifacts : list TaskArtifact) : list bytes :=
  (ta_content <$> artifacts)
  ++ ((fun k => origin_preimage i (Z.of_nat k)) <$> seq 0 (length artifacts)).

Section crossing.
Context `{W : Wire}.
Context (sha256 : bytes -> string) (sha256_digest : forall b, is_digest (sha256 b) = true).
Context (U : list bytes) (blob_dir : string).
Context (s : InMemoryState) (c : Catalog).
Context (executor origin : KeryxDaemonConfig) (i : TaskId) (artifacts : list TaskArtifact).
Context (result : TaskResultEnvelope) (frame : string) (t : TaskRecord).

Context (Hs : steps empty_state s) (Hawaits : awaits s i (local_peer_id executor) t).
Context (Hmany : Z.of_nat (length artifacts) <= u32_max).
Context (Hfree : ids_free sha256 (stored c) i (length artifacts)).
Context (Hhashes : Forall (fun b => b ∈ U) (hashes i artifacts)).

(** The result was built by the executor's daemon. *)
Context (Hi : re_task_id result = Some (proto_id i)).
Context (Hout : re_outcome result = TerminalOutcome.to_i32 TerminalOutcome.Completed).
Context (Hex : re_executor_peer_id result = as_str (local_peer_id executor)).
Context (has_content : bool).
Context (Hv : validate_worker_result_artifacts sha256 artifacts = Ok (re_output_artifacts result, has_content)).
Context (Hver : re_protocol_version result = (if has_content then 2 else 1)).

Abbreviation request :=
  (MkIngest (Some result) (as_str (local_peer_id executor)) (as_str (local_peer_id origin)) frame).

Lemma hashed_content k a : artifacts !! k = Some a -> ta_content a ∈ U.
Proof using Hhashes.
  intros Hk. rewrite Forall_forall in Hhashes. apply Hhashes, elem_of_app. left.
  apply list_elem_of_fmap. exists a. split; [done|]. by eapply list_elem_of_lookup_2.
Qed.

Lemma hashed_preimage k : (k < length artifacts)%nat -> origin_preimage i (Z.of_nat k) ∈ U.
Proof using Hhashes.
  intros Hk. rewrite Forall_forall in Hhashes. apply Hhashes, elem_of_app. right.
  apply list_elem_of_fmap. exists k. split; [done|]. apply elem_of_seq. lia.
Qed.

(** What the store is asked to take in, and that it will. *)
Lemma crossing_applies :
  exists arts result' records tr,
    (forall order, read_remote_result sha256 sha256_digest origin request order
       = Ok (MkTerminalResult i (encode_result order result') Completed None (local_peer_id executor)
               (re_completed_at_ms result), arts))
    /\ report_ok U i arts
    /\ (forall k a, artifacts !! k = Some a -> ta_content_present a = true ->
          exists o, o ∈ arts /\ origin_id o = origin_artifact_id sha256 sha256_digest i (Z.of_nat k)
                    /\ oa_content o = ta_content a)
    /\ (forall order, applies sha256
          (MkTerminalResult i (encode_result order result') Completed None (local_peer_id executor)
             (re_completed_at_ms result)) arts (local_peer_id executor) s (stored c) t tr records)
    /\ canonicalize_origin_result_artifacts sha256 sha256_digest i result = Ok (arts, result').
Proof using Hs Hawaits Hmany Hfree Hhashes Hi Hout Hex Hv Hver.
  destruct (read_sent_result sha256 sha256_digest origin (local_peer_id executor) i result frame artifacts
              has_content Hmany Hv Hver Hi Hout Hex) as (arts & result' & records & Hread & Hrecs & Hcan).
  pose proof (validated_are_sent sha256 _ _ _ _ _ Hv) as Hsent.
  assert (Hc : exists rs, canonicalize_from sha256 sha256_digest i (re_completed_at_ms result) 0 0
                            (re_output_artifacts result) = Ok (rs, arts)).
  { unfold canonicalize_origin_result_artifacts in Hcan. destruct (_ && _); [done|].
    destruct (canonicalize_from _ _ _ _ _ _ _) as [[rs st]|]; [|done]. injection Hcan as <- _. by exists rs. }
  destruct Hc as (rs & Hc). destruct (canonicalized sha256 sha256_digest _ _ _ _ _ _ _ Hc) as [Hall Hfind].
  assert (Hwhere : forall o, o ∈ arts -> exists k a, artifacts !! k = Some a /\ oa_content o = ta_content a
            /\ oa_ordinal o = Z.of_nat k /\ origin_id o = origin_artifact_id sha256 sha256_digest i (Z.of_nat k)
            /\ media_type_new (media_str (am_media_type (oa_meta o))) = am_media_type (oa_meta o)).
  { intros o Ho. rewrite Forall_forall in Hall. destruct (Hall o Ho) as (k & r & Hk & Hp & Hord & Hid & Hm & Hco).
    destruct (Forall2_lookup_r _ _ _ _ _ Hsent Hk) as (a & Ha & Hpa & Hca).
    exists k, a. rewrite Hm, Hco, Hca by congruence. repeat split; try done. by rewrite media_type_normal. }
  destruct Hawaits as [Hctx Htask Hopen].
  assert (Htr : exists tr, store_transition (started (tr_status t)) Completed = Ok tr).
  { destruct (tr_status t); try done; by eexists. }
  destruct Htr as (tr & Htr). exists arts, result', records, tr.
  split; [exact Hread|]. split; [|split; [|split; [|exact Hcan]]].
  - unfold report_ok. rewrite Forall_forall. intros o Ho.
    destruct (Hwhere o Ho) as (k & a & Hk & -> & -> & _ & Hmedia).
    split; [by eapply hashed_content|]. split; [|done]. apply hashed_preimage. by eapply lookup_lt_Some.
  - intros k a Hk Hp. destruct (Forall2_lookup_l _ _ _ _ _ Hsent Hk) as (r & Hr & Hpr & Hcr).
    destruct (Hfind k r Hr) as (o & Ho & _ & Hid & _ & Hco); [congruence|].
    exists o. split; [done|]. split; [done|]. rewrite Hco. by apply Hcr.
  - intros order. split; try done.
    destruct (validate_inv sha256 i arts 0 0 records Hrecs (Z.le_refl 0)) as (Hr & _ & _). rewrite Hr.
    assert (Hn : Forall (fun o => stored c !! origin_id o = None) arts).
    { rewrite Forall_forall. intros o Ho. destruct (Hwhere o Ho) as (k & a & Hk & _ & _ & -> & _).
      apply (Hfree k); [by eapply lookup_lt_Some|done]. }
    clear - Hn. induction Hn as [|o l Ho Hn IH]; [done|]. simpl. by rewrite bool_decide_true.
Qed.
End crossing.

Lemma applies_judged sha256 r arts executor s m t tr records :
  steps empty_state s -> applies sha256 r arts executor s m t tr records -> is_terminal (tr_status t) = false ->
  judge sha256 r arts executor s m = Ok (VApply t tr).
Proof.
  intros Hs [Hterm Hexec Hrecs (context & Hctx & Hexp) Ht Hfree Htr] Hopen.
  assert (Hnone : terminal_results s !! rs_task_id r = None).
  { apply eq_None_not_Some. intros [x Hx].
    destruct (inv_result _ (Inv_steps _ _ Inv_empty Hs) _ _ Hx) as (_ & t' & Ht' & Hend). congruence. }
  unfold judge, judge_task. rewrite Hterm, Hrecs, Hctx, Ht, Hnone. cbn [ok_or].
  rewrite (bool_decide_true (rs_executor_peer_id r = executor)) by done.
  rewrite (bool_decide_true (_ = Some executor)) by done. cbn [require].
  assert (terminal_reason s t = Ok None) as -> by (unfold terminal_reason; by destruct (tr_status t)).
  rewrite (bool_decide_false (None = Some r)) by done. rewrite andb_false_r, Hfree. cbn [settlement_reason].
  by rewrite Htr.
Qed.

(** Reading an artifact at the daemon is reading the catalog. *)
Lemma get_artifact_serves `{Wire} sha256 U blob_dir row_not_found dk c s j e :
  prints_hex sha256 -> collision_free sha256 U -> DiskRel sha256 U blob_dir dk c s -> stored c !! j = Some e ->
  DaemonTransfers.get_artifact sha256 row_not_found blob_dir (MkGetArtifact (Some (proto_id j)) false) dk
  = (Ok (MkArtifactContent (summary e.1) e.2), dk).
Proof.
  intros Hhex Hcf HD Hj. unfold DaemonTransfers.get_artifact, parse_required_artifact_id.
  cbn [ga_artifact_id ga_metadata_only]. rewrite parse_proto_id. rewrite bind_lift_ok.
  destruct (disk_get_sim sha256 Hhex U Hcf blob_dir row_not_found j dk c s HD) as [Hg _].
  pose proof (get_artifact_reads sha256 blob_dir row_not_found j dk) as Hsame.
  unfold rpc, bind. destruct (Artifacts.get_artifact _ _ j blob_dir dk) as [r x]. simpl in Hg, Hsame.
  rewrite Hj in Hg. simpl in Hg. subst r x. by destruct e.
Qed.

Lemma stored_result_serves sha256 U blob_dir dk c s j r :
  DiskRel sha256 U blob_dir dk c s -> terminal_results s !! j = Some r ->
  (get_terminal_result j (conn dk)).1 = Ok r.
Proof.
  intros HD Hr. pose proof (dr_rel _ _ _ _ _ _ HD) as HR. destruct dk as [[d w] f]. cbn in HR |- *.
  pose proof (read_result d d s j HR) as Hread. rewrite Hr in Hread.
  unfold get_terminal_result, fetch_terminal_result_optional, pool_query, query, bind, get, ret, lift in *.
  cbn [committed working] in *. destruct (select_result _ d) as [row|]; [|done].
  by destruct (transpose _) as [[x|]|]; simplify_eq/=.
Qed.

(** ** The result arrives again *)

(** A result that was applied meets itself under another encoding. *)
Lemma judge_reencoded sha256 `{Wire} record record' arts executor s m t tr records :
  steps empty_state s -> applies sha256 record arts executor s m t tr records ->
  applies sha256 record' arts executor s m t tr records ->
  rs_task_id record' = rs_task_id record -> record' <> record -> NoDup (origin_id <$> arts) ->
  exists e, judge sha256 record' arts executor (apply_state record t tr s) (store_all sha256 arts m) = Err e
            /\ code (store_error_to_status e) = AlreadyExists.
Proof.
  intros Hs Ha [Hterm Hexec Hrecs (context & Hctx & Hexp) _ _ _] Hid Hne Hnd.
  unfold judge, judge_task. rewrite Hterm, Hrecs, apply_contexts, Hctx, Hid, apply_task_at. cbn [ok_or].
  rewrite (bool_decide_true (rs_executor_peer_id record' = executor)) by done.
  rewrite (bool_decide_true (_ = Some executor)) by done. cbn [require].
  destruct Ha as [Hterm0 _ Hrecs0 _ Ht Hfree Htr].
  rewrite (applied_reason s t tr record Hs Ht Hterm0 Htr), apply_result_stored.
  rewrite (bool_decide_false (Some record = _)) by (intros [= E]; by apply Hne). rewrite andb_false_r.
  destruct (validate_inv _ _ _ _ _ _ Hrecs (Z.le_refl 0)) as (-> & _). destruct arts as [|a arts].
  - simpl. by eexists.
  - cbn [fmap list_fmap free_ids]. change (ar_artifact_id (origin_entry sha256 a).1) with (origin_id a).
    rewrite (store_all_lookup sha256 (a :: arts) a) by (done || left).
    rewrite bool_decide_false by done. simpl. by eexists.
Qed.

Section delivery.
Context `{W : Wire} `{!WireLaws W}.
Context (sha256 : bytes -> string) (sha256_digest : forall b, is_digest (sha256 b) = true).
Context (U : list bytes) (violation row_not_found blob_dir : string).
Context (executor origin : KeryxDaemonConfig).

(** The executor's daemon, over whichever store, has built [result] from its
    worker's report. *)
Definition built {S} `{DaemonStore S} (i : TaskId) (artifacts : list TaskArtifact)
    (result : TaskResultEnvelope) : Prop :=
  exists duration metadata (w w' : World S),
    run (build_terminal_result sha256 executor i TerminalOutcome.Completed duration "" metadata artifacts) w
    = (Some (Ok result), w').

(** The result as the executor's daemon sends it, and the origin's answer. *)
Definition forwarded (result : TaskResultEnvelope) (frame : string) : IngestRemoteResultRequest :=
  MkIngest (Some result) (as_str (local_peer_id executor)) (as_str (local_peer_id origin)) frame.

Abbreviation ingest request order :=
  (ingest_remote_result sha256 sha256_digest violation row_not_found origin blob_dir request order).

(** One ingestion of a forwarded result in front of [judge]. *)
Lemma ingest_judged request order record arts s c dk :
  prints_hex sha256 -> collision_free sha256 U -> DiskRel sha256 U blob_dir dk c s ->
  read_remote_result sha256 sha256_digest origin request order = Ok (record, arts) ->
  report_ok U (rs_task_id record) arts -> log_length s (rs_task_id record) + 1 < i64_max ->
  exists dk',
    match judge sha256 record arts (rs_executor_peer_id record) s (stored c) with
    | Ok (VApply t tr) =>
        ingest request order dk
        = (Ok (MkIngested (Some (proto_id (rs_task_id record)))
                 (task_status_label (rs_terminal_status record))), dk')
        /\ DiskRel sha256 U blob_dir dk' (MkCatalog (known c) (store_all sha256 arts (stored c)))
             (apply_state record t tr s)
    | Ok (VRepeat t) =>
        ingest request order dk
        = (Ok (MkIngested (Some (proto_id (rs_task_id record))) (task_status_label (tr_status t))), dk')
        /\ untouched dk dk'
    | Ok (VSettle _ _ _) => True
    | Err e => ingest request order dk = (Err (store_error_to_status e), dk') /\ untouched dk dk'
    end.
Proof using Type.
  intros Hhex Hcf HD Hread Hreport Hlen. destruct dk as [[d w] f].
  pose proof (ingest_run sha256 U Hcf blob_dir violation row_not_found Hhex record arts
    (rs_executor_peer_id record) s c d w f HD Hreport Hlen) as H.
  unfold ingest_remote_result. rewrite Hread, bind_lift_ok. unfold rpc, bind.
  destruct (ingest_remote_result_with_artifacts _ _ _ _ _ _ _ _) as [r dk']. exists dk'.
  destruct (judge _ _ _ _ _ _) as [[t tr|t|t reason x]|e]; simpl in H; destruct H as [-> H]; by try split.
Qed.

(** C6: everything the worker attached reaches the origin. The executor's
    daemon builds the result of a completed task from its worker's report;
    when the origin's daemon, whose task waits for this executor, takes the
    result in, it answers that the task is completed; its store then holds
    the result with the executor's outcome, duration and metadata, and every
    artifact that the worker attached with content can be read there, byte
    for byte, under the identity derived from the task and its position. *)
Theorem result_reaches_the_origin {S} `{DaemonStore S} i artifacts result frame order s c dk t :
  prints_hex sha256 -> collision_free sha256 U -> Forall (fun b => b ∈ U) (hashes i artifacts) ->
  Z.of_nat (length artifacts) <= u32_max -> built (S := S) i artifacts result ->
  steps empty_state s -> DiskRel sha256 U blob_dir dk c s -> awaits s i (local_peer_id executor) t ->
  ids_free sha256 (stored c) i (length artifacts) -> log_length s i + 1 < i64_max ->
  exists dk',
    ingest (forwarded result frame) order dk = (Ok (MkIngested (Some (proto_id i)) "completed"), dk')
    /\ (exists record envelope,
          (get_terminal_result i (conn dk')).1 = Ok record
          /\ decode_result (rs_encoded_result record) = Ok envelope
          /\ re_outcome envelope = re_outcome result /\ re_duration_ms envelope = re_duration_ms result
          /\ re_result_metadata envelope = re_result_metadata result
          /\ length (re_output_artifacts envelope) = length artifacts)
    /\ forall k a, artifacts !! k = Some a -> ta_content_present a = true ->
         exists response,
           DaemonTransfers.get_artifact sha256 row_not_found blob_dir
             (MkGetArtifact (Some (proto_id (origin_artifact_id sha256 sha256_digest i (Z.of_nat k)))) false) dk'
           = (Ok response, dk')
           /\ gc_content response = ta_content a.
Proof using All.
  intros Hhex Hcf Hhash Hmany (duration & metadata & w & w' & Hbuilt) Hs HD Haw Hfree Hlen.
  apply built_result in Hbuilt as (Hi & Hout & Hex & hc & Hv & Hver).
  destruct (crossing_applies sha256 sha256_digest U s c executor origin i artifacts result frame t Hs Haw
    Hmany Hfree Hhash Hi Hout Hex hc Hv Hver) as (arts & result' & records & tr & Hread & Hrep & Hfind & Happ & Hcan).
  pose proof (applies_judged _ _ _ _ _ _ _ _ _ Hs (Happ order) (aw_open _ _ _ _ Haw)) as Hj.
  destruct (ingest_judged (forwarded result frame) order _ arts s c dk Hhex Hcf HD (Hread order) Hrep Hlen)
    as (dk' & Hrun). cbn [rs_executor_peer_id] in Hrun. rewrite Hj in Hrun. destruct Hrun as [Hrun HD'].
  exists dk'. split; [exact Hrun|]. split.
  - eexists _, result'. split; [eapply stored_result_serves; [exact HD'|apply apply_result_stored]|].
    cbn [rs_encoded_result]. rewrite decode_encode_result. split; [done|].
    destruct (canonicalized_envelope sha256 sha256_digest _ _ _ _ Hcan) as (-> & -> & -> & ->).
    repeat split. symmetry. by eapply Forall2_length, validated_are_sent.
  - intros k a Hk Hp. destruct (Hfind k a Hk Hp) as (o & Ho & Hid & Hco).
    eexists. rewrite <- Hid. split.
    + eapply get_artifact_serves; [done|done|exact HD'|]. cbn [stored].
      apply store_all_lookup; [|exact Ho]. eapply origin_ids_distinct; [done|apply (Happ order)|exact Hrep].
    + exact Hco.
Qed.

(** C34: redelivery depends on the order of a hash map. A result that the
    origin has applied arrives again. When the origin happens to encode it to
    the same bytes, the answer is the same and nothing changes; when it encodes
    the same envelope to other bytes, which the iteration order of the metadata
    map decides, the redelivery is refused as a conflict, although nothing
    differs. Nothing changes then either. *)
Theorem redelivery_depends_on_encoding {S} `{DaemonStore S} i artifacts result frame order order' s c dk t :
  prints_hex sha256 -> collision_free sha256 U -> Forall (fun b => b ∈ U) (hashes i artifacts) ->
  Z.of_nat (length artifacts) <= u32_max -> built (S := S) i artifacts result ->
  steps empty_state s -> DiskRel sha256 U blob_dir dk c s -> awaits s i (local_peer_id executor) t ->
  ids_free sha256 (stored c) i (length artifacts) -> task_records i (stored c) = [] ->
  log_length s i + 3 < i64_max ->
  exists dk' dk'' envelope,
    ingest (forwarded result frame) order dk = (Ok (MkIngested (Some (proto_id i)) "completed"), dk')
    /\ untouched dk' dk''
    /\ if bool_decide (encode_result order' envelope = encode_result order envelope)
       then ingest (forwarded result frame) order' dk'
            = (Ok (MkIngested (Some (proto_id i)) "completed"), dk'')
       else exists st, ingest (forwarded result frame) order' dk' = (Err st, dk'') /\ code st = AlreadyExists.
Proof using All.
  intros Hhex Hcf Hhash Hmany (duration & metadata & w & w' & Hbuilt) Hs HD Haw Hfree Hnone Hlen.
  apply built_result in Hbuilt as (Hi & Hout & Hex & hc & Hv & Hver).
  destruct (crossing_applies sha256 sha256_digest U s c executor origin i artifacts result frame t Hs Haw
    Hmany Hfree Hhash Hi Hout Hex hc Hv Hver) as (arts & result' & records & tr & Hread & Hrep & _ & Happ & _).
  pose proof (applies_judged _ _ _ _ _ _ _ _ _ Hs (Happ order) (aw_open _ _ _ _ Haw)) as Hj.
  destruct (ingest_judged (forwarded result frame) order _ arts s c dk Hhex Hcf HD (Hread order) Hrep)
    as (dk' & Hrun); [cbn [rs_task_id]; lia|]. cbn [rs_executor_peer_id] in Hrun. rewrite Hj in Hrun.
  destruct Hrun as [Hrun HD'].
  pose proof (apply_log_length _ t tr s (ap_task _ _ _ _ _ _ _ _ _ (Happ order))) as Hgrown.
  cbn [rs_task_id] in Hgrown.
  assert (Hnd : NoDup (origin_id <$> arts)) by (eapply origin_ids_distinct; [done|apply (Happ order)|exact Hrep]).
  destruct (ingest_judged (forwarded result frame) order' _ arts _ _ dk' Hhex Hcf HD' (Hread order') Hrep)
    as (dk'' & Hagain); [cbn [rs_task_id]; lia|]. cbn [rs_executor_peer_id stored] in Hagain.
  exists dk', dk'', result'. split; [exact Hrun|]. case_bool_decide as Henc.
  - rewrite Henc, (judge_again _ _ _ _ _ _ _ _ _ Hs (Happ order) Hnd) in Hagain. cbn [rs_task_id] in Hagain.
    rewrite bool_decide_true in Hagain by done. by destruct Hagain.
  - destruct (judge_reencoded sha256 _ _ _ _ _ _ _ _ _ Hs (Happ order) (Happ order')) as (e & He & Hcode);
      [done|intros [= E]; by apply Henc|done|].
    rewrite He in Hagain. destruct Hagain as [Hagain Hun]. split; [done|]. by eexists.
Qed.
End delivery.

(** ** A sample: one artifact with content, from peer-a to peer-b *)

Definition transfer_sha (b : bytes) : string :=
  match b with
  | [_; _] => "2222222222222222222222222222222222222222222222222222222222222222"
  | _ => "ffffffffffffffffffffffffffffffffffffffffffffffffffffffffffffffff"
  end.

Lemma transfer_sha_hex : prints_hex transfer_sha.
Proof. intros [|x [|y [|z b]]]; reflexivity. Qed.

Lemma transfer_sha_digest b : is_digest (transfer_sha b) = true.
Proof. destruct b as [|x [|y [|z b]]]; reflexivity. Qed.

Definition attached : list TaskArtifact :=
  [MkTaskArtifact "out.bin" " Text/Plain " {["k" := "v"]} [Byte.x2a; Byte.x2b] 2
     (transfer_sha [Byte.x2a; Byte.x2b]) true].

Definition peer_b_config : KeryxDaemonConfig :=
  MkConfig peer_b 300000 default_retry_policy default_limits None 30000.

(** What peer-a's daemon builds for task-a. *)
Definition sent_result : TaskResultEnvelope :=
  MkResultEnvelope 2 (Some (MkProtoId "task-a")) None 1 "peer-a" 7 100 "" {["m" := "n"]}
    [MkResultArtifact "out.bin" " Text/Plain " {["k" := "v"]} None (transfer_sha [Byte.x2a; Byte.x2b]) 2
       [Byte.x2a; Byte.x2b] true].

Lemma sent_result_built :
  built transfer_sha sample_config (S := InMemoryState) task_a attached sent_result.
Proof.
  exists 7, {["m" := "n"]}, (sample_world empty_state). eexists. apply run_fst. vm_compute. reflexivity.
Qed.

Lemma transfer_free : collision_free transfer_sha (hashes task_a attached).
Proof.
  intros b b' Hb Hb' Heq. unfold hashes in Hb, Hb'. simpl in Hb, Hb'.
  rewrite !elem_of_cons, elem_of_nil in Hb, Hb'.
  by destruct Hb as [->|[->|[]]], Hb' as [->|[->|[]]].
Qed.

Lemma transfer_hashes : Forall (fun b => b ∈ hashes task_a attached) (hashes task_a attached).
Proof. by apply Forall_forall. Qed.

Lemma transfer_disk_rel :
  DiskRel transfer_sha (hashes task_a attached) "blobs" sample_disk (fresh_catalog running) running.
Proof. apply fresh_disk_rel; [exact sample_db_rel|exact sample_fresh]. Qed.

Lemma running_awaits : awaits running task_a peer_a (with_status record_a Running).
Proof. split; [exists context_a; by vm_compute|by vm_compute|done]. Qed.

Lemma fresh_ids_free : ids_free transfer_sha (stored (fresh_catalog running)) task_a (length attached).
Proof. intros k j _ _. apply lookup_empty. Qed.

Lemma result_reaches_the_origin_witness :
  exists dk',
    ingest_remote_result transfer_sha transfer_sha_digest "" "" peer_b_config "blobs"
      (forwarded sample_config peer_b_config sent_result "frame-1") 0 sample_disk
    = (Ok (MkIngested (Some (proto_id task_a)) "completed"), dk')
    /\ exists response,
         DaemonTransfers.get_artifact transfer_sha "" "blobs"
           (MkGetArtifact (Some (proto_id (origin_artifact_id transfer_sha transfer_sha_digest task_a 0))) false) dk'
         = (Ok response, dk')
         /\ gc_content response = [Byte.x2a; Byte.x2b].
Proof.
  destruct (result_reaches_the_origin transfer_sha transfer_sha_digest (hashes task_a attached) "" "" "blobs"
    sample_config peer_b_config (S := InMemoryState) task_a attached sent_result "frame-1" 0 running
    (fresh_catalog running) sample_disk (with_status record_a Running) transfer_sha_hex transfer_free
    transfer_hashes) as (dk' & Hrun & _ & Hread);
    [discriminate|exact sent_result_built|exact running_reachable|exact transfer_disk_rel
    |exact running_awaits|exact fresh_ids_free|by rewrite running_log|].
  exists dk'. split; [exact Hrun|]. exact (Hread 0%nat _ eq_refl eq_refl).
Defined.

(** Encoded in another order, the same result is refused. *)
Lemma redelivery_depends_on_encoding_witness :
  exists dk' dk'' st,
    ingest_remote_result transfer_sha transfer_sha_digest "" "" peer_b_config "blobs"
      (forwarded sample_config peer_b_config sent_result "frame-1") 0 sample_disk
    = (Ok (MkIngested (Some (proto_id task_a)) "completed"), dk')
    /\ ingest_remote_result transfer_sha transfer_sha_digest "" "" peer_b_config "blobs"
         (forwarded sample_config peer_b_config sent_result "frame-1") 1 dk'
       = (Err st, dk'') /\ code st = AlreadyExists.
Proof.
  destruct (redelivery_depends_on_encoding transfer_sha transfer_sha_digest (hashes task_a attached) "" ""
    "blobs" sample_config peer_b_config (S := InMemoryState) task_a attached sent_result "frame-1" 0 1 running
    (fresh_catalog running) sample_disk (with_status record_a Running) transfer_sha_hex transfer_free
    transfer_hashes) as (dk' & dk'' & e & Hrun & _ & Hagain);
    [discriminate|exact sent_result_built|exact running_reachable|exact transfer_disk_rel
    |exact running_awaits|exact fresh_ids_free|by vm_compute|by rewrite running_log|].
  rewrite bool_decide_false in Hagain by done. destruct Hagain as (st & Hagain & Hcode).
  exists dk', dk'', st. split; [exact Hrun|]. split; [exact Hagain|exact Hcode].
Defined.
