(* ===== verification/RelayTrace.v ===== *)
(** * What a call of the relay runtime sends, opens and settles

    For every call: the frames and values that leave the relay and why, the
    connections it opens, and the waiters it installs or takes away. Handlers
    that share a runtime need these facts about the calls of the others. *)
From S2P Require Import Prelude Ident RelayRuntime RelayInv RelayDelivery.
From stdpp Require Import options.

Section relay_trace.
Context {Message : Type} `{EqDecision Message}.
Implicit Types (f : RelayFrame Message) (s : PeerState Message) (r : Relay Message).

(** ** Connections *)

(** The stream that a call may connect to a node. *)
Definition opens (op : RelayOp Message) : option (string * StreamSender) :=
  match op with RConnect n to _ => Some (n, to) | _ => None end.

Definition connected_to s (n : string) (to : StreamSender) : Prop :=
  exists c, connected_nodes s !! n = Some c /\ sender c = to.

Lemma route_locked_connected n frame outcome r :
  connected_nodes (peers (route_frame_locked n frame outcome r).2) ⊆ connected_nodes (peers r).
Proof using Type.
  destruct (route_frame_locked_effect n frame outcome r) as [He _].
  destruct He as [d Hd|c r' Hc Hp Ht Hn|r' Hp Ht Hn]; simpl; [done|by rewrite Hp|].
  destruct Hp as [->| ->]; [done|]. apply delete_subseteq.
Qed.

Lemma on_waiters_connected k g s : connected_nodes (on_waiters k g s) = connected_nodes s.
Proof using Type. by destruct k. Qed.

Lemma route_waiting_connected kind n frame outcome r :
  connected_nodes (peers (route_waiting kind n frame outcome r).2) ⊆ connected_nodes (peers r).
Proof using Type.
  unfold route_waiting. pose proof (route_locked_connected n frame outcome r) as Hc.
  destruct (route_frame_locked n frame outcome r) as [d r']. simpl in *.
  destruct (accepted d); [|done]. simpl. by rewrite on_waiters_connected.
Qed.

Lemma evict_connected s : connected_nodes (evict_published s).2 = connected_nodes s.
Proof using Type. unfold evict_published. by destruct (make_room _ _ _) as [ok [[order tasks] index]]. Qed.

Lemma publish_connected src dest task_id identity routed frame p outcome r :
  connected_nodes (peers (publish_task_frame src dest task_id identity routed frame p outcome r).2)
  ⊆ connected_nodes (peers r).
Proof using Type.
  unfold publish_task_frame. do 3 (case_match; [done|]).
  pose proof (evict_connected (peers r)) as He.
  destruct (evict_published (peers r)) as [ok s]. simpl in He.
  destruct ok; simpl; [|by rewrite He].
  pose proof (route_locked_connected dest frame outcome
    (on_peers (fun _ => record_publication (src, dest, task_id) identity p s) r)) as Hc.
  destruct (route_frame_locked dest frame outcome _) as [d r']. simpl in *. by rewrite <- He.
Qed.

Lemma complete_connected kind value dest id r :
  connected_nodes (peers (complete_control kind value dest id r).2) = connected_nodes (peers r).
Proof using Type.
  unfold complete_control. case_match; [done|]. case_match; [|done].
  case_match; simpl; by rewrite on_waiters_connected.
Qed.

Lemma ack_connected dest id r :
  connected_nodes (peers (ack_frame dest id r).2) = connected_nodes (peers r).
Proof using Type.
  unfold ack_frame, settle_waiter, mark_published_task_acknowledged, remember_acknowledgement.
  repeat (case_match; simpl); done.
Qed.

(** A node is connected to a stream because a call connected them. *)
Lemma relay_step_connected op r n to :
  connected_to (peers (relay_step op r)) n to ->
  connected_to (peers r) n to \/ opens op = Some (n, to).
Proof using Type.
  intros (c & Hc & <-).
  assert (Hsub : forall m : gmap string ConnectedNode, m !! n = Some c ->
    m ⊆ connected_nodes (peers r) -> connected_to (peers r) n (sender c) \/ opens op = Some (n, sender c)).
  { intros m Hm Hs. left. exists c. split; [|done]. by eapply lookup_weaken. }
  destruct op; simpl in Hc; try (eapply Hsub; [exact Hc|done]).
  - revert Hc. unfold connect_node_fenced. destruct (replay _ _ _) as [[] sent]; simpl.
    + intros [[<- <-]|[_ Hc]]%lookup_insert_Some; [by right|]. left. by exists c.
    + intros Hc. left. by exists c.
  - eapply Hsub; [exact Hc|]. unfold disconnect_node. simpl. case_match; [|done]. apply delete_subseteq.
  - eapply Hsub; [exact Hc|]. unfold disconnect_node_if_current. simpl. case_match; [|done].
    apply delete_subseteq.
  - eapply Hsub; [exact Hc|]. unfold disconnect_node_with_status. rewrite send_status_peers. simpl.
    case_match; [|done]. apply delete_subseteq.
  - eapply Hsub; [exact Hc|]. unfold disconnect_node_with_status_if_current.
    rewrite send_status_peers. simpl. case_match; [|done]. apply delete_subseteq.
  - eapply Hsub; [exact Hc|]. unfold route_frame. case_match; [done|].
    pose proof (route_locked_connected target frame outcome r) as Hr.
    destruct (route_frame_locked target frame outcome r) as [d r']. by destruct (accepted d).
  - eapply Hsub; [exact Hc|]. unfold route_frame_waiting_for_ack. case_match; [done|].
    pose proof (route_waiting_connected WaitAck target frame outcome r) as Hr.
    destruct (route_waiting _ _ _ _ _) as [a r']. by destruct (is_some a.2).
  - eapply Hsub; [exact Hc|]. unfold route_nodescale_identity_bind_waiting_for_completion.
    do 2 (case_match; [done|]). apply route_waiting_connected.
  - eapply Hsub; [exact Hc|]. unfold route_nodescale_identity_challenge_waiting_for_completion.
    do 2 (case_match; [done|]). apply route_waiting_connected.
  - eapply Hsub; [exact Hc|]. unfold route_fleet_observation_waiting_for_completion.
    case_match; [done|]. apply route_waiting_connected.
  - eapply Hsub; [exact Hc|]. unfold complete_nodescale_identity_bind. by rewrite complete_connected.
  - eapply Hsub; [exact Hc|]. unfold complete_nodescale_identity_challenge. by rewrite complete_connected.
  - eapply Hsub; [exact Hc|]. unfold complete_fleet_observation. by rewrite complete_connected.
  - eapply Hsub; [exact Hc|]. by rewrite ack_connected.
  - eapply Hsub; [exact Hc|]. apply publish_connected.
  - eapply Hsub; [exact Hc|]. unfold classify_published_task. case_match; [done|].
    pose proof (evict_connected (peers r)) as He. destruct (evict_published (peers r)) as [ok s].
    simpl in He. destruct ok; simpl; by rewrite He.
  - eapply Hsub; [exact Hc|]. unfold forget_published_task. simpl. by repeat case_match.
Qed.

(** ** What leaves the relay *)

(** The value that a call may give to the waiter of a key. *)
Definition settles_with (op : RelayOp Message) (kind : WaiterKind) (key : FrameKey)
    (v : Completion (Message := Message)) : Prop :=
  match op with
  | RCompleteBind d i m => kind = WaitBind /\ key = (trim d, trim i) /\ v = CompletedBind m
  | RCompleteChallenge d i m => kind = WaitChallenge /\ key = (trim d, trim i) /\ v = CompletedChallenge m
  | RCompleteFleet d i m => kind = WaitFleet /\ key = (trim d, trim i) /\ v = CompletedFleet m
  | RAck d i => kind = WaitAck /\ key = (trim d, trim i) /\ v = CompletedAck
  | _ => False
  end.

(** Why a call sends what it sends: a frame of the mailbox of a node goes to
    that node's stream, a value to the waiter it settles. *)
Definition sent_by (op : RelayOp Message) r (o : Output (Message := Message)) : Prop :=
  match o with
  | OutFrame to f => exists n, (f ∈ mailbox n (peers r) \/ routes op = Some (n, f))
      /\ (connected_to (peers r) n to \/ opens op = Some (n, to))
  | OutStatus _ => True
  | OutValue c v => exists kind key, waiters kind (peers r) !! key = Some c
      /\ settles_with op kind key v
  end.

Definition sends (op : RelayOp Message) r r' : Prop :=
  exists out, trace r' = trace r ++ out /\ forall o, o ∈ out -> sent_by op r o.

Lemma sends_nothing op r r' : trace r' = trace r -> sends op r r'.
Proof using Type. intros Ht. exists []. rewrite app_nil_r. split; [done|]. by intros o ?%elem_of_nil. Qed.

Lemma sends_one op r r' o : trace r' = trace r ++ [o] -> sent_by op r o -> sends op r r'.
Proof using Type. intros Ht Ho. exists [o]. split; [done|]. by intros x ->%list_elem_of_singleton. Qed.

Lemma route_locked_sends op n frame outcome r0 r :
  trace r = trace r0 -> connected_nodes (peers r) = connected_nodes (peers r0) ->
  routes op = Some (n, frame) -> sends op r0 (route_frame_locked n frame outcome r).2.
Proof using Type.
  intros Ht0 Hc0 Hop. destruct (route_frame_locked_effect n frame outcome r) as [He _].
  destruct He as [d Hd|c r' Hc Hp Ht Hn|r' Hp Ht Hn]; simpl.
  - by apply sends_nothing.
  - eapply sends_one; [by rewrite Ht, Ht0|]. exists n. split; [by right|]. left. exists c.
    by rewrite <- Hc0.
  - apply sends_nothing. by rewrite Ht.
Qed.

Lemma route_waiting_sends op kind n frame outcome r :
  routes op = Some (n, frame) -> sends op r (route_waiting kind n frame outcome r).2.
Proof using Type.
  intros Hop. unfold route_waiting.
  destruct (route_locked_sends op n frame outcome r r eq_refl eq_refl Hop) as (out & Ht & Hout).
  destruct (route_frame_locked n frame outcome r) as [d r']. exists out. simpl in *.
  by destruct (accepted d).
Qed.

Lemma complete_sends op kind value dest id r :
  PeersInv (peers r) ->
  settles_with op kind (trim dest, trim id) value ->
  sends op r (complete_control kind value dest id r).2.
Proof using Type.
  intros HI Hs. destruct (complete_control kind value dest id r) as [c r'] eqn:Hc.
  destruct c; simpl.
  - apply complete_control_accepted in Hc as (w & Hw & _ & _ & Ht & _); [|done].
    eapply sends_one; [exact Ht|]. by exists kind, (trim dest, trim id).
  - apply complete_control_refused in Hc as ->; [by apply sends_nothing|done..].
  - apply complete_control_refused in Hc as ->; [by apply sends_nothing|done..].
Qed.

Lemma send_status_sends op connected outcome r r' :
  trace r' = trace r -> sends op r (send_status connected outcome r').
Proof using Type.
  intros Ht. unfold send_status.
  destruct connected as [c|]; [destruct outcome|]; try (by apply sends_nothing).
  apply (sends_one _ _ _ (OutStatus (sender c))); [by simpl; rewrite Ht|done].
Qed.

Lemma replay_elem try_send pending n f :
  f ∈ (replay try_send n pending).2 -> f ∈ pending.
Proof using Type.
  revert n. induction pending as [|g pending IH]; intros n; simpl; [done|].
  destruct (try_send n); [|by intros ?%elem_of_nil..].
  destruct (replay try_send (S n) pending) as [o sent] eqn:E. simpl.
  intros [->|Hf]%elem_of_cons; [by left|right]. apply (IH (S n)). by rewrite E.
Qed.

Lemma evict_trace s : mailboxes (evict_published s).2 = mailboxes s.
Proof using Type. destruct (evict_published s) as [ok s'] eqn:He. by eapply evict_mailboxes. Qed.

Lemma publish_sends op src dest task_id identity routed frame p outcome r :
  routes op = Some (dest, frame) ->
  sends op r (publish_task_frame src dest task_id identity routed frame p outcome r).2.
Proof using Type.
  intros Hop. unfold publish_task_frame.
  do 3 (case_match; [by apply sends_nothing|]).
  pose proof (evict_connected (peers r)) as He.
  destruct (evict_published (peers r)) as [ok s]. simpl in He.
  destruct ok; simpl; [|by apply sends_nothing].
  destruct (route_locked_sends op dest frame outcome r
    (on_peers (fun _ => record_publication (src, dest, task_id) identity p s) r) eq_refl He Hop)
    as (out & Ht & Hout).
  destruct (route_frame_locked dest frame outcome _) as [d r']. by exists out.
Qed.

Lemma connect_sends n to try_send r :
  sends (RConnect n to try_send) r (connect_node_fenced n to try_send r).2.
Proof using Type.
  unfold connect_node_fenced.
  match goal with |- context [replay try_send 0 ?p] =>
    pose proof (replay_elem try_send p 0) as Hrep; destruct (replay try_send 0 p) as [open sent] end.
  exists (OutFrame to <$> sent). split; [done|].
  intros o (f & -> & Hf)%list_elem_of_fmap. exists n. split; [left|by right].
  by apply Hrep, list_elem_of_filter in Hf as [_ Hf].
Qed.

Lemma ack_sends dest id r :
  PeersInv (peers r) -> sends (RAck dest id) r (ack_frame dest id r).2.
Proof using Type.
  intros HI. destruct (ack_frame_effect dest id r HI) as [c _ _|r' _ Ha Hn Ht]; [by apply sends_nothing|].
  destruct (frame_ack_waiters (peers r) !! (trim dest, trim id)) as [w|] eqn:Hw.
  - eapply sends_one; [exact Ht|]. by exists WaitAck, (trim dest, trim id).
  - apply sends_nothing. simpl. by rewrite Ht, app_nil_r.
Qed.

Lemma relay_step_sends op r : PeersInv (peers r) -> sends op r (relay_step op r).
Proof using Type.
  intros HI. destruct op; simpl; try by apply sends_nothing.
  - apply connect_sends.
  - by apply send_status_sends.
  - by apply send_status_sends.
  - unfold route_frame. case_match; [by apply sends_nothing|].
    destruct (route_locked_sends (RRoute target frame outcome) target frame outcome r r
      eq_refl eq_refl eq_refl) as (out & Ht & Hout).
    destruct (route_frame_locked target frame outcome r) as [d r']. exists out. by destruct (accepted d).
  - unfold route_frame_waiting_for_ack. case_match; [by apply sends_nothing|].
    destruct (route_waiting_sends (RRouteAck target frame outcome) WaitAck target frame outcome r eq_refl)
      as (out & Ht & Hout).
    destruct (route_waiting _ _ _ _ _) as [a r']. exists out. by destruct (is_some a.2).
  - unfold route_nodescale_identity_bind_waiting_for_completion.
    do 2 (case_match; [by apply sends_nothing|]). by apply route_waiting_sends.
  - unfold route_nodescale_identity_challenge_waiting_for_completion.
    do 2 (case_match; [by apply sends_nothing|]). by apply route_waiting_sends.
  - unfold route_fleet_observation_waiting_for_completion.
    case_match; [by apply sends_nothing|]. by apply route_waiting_sends.
  - by apply complete_sends.
  - by apply complete_sends.
  - by apply complete_sends.
  - by apply ack_sends.
  - by apply publish_sends.
  - apply sends_nothing. unfold classify_published_task. case_match; [done|].
    destruct (evict_published (peers r)) as [[] s]; done.
Qed.

(** ** Waiters *)

Definition awaits (op : RelayOp Message) : bool :=
  match op with
  | RRouteAck _ _ _ | RRouteBind _ _ _ | RRouteChallenge _ _ _ | RRouteFleet _ _ _ => true
  | _ => false
  end.

Lemma complete_shrinks kind value dest id r c r' k :
  PeersInv (peers r) -> complete_control kind value dest id r = (c, r') ->
  waiters k (peers r') ⊆ waiters k (peers r) /\ next_channel r' = next_channel r.
Proof using Type.
  intros HI Hc. destruct c.
  - apply complete_control_accepted in Hc as (w & _ & _ & Hp & _ & Hn); [|done].
    rewrite Hp, abandon_waiters. split; [apply delete_subseteq|done].
  - apply complete_control_refused in Hc as ->; done.
  - apply complete_control_refused in Hc as ->; done.
Qed.

(** Only routings that wait install a waiter. *)
Lemma relay_step_waiters op r k :
  PeersInv (peers r) -> awaits op = false ->
  waiters k (peers (relay_step op r)) ⊆ waiters k (peers r) /\ next_channel (relay_step op r) = next_channel r.
Proof using Type.
  intros HI Ha. destruct op; simpl in Ha |- *; try discriminate Ha; try (by destruct k).
  - unfold connect_node_fenced. destruct (replay _ _ _) as [[] sent]; by destruct k.
  - unfold disconnect_node. simpl. split; [|done]. case_match; [apply drop_connection_waiters|done].
  - unfold disconnect_node_if_current. simpl. split; [|done]. case_match; [apply drop_connection_waiters|done].
  - unfold disconnect_node_with_status. rewrite send_status_peers. simpl.
    split; [case_match; [apply drop_connection_waiters|done]|].
    unfold send_status. by repeat case_match.
  - unfold disconnect_node_with_status_if_current. rewrite send_status_peers. simpl.
    split; [case_match; [apply drop_connection_waiters|done]|].
    unfold send_status. by repeat case_match.
  - unfold route_frame. case_match; [done|].
    pose proof (route_locked_quiet target frame outcome r) as (Hw & Hn & Ht).
    destruct (route_frame_locked target frame outcome r) as [d r']. simpl in *.
    destruct (accepted d); simpl; by rewrite Hw.
  - destruct (complete_control WaitBind (CompletedBind m) destination id r) as [c r'] eqn:Hc.
    unfold complete_nodescale_identity_bind. rewrite Hc. by eapply complete_shrinks.
  - destruct (complete_control WaitChallenge (CompletedChallenge m) destination id r) as [c r'] eqn:Hc.
    unfold complete_nodescale_identity_challenge. rewrite Hc. by eapply complete_shrinks.
  - destruct (complete_control WaitFleet (CompletedFleet m) destination id r) as [c r'] eqn:Hc.
    unfold complete_fleet_observation. rewrite Hc. by eapply complete_shrinks.
  - split; [|done]. pose proof (abandon_waiters destination id r k) as Hw. simpl in Hw. rewrite Hw. apply delete_subseteq.
  - destruct (ack_frame_effect destination id r HI) as [c _ _|r' _ Hack Hn Ht]; [done|].
    simpl. rewrite (ab_waiters _ _ _ _ Hack). split; [apply delete_subseteq|done].
  - unfold publish_task_frame. do 3 (case_match; [done|]).
    destruct (evict_published (peers r)) as [ok s] eqn:He. pose proof (evict_waiters _ _ _ k He) as Hs.
    destruct ok; simpl; [|by rewrite Hs].
    pose proof (route_locked_quiet destination frame outcome
      (on_peers (fun _ => record_publication (source, destination, task_id) identity_task receipt s) r))
      as (Hw & Hn & Ht).
    destruct (route_frame_locked destination frame outcome _) as [d r']. simpl in *.
    by rewrite Hw, record_waiters, Hs.
  - unfold classify_published_task. case_match; [done|].
    destruct (evict_published (peers r)) as [ok s] eqn:He. pose proof (evict_waiters _ _ _ k He) as Hs.
    destruct ok; simpl; rewrite ?record_waiters; by rewrite Hs.
  - unfold forget_published_task. simpl. split; [|done]. by repeat (case_match; try by destruct k).
Qed.

(** A routing that waits answers with the channel it installed, or leaves the
    tables as they are. *)
Inductive waiting_answer (kind : WaiterKind) (n : string) (frame : RelayFrame Message) r
    : (FrameDelivery * option Channel) * Relay Message -> Prop :=
| wa_installed d r' :
    accepted d = true ->
    (forall k, waiters k (peers r') = if decide (k = kind)
       then <[(n, fid frame) := next_channel r]> (waiters k (peers r)) else waiters k (peers r)) ->
    next_channel r' = S (next_channel r) -> waiting_answer kind n frame r ((d, Some (next_channel r)), r')
| wa_refused d r' :
    accepted d = false -> peers r' = peers r -> next_channel r' = next_channel r ->
    waiting_answer kind n frame r ((d, None), r').

Lemma route_waiting_answer kind n frame outcome r :
  waiting_answer kind n frame r (route_waiting kind n frame outcome r).
Proof using Type.
  unfold route_waiting. pose proof (route_locked_quiet n frame outcome r) as (Hw & Hn & _).
  destruct (route_frame_locked n frame outcome r) as [d r'] eqn:Hr. simpl in *.
  destruct (accepted d) eqn:Hd; simpl.
  - rewrite Hn. apply wa_installed; [done| |done].
    intros k. simpl. rewrite waiters_on, !Hw. case_decide as Hk; [by subst k|done].
  - pose proof (rejected_unchanged _ _ _ _ _ _ Hr Hd) as ->. by apply wa_refused.
Qed.

Lemma route_ack_answer n frame outcome r :
  waiting_answer WaitAck n frame r (route_frame_waiting_for_ack n frame outcome r).
Proof using Type.
  unfold route_frame_waiting_for_ack. case_match; [by apply wa_refused|].
  destruct (route_waiting_answer WaitAck n frame outcome r); simpl.
  - by apply wa_installed.
  - by apply wa_refused.
Qed.

(** The waiter of an acknowledgement stays for as long as its frame. *)
Lemma ack_waiter_stays op r n id :
  PeersInv (peers r) -> is_Some (frame_ack_waiters (peers r) !! (n, id)) ->
  (n, id) ∈ frame_destinations (peers (relay_step op r)) ->
  is_Some (frame_ack_waiters (peers (relay_step op r)) !! (n, id)).
Proof using Type.
  intros HI Hw Hown.
  assert (Hsame : forall w : gmap FrameKey Channel, w = frame_ack_waiters (peers r) -> is_Some (w !! (n, id)))
    by by intros w ->.
  assert (Hquiet : forall r', (forall k, waiters k (peers r') = waiters k (peers r)) ->
    is_Some (frame_ack_waiters (peers r') !! (n, id))).
  { intros r' Hq. apply Hsame. apply (Hq WaitAck). }
  assert (Hdel : forall d i s', waiters WaitAck s' = delete (d, i) (waiters WaitAck (peers r)) ->
    (n, id) ∈ frame_destinations (peers r) ∖ {[(d, i)]} -> is_Some (frame_ack_waiters s' !! (n, id))).
  { intros d i s' Hs [_ Hne]%elem_of_difference. change (frame_ack_waiters s') with (waiters WaitAck s').
    rewrite Hs. apply lookup_delete_is_Some. split; [set_solver|done]. }
  assert (Hcomplete : forall kind v d i, (n, id) ∈ frame_destinations (peers (complete_control kind v d i r).2) ->
    is_Some (frame_ack_waiters (peers (complete_control kind v d i r).2) !! (n, id))).
  { intros kind v d i. destruct (complete_control kind v d i r) as [c r'] eqn:Hc. simpl. destruct c.
    - apply complete_control_accepted in Hc as (w & _ & _ & Hp & _); [|done]. rewrite Hp.
      intros Hk. by apply (Hdel (trim d) (trim i)).
    - by apply complete_control_refused in Hc as ->.
    - by apply complete_control_refused in Hc as ->. }
  assert (Hanswer : forall kind target frame p, waiting_answer kind target frame r p ->
    is_Some (frame_ack_waiters (peers p.2) !! (n, id))).
  { intros kind target frame p [d r' _ Hr _|d r' _ Hp _]; simpl; [|by rewrite Hp].
    change (frame_ack_waiters (peers r')) with (waiters WaitAck (peers r')). rewrite Hr.
    case_decide; [|done]. apply lookup_insert_is_Some'. by right. }
  destruct op; simpl in Hown |- *; try done.
  - unfold connect_node_fenced. destruct (replay _ _ _) as [[] sent]; by apply Hsame.
  - apply Hsame. unfold disconnect_node. simpl. by case_match.
  - apply Hsame. unfold disconnect_node_if_current. simpl. by case_match.
  - apply Hsame. unfold disconnect_node_with_status. rewrite send_status_peers. simpl. by case_match.
  - apply Hsame. unfold disconnect_node_with_status_if_current. rewrite send_status_peers. simpl. by case_match.
  - clear Hown. unfold route_frame. case_match; [done|].
    pose proof (route_locked_quiet target frame outcome r) as (Hq & _).
    destruct (route_frame_locked target frame outcome r) as [d r']. simpl in *.
    destruct (accepted d); by apply Hquiet.
  - apply (Hanswer WaitAck target frame), route_ack_answer.
  - unfold route_nodescale_identity_bind_waiting_for_completion. do 2 (case_match; [done|]).
    apply (Hanswer WaitBind target frame), route_waiting_answer.
  - unfold route_nodescale_identity_challenge_waiting_for_completion. do 2 (case_match; [done|]).
    apply (Hanswer WaitChallenge target frame), route_waiting_answer.
  - unfold route_fleet_observation_waiting_for_completion. case_match; [done|].
    apply (Hanswer WaitFleet target frame), route_waiting_answer.
  - by apply Hcomplete.
  - by apply Hcomplete.
  - by apply Hcomplete.
  - by apply (Hdel destination id0 (peers (abandon_frame destination id0 r))).
  - destruct (ack_frame_effect destination id0 r HI) as [c _ _|r' _ Ha _ _]; [done|]. simpl in *.
    apply (Hdel (trim destination) (trim id0)); [exact (ab_waiters _ _ _ _ Ha WaitAck)|].
    by rewrite <- (ab_destinations _ _ _ _ Ha).
  - clear Hown Hanswer Hcomplete.
    unfold publish_task_frame. do 3 (case_match; [done|]).
    destruct (evict_published (peers r)) as [ok s] eqn:He.
    destruct ok; simpl; [|apply Hsame; by apply (evict_waiters _ _ _ WaitAck He)].
    pose proof (route_locked_quiet destination frame outcome
      (on_peers (fun _ => record_publication (source, destination, task_id) identity_task receipt s) r))
      as (Hq & _).
    destruct (route_frame_locked destination frame outcome _) as [d r']. simpl in *. apply Hsame.
    refine (eq_trans (Hq WaitAck) _). simpl. by apply (evict_waiters _ _ _ WaitAck He).
  - unfold classify_published_task. case_match; [done|].
    destruct (evict_published (peers r)) as [ok s] eqn:He. apply Hsame.
    pose proof (evict_waiters _ _ _ WaitAck He) as Hs. destruct ok; exact Hs.
  - unfold forget_published_task. apply Hsame. simpl. by repeat case_match.
Qed.

(** Every frame but a task has a waiter, as long as results are only routed by
    the calls that wait for their acknowledgement. *)
Definition frames_wait s : Prop :=
  forall n f, f ∈ mailbox n s -> task f = None -> is_Some (waiters (control_kind f) s !! (n, fid f)).

Definition routes_generic (op : RelayOp Message) : bool :=
  match op with RRoute _ _ _ => true | _ => false end.

Lemma task_is_exact f t : is_exact_task_frame f t = true -> task f <> None.
Proof using Type. unfold is_exact_task_frame. intros [_ Ht%bool_decide_eq_true]%andb_true_iff. by rewrite Ht. Qed.

(** A frame that a call added, other than a task: its waiter is there. *)
Lemma routed_frame_waits op n f r :
  routes_generic op = false -> routes op = Some (n, f) -> task f = None -> control_kind f = WaitAck ->
  f ∉ mailbox n (peers r) -> f ∈ mailbox n (peers (relay_step op r)) ->
  is_Some (frame_ack_waiters (peers (relay_step op r)) !! (n, fid f)).
Proof using Type.
  intros Hg Hop Ht Hk Hnew Hf. destruct op; simpl in *; try discriminate; injection Hop as -> ->.
  - destruct (route_ack_answer n f outcome r) as [d r' _ Hw _|d r' _ Hp _]; simpl in *; [|by rewrite Hp in Hf].
    change (frame_ack_waiters (peers r')) with (waiters WaitAck (peers r')). rewrite Hw, decide_True by done.
    rewrite lookup_insert_eq. by eexists.
  - revert Hf. unfold route_nodescale_identity_bind_waiting_for_completion. case_match; [done|].
    case_match eqn:Hb; [done|]. apply negb_false_iff, bind_kind in Hb. congruence.
  - revert Hf. unfold route_nodescale_identity_challenge_waiting_for_completion. case_match; [done|].
    case_match eqn:Hb; [done|]. apply negb_false_iff, challenge_kind in Hb. congruence.
  - revert Hf. unfold route_fleet_observation_waiting_for_completion. case_match eqn:Hb; [done|].
    apply negb_false_iff, andb_true_iff in Hb as [_ Hb%fleet_kind]. congruence.
  - revert Hf. unfold publish_task_frame. case_match eqn:He; [done|].
    by apply negb_false_iff, task_is_exact in He.
Qed.

Lemma frames_wait_step op r :
  PeersInv (peers r) -> routes_generic op = false -> frames_wait (peers r) ->
  frames_wait (peers (relay_step op r)).
Proof using Type.
  intros HI Hg Hwait n f Hf Ht. pose proof (relay_step_inv op r HI) as HI'.
  destruct (decide (control_kind f = WaitAck)) as [Hk|Hk]; [|by apply (ow_control _ _ _ (pi_owned _ HI'))].
  rewrite Hk. destruct (decide (f ∈ mailbox n (peers r))) as [Hold|Hnew].
  - specialize (Hwait n f Hold Ht). rewrite Hk in Hwait. apply ack_waiter_stays; [done..|].
    apply (ow_owned _ _ _ (pi_owned _ HI')). by apply list_elem_of_fmap_2.
  - apply routed_frame_waits; try done. pose proof Hf as Hf'.
    destruct (relay_step_mailbox op n r HI) as (keep & new & Hm & _ & Hj). rewrite Hm in Hf'.
    apply elem_of_app in Hf' as [[_ ?]%list_elem_of_filter|Hn]; [done|]. by apply Hj.
Qed.

(** The frames of a mailbox were there, or the call routed them. *)
Lemma relay_step_joins op r n f :
  PeersInv (peers r) -> f ∈ mailbox n (peers (relay_step op r)) ->
  f ∈ mailbox n (peers r) \/ routes op = Some (n, f).
Proof using Type.
  intros HI Hf. destruct (relay_step_mailbox op n r HI) as (keep & new & Hm & _ & Hj). rewrite Hm in Hf.
  apply elem_of_app in Hf as [[_ ?]%list_elem_of_filter|Hn]; [by left|right; by apply Hj].
Qed.
End relay_trace.
