(* ===== verification/RelayMessages.v ===== *)
(** * The relay's control messages and their validation

    proto/hermes/keryx/v1/control.proto, and the functions of
    keryx-relay/src/health_server.rs that check a message before the relay
    routes it or settles a waiter with it. What prost generates, the length of
    an encoded message, is the class [ControlWire]. *)
From S2P Require Import Prelude Ident StoreModel Wire.
From stdpp Require Import pretty options.
#[local] Open Scope Z_scope.

(** ** Messages *)

Record NodescaleIdentityBindV1 : Type := MkBindV1 {
  b1_operation_id : string;
  b1_network_id : string;
  b1_device_id : string;
  b1_join_session_id : string;
  b1_binding_nonce : string;
  b1_binding_generation : Z;
  b1_agent_version : string;
}.

Record NodescaleIdentityBindV2 : Type := MkBindV2 {
  b2_operation_id : string;
  b2_network_id : string;
  b2_device_id : string;
  b2_provider_binding_id : string;
  b2_binding_nonce : string;
  b2_binding_generation : Z;
  b2_agent_version : string;
}.

Record NodescaleIdentityBindResult : Type := MkBindResult {
  br_disposition : Z;
  br_accepted : bool;
  br_binding_id : string;
  br_generation : Z;
  br_revision : Z;
  br_reason : string;
  br_code : string;
}.

Record NodescaleIdentityChallengeV1 : Type := MkChallengeV1 {
  c1_operation_id : string;
  c1_network_id : string;
  c1_device_id : string;
  c1_join_session_id : string;
  c1_agent_version : string;
}.

Record NodescaleIdentityChallengeV2 : Type := MkChallengeV2 {
  c2_operation_id : string;
  c2_network_id : string;
  c2_device_id : string;
  c2_provider_binding_id : string;
  c2_agent_version : string;
}.

Record NodescaleIdentityChallengeResult : Type := MkChallengeResult {
  cr_disposition : Z;
  cr_accepted : bool;
  cr_challenge_id : string;
  cr_challenge_secret : string;
  cr_binding_generation : Z;
  cr_expires_at_unix_ms : Z;
  cr_reason : string;
  cr_code : string;
}.

Record FleetObservationSelectorV1 : Type := MkSelector {
  se_source : string;
  se_network_id : string;
  se_device_id : string;
}.

Record FleetObservationAuthorityEpochV1 : Type := MkEpoch {
  ep_binding_id : string;
  ep_authenticated_peer_id : string;
  ep_binding_generation : Z;
  ep_projection_generation : Z;
}.

Record FleetObservationSampleV1 : Type := MkSample {
  sa_selector : option FleetObservationSelectorV1;
  sa_authority_epoch : option FleetObservationAuthorityEpochV1;
  sa_observation_json : bytes;
  sa_sample_bytes : bytes;
}.

(** The [oneof] of [FleetObservationPublishV1]. *)
Inductive FleetRequest : Type :=
| Acquire (selector : option FleetObservationSelectorV1)
| PublishSample (sample : FleetObservationSampleV1).

Record FleetObservationPublishV1 : Type := MkFleetPublish { fp_request : option FleetRequest }.

Record FleetObservationPublishResultV1 : Type := MkFleetResult {
  fr_disposition : Z;
  fr_accepted : bool;
  fr_authority_epoch : option FleetObservationAuthorityEpochV1;
  fr_reason : string;
  fr_code : string;
}.

(** Every message a frame carries and every message a waiter gets back. *)
Inductive RelayMessage : Type :=
| MTask (m : TaskEnvelope)
| MResult (m : TaskResultEnvelope)
| MBindV1 (m : NodescaleIdentityBindV1)
| MBindV2 (m : NodescaleIdentityBindV2)
| MChallengeV1 (m : NodescaleIdentityChallengeV1)
| MChallengeV2 (m : NodescaleIdentityChallengeV2)
| MFleet (m : FleetObservationPublishV1)
| MBindResult (m : NodescaleIdentityBindResult)
| MChallengeResult (m : NodescaleIdentityChallengeResult)
| MFleetResult (m : FleetObservationPublishResultV1).

#[export] Instance NodescaleIdentityBindV1_eq_dec : EqDecision NodescaleIdentityBindV1.
Proof. solve_decision. Defined.
#[export] Instance NodescaleIdentityBindV2_eq_dec : EqDecision NodescaleIdentityBindV2.
Proof. solve_decision. Defined.
#[export] Instance NodescaleIdentityBindResult_eq_dec : EqDecision NodescaleIdentityBindResult.
Proof. solve_decision. Defined.
#[export] Instance NodescaleIdentityChallengeV1_eq_dec : EqDecision NodescaleIdentityChallengeV1.
Proof. solve_decision. Defined.
#[export] Instance NodescaleIdentityChallengeV2_eq_dec : EqDecision NodescaleIdentityChallengeV2.
Proof. solve_decision. Defined.
#[export] Instance NodescaleIdentityChallengeResult_eq_dec : EqDecision NodescaleIdentityChallengeResult.
Proof. solve_decision. Defined.
#[export] Instance FleetObservationSelectorV1_eq_dec : EqDecision FleetObservationSelectorV1.
Proof. solve_decision. Defined.
#[export] Instance FleetObservationAuthorityEpochV1_eq_dec : EqDecision FleetObservationAuthorityEpochV1.
Proof. solve_decision. Defined.
#[export] Instance FleetObservationSampleV1_eq_dec : EqDecision FleetObservationSampleV1.
Proof. solve_decision. Defined.
#[export] Instance FleetRequest_eq_dec : EqDecision FleetRequest.
Proof. solve_decision. Defined.
#[export] Instance FleetObservationPublishV1_eq_dec : EqDecision FleetObservationPublishV1.
Proof. solve_decision. Defined.
#[export] Instance FleetObservationPublishResultV1_eq_dec : EqDecision FleetObservationPublishResultV1.
Proof. solve_decision. Defined.
#[export] Instance RelayMessage_eq_dec : EqDecision RelayMessage.
Proof. solve_decision. Defined.

(** ** Dispositions *)

Inductive BindDisposition : Type := BindUnspecified | BindActive | BindAlreadyConfirmed | BindRejected.
Inductive ChallengeDisposition : Type := ChallengeUnspecified | ChallengeIssued | ChallengeRejected.
Inductive FleetDisposition : Type :=
| FleetUnspecified | FleetAcquired | FleetPublished | FleetAlreadyRecorded | FleetRejected.

(** [try_from] of the generated enums. *)
Definition bind_disposition (n : Z) : option BindDisposition :=
  if n =? 0 then Some BindUnspecified else if n =? 1 then Some BindActive
  else if n =? 2 then Some BindAlreadyConfirmed else if n =? 3 then Some BindRejected else None.
Definition challenge_disposition (n : Z) : option ChallengeDisposition :=
  if n =? 0 then Some ChallengeUnspecified else if n =? 1 then Some ChallengeIssued
  else if n =? 2 then Some ChallengeRejected else None.
Definition fleet_disposition (n : Z) : option FleetDisposition :=
  if n =? 0 then Some FleetUnspecified else if n =? 1 then Some FleetAcquired
  else if n =? 2 then Some FleetPublished else if n =? 3 then Some FleetAlreadyRecorded
  else if n =? 4 then Some FleetRejected else None.

(** ** Bounds *)

Definition MAX_DIRECT_CONTROL_ID_BYTES : Z := 256.
Definition MAX_DIRECT_CONTROL_NONCE_BYTES : Z := 512.
Definition MAX_DIRECT_CONTROL_SECRET_BYTES : Z := 512.
Definition MAX_DIRECT_CONTROL_REASON_BYTES : Z := 512.
Definition MAX_FLEET_OBSERVATION_JSON_BYTES : Z := 64 * 1024.
Definition MAX_FLEET_OBSERVATION_CONTROL_BYTES : Z := 128 * 1024.
Definition MAX_FLEET_OBSERVATION_DEADLINE_MS : Z := 30000.

Class ControlWire : Type := {
  publish_encoded_len : FleetObservationPublishV1 -> Z;
  fleet_result_encoded_len : FleetObservationPublishResultV1 -> Z;
}.

(** ** Validation *)

Definition blank (s : string) : bool := bool_decide (trim s = "").
Definition len (s : string) : Z := Z.of_nat (String.length s).

Definition required_node_value (value field : string) : Result string Status :=
  let value := trim value in
  if bool_decide (value = "") then Err (invalid_argument (field +:+ " is required")) else Ok value.

(** The loops over named texts with their limits: a text must be there and
    fit, or only fit. *)
Fixpoint check_required (l : list (string * string * Z)) : Result unit Status :=
  match l with
  | [] => Ok tt
  | (name, value, maximum) :: l =>
      if blank value || (maximum <? len value)
      then Err (invalid_argument (name +:+ " must be non-empty and at most " +:+ pretty maximum
                                    +:+ " bytes"))
      else check_required l
  end.

Fixpoint check_lengths (l : list (string * string * Z)) : Result unit Status :=
  match l with
  | [] => Ok tt
  | (name, value, maximum) :: l =>
      if maximum <? len value
      then Err (invalid_argument (name +:+ " exceeds " +:+ pretty maximum +:+ " bytes"))
      else check_lengths l
  end.

Definition check (b : bool) (status : Status) : Result unit Status := if b then Ok tt else Err status.

Definition id_field (name value : string) : string * string * Z :=
  (name, value, MAX_DIRECT_CONTROL_ID_BYTES).

Definition validate_fleet_observation_selector (selector : FleetObservationSelectorV1)
    : Result unit Status :=
  check_required [id_field "source" (se_source selector); id_field "network_id" (se_network_id selector);
                  id_field "device_id" (se_device_id selector)].

Definition validate_fleet_observation_authority_epoch (epoch : FleetObservationAuthorityEpochV1)
    : Result unit Status :=
  let? _ := check_required [id_field "binding_id" (ep_binding_id epoch);
                            id_field "authenticated_peer_id" (ep_authenticated_peer_id epoch)] in
  check (negb ((ep_binding_generation epoch =? 0) || (ep_projection_generation epoch =? 0)))
    (invalid_argument "authority epoch generations must be positive").

Definition validate_nodescale_identity_challenge (operation : NodescaleIdentityChallengeV1)
    : Result unit Status :=
  check_required [id_field "operation_id" (c1_operation_id operation);
                  id_field "network_id" (c1_network_id operation);
                  id_field "device_id" (c1_device_id operation);
                  id_field "join_session_id" (c1_join_session_id operation);
                  id_field "agent_version" (c1_agent_version operation)].

Definition validate_nodescale_identity_challenge_v2 (operation : NodescaleIdentityChallengeV2)
    : Result unit Status :=
  check_required [id_field "operation_id" (c2_operation_id operation);
                  id_field "network_id" (c2_network_id operation);
                  id_field "device_id" (c2_device_id operation);
                  id_field "provider_binding_id" (c2_provider_binding_id operation);
                  id_field "agent_version" (c2_agent_version operation)].

Definition generation_must_be_positive : Status :=
  invalid_argument "binding_generation must be positive".

Definition validate_nodescale_identity_bind (operation : NodescaleIdentityBindV1)
    : Result unit Status :=
  let? _ := check_required
    [id_field "operation_id" (b1_operation_id operation);
     id_field "network_id" (b1_network_id operation);
     id_field "device_id" (b1_device_id operation);
     id_field "join_session_id" (b1_join_session_id operation);
     ("binding_nonce"%string, b1_binding_nonce operation, MAX_DIRECT_CONTROL_NONCE_BYTES);
     id_field "agent_version" (b1_agent_version operation)] in
  check (negb (b1_binding_generation operation =? 0)) generation_must_be_positive.

Definition validate_nodescale_identity_bind_v2 (operation : NodescaleIdentityBindV2)
    : Result unit Status :=
  let? _ := check_required
    [id_field "operation_id" (b2_operation_id operation);
     id_field "network_id" (b2_network_id operation);
     id_field "device_id" (b2_device_id operation);
     id_field "provider_binding_id" (b2_provider_binding_id operation);
     ("binding_nonce"%string, b2_binding_nonce operation, MAX_DIRECT_CONTROL_NONCE_BYTES);
     id_field "agent_version" (b2_agent_version operation)] in
  check (negb (b2_binding_generation operation =? 0)) generation_must_be_positive.

Definition is_blank (s : string) : bool := bool_decide (s = "").

Definition validate_nodescale_identity_bind_result (result : NodescaleIdentityBindResult)
    : Result unit Status :=
  let? disposition := ok_or (bind_disposition (br_disposition result))
                        (invalid_argument "invalid nodescale identity bind disposition") in
  let required := invalid_argument "nodescale identity bind disposition is required" in
  match disposition with
  | BindUnspecified => Err required
  | _ =>
      let? _ := check_lengths [("binding_id"%string, br_binding_id result, MAX_DIRECT_CONTROL_REASON_BYTES);
                               ("reason"%string, br_reason result, MAX_DIRECT_CONTROL_REASON_BYTES);
                               ("code"%string, br_code result, MAX_DIRECT_CONTROL_REASON_BYTES)] in
      match disposition with
      | BindActive | BindAlreadyConfirmed =>
          check (negb (negb (br_accepted result) || blank (br_binding_id result)
                       || (br_generation result =? 0) || (br_revision result =? 0)
                       || negb (is_blank (br_reason result)) || negb (is_blank (br_code result))))
            (invalid_argument "accepted direct control result requires binding identity, positive generation/revision, and no rejection details")
      | BindRejected =>
          check (negb (br_accepted result || negb (is_blank (br_binding_id result))
                       || negb (br_generation result =? 0) || negb (br_revision result =? 0)))
            (invalid_argument "rejected direct control result must not claim an active binding")
      | BindUnspecified => Err required
      end
  end.

Definition validate_nodescale_identity_challenge_result (result : NodescaleIdentityChallengeResult)
    : Result unit Status :=
  let? disposition := ok_or (challenge_disposition (cr_disposition result))
                        (invalid_argument "invalid nodescale identity challenge disposition") in
  match disposition with
  | ChallengeUnspecified =>
      Err (invalid_argument "nodescale identity challenge disposition is required")
  | _ =>
      let? _ := check_lengths
        [("challenge_id"%string, cr_challenge_id result, MAX_DIRECT_CONTROL_ID_BYTES);
         ("challenge_secret"%string, cr_challenge_secret result, MAX_DIRECT_CONTROL_SECRET_BYTES);
         ("reason"%string, cr_reason result, MAX_DIRECT_CONTROL_REASON_BYTES);
         ("code"%string, cr_code result, MAX_DIRECT_CONTROL_REASON_BYTES)] in
      match disposition with
      | ChallengeIssued =>
          check (negb (negb (cr_accepted result) || blank (cr_challenge_id result)
                       || blank (cr_challenge_secret result) || (cr_binding_generation result =? 0)
                       || (cr_expires_at_unix_ms result =? 0) || negb (is_blank (cr_reason result))
                       || negb (is_blank (cr_code result))))
            (invalid_argument "issued challenge requires secret, identity, positive fences, and no rejection details")
      | _ =>
          check (negb (cr_accepted result || negb (is_blank (cr_challenge_id result))
                       || negb (is_blank (cr_challenge_secret result))
                       || negb (cr_binding_generation result =? 0)
                       || negb (cr_expires_at_unix_ms result =? 0)))
            (invalid_argument "rejected challenge must not claim active challenge material")
      end
  end.

Section fleet.
Context `{ControlWire}.

Definition validate_fleet_observation_publish (operation : FleetObservationPublishV1)
    : Result unit Status :=
  if MAX_FLEET_OBSERVATION_CONTROL_BYTES <? publish_encoded_len operation
  then Err (MkStatus ResourceExhausted "Fleet observation control exceeds the bounded payload limit")
  else
    match fp_request operation with
    | Some (Acquire selector) =>
        let? selector := ok_or selector (invalid_argument "acquire selector is required") in
        validate_fleet_observation_selector selector
    | Some (PublishSample publish) =>
        let? selector := ok_or (sa_selector publish) (invalid_argument "publish selector is required") in
        let? _ := validate_fleet_observation_selector selector in
        let? epoch := ok_or (sa_authority_epoch publish)
                        (invalid_argument "publish authority_epoch is required") in
        let? _ := validate_fleet_observation_authority_epoch epoch in
        check (negb (bool_decide (sa_observation_json publish = [])
                     || (MAX_FLEET_OBSERVATION_JSON_BYTES <? Z.of_nat (length (sa_observation_json publish)))
                     || negb (bool_decide (sa_sample_bytes publish = []))))
          (invalid_argument "observation_json must be non-empty and opaque sample_bytes are unsupported")
    | None => Err (invalid_argument "Fleet observation request variant is required")
    end.

(** The remaining time in milliseconds; [checked_sub] on an [i64]. *)
Definition validate_fleet_observation_deadline (deadline_ms now_ms : Z) : Result Z Status :=
  let? remaining := ok_or (if (i64_min <=? deadline_ms - now_ms) && (deadline_ms - now_ms <=? i64_max)
                           then Some (deadline_ms - now_ms) else None)
                      (invalid_argument "Fleet observation deadline is outside the supported range") in
  if remaining <=? 0
  then Err (MkStatus DeadlineExceeded "Fleet observation deadline has expired")
  else if MAX_FLEET_OBSERVATION_DEADLINE_MS <? remaining
  then Err (invalid_argument "Fleet observation deadline exceeds the bounded control window")
  else Ok remaining.

Definition validate_fleet_observation_result (result : FleetObservationPublishResultV1)
    : Result unit Status :=
  if MAX_FLEET_OBSERVATION_CONTROL_BYTES <? fleet_result_encoded_len result
  then Err (MkStatus ResourceExhausted "Fleet observation result exceeds the bounded payload limit")
  else
    let? disposition := ok_or (fleet_disposition (fr_disposition result))
                          (invalid_argument "invalid Fleet observation disposition") in
    match disposition with
    | FleetUnspecified => Err (invalid_argument "Fleet observation disposition is required")
    | _ =>
        let? _ := check (negb ((MAX_DIRECT_CONTROL_REASON_BYTES <? len (fr_reason result))
                               || (MAX_DIRECT_CONTROL_REASON_BYTES <? len (fr_code result))))
                    (invalid_argument "Fleet observation result details exceed bounds") in
        match disposition with
        | FleetAcquired =>
            let? _ := check (fr_accepted result)
                        (invalid_argument "acquired result must be accepted") in
            let? epoch := ok_or (fr_authority_epoch result)
                            (invalid_argument "acquired result requires an authority epoch") in
            validate_fleet_observation_authority_epoch epoch
        | FleetPublished | FleetAlreadyRecorded =>
            check (fr_accepted result)
              (invalid_argument "successful publication disposition must be accepted")
        | _ =>
            check (negb (fr_accepted result))
              (invalid_argument "rejected publication cannot be accepted")
        end
    end.
End fleet.
