(* ===== verification/RelayService.v ===== *)
(** * The relay's gRPC service

    keryx-relay/src/health_server.rs: authentication, and the handlers of
    [RelayHealthService]. A handler is a program, a tree of what it asks of
    the runtime, of the registry, and of the waiter of a frame; while a handler
    awaits, other handlers run, and a client that goes away drops the handler
    where it waits. A [World] holds what the handlers share, a [Pool] their
    threads; [relay_session] runs one event after the other. Every runtime
    method is one step, because it holds the runtime's lock; so is a registry
    method. *)
From S2P Require Import Prelude Ident Policy Security Registry Wire RelayRuntime RelayMessages.
From stdpp Require Import options.
#[local] Open Scope Z_scope.

(** ** Requests *)

(** A metadata value: absent, not readable as text, or a text. *)
Inductive HeaderValue : Type := Absent | NotText | HeaderText (s : string).

Record RequestHeaders : Type := MkHeaders {
  hd_node_id : HeaderValue;
  hd_node_token : HeaderValue;
}.

Definition header_text (h : HeaderValue) : option string :=
  match h with HeaderText s => Some s | _ => None end.

Record PublishTaskRequest : Type := MkPublishTask {
  pt_task : option TaskEnvelope;
  pt_target_node_id : string;
  pt_source_node_id : string;
}.

Record PublishTaskResponse : Type := MkPublishedTask {
  pd_task_id : option ProtoId;
  pd_frame_id : string;
  pd_authenticated_source_peer_id : string;
  pd_accepted_destination_peer_id : string;
  pd_accepted_route : string;
  pd_accepted_at_ms : Z;
}.

Record PublishResultRequest : Type := MkPublishResult {
  pr_result : option TaskResultEnvelope;
  pr_target_node_id : string;
  pr_source_node_id : string;
}.

(** What the typed publications answer: the frame, its destination, and the
    handler's result. *)
Record ControlResponse : Type := MkControlled {
  co_frame_id : string;
  co_destination_node_id : string;
  co_result : Completion (Message := RelayMessage);
}.

Record RelayHealthReport : Type := MkHealth {
  he_healthy : bool;
  he_connected_peers : Z;
  he_registry_size : Z;
  he_transport_status : string;
  he_tasks_routed : Z;
}.

Abbreviation Frame := (RelayFrame RelayMessage).

(** ** Effects *)

Inductive RuntimeOp : Type :=
| ConnectNode (node : string) (to : StreamSender)
| DisconnectIfCurrent (node : string) (gen : Z)
| DisconnectWithStatusIfCurrent (node : string) (gen : Z)
| RegisterNode (node : string)
| PublishTaskFrame (source destination task_id : string) (identity_task routed_task : RelayMessage)
    (frame : Frame) (receipt : PublishedTaskReceipt)
| RouteWaiting (kind : WaiterKind) (target : string) (frame : Frame)
| CompleteControl (kind : WaiterKind) (destination id : string) (m : RelayMessage)
| AckFrame (destination id : string)
| AbandonFrame (destination id : string)
| ReadHealth.

Definition runtime_reply (op : RuntimeOp) : Type :=
  match op with
  | ConnectNode _ _ => nat * Z
  | PublishTaskFrame _ _ _ _ _ _ _ => PublishedTaskDelivery
  | RouteWaiting _ _ _ => FrameDelivery * option Channel
  | CompleteControl _ _ _ _ => DirectControlCompletion
  | AckFrame _ _ => FrameAcknowledgement
  | ReadHealth => bool * Z * string * Z
  | _ => unit
  end.

Inductive RelayEffect : Type :=
| UnixMsNow
| NewRelayFrameId
| ProtocolFeatures (p : PeerId)
| SupportsProtocolFeature (p : PeerId) (feature : string)
| UpsertNode (p : PeerId) (name : string)
| RegistrationCount
| SetRegistrySize (n : Z)
| ReadRegistrySize
| Runtime (op : RuntimeOp).

Definition relay_reply (e : RelayEffect) : Type :=
  match e with
  | UnixMsNow | ReadRegistrySize => Z
  | NewRelayFrameId => string
  | ProtocolFeatures _ => list string
  | SupportsProtocolFeature _ _ => bool
  | UpsertNode _ _ => option unit
  | RegistrationCount => Z
  | SetRegistrySize _ => unit
  | Runtime op => runtime_reply op
  end.

(** What a wait for a frame's waiter ends with, and what a stream of frames
    from a node brings next. *)
Inductive Awaited : Type :=
| Received (v : Completion (Message := RelayMessage))
| SenderDropped
| Elapsed.
Inductive Inbound : Type := InboundFrame | InboundError | InboundEnd.

(** ** Programs *)

Inductive RProg (A : Type) : Type :=
| RDone (r : Result A Status)
| RPanic
| RDropped
| RCall (e : RelayEffect) (k : relay_reply e -> RProg A)
| RWait (kind : WaiterKind) (ch : Channel) (guard : FrameKey) (timeout_ms : Z) (k : Awaited -> RProg A)
| RInbound (k : Inbound -> RProg A).
Arguments RDone {A} r.
Arguments RPanic {A}.
Arguments RDropped {A}.
Arguments RCall {A} e k.
Arguments RWait {A} kind ch guard timeout_ms k.
Arguments RInbound {A} k.

Fixpoint rbind {A B} (p : RProg A) (k : A -> RProg B) : RProg B :=
  match p with
  | RDone (Ok a) => k a
  | RDone (Err e) => RDone (Err e)
  | RPanic => RPanic
  | RDropped => RDropped
  | RCall e c => RCall e (fun x => rbind (c x) k)
  | RWait kind ch g t c => RWait kind ch g t (fun x => rbind (c x) k)
  | RInbound c => RInbound (fun x => rbind (c x) k)
  end.

Notation "'do?' x := p 'in' k" := (rbind p (fun x => k))
  (at level 10, x pattern, p at level 100, k at level 200) : keryx_scope.

Definition rret {A} (a : A) : RProg A := RDone (Ok a).
Definition rthrow {A} (s : Status) : RProg A := RDone (Err s).
Definition rlift {A} (r : Result A Status) : RProg A := RDone r.
Definition ask (e : RelayEffect) : RProg (relay_reply e) := RCall e (fun x => rret x).
Definition runtime (op : RuntimeOp) : RProg (runtime_reply op) := ask (Runtime op).

(** ** Authentication *)

Record RelayConfig : Type := MkRelayConfig {
  has_registry : bool;
  node_auth : option NodeTokenAuth;
  registration_ttl : Z;
}.

Definition unauthenticated (text : string) : Status := MkStatus Unauthenticated text.
Definition failed_precondition (text : string) : Status := MkStatus FailedPrecondition text.

Definition present_text (s : option string) : option string :=
  match trim <$> s with
  | Some v => if bool_decide (v = "") then None else Some v
  | None => None
  end.

Definition configured_auth (cfg : RelayConfig) : Result NodeTokenAuth Status :=
  ok_or (match node_auth cfg with
         | Some auth => if is_configured auth then Some auth else None
         | None => None
         end) (unauthenticated "node authentication is not configured for mutations").

Definition node_id_from_metadata (h : RequestHeaders) : Result string Status :=
  match hd_node_id h with
  | Absent => Err (unauthenticated "ConnectNode requires x-keryx-node-id metadata")
  | NotText => Err (invalid_argument "ConnectNode node metadata must be ASCII")
  | HeaderText value =>
      let value := trim value in
      if bool_decide (value = "") then Err (invalid_argument "ConnectNode node id cannot be empty")
      else Ok value
  end.

Section service.
Context `{W : Wire} `{CW : ControlWire}.
Context (cfg : RelayConfig).

Definition parse_node_id (value : string) : Result NodeId Status :=
  map_err (fun e => invalid_argument ("invalid node id: " +:+ validation_error_text e))
    (Id_new "NodeId" value).

Definition authentication_failed (f : NodeAuthFailure) : Status :=
  unauthenticated ("node authentication failed: " +:+ failure_reason f).

Definition authenticate_metadata_only (h : RequestHeaders) : Result string Status :=
  let? auth := configured_auth cfg in
  let? metadata_node_id := ok_or (present_text (header_text (hd_node_id h)))
                             (unauthenticated "node id metadata is required") in
  let? node_id := parse_node_id metadata_node_id in
  let? _ := map_err authentication_failed
              (authenticate_optional node_id (header_text (hd_node_token h)) auth) in
  Ok metadata_node_id.

Definition authenticate_request (h : RequestHeaders) (claimed_node_id : string)
    : Result string Status :=
  let claimed_node_id := trim claimed_node_id in
  if bool_decide (claimed_node_id = "") then Err (invalid_argument "source node id is required")
  else
    let? metadata_node_id := authenticate_metadata_only h in
    if negb (bool_decide (metadata_node_id = claimed_node_id))
    then Err (MkStatus PermissionDenied "claimed source node does not match authenticated node metadata")
    else Ok metadata_node_id.

(** ** The registry's part *)

Definition ABSOLUTE_DEADLINES_FEATURE : string := "absolute_deadlines_v1".
Definition RESULT_ARTIFACT_BYTES_FEATURE : string := "result_artifact_bytes_v1".
Definition DAEMON_TASK_CONSUMER_FEATURE : string := "daemon_task_consumer_v1".
Definition NODESCALE_IDENTITY_BIND_FEATURE : string := "nodescale_identity_bind_v1".
Definition NODESCALE_IDENTITY_CHALLENGE_FEATURE : string := "nodescale.identity.challenge.v1".
Definition NODESCALE_IDENTITY_BIND_V2_FEATURE : string := "nodescale_identity_bind_v2".
Definition NODESCALE_IDENTITY_CHALLENGE_V2_FEATURE : string := "nodescale.identity.challenge.v2".
Definition FLEET_OBSERVATION_PUBLISH_FEATURE : string := "fleet.observation.publish.v1".
Definition AUTHENTICATED_SOURCE_FEATURES_METADATA_KEY : string :=
  "keryx.authenticated_source_protocol_features".
Definition TARGET_NODE_METADATA_KEYS : list string :=
  ["target_node_id"; "target_node"; "recipient_node_id"; "recipient_node"; "destination_node_id";
   "destination_node"; "node_id"; "keryx.target_node_id"].

Definition parse_registry_peer_id (value : string) : Result PeerId Status :=
  map_err (fun e => invalid_argument ("node id is not a valid registry peer id: "
                                        +:+ validation_error_text e))
    (Id_new "PeerId" (trim value)).

Definition advertises_feature (features : list string) (feature : string) : bool :=
  existsb (fun f => bool_decide (f = feature)) features.

Definition lacks_feature (destination_node_id feature : string) : Status :=
  failed_precondition ("destination " +:+ destination_node_id
    +:+ " does not advertise protocol feature " +:+ feature).

Definition reject_direct_control_only_destination (destination_node_id : string) : RProg unit :=
  if negb (has_registry cfg) then rret tt
  else
    do? peer_id := rlift (parse_registry_peer_id destination_node_id) in
    do? features := ask (ProtocolFeatures peer_id) in
    if advertises_feature features NODESCALE_IDENTITY_BIND_FEATURE
       && negb (advertises_feature features DAEMON_TASK_CONSUMER_FEATURE)
    then rthrow (lacks_feature destination_node_id DAEMON_TASK_CONSUMER_FEATURE)
    else rret tt.

Definition require_destination_feature (destination_node_id feature : string) : RProg unit :=
  if negb (has_registry cfg)
  then rthrow (failed_precondition ("destination protocol feature " +:+ feature
                 +:+ " is unavailable without registry state"))
  else
    do? peer_id := rlift (parse_registry_peer_id destination_node_id) in
    do? supported := ask (SupportsProtocolFeature peer_id feature) in
    if supported then rret tt else rthrow (lacks_feature destination_node_id feature).

Definition refresh_registry_metric : RProg unit :=
  if negb (has_registry cfg) then rret tt
  else
    do? count := ask RegistrationCount in
    ask (SetRegistrySize count).

(** ** Connections and registration *)

(** The task that [connect_node] spawns: it reads one item of the node's
    stream, which is receive-only, and ends the connection. *)
Definition inbound_task (node_id : string) (gen : Z) : RProg unit :=
  RInbound (fun next =>
    match next with
    | InboundFrame => runtime (DisconnectWithStatusIfCurrent node_id gen)
    | InboundError | InboundEnd => runtime (DisconnectIfCurrent node_id gen)
    end).

(** The handler, and then its spawned task. *)
Definition connect_node (h : RequestHeaders) (to : StreamSender) : RProg unit :=
  do? node_id := rlift (node_id_from_metadata h) in
  do? node_id := rlift (authenticate_request h node_id) in
  do? (_, connection_generation) := runtime (ConnectNode node_id to) in
  inbound_task node_id connection_generation.

Definition register_node (node_id : option ProtoId) (token : string) : RProg bool :=
  do? node_id := rlift (ok_or (present_text (value <$> node_id))
                          (invalid_argument "RegisterNode requires node_id")) in
  do? auth := rlift (configured_auth cfg) in
  do? parsed := rlift (parse_node_id node_id) in
  do? _ := rlift (map_err authentication_failed (authenticate_node parsed (trim token) auth)) in
  do? _ := runtime (RegisterNode node_id) in
  if has_registry cfg
  then
    do? peer_id := rlift (parse_registry_peer_id node_id) in
    do? stored := ask (UpsertNode peer_id node_id) in
    match stored with
    | None => RPanic
    | Some _ => do? _ := refresh_registry_metric in rret true
    end
  else rret true.

(** ** Publication of tasks *)

Definition with_metadata (e : TaskEnvelope) (m : Metadata) : TaskEnvelope :=
  MkTaskEnvelope (te_task_id e) (te_correlation_id e) (te_idempotency_key e) (te_status e)
    (te_messages e) m (te_deadline_ms e).

Definition canonical_task_publication_identity (task : TaskEnvelope) : TaskEnvelope :=
  with_metadata task (delete AUTHENTICATED_SOURCE_FEATURES_METADATA_KEY (te_metadata task)).

(** The first key that is there decides, also when its value is blank. *)
Definition target_node_id_from_task (task : TaskEnvelope) : Result string Status :=
  ok_or (present_text (head (omap (fun key => te_metadata task !! key) TARGET_NODE_METADATA_KEYS)))
    (invalid_argument ("task metadata must include one of: "
       +:+ String.concat ", " TARGET_NODE_METADATA_KEYS)).

Definition task_frame (frame_id source destination : string) (task : TaskEnvelope) : Frame :=
  MkFrame frame_id (Some (MTask task)) None source destination None None None None None.

Definition published (task_id : ProtoId) (source target : string) (receipt : PublishedTaskReceipt)
    : PublishTaskResponse :=
  MkPublishedTask (Some task_id) (receipt_frame_id receipt) source target "relay"
    (accepted_at_ms receipt).

Definition publication_answer (task_id : ProtoId) (source target : string)
    (delivery : PublishedTaskDelivery) : Result PublishTaskResponse Status :=
  match delivery with
  | PublishNew receipt _ | PublishRetry receipt => Ok (published task_id source target receipt)
  | PublishConflict =>
      Err (MkStatus AlreadyExists "task identity was already accepted with a different envelope")
  | PublishRejectedCapacity =>
      Err (MkStatus ResourceExhausted "relay task or frame identity table is at capacity")
  | PublishRejectedInvalid =>
      Err (invalid_argument "PublishTask frame must not contain typed direct control")
  end.

Definition publish_task (h : RequestHeaders) (request : PublishTaskRequest)
    : RProg PublishTaskResponse :=
  do? source_node_id := rlift (authenticate_request h (pt_source_node_id request)) in
  do? task := rlift (ok_or (pt_task request) (invalid_argument "PublishTask requires task")) in
  let identity_task := canonical_task_publication_identity task in
  do? target_node_id :=
    rlift (if bool_decide (trim (pt_target_node_id request) = "")
           then target_node_id_from_task task else Ok (trim (pt_target_node_id request))) in
  do? _ := reject_direct_control_only_destination target_node_id in
  do? _ := if 0 <? te_deadline_ms task
           then require_destination_feature target_node_id ABSOLUTE_DEADLINES_FEATURE
           else rret tt in
  do? task_id := rlift (ok_or (te_task_id task)
                          (invalid_argument "PublishTask requires task.task_id")) in
  if bool_decide (trim (value task_id) = "")
  then rthrow (invalid_argument "PublishTask requires non-empty task.task_id") else
  do? frame_id := ask NewRelayFrameId in
  do? now_ms := ask UnixMsNow in
  let proposed_receipt := MkReceipt frame_id now_ms in
  do? source_peer_id := rlift (map_err (fun e => unauthenticated (validation_error_text e))
                                 (Id_new "PeerId" source_node_id)) in
  do? source_features :=
    if has_registry cfg then ask (ProtocolFeatures source_peer_id) else rret [] in
  let delivered_task := with_metadata task
    (<[AUTHENTICATED_SOURCE_FEATURES_METADATA_KEY := features_to_json source_features]>
       (te_metadata task)) in
  let frame := task_frame frame_id source_node_id target_node_id delivered_task in
  do? delivery := runtime (PublishTaskFrame source_node_id target_node_id (trim (value task_id))
                             (MTask identity_task) (MTask delivered_task) frame proposed_receipt) in
  rlift (publication_answer task_id source_node_id target_node_id delivery).

(** ** Frames that are waited for *)

Definition ensure_frame_routed (delivery : FrameDelivery) : Result unit Status :=
  match delivery with
  | Delivered | Mailboxed => Ok tt
  | RejectedDuplicate => Err (MkStatus AlreadyExists "relay frame identity already exists")
  | RejectedCapacity => Err (MkStatus ResourceExhausted "relay frame capacity reached")
  | RejectedInvalid => Err (invalid_argument "relay frame identity is required")
  end.

(** The texts of the four kinds of waits. *)
Definition lacks_waiter (kind : WaiterKind) : Status :=
  MkStatus Internal
    match kind with
    | WaitAck => "accepted result frame lacks acknowledgement state"
    | WaitBind => "accepted direct control frame lacks completion state"
    | WaitChallenge => "accepted challenge control frame lacks completion state"
    | WaitFleet => "accepted Fleet observation frame lacks completion state"
    end.
Definition relay_restarted (kind : WaiterKind) : Status :=
  MkStatus Unavailable
    match kind with
    | WaitAck => "relay restarted before destination acknowledged result frame"
    | WaitBind => "relay restarted before destination completed direct control"
    | WaitChallenge => "relay restarted before destination completed challenge control"
    | WaitFleet => "relay restarted before destination completed Fleet observation control"
    end.
Definition wait_elapsed (kind : WaiterKind) : Status :=
  MkStatus DeadlineExceeded
    match kind with
    | WaitAck => "destination did not acknowledge result frame before retry deadline"
    | WaitBind => "destination did not complete direct control before retry deadline"
    | WaitChallenge => "destination did not complete challenge control before retry deadline"
    | WaitFleet => "destination did not complete Fleet observation control before deadline"
    end.

(** [await_frame_acknowledgement] and its three siblings: the guard is
    disarmed by a value and abandons the frame otherwise. *)
Definition await_completion (kind : WaiterKind) (ch : Channel) (guard : FrameKey) (timeout_ms : Z)
    : RProg (Completion (Message := RelayMessage)) :=
  RWait kind ch guard timeout_ms (fun awaited =>
    match awaited with
    | Received v => rret v
    | SenderDropped => do? _ := runtime (AbandonFrame guard.1 guard.2) in rthrow (relay_restarted kind)
    | Elapsed => do? _ := runtime (AbandonFrame guard.1 guard.2) in rthrow (wait_elapsed kind)
    end).

(** Route a frame under a fresh id, then wait for its waiter. *)
Definition route_and_wait (kind : WaiterKind) (target : string) (timeout_ms : Z)
    (frame : string -> Frame) : RProg (string * Completion (Message := RelayMessage)) :=
  do? frame_id := ask NewRelayFrameId in
  do? (delivery, waiter) := runtime (RouteWaiting kind target (frame frame_id)) in
  do? _ := rlift (ensure_frame_routed delivery) in
  match waiter with
  | None => do? _ := runtime (AbandonFrame target frame_id) in rthrow (lacks_waiter kind)
  | Some ch =>
      do? v := await_completion kind ch (target, frame_id) timeout_ms in
      rret (frame_id, v)
  end.

Definition RESULT_TIMEOUT_MS : Z := 25000.

Definition carries_bytes (result : TaskResultEnvelope) : bool :=
  existsb (fun a => ra_content_present a || negb (bool_decide (ra_content a = [])))
    (re_output_artifacts result).

Definition publish_result (h : RequestHeaders) (request : PublishResultRequest) : RProg string :=
  match node_auth cfg with
  | None => rthrow (unauthenticated "terminal results require configured node authentication")
  | Some _ =>
      do? source_node_id := rlift (authenticate_request h (pr_source_node_id request)) in
      do? result := rlift (ok_or (pr_result request)
                             (invalid_argument "PublishResult requires result")) in
      do? target_node_id := rlift (required_node_value (pr_target_node_id request) "target_node_id") in
      do? _ := reject_direct_control_only_destination target_node_id in
      do? _ := if carries_bytes result
               then require_destination_feature target_node_id RESULT_ARTIFACT_BYTES_FEATURE
               else rret tt in
      do? _ := rlift (ok_or (present_text (value <$> re_task_id result))
                        (invalid_argument "PublishResult requires result.task_id")) in
      do? (frame_id, _) := route_and_wait WaitAck target_node_id RESULT_TIMEOUT_MS (fun frame_id =>
        MkFrame frame_id None (Some (MResult result)) source_node_id target_node_id
          None None None None None) in
      rret frame_id
  end.

(** ** Typed control *)

(** The typed publications: the source is the authenticated node only. *)
Definition publish_control {Op} (h : RequestHeaders) (operation : option Op) (target : string)
    (validate : Op -> RProg Z) (feature : string) (kind : WaiterKind)
    (frame : Op -> string -> string -> string -> Frame) : RProg ControlResponse :=
  do? source := rlift (authenticate_metadata_only h) in
  do? target_node_id := rlift (required_node_value target "target_node_id") in
  do? operation := rlift (ok_or operation (invalid_argument "operation is required")) in
  do? timeout_ms := validate operation in
  do? _ := require_destination_feature target_node_id feature in
  do? (frame_id, v) := route_and_wait kind target_node_id timeout_ms
                         (frame operation source target_node_id) in
  rret (MkControlled frame_id target_node_id v).

(** The control handlers other than Fleet wait for 25 seconds. *)
Definition within_25s {Op} (validate : Op -> Result unit Status) (operation : Op) : RProg Z :=
  do? _ := rlift (validate operation) in rret RESULT_TIMEOUT_MS.

Definition publish_nodescale_identity_bind (h : RequestHeaders)
    (operation : option NodescaleIdentityBindV1) (target : string) : RProg ControlResponse :=
  publish_control h operation target (within_25s validate_nodescale_identity_bind)
    NODESCALE_IDENTITY_BIND_FEATURE WaitBind (fun op source target id =>
      MkFrame id None None source target (Some (MBindV1 op)) None None None None).

Definition publish_nodescale_identity_bind_v2 (h : RequestHeaders)
    (operation : option NodescaleIdentityBindV2) (target : string) : RProg ControlResponse :=
  publish_control h operation target (within_25s validate_nodescale_identity_bind_v2)
    NODESCALE_IDENTITY_BIND_V2_FEATURE WaitBind (fun op source target id =>
      MkFrame id None None source target None None (Some (MBindV2 op)) None None).

Definition publish_nodescale_identity_challenge (h : RequestHeaders)
    (operation : option NodescaleIdentityChallengeV1) (target : string) : RProg ControlResponse :=
  publish_control h operation target (within_25s validate_nodescale_identity_challenge)
    NODESCALE_IDENTITY_CHALLENGE_FEATURE WaitChallenge (fun op source target id =>
      MkFrame id None None source target None (Some (MChallengeV1 op)) None None None).

Definition publish_nodescale_identity_challenge_v2 (h : RequestHeaders)
    (operation : option NodescaleIdentityChallengeV2) (target : string) : RProg ControlResponse :=
  publish_control h operation target (within_25s validate_nodescale_identity_challenge_v2)
    NODESCALE_IDENTITY_CHALLENGE_V2_FEATURE WaitChallenge (fun op source target id =>
      MkFrame id None None source target None None None (Some (MChallengeV2 op)) None).

Definition publish_fleet_observation (h : RequestHeaders)
    (operation : option FleetObservationPublishV1) (target : string) (deadline_ms : Z)
    : RProg ControlResponse :=
  publish_control h operation target (fun operation =>
      do? _ := rlift (validate_fleet_observation_publish operation) in
      do? now_ms := ask UnixMsNow in
      rlift (validate_fleet_observation_deadline deadline_ms now_ms))
    FLEET_OBSERVATION_PUBLISH_FEATURE WaitFleet (fun op source target id =>
      MkFrame id None None source target None None None None (Some (MFleet op))).

(** ** Completion and acknowledgement *)

Definition completion_texts (kind : WaiterKind) : string * string :=
  match kind with
  | WaitAck | WaitBind =>
      ("authenticated node does not own the direct control frame"%string,
       "direct control frame is unknown or already completed"%string)
  | WaitChallenge =>
      ("authenticated node does not own the challenge control frame"%string,
       "challenge control frame is unknown or already completed"%string)
  | WaitFleet =>
      ("authenticated node does not own the Fleet observation frame"%string,
       "Fleet observation frame is unknown or already completed"%string)
  end.

Definition complete_control_frame {R} (kind : WaiterKind) (h : RequestHeaders) (frame_id : string)
    (result : option R) (validate : R -> Result unit Status) (message : R -> RelayMessage)
    : RProg bool :=
  do? destination := rlift (authenticate_metadata_only h) in
  do? frame_id := rlift (required_node_value frame_id "frame_id") in
  do? result := rlift (ok_or result (invalid_argument "result is required")) in
  do? _ := rlift (validate result) in
  do? completion := runtime (CompleteControl kind destination frame_id (message result)) in
  match completion with
  | ControlAccepted => rret true
  | ControlWrongDestination => rthrow (MkStatus PermissionDenied (completion_texts kind).1)
  | ControlUnknownFrame => rthrow (failed_precondition (completion_texts kind).2)
  end.

Definition complete_nodescale_identity_bind (h : RequestHeaders) (frame_id : string)
    (result : option NodescaleIdentityBindResult) : RProg bool :=
  complete_control_frame WaitBind h frame_id result validate_nodescale_identity_bind_result MBindResult.

Definition complete_nodescale_identity_challenge (h : RequestHeaders) (frame_id : string)
    (result : option NodescaleIdentityChallengeResult) : RProg bool :=
  complete_control_frame WaitChallenge h frame_id result
    validate_nodescale_identity_challenge_result MChallengeResult.

Definition complete_fleet_observation (h : RequestHeaders) (frame_id : string)
    (result : option FleetObservationPublishResultV1) : RProg bool :=
  complete_control_frame WaitFleet h frame_id result validate_fleet_observation_result MFleetResult.

Definition ack_frame (h : RequestHeaders) (frame_id : string) : RProg bool :=
  do? node_id := rlift (node_id_from_metadata h) in
  do? authenticated_node_id := rlift (authenticate_request h node_id) in
  do? acknowledgement := runtime (AckFrame authenticated_node_id frame_id) in
  match acknowledgement with
  | AckAccepted => rret true
  | AckWrongDestination =>
      rthrow (MkStatus PermissionDenied "authenticated node does not own the relay frame")
  | AckUnknownFrame => rret false
  end.

Definition ack_task (h : RequestHeaders) : RProg bool :=
  do? node_id := rlift (node_id_from_metadata h) in
  do? _ := rlift (authenticate_request h node_id) in
  rthrow (failed_precondition
    "legacy task acknowledgement cannot prove relay frame ownership; use AckFrame").

(** Without the uptime and the process's own peer id. *)
Definition health : RProg RelayHealthReport :=
  do? _ := refresh_registry_metric in
  do? (healthy, connected, status, routed) := runtime ReadHealth in
  do? size := ask ReadRegistrySize in
  rret (MkHealth healthy connected size status routed).

(** ** The service *)

Inductive RelayRequest : Type :=
| ConnectNodeRpc (h : RequestHeaders) (to : StreamSender)
| RegisterNodeRpc (node_id : option ProtoId) (token : string)
| PublishTaskRpc (h : RequestHeaders) (request : PublishTaskRequest)
| PublishResultRpc (h : RequestHeaders) (request : PublishResultRequest)
| PublishBindRpc (h : RequestHeaders) (operation : option NodescaleIdentityBindV1) (target : string)
| PublishBindV2Rpc (h : RequestHeaders) (operation : option NodescaleIdentityBindV2) (target : string)
| CompleteBindRpc (h : RequestHeaders) (frame_id : string)
    (result : option NodescaleIdentityBindResult)
| PublishChallengeRpc (h : RequestHeaders) (operation : option NodescaleIdentityChallengeV1)
    (target : string)
| PublishChallengeV2Rpc (h : RequestHeaders) (operation : option NodescaleIdentityChallengeV2)
    (target : string)
| CompleteChallengeRpc (h : RequestHeaders) (frame_id : string)
    (result : option NodescaleIdentityChallengeResult)
| PublishFleetRpc (h : RequestHeaders) (operation : option FleetObservationPublishV1)
    (target : string) (deadline_ms : Z)
| CompleteFleetRpc (h : RequestHeaders) (frame_id : string)
    (result : option FleetObservationPublishResultV1)
| AckFrameRpc (h : RequestHeaders) (frame_id : string)
| AckTaskRpc (h : RequestHeaders)
| HealthRpc.

(** What the handlers answer; [RepliedFrame] is the frame of a result. *)
Inductive RelayReply : Type :=
| RepliedStream
| RepliedFlag (b : bool)
| RepliedTask (r : PublishTaskResponse)
| RepliedFrame (frame_id : string)
| RepliedControl (r : ControlResponse)
| RepliedHealth (r : RelayHealthReport).

Definition rmap {A B} (f : A -> B) (p : RProg A) : RProg B := rbind p (fun a => rret (f a)).

Definition handle (request : RelayRequest) : RProg RelayReply :=
  match request with
  | ConnectNodeRpc h to => rmap (fun _ => RepliedStream) (connect_node h to)
  | RegisterNodeRpc node_id token => rmap RepliedFlag (register_node node_id token)
  | PublishTaskRpc h request => rmap RepliedTask (publish_task h request)
  | PublishResultRpc h request => rmap RepliedFrame (publish_result h request)
  | PublishBindRpc h operation target =>
      rmap RepliedControl (publish_nodescale_identity_bind h operation target)
  | PublishBindV2Rpc h operation target =>
      rmap RepliedControl (publish_nodescale_identity_bind_v2 h operation target)
  | CompleteBindRpc h frame_id result =>
      rmap RepliedFlag (complete_nodescale_identity_bind h frame_id result)
  | PublishChallengeRpc h operation target =>
      rmap RepliedControl (publish_nodescale_identity_challenge h operation target)
  | PublishChallengeV2Rpc h operation target =>
      rmap RepliedControl (publish_nodescale_identity_challenge_v2 h operation target)
  | CompleteChallengeRpc h frame_id result =>
      rmap RepliedFlag (complete_nodescale_identity_challenge h frame_id result)
  | PublishFleetRpc h operation target deadline_ms =>
      rmap RepliedControl (publish_fleet_observation h operation target deadline_ms)
  | CompleteFleetRpc h frame_id result =>
      rmap RepliedFlag (complete_fleet_observation h frame_id result)
  | AckFrameRpc h frame_id => rmap RepliedFlag (ack_frame h frame_id)
  | AckTaskRpc h => rmap RepliedFlag (ack_task h)
  | HealthRpc => rmap RepliedHealth health
  end.
End service.

(** ** The state that handlers share *)

Record RelayWorld : Type := MkRelayWorld {
  rw_relay : Relay RelayMessage;
  rw_registry : RegistryState;
  rw_registry_size : Z;
  rw_clock : nat -> Clock;
  rw_frame_ids : nat -> string;
}.

Definition on_relay (f : Relay RelayMessage -> Relay RelayMessage) (w : RelayWorld) : RelayWorld :=
  MkRelayWorld (f (rw_relay w)) (rw_registry w) (rw_registry_size w) (rw_clock w) (rw_frame_ids w).

(** The runtime method behind a call; [send] is what streams answer. An
    acknowledgement has a method of its own, so nothing completes [WaitAck]. *)
Definition runtime_op (op : RuntimeOp) (send : nat -> SendOutcome) : option (RelayOp RelayMessage) :=
  let outcome := send 0%nat in
  match op with
  | ConnectNode node to => Some (RConnect node to send)
  | DisconnectIfCurrent node gen => Some (RDisconnectIfCurrent node gen)
  | DisconnectWithStatusIfCurrent node gen => Some (RDisconnectStatusIfCurrent node gen outcome)
  | RegisterNode node => Some (RRegister node)
  | PublishTaskFrame source destination task_id identity_task routed_task frame receipt =>
      Some (RPublish source destination task_id identity_task routed_task frame receipt outcome)
  | RouteWaiting WaitAck target frame => Some (RRouteAck target frame outcome)
  | RouteWaiting WaitBind target frame => Some (RRouteBind target frame outcome)
  | RouteWaiting WaitChallenge target frame => Some (RRouteChallenge target frame outcome)
  | RouteWaiting WaitFleet target frame => Some (RRouteFleet target frame outcome)
  | CompleteControl WaitBind destination id m => Some (RCompleteBind destination id m)
  | CompleteControl WaitChallenge destination id m => Some (RCompleteChallenge destination id m)
  | CompleteControl WaitFleet destination id m => Some (RCompleteFleet destination id m)
  | AckFrame destination id => Some (RAck destination id)
  | AbandonFrame destination id => Some (RAbandon destination id)
  | CompleteControl WaitAck _ _ _ | ReadHealth => None
  end.

Definition after_op (op : option (RelayOp RelayMessage)) (r : Relay RelayMessage) : Relay RelayMessage :=
  match op with Some op => relay_step op r | None => r end.

(** What the method returns. *)
Definition runtime_answer (op : RuntimeOp) (send : nat -> SendOutcome) (r : Relay RelayMessage)
    : runtime_reply op :=
  let outcome := send 0%nat in
  match op with
  | ConnectNode node to => (connect_node_fenced node to send r).1
  | DisconnectIfCurrent _ _ | DisconnectWithStatusIfCurrent _ _ | RegisterNode _
  | AbandonFrame _ _ => tt
  | PublishTaskFrame source destination task_id identity_task routed_task frame receipt =>
      (publish_task_frame source destination task_id identity_task routed_task frame receipt outcome r).1
  | RouteWaiting kind target frame =>
      match kind with
      | WaitAck => route_frame_waiting_for_ack target frame outcome r
      | WaitBind => route_nodescale_identity_bind_waiting_for_completion target frame outcome r
      | WaitChallenge =>
          route_nodescale_identity_challenge_waiting_for_completion target frame outcome r
      | WaitFleet => route_fleet_observation_waiting_for_completion target frame outcome r
      end.1
  | CompleteControl kind destination id m =>
      match kind with
      | WaitAck => ControlUnknownFrame
      | WaitBind => (RelayRuntime.complete_nodescale_identity_bind destination id m r).1
      | WaitChallenge => (RelayRuntime.complete_nodescale_identity_challenge destination id m r).1
      | WaitFleet => (RelayRuntime.complete_fleet_observation destination id m r).1
      end
  | AckFrame destination id => (RelayRuntime.ack_frame destination id r).1
  | ReadHealth => (is_healthy r, connected_peers r, transport_status r, tasks_routed r)
  end.

(** A registry method, at the next reading of the clock. *)
Definition on_registry {A} (m : Clock -> Reg A) (w : RelayWorld) : Result A RegistryPanic * RelayWorld :=
  let (a, registry) := m (rw_clock w 0%nat) (rw_registry w) in
  (a, MkRelayWorld (rw_relay w) registry (rw_registry_size w) (fun n => rw_clock w (S n)) (rw_frame_ids w)).

(** Queries do not panic; [fallback] fills the type. *)
Definition or_else {A} (fallback : A) (r : Result A RegistryPanic) : A :=
  match r with Ok a => a | Err _ => fallback end.

Definition relay_perform (ttl : Z) (e : RelayEffect) (send : nat -> SendOutcome) (w : RelayWorld)
    : relay_reply e * RelayWorld :=
  match e with
  | UnixMsNow =>
      (unix_ms (rw_clock w 0%nat),
       MkRelayWorld (rw_relay w) (rw_registry w) (rw_registry_size w) (fun n => rw_clock w (S n))
         (rw_frame_ids w))
  | NewRelayFrameId =>
      (rw_frame_ids w 0%nat,
       MkRelayWorld (rw_relay w) (rw_registry w) (rw_registry_size w) (rw_clock w)
         (fun n => rw_frame_ids w (S n)))
  | ProtocolFeatures p =>
      let (r, w) := on_registry (protocol_features p) w in (or_else [] r, w)
  | SupportsProtocolFeature p feature =>
      let (r, w) := on_registry (supports_protocol_feature p feature) w in (or_else false r, w)
  | UpsertNode p name =>
      let (r, registry) := upsert_node ttl p name "" None (rw_clock w 0%nat) (rw_clock w 1%nat)
                             (rw_clock w 2%nat) (rw_registry w) in
      (match r with Ok _ => Some tt | Err _ => None end,
       MkRelayWorld (rw_relay w) registry (rw_registry_size w) (fun n => rw_clock w (3 + n)%nat)
         (rw_frame_ids w))
  | RegistrationCount =>
      let (r, w) := on_registry registration_count w in (Z.of_nat (or_else 0%nat r), w)
  | SetRegistrySize n =>
      (tt, MkRelayWorld (rw_relay w) (rw_registry w) n (rw_clock w) (rw_frame_ids w))
  | ReadRegistrySize => (rw_registry_size w, w)
  | Runtime op =>
      (runtime_answer op send (rw_relay w), on_relay (after_op (runtime_op op send)) w)
  end.

(** ** Threads *)

Record RelayPool (A : Type) : Type := MkRelayPool {
  handlers : list (RProg A);
  shared : RelayWorld;
}.
Arguments MkRelayPool {A} handlers shared.
Arguments handlers {A} r.
Arguments shared {A} r.

(** The value that was sent on a channel. *)
Definition sent_value (ch : Channel) (r : Relay RelayMessage) : option (Completion (Message := RelayMessage)) :=
  head (omap (fun o => match o with
                       | OutValue to v => if bool_decide (to = ch) then Some v else None
                       | _ => None
                       end) (trace r)).

Definition waited_for (ch : Channel) (s : PeerState RelayMessage) : bool :=
  existsb (fun kind => bool_decide (map_Exists (fun _ c => c = ch) (waiters kind s)))
    [WaitAck; WaitBind; WaitChallenge; WaitFleet].

(** What a wait gets: the value if it was sent; the channel's end if the
    runtime no longer has its sender; the timeout, when the timer has fired;
    nothing yet otherwise. *)
Definition awaited (ch : Channel) (timer : bool) (r : Relay RelayMessage) : option Awaited :=
  match sent_value ch r with
  | Some v => Some (Received v)
  | None =>
      if negb (waited_for ch (peers r)) then Some SenderDropped
      else if timer then Some Elapsed else None
  end.

Inductive RelayEvent : Type :=
| Step (i : nat) (send : nat -> SendOutcome) (timer : bool) (next : Inbound)
| ClientGone (i : nat)
| MarkListening
| PeerConnected (peer : string)
| PeerDisconnected (peer : string).

(** The next step of a thread. *)
Definition advance_handler {A} (ttl : Z) (p : RProg A) (send : nat -> SendOutcome) (timer : bool)
    (next : Inbound) (w : RelayWorld) : RProg A * RelayWorld :=
  match p with
  | RCall e k => let (x, w) := relay_perform ttl e send w in (k x, w)
  | RWait _ ch guard _ k =>
      match awaited ch timer (rw_relay w) with
      | Some a => (k a, w)
      | None => (p, w)
      end
  | RInbound k => (k next, w)
  | _ => (p, w)
  end.

(** Where a handler awaits, its client can go away: the handler is dropped,
    and with it the guard of its frame. The runtime's methods and the task
    behind a stream are not interrupted. *)
Definition drop_handler {A} (p : RProg A) : RProg A :=
  match p with
  | RWait _ _ guard _ _ => RCall (Runtime (AbandonFrame guard.1 guard.2)) (fun _ => RDropped)
  | RCall (Runtime _) _ => p
  | RCall _ _ => RDropped
  | _ => p
  end.

Definition relay_event {A} (ttl : Z) (ev : RelayEvent) (q : RelayPool A) : RelayPool A :=
  match ev with
  | Step i send timer next =>
      match handlers q !! i with
      | Some p =>
          let (p, w) := advance_handler ttl p send timer next (shared q) in
          MkRelayPool (<[i := p]> (handlers q)) w
      | None => q
      end
  | ClientGone i => MkRelayPool (alter drop_handler i (handlers q)) (shared q)
  | MarkListening => MkRelayPool (handlers q) (on_relay mark_transport_listening (shared q))
  | PeerConnected peer => MkRelayPool (handlers q) (on_relay (note_peer_connected peer) (shared q))
  | PeerDisconnected peer =>
      MkRelayPool (handlers q) (on_relay (note_peer_disconnected peer) (shared q))
  end.

Definition relay_session {A} (ttl : Z) (events : list RelayEvent) (q : RelayPool A) : RelayPool A :=
  fold_left (fun q ev => relay_event ttl ev q) events q.
