(* ===== verification/RelayLogic.v ===== *)
(** * A program logic for the handlers of the relay

    Handlers share the runtime's tables. A [Rights] says which frames may be
    routed to a node, which streams may be opened for it, and which values may
    settle a waiter. A program is [sound] when it stays within the rights,
    waits for every frame it routed, and abandons the frame when the wait ends
    without a value; the values it waits for may be assumed to be within the
    rights, because every handler is sound. [PoolInv] is what a pool of sound
    handlers keeps, whatever the interleaving and whichever clients go away. *)
From S2P Require Import Prelude Ident Policy Security Registry Wire RelayRuntime RelayInv RelayDelivery RelayTrace RelayMessages RelayService.
From stdpp Require Import options.
#[local] Open Scope Z_scope.

Record Rights : Type := MkRights {
  may_route : string -> Frame -> Prop;
  may_open : string -> StreamSender -> Prop;
  may_settle : WaiterKind -> FrameKey -> Completion (Message := RelayMessage) -> Prop;
}.

Definition completed (kind : WaiterKind) (m : RelayMessage) : Completion :=
  match kind with
  | WaitAck => CompletedAck
  | WaitBind => CompletedBind m
  | WaitChallenge => CompletedChallenge m
  | WaitFleet => CompletedFleet m
  end.

Section logic.
Context (R : Rights).

(** ** Sound programs *)

Definition allowed (e : RelayEffect) : Prop :=
  match e with
  | Runtime (ConnectNode n to) => may_open R n to
  | Runtime (PublishTaskFrame _ d _ _ _ f _) | Runtime (RouteWaiting _ d f) => may_route R d f
  | Runtime (CompleteControl kind d id m) => may_settle R kind (trim d, trim id) (completed kind m)
  | Runtime (AckFrame d id) => may_settle R WaitAck (trim d, trim id) CompletedAck
  | _ => True
  end.

(** What an answer is known to be: frame ids are trimmed, and a routing
    installs a waiter exactly when it accepts the frame. *)
Definition answered (e : RelayEffect) : relay_reply e -> Prop :=
  match e with
  | NewRelayFrameId => fun id => trim id = id
  | Runtime (RouteWaiting _ _ _) => fun x => accepted x.1 = is_some x.2
  | _ => fun _ => True
  end.

Section programs.
Context {A : Type}.
Implicit Types p : RProg A.

Definition calm p : Prop := match p with RWait _ _ _ _ _ => False | _ => True end.

Definition waits_for (kind : WaiterKind) (ch : Channel) (guard : FrameKey) p : Prop :=
  match p with RWait kind' ch' guard' _ _ => kind' = kind /\ ch' = ch /\ guard' = guard | _ => False end.

Definition abandons (guard : FrameKey) p : Prop :=
  match p with
  | RCall (Runtime (AbandonFrame d id)) _ => (d, id) = guard
  | _ => False
  end.

(** The program after a call: it waits for the waiter that the call installed,
    and for nothing else. *)
Definition follows (e : RelayEffect) : relay_reply e -> RProg A -> Prop :=
  match e with
  | Runtime (RouteWaiting kind d f) => fun x p =>
      match x.2 with Some ch => waits_for kind ch (d, fid f) p | None => calm p end
  | _ => fun _ p => calm p
  end.
End programs.

Fixpoint sound {A} (Post : A -> Prop) (p : RProg A) : Prop :=
  match p with
  | RDone (Ok a) => Post a
  | RDone (Err _) | RPanic | RDropped => True
  | RCall e k => allowed e /\ forall x, answered e x -> follows e x (k x) /\ sound Post (k x)
  | RWait kind _ guard _ k =>
      (forall v, may_settle R kind guard v -> calm (k (Received v)) /\ sound Post (k (Received v)))
      /\ (abandons guard (k SenderDropped) /\ sound Post (k SenderDropped))
      /\ abandons guard (k Elapsed) /\ sound Post (k Elapsed)
  | RInbound k => forall x, calm (k x) /\ sound Post (k x)
  end.

Definition safe {A} (Post : A -> Prop) (p : RProg A) : Prop := calm p /\ sound Post p.

(** ** Rules *)

Lemma calm_bind {A B} (Post : A -> Prop) (p : RProg A) (k : A -> RProg B) :
  sound Post p -> calm p -> (forall a, Post a -> calm (k a)) -> calm (rbind p k).
Proof using Type. destruct p as [[a|e]| | |e c|kind ch g t c|c]; simpl; auto. Qed.

Lemma waits_for_bind {A B} kind ch guard (p : RProg A) (k : A -> RProg B) :
  waits_for kind ch guard p -> waits_for kind ch guard (rbind p k).
Proof using Type. destruct p as [[a|e]| | |e c|kind' ch' g t c|c]; simpl; by intros. Qed.

Lemma abandons_bind {A B} guard (p : RProg A) (k : A -> RProg B) :
  abandons guard p -> abandons guard (rbind p k).
Proof using Type. destruct p as [[a|e]| | |e c|kind' ch' g t c|c]; simpl; by intros. Qed.

Lemma follows_bind {A B} (Post : A -> Prop) e x (p : RProg A) (k : A -> RProg B) :
  sound Post p -> follows e x p -> (forall a, Post a -> calm (k a)) -> follows e x (rbind p k).
Proof using Type.
  intros Hs. destruct e as [| | | | | | | |op]; try (simpl; intros; by eapply calm_bind).
  destruct op; simpl; try (intros; by eapply calm_bind).
  destruct x as [d [ch|]]; simpl; [|intros; by eapply calm_bind].
  intros. by apply waits_for_bind.
Qed.

Lemma sound_bind {A B} (Post : A -> Prop) (Post' : B -> Prop) (p : RProg A) (k : A -> RProg B) :
  sound Post p -> (forall a, Post a -> safe Post' (k a)) -> sound Post' (rbind p k).
Proof using Type.
  intros Hp Hk. assert (Hc : forall a, Post a -> calm (k a)) by (intros a Ha; apply (Hk a Ha)).
  induction p as [[a|e]| | |e c IH|kind ch g t c IH|c IH]; simpl in *; try done.
  - apply (Hk a Hp).
  - destruct Hp as [He Hp]. split; [done|]. intros x Hx. destruct (Hp x Hx) as [Hf Hs].
    split; [by eapply follows_bind|by apply IH].
  - destruct Hp as (Hv & [Hd Hds] & He & Hes). split; [|split; [|split]].
    + intros v Hm. destruct (Hv v Hm) as [H1 H2]. split; [by eapply calm_bind|by apply IH].
    + split; [by apply abandons_bind|by apply IH].
    + by apply abandons_bind.
    + by apply IH.
  - intros x. destruct (Hp x) as [H1 H2]. split; [by eapply calm_bind|by apply IH].
Qed.

Lemma safe_bind {A B} (Post : A -> Prop) (Post' : B -> Prop) (p : RProg A) (k : A -> RProg B) :
  safe Post p -> (forall a, Post a -> safe Post' (k a)) -> safe Post' (rbind p k).
Proof using Type.
  intros [Hc Hs] Hk. split; [|by eapply sound_bind]. eapply calm_bind; [exact Hs|done|].
  intros a Ha. apply (Hk a Ha).
Qed.

Lemma safe_ret {A} (Post : A -> Prop) a : Post a -> safe Post (rret a).
Proof using Type. by split. Qed.

Lemma safe_throw {A} (Post : A -> Prop) e : safe Post (rthrow e).
Proof using Type. by split. Qed.

Lemma safe_lift {A B} (Post : B -> Prop) (r : Result A Status) (k : A -> RProg B) :
  (forall a, r = Ok a -> safe Post (k a)) -> safe Post (rbind (rlift r) k).
Proof using Type. destruct r as [a|e]; intros Hk; [by apply Hk|by apply safe_throw]. Qed.

(** A call other than a routing that waits. *)
Definition plain (e : RelayEffect) : Prop :=
  match e with Runtime (RouteWaiting _ _ _) => False | _ => True end.

Lemma safe_ask {B} (Post : B -> Prop) e (k : relay_reply e -> RProg B) :
  allowed e -> plain e -> (forall x, answered e x -> safe Post (k x)) -> safe Post (rbind (ask e) k).
Proof using Type.
  intros He Hp Hk. split; [done|]. simpl. split; [done|]. intros x Hx. destruct (Hk x Hx) as [Hc Hs].
  split; [|done]. destruct e as [| | | | | | | |op]; try done. by destruct op.
Qed.

(** A weaker postcondition. *)
Lemma safe_weaken {A} (Post Post' : A -> Prop) (p : RProg A) :
  (forall a, Post a -> Post' a) -> safe Post p -> safe Post' p.
Proof using Type.
  intros Himp [Hc Hs]. split; [done|]. clear Hc.
  induction p as [[a|e]| | |e c IH|kind ch g t c IH|c IH]; simpl in *; try done; [by apply Himp|..].
  - destruct Hs as [He Hs]. split; [done|]. intros x Hx. destruct (Hs x Hx). split; auto.
  - destruct Hs as (Hv & [Hd Hds] & He & Hes). repeat split; auto; intros; try by apply Hv.
    apply IH. by apply Hv.
  - intros x. destruct (Hs x). split; auto.
Qed.

(** Route a frame and wait for its waiter: the value is within the rights. *)
Lemma safe_route_and_wait {B} (Post : B -> Prop) kind target timeout_ms frame
    (k : string * Completion -> RProg B) :
  (forall id, RelayRuntime.frame_id (frame id) = id) ->
  (forall id, may_route R target (frame id)) ->
  (forall id v, may_settle R kind (target, id) v -> safe Post (k (id, v))) ->
  safe Post (rbind (route_and_wait kind target timeout_ms frame) k).
Proof using Type.
  intros Hid Hroute Hk. apply (safe_bind (fun r => safe Post (k r))); [|done].
  split; [done|]. simpl. split; [done|]. intros id Htrim. split; [done|]. split; [apply Hroute|].
  intros [d w] Hw. simpl in Hw |- *.
  assert (Hfid : fid (frame id) = id) by (unfold fid; by rewrite Hid).
  destruct w as [ch|]; simpl.
  - destruct d; simpl in Hw; try discriminate Hw; rewrite Hfid;
      (split; [by repeat split|]); simpl;
      (split; [intros v Hv; split; [done|by apply Hk]|]); by repeat split.
  - destruct d; simpl in Hw; try discriminate Hw; by repeat split.
Qed.

(** ** The state of a pool *)

Definition within_rights (o : Output (Message := RelayMessage)) : Prop :=
  match o with
  | OutFrame to f => exists n, may_route R n f /\ may_open R n to
  | _ => True
  end.

(** The relay's tables, and where its frames and streams come from. *)
Record RelayOk (r : Relay RelayMessage) : Prop := {
  rk_peers : PeersInv (peers r);
  rk_channels : channels_ok r;
  rk_wait : frames_wait (peers r);
  rk_mail n f : f ∈ mailbox n (peers r) -> may_route R n f;
  rk_open n to : connected_to (peers r) n to -> may_open R n to;
  rk_sent o : o ∈ trace r -> within_rights o;
}.

(** A call within the rights. *)
Record op_allowed (op : RelayOp RelayMessage) : Prop := {
  oa_generic : routes_generic op = false;
  oa_routes n f : routes op = Some (n, f) -> may_route R n f;
  oa_opens n to : opens op = Some (n, to) -> may_open R n to;
  oa_settles kind key v : settles_with op kind key v -> may_settle R kind key v;
}.

Lemma relay_ok_step op r : op_allowed op -> RelayOk r -> RelayOk (relay_step op r).
Proof using Type.
  intros [Hg Hr Ho _] [HI Hc Hw Hm Hop Hs].
  assert (Hm' : forall n f, f ∈ mailbox n (peers r) \/ routes op = Some (n, f) -> may_route R n f)
    by (intros n f [?|?]; [by apply Hm|by apply Hr]).
  assert (Hop' : forall n to, connected_to (peers r) n to \/ opens op = Some (n, to) -> may_open R n to)
    by (intros n to [?|?]; [by apply Hop|by apply Ho]).
  split.
  - by apply relay_step_inv.
  - eapply chan_step_ok, Hc. by apply relay_step_channels.
  - by apply frames_wait_step.
  - intros n f Hf. by apply Hm', relay_step_joins.
  - intros n to Hn. by apply Hop', relay_step_connected.
  - destruct (relay_step_sends op r HI) as (out & -> & Hout).
    intros o [Hin|Hin]%elem_of_app; [by apply Hs|]. specialize (Hout o Hin).
    destruct o as [to f|to|c v]; simpl in *; try done. destruct Hout as (n & Hf & Hn).
    exists n. auto.
Qed.

Section pools.
Context {A : Type} (Post : nat -> A -> Prop).
Implicit Types (p : RProg A) (q : RelayPool A).

(** A wait is for a channel that was opened for its frame. *)
Definition wait_ok (r : Relay RelayMessage) p : Prop :=
  match p with
  | RWait kind ch guard _ _ =>
      (ch < next_channel r)%nat
      /\ (forall k key, waiters k (peers r) !! key = Some ch -> k = kind /\ key = guard)
      /\ forall v, OutValue ch v ∈ trace r -> may_settle R kind guard v
  | _ => True
  end.

(** The program will take the waiter away, unless it receives its value. *)
Definition holds p (kind : WaiterKind) (key : FrameKey) (ch : Channel) : Prop :=
  waits_for kind ch key p \/ abandons key p.

Record PoolInv q : Prop := {
  pl_relay : RelayOk (rw_relay (shared q));
  pl_ids n : trim (rw_frame_ids (shared q) n) = rw_frame_ids (shared q) n;
  pl_sound i p : handlers q !! i = Some p -> sound (Post i) p;
  pl_waits i p : handlers q !! i = Some p -> wait_ok (rw_relay (shared q)) p;
  pl_held kind key ch : waiters kind (peers (rw_relay (shared q))) !! key = Some ch ->
    exists i p, handlers q !! i = Some p /\ holds p kind key ch;
}.

Lemma calm_wait_ok r p : calm p -> wait_ok r p.
Proof using Type. by destruct p. Qed.

Lemma told_elem (c : Channel) v (l : list (Output (Message := RelayMessage))) : OutValue c v ∈ l -> c ∈ told l.
Proof using Type. intros Hv. apply list_elem_of_omap. by exists (OutValue c v). Qed.

Lemma wait_ok_step op r p :
  op_allowed op -> RelayOk r -> wait_ok r p -> wait_ok (relay_step op r) p.
Proof using Type.
  intros [_ _ _ Hset] [HI Hch _ _ _ _]. destruct p as [| | | |kind ch guard t k|]; try done.
  intros (Hlt & Hkey & Hval). pose proof (relay_step_channels op r HI) as Hstep.
  assert (Hold : forall k' key, waiters k' (peers (relay_step op r)) !! key = Some ch ->
    waiters k' (peers r) !! key = Some ch).
  { intros k' key Hw. destruct Hstep as [Hsub _ _|kd ky Hs _ _|kd ky c _ _ Hsub _ _].
    - eapply lookup_weaken; [exact Hw|apply Hsub].
    - rewrite Hs in Hw. case_decide; [|done]. subst k'.
      apply lookup_insert_Some in Hw as [[_ Heq]|[_ Hw]]; [lia|done].
    - eapply lookup_weaken; [exact Hw|apply Hsub]. }
  split; [destruct Hstep; lia|]. split; [auto|]. intros v.
  destruct (relay_step_sends op r HI) as (out & -> & Hout).
  intros [Hin|Hin]%elem_of_app; [by apply Hval|]. destruct (Hout _ Hin) as (k' & key & Hw & Hs).
  destruct (Hkey _ _ Hw) as [-> ->]. by apply Hset.
Qed.

(** One handler moves on, and the others stay. *)
Lemma pool_update q i p p' w' :
  PoolInv q -> handlers q !! i = Some p ->
  RelayOk (rw_relay w') -> (forall n, trim (rw_frame_ids w' n) = rw_frame_ids w' n) ->
  (forall p0, wait_ok (rw_relay (shared q)) p0 -> wait_ok (rw_relay w') p0) ->
  sound (Post i) p' -> wait_ok (rw_relay w') p' ->
  (forall kind key ch, waiters kind (peers (rw_relay w')) !! key = Some ch ->
     (waiters kind (peers (rw_relay (shared q))) !! key = Some ch /\ ~ holds p kind key ch)
     \/ holds p' kind key ch) ->
  PoolInv (MkRelayPool (<[i := p']> (handlers q)) w').
Proof using Type.
  intros [_ _ Hs Hw Hh] Hi Hr Hids Hkeep Hs' Hw' Hheld. pose proof (lookup_lt_Some _ _ _ Hi) as Hlt.
  split; simpl; [done..| | |].
  - intros j pj [(<- & <- & _)|[_ Hj]]%list_lookup_insert_Some; [done|by apply Hs].
  - intros j pj [(<- & <- & _)|[_ Hj]]%list_lookup_insert_Some; [done|by eapply Hkeep, Hw].
  - intros kind key ch [[Hold Hn]|Hp]%Hheld.
    + destruct (Hh _ _ _ Hold) as (j & pj & Hj & Hp). exists j, pj. split; [|done].
      rewrite list_lookup_insert_ne; [done|]. intros <-. congruence.
    + exists i, p'. split; [|done]. by apply list_lookup_insert_eq.
Qed.

(** ** Steps *)

Lemma allowed_op op send rop : allowed (Runtime op) -> runtime_op op send = Some rop -> op_allowed rop.
Proof using Type.
  intros Ha Hop. destruct op; try destruct kind; simpl in *; try discriminate Hop;
    injection Hop as <-; split; simpl; try done; try (by intros n f [= <- <-]);
    by intros kind key v (-> & -> & ->).
Qed.

Lemma op_waits op send rop :
  runtime_op op send = Some rop -> plain (Runtime op) -> awaits rop = false.
Proof using Type.
  intros Hop Hp. destruct op; try destruct kind; simpl in *; try discriminate Hop; try done;
    by injection Hop as <-.
Qed.

(** A routing that waits, with its answer. *)
Lemma routing_answer kind n f send r :
  waiting_answer kind n f r (runtime_answer (RouteWaiting kind n f) send r,
                             after_op (runtime_op (RouteWaiting kind n f) send) r).
Proof using Type.
  assert (Heq : forall (p : (FrameDelivery * option Channel) * Relay RelayMessage),
    waiting_answer kind n f r p -> waiting_answer kind n f r (p.1, p.2)) by by intros [].
  destruct kind; apply Heq.
  - apply route_ack_answer.
  - unfold route_nodescale_identity_bind_waiting_for_completion.
    do 2 (case_match; [by apply wa_refused|]). apply route_waiting_answer.
  - unfold route_nodescale_identity_challenge_waiting_for_completion.
    do 2 (case_match; [by apply wa_refused|]). apply route_waiting_answer.
  - unfold route_fleet_observation_waiting_for_completion.
    case_match; [by apply wa_refused|]. apply route_waiting_answer.
Qed.

Lemma routing_waits q kind n f send k i w' :
  PoolInv q -> handlers q !! i = Some (RCall (Runtime (RouteWaiting kind n f)) k) ->
  let x := runtime_answer (RouteWaiting kind n f) send (rw_relay (shared q)) in
  let r' := after_op (runtime_op (RouteWaiting kind n f) send) (rw_relay (shared q)) in
  rw_relay w' = r' -> rw_frame_ids w' = rw_frame_ids (shared q) ->
  PoolInv (MkRelayPool (<[i := k x]> (handlers q)) w').
Proof using Type.
  intros HP Hi x r' Hr' Hids'. pose proof (routing_answer kind n f send (rw_relay (shared q))) as Hans.
  fold x r' in Hans. destruct (pl_sound _ HP _ _ Hi) as [Ha Hs]. pose proof (pl_relay _ HP) as HR.
  destruct (runtime_op (RouteWaiting kind n f) send) as [rop|] eqn:Hrop; [|by destruct kind].
  pose proof (allowed_op _ _ _ Ha Hrop) as Hop.
  assert (Hstep : r' = relay_step rop (rw_relay (shared q))) by done.
  assert (HR' : RelayOk (rw_relay w')) by (rewrite Hr', Hstep; by apply relay_ok_step).
  assert (Hkeep : forall p0 : RProg A, wait_ok (rw_relay (shared q)) p0 -> wait_ok (rw_relay w') p0)
    by (rewrite Hr', Hstep; intros p0; by apply wait_ok_step).
  clearbody x r'. clear Hstep.
  assert (Hids : forall m, trim (rw_frame_ids w' m) = rw_frame_ids w' m)
    by (rewrite Hids'; apply HP).
  assert (Hidle : forall kd ky c, ~ holds (RCall (Runtime (RouteWaiting kind n f)) k) kd ky c) by by intros kd ky c [].
  inversion Hans as [d r0 Hd Hw Hn Hx|d r0 Hd Hp Hn Hx]; subst x r0.
  - destruct (Hs (d, Some (next_channel (rw_relay (shared q)))) Hd) as [Hf Hsk]. simpl in Hf.
    destruct (k (d, Some (next_channel (rw_relay (shared q))))) as [| | | |kd ch g t k'|] eqn:Hk; try done.
    destruct Hf as (-> & -> & ->).
    assert (Hnew : forall ky c kd, waiters kd (peers (rw_relay w')) !! ky = Some c ->
      (kd = kind /\ ky = (n, fid f) /\ c = next_channel (rw_relay (shared q)))
      \/ waiters kd (peers (rw_relay (shared q))) !! ky = Some c).
    { intros ky c kd. rewrite Hr', Hw. case_decide as Hkd; [|by right]. subst kd.
      intros [[<- <-]|[_ ?]]%lookup_insert_Some; [by left|by right]. }
    eapply pool_update; [done|exact Hi|done|done|done|exact Hsk|..].
    + split; [rewrite Hr', Hn; lia|]. split.
      * intros kd ky [(-> & -> & _)|Hold]%Hnew; [done|].
        apply (ch_fresh _ (rk_channels _ HR)) in Hold as [? _]. lia.
      * intros v Hv%told_elem. exfalso.
        assert (Hinst : waiters kind (peers (rw_relay w')) !! (n, fid f) = Some (next_channel (rw_relay (shared q))))
          by (rewrite Hr', Hw, decide_True by done; by rewrite lookup_insert_eq).
        by apply (ch_fresh _ (rk_channels _ HR')) in Hinst as [_ ?].
    + intros kd ky c [(-> & -> & ->)|Hold]%Hnew; [right; by left|left]. split; [done|apply Hidle].
  - destruct (Hs (d, None) Hd) as [Hf Hsk]. simpl in Hf.
    eapply pool_update; [done|exact Hi|done|done|done|exact Hsk|by apply calm_wait_ok|].
    intros kd ky c. rewrite Hr', Hp. left. split; [done|apply Hidle].
Qed.

(** A call that is not a routing that waits. *)
Lemma runtime_plain q op send k i w' :
  PoolInv q -> handlers q !! i = Some (RCall (Runtime op) k) -> plain (Runtime op) ->
  rw_relay w' = after_op (runtime_op op send) (rw_relay (shared q)) ->
  rw_frame_ids w' = rw_frame_ids (shared q) ->
  PoolInv (MkRelayPool (<[i := k (runtime_answer op send (rw_relay (shared q)))]> (handlers q)) w').
Proof using Type.
  intros HP Hi Hplain Hr' Hids'. destruct (pl_sound _ HP _ _ Hi) as [Ha Hs].
  pose proof (pl_relay _ HP) as HR.
  assert (Hafter : RelayOk (rw_relay w') /\ (forall p0 : RProg A, wait_ok (rw_relay (shared q)) p0 -> wait_ok (rw_relay w') p0)
    /\ forall kd, waiters kd (peers (rw_relay w')) ⊆ waiters kd (peers (rw_relay (shared q)))).
  { rewrite Hr'. destruct (runtime_op op send) as [rop|] eqn:Hrop; [|done]. simpl.
    pose proof (allowed_op _ _ _ Ha Hrop) as Hop.
    split; [by apply relay_ok_step|]. split; [intros p0; by apply wait_ok_step|].
    intros kd. by apply relay_step_waiters; [apply HR|by eapply op_waits]. }
  destruct Hafter as (HR' & Hkeep & Hsub).
  destruct (Hs (runtime_answer op send (rw_relay (shared q)))) as [Hf Hsk]; [by destruct op|].
  eapply pool_update; [done|exact Hi|done|by rewrite Hids'; apply HP|done|exact Hsk|..].
  - apply calm_wait_ok. by destruct op.
  - intros kd ky c Hw. left. split; [by eapply lookup_weaken|]. intros [[]|Hab].
    destruct op; try done. simpl in Hab. subst ky. rewrite Hr' in Hw. simpl in Hw.
    pose proof (abandon_waiters destination id (rw_relay (shared q)) kd) as Hdel. simpl in Hdel.
    rewrite Hdel in Hw. by rewrite lookup_delete_eq in Hw.
Qed.

(** An effect outside the runtime. *)
Lemma call_elsewhere q e k i x w' :
  PoolInv q -> handlers q !! i = Some (RCall e k) -> (forall op, e <> Runtime op) -> answered e x ->
  rw_relay w' = rw_relay (shared q) -> (forall n, trim (rw_frame_ids w' n) = rw_frame_ids w' n) ->
  PoolInv (MkRelayPool (<[i := k x]> (handlers q)) w').
Proof using Type.
  intros HP Hi He Hx Hr Hids. destruct (pl_sound _ HP _ _ Hi) as [_ Hs]. destruct (Hs x Hx) as [Hf Hsk].
  eapply pool_update; [done|exact Hi|rewrite Hr; apply HP|done|by rewrite Hr|exact Hsk|..].
  - apply calm_wait_ok. destruct e; try done. by destruct (He op).
  - rewrite Hr. intros kd ky c Hw. left. split; [done|]. intros [[]|Hab]. destruct e; try done. by destruct (He op).
Qed.

Lemma call_step ttl q e k send i :
  PoolInv q -> handlers q !! i = Some (RCall e k) ->
  let p := relay_perform ttl e send (shared q) in
  PoolInv (MkRelayPool (<[i := k p.1]> (handlers q)) p.2).
Proof using Type.
  intros HP Hi. pose proof (pl_ids _ HP) as Hids.
  destruct e as [| |p|p f|p name| |n| |op];
    try solve [apply call_elsewhere; try done; simpl; unfold on_registry; intros;
               repeat case_match; first [done|apply Hids]].
  destruct op; try (eapply runtime_plain; done). eapply routing_waits; try done.
Qed.

(** The value that a wait receives was sent on its channel. *)
Lemma sent_value_sent ch r v : sent_value ch r = Some v -> OutValue ch v ∈ trace r.
Proof using Type.
  unfold sent_value. intros Hv%head_Some_elem_of. apply list_elem_of_omap in Hv as (o & Ho & Hv).
  destruct o as [| |to v']; try done. case_bool_decide; [|done]. by simplify_eq.
Qed.

Lemma wait_step q kind ch guard t k i timer a :
  PoolInv q -> handlers q !! i = Some (RWait kind ch guard t k) ->
  awaited ch timer (rw_relay (shared q)) = Some a ->
  PoolInv (MkRelayPool (<[i := k a]> (handlers q)) (shared q)).
Proof using Type.
  intros HP Hi Ha. destruct (pl_sound _ HP _ _ Hi) as (Hv & [Hd Hds] & He & Hes).
  destruct (pl_waits _ HP _ _ Hi) as (Hlt & Hkey & Hval). pose proof (pl_relay _ HP) as HR.
  assert (Habandon : forall p, abandons guard p -> sound (Post i) p ->
    PoolInv (MkRelayPool (<[i := p]> (handlers q)) (shared q))).
  { intros p Hp Hs. eapply pool_update; [done|exact Hi|apply HP|apply HP|done|exact Hs|..].
    - apply calm_wait_ok. by destruct p.
    - intros kd ky c Hw. destruct (decide (c = ch)) as [->|Hne].
      + destruct (Hkey _ _ Hw) as [-> ->]. right. by right.
      + left. split; [done|]. intros [(_ & Heq & _)|[]]. congruence. }
  unfold awaited in Ha. destruct (sent_value ch (rw_relay (shared q))) as [v|] eqn:Hsent.
  - injection Ha as <-. apply sent_value_sent in Hsent. destruct (Hv v (Hval v Hsent)) as [Hc Hs].
    eapply pool_update; [done|exact Hi|apply HP|apply HP|done|exact Hs|by apply calm_wait_ok|].
    intros kd ky c Hw. left. split; [done|]. intros [(-> & <- & ->)|[]].
    apply (ch_fresh _ (rk_channels _ HR)) in Hw as [_ Hw]. by eapply Hw, told_elem.
  - case_match; [injection Ha as <-; by apply Habandon|]. destruct timer; [|done].
    injection Ha as <-. by apply Habandon.
Qed.

Lemma drop_step q i p : PoolInv q -> handlers q !! i = Some p ->
  PoolInv (MkRelayPool (<[i := drop_handler p]> (handlers q)) (shared q)).
Proof using Type.
  intros HP Hi. pose proof (pl_sound _ HP _ _ Hi) as Hs. pose proof (pl_waits _ HP _ _ Hi) as Hw.
  eapply pool_update; [done|exact Hi|apply HP|apply HP|done|..].
  - destruct p as [r| | |e k|kind ch guard t k|k]; simpl; try done. by destruct e.
  - destruct p as [r| | |e k|kind ch guard t k|k]; simpl; try done. by destruct e.
  - intros kd ky c Hc. destruct p as [r| | |e k|kind ch guard t k|k]; simpl.
    + left. split; [done|]. by intros [].
    + left. split; [done|]. by intros [].
    + left. split; [done|]. by intros [].
    + destruct e as [| | | | | | | |op]; try (left; split; [done|]; by intros []).
      destruct op; try (left; split; [done|]; by intros []).
      destruct (decide ((destination, id) = ky)) as [<-|Hne]; [right; by right|left].
      split; [done|]. by intros [].
    + destruct (decide (c = ch)) as [->|Hne].
      * right. right. simpl. destruct Hw as (_ & Hkey & _). destruct (Hkey _ _ Hc) as [_ ->]. by destruct guard.
      * left. split; [done|]. intros [(_ & Heq & _)|[]]. congruence.
    + left. split; [done|]. by intros [].
Qed.

(** The calls of the process itself. *)
Lemma environment_step q op :
  PoolInv q -> op_allowed op -> awaits op = false ->
  PoolInv (MkRelayPool (handlers q) (on_relay (relay_step op) (shared q))).
Proof using Type.
  intros [HR Hids Hs Hw Hh] Hop Ha. split; simpl; [by apply relay_ok_step|done|done|..].
  - intros i p Hi. apply wait_ok_step; [done..|]. by eapply Hw.
  - intros kd ky c Hc. destruct (relay_step_waiters op _ kd (rk_peers _ HR) Ha) as [Hsub _].
    apply Hh. by eapply lookup_weaken.
Qed.

(** Every event keeps the invariant. *)
Lemma relay_event_inv ttl ev q : PoolInv q -> PoolInv (relay_event ttl ev q).
Proof using Type.
  intros HP. assert (Hsame : forall i p, handlers q !! i = Some p ->
    PoolInv (MkRelayPool (<[i := p]> (handlers q)) (shared q))).
  { intros i p Hi. rewrite list_insert_id by done. by destruct q. }
  destruct ev as [i send timer next|i| |peer|peer]; simpl.
  - destruct (handlers q !! i) as [p|] eqn:Hi; [|done].
    destruct p as [r| | |e k|kind ch guard t k|k]; simpl; try (by apply Hsame).
    + pose proof (call_step ttl q e k send i HP Hi) as Hc.
      by destruct (relay_perform ttl e send (shared q)) as [x w].
    + destruct (awaited ch timer (rw_relay (shared q))) as [a|] eqn:Ha; [by eapply wait_step|].
      by apply Hsame.
    + eapply pool_update; [done|exact Hi|apply HP|apply HP|done|apply (pl_sound _ HP _ _ Hi)|..].
      * apply calm_wait_ok. apply (pl_sound _ HP _ _ Hi).
      * intros kd ky c Hc. left. split; [done|]. by intros [].
  - destruct (handlers q !! i) as [p|] eqn:Hi.
    + replace (alter drop_handler i (handlers q)) with (<[i := drop_handler p]> (handlers q));
        [by apply drop_step|].
      rewrite list_insert_alter. apply list_alter_ext; [|done]. intros p' Hp'. congruence.
    + replace (alter drop_handler i (handlers q)) with (handlers q); [by destruct q|].
      rewrite <- (list_alter_id (fun p => p) (handlers q) i) at 1 by done.
      apply list_alter_ext; [|done]. intros p' Hp'. congruence.
  - apply (environment_step q RMarkListening HP); [by split|done].
  - apply (environment_step q (RPeerConnected peer) HP); [by split|done].
  - apply (environment_step q (RPeerDisconnected peer) HP); [by split|done].
Qed.

Lemma relay_session_inv ttl events : forall q, PoolInv q -> PoolInv (relay_session ttl events q).
Proof using Type.
  induction events as [|ev events IH]; intros q HP; [done|]. apply IH. by apply relay_event_inv.
Qed.
End pools.
End logic.
