(* ===== verification/RelayServiceFacts.v ===== *)
(** * What the relay's service guarantees

    The rights of a session are those of its requests: a frame is routed for a
    publication whose headers authenticated its source, a stream is opened for
    a connection whose headers authenticated its node, a waiter is settled by
    an answer whose headers authenticated the frame's destination. Every
    handler is sound for them, so every session keeps [PoolInv]. *)
From S2P Require Import Prelude Ident StoreModel Samples WireSamples Policy Security Registry Wire RelayRuntime RelayInv RelayDelivery RelayTrace RelayMessages RelayService RelayLogic.
From stdpp Require Import options.
#[local] Open Scope Z_scope.

Section service_facts.
Context `{W : Wire} `{CW : ControlWire}.
Context (cfg : RelayConfig).

(** ** Authentication *)

(** The headers name the node and carry its configured token, and the node is
    not revoked. *)
Definition authenticated (h : RequestHeaders) (n : string) : Prop :=
  exists auth node token,
    node_auth cfg = Some auth /\ as_str node = n
    /\ node ∉ revoked_nodes auth /\ auth_tokens auth !! node = Some token
    /\ trim <$> header_text (hd_node_id h) = Some n
    /\ header_text (hd_node_token h) = Some token.

Lemma authenticate_metadata_only_ok h n :
  authenticate_metadata_only cfg h = Ok n -> authenticated h n.
Proof using Type.
  unfold authenticate_metadata_only, configured_auth.
  destruct (node_auth cfg) as [auth|] eqn:Hauth; [|done].
  destruct (is_configured auth); [|done]. cbn [ok_or rbind].
  unfold present_text. destruct (header_text (hd_node_id h)) as [text|] eqn:Hid; [|done].
  cbn [fmap option_fmap option_map]. case_bool_decide as Hne; [done|]. cbn [ok_or].
  unfold parse_node_id. destruct (Id_new "NodeId" (trim text)) as [node|] eqn:Hnode; [|done].
  cbn [map_err].
  destruct (authenticate_optional node _ auth) as [m|] eqn:Ha; [|done]. intros [= <-].
  destruct (authenticate_optional_ok _ _ _ _ Ha) as (_ & Hr & token & Htok & Hp).
  apply Id_new_ok in Hnode. exists auth, node, token. split; [done|].
  split; [by rewrite Hnode, trim_trim|]. split; [done|]. split; [done|].
  by rewrite Hid.
Qed.

Lemma authenticate_request_ok h claimed n :
  authenticate_request cfg h claimed = Ok n -> authenticated h n /\ n = trim claimed.
Proof using Type.
  unfold authenticate_request. case_bool_decide; [done|].
  destruct (authenticate_metadata_only cfg h) as [m|] eqn:Hm; [|done]. cbn.
  case_bool_decide as Heq; [|done]. intros [= <-]. split; [by apply authenticate_metadata_only_ok|done].
Qed.

Lemma authenticated_trim h n : authenticated h n -> trim n = n.
Proof using Type.
  intros (auth & node & token & _ & _ & _ & _ & Hid & _).
  destruct (header_text (hd_node_id h)) as [text|]; [|done]. injection Hid as <-. apply trim_trim.
Qed.

(** ** The rights of a session *)

Definition headers_of (req : RelayRequest) : option RequestHeaders :=
  match req with
  | ConnectNodeRpc h _ | PublishTaskRpc h _ | PublishResultRpc h _ | PublishBindRpc h _ _
  | PublishBindV2Rpc h _ _ | CompleteBindRpc h _ _ | PublishChallengeRpc h _ _
  | PublishChallengeV2Rpc h _ _ | CompleteChallengeRpc h _ _ | PublishFleetRpc h _ _ _
  | CompleteFleetRpc h _ _ | AckFrameRpc h _ | AckTaskRpc h => Some h
  | RegisterNodeRpc _ _ | HealthRpc => None
  end.

(** The target of a publication: its field, or what the task's metadata says. *)
Definition names_target (request : PublishTaskRequest) (task : TaskEnvelope) (n : string) : Prop :=
  if bool_decide (trim (pt_target_node_id request) = "")
  then target_node_id_from_task task = Ok n else n = trim (pt_target_node_id request).

(** The frame [id] that a publication sends from [source] to [n]. *)
Definition frame_of (req : RelayRequest) (source n id : string) (f : Frame) : Prop :=
  match req with
  | PublishTaskRpc _ request => exists t features,
      pt_task request = Some t /\ names_target request t n /\ source = trim (pt_source_node_id request)
      /\ f = task_frame id source n (with_metadata t
               (<[AUTHENTICATED_SOURCE_FEATURES_METADATA_KEY := features_to_json features]> (te_metadata t)))
  | PublishResultRpc _ request => exists res,
      pr_result request = Some res /\ n = trim (pr_target_node_id request)
      /\ source = trim (pr_source_node_id request)
      /\ f = MkFrame id None (Some (MResult res)) source n None None None None None
  | PublishBindRpc _ op target => exists o, op = Some o /\ n = trim target
      /\ validate_nodescale_identity_bind o = Ok tt
      /\ f = MkFrame id None None source n (Some (MBindV1 o)) None None None None
  | PublishBindV2Rpc _ op target => exists o, op = Some o /\ n = trim target
      /\ validate_nodescale_identity_bind_v2 o = Ok tt
      /\ f = MkFrame id None None source n None None (Some (MBindV2 o)) None None
  | PublishChallengeRpc _ op target => exists o, op = Some o /\ n = trim target
      /\ validate_nodescale_identity_challenge o = Ok tt
      /\ f = MkFrame id None None source n None (Some (MChallengeV1 o)) None None None
  | PublishChallengeV2Rpc _ op target => exists o, op = Some o /\ n = trim target
      /\ validate_nodescale_identity_challenge_v2 o = Ok tt
      /\ f = MkFrame id None None source n None None None (Some (MChallengeV2 o)) None
  | PublishFleetRpc _ op target _ => exists o, op = Some o /\ n = trim target
      /\ validate_fleet_observation_publish o = Ok tt
      /\ f = MkFrame id None None source n None None None None (Some (MFleet o))
  | _ => False
  end.

Definition publishes (req : RelayRequest) (n : string) (f : Frame) : Prop :=
  exists h, headers_of req = Some h /\ authenticated h (authenticated_source_node_id f)
    /\ frame_of req (authenticated_source_node_id f) n (RelayRuntime.frame_id f) f.

(** The answer that a request gives to the waiter of a frame. *)
Definition answers (req : RelayRequest) (kind : WaiterKind) (key : FrameKey)
    (v : Completion (Message := RelayMessage)) : Prop :=
  match req with
  | AckFrameRpc h id =>
      kind = WaitAck /\ authenticated h key.1 /\ key.2 = trim id /\ v = CompletedAck
  | CompleteBindRpc h id res => kind = WaitBind /\ authenticated h key.1 /\ key.2 = trim id
      /\ exists r, res = Some r /\ validate_nodescale_identity_bind_result r = Ok tt
         /\ v = CompletedBind (MBindResult r)
  | CompleteChallengeRpc h id res => kind = WaitChallenge /\ authenticated h key.1 /\ key.2 = trim id
      /\ exists r, res = Some r /\ validate_nodescale_identity_challenge_result r = Ok tt
         /\ v = CompletedChallenge (MChallengeResult r)
  | CompleteFleetRpc h id res => kind = WaitFleet /\ authenticated h key.1 /\ key.2 = trim id
      /\ exists r, res = Some r /\ validate_fleet_observation_result r = Ok tt
         /\ v = CompletedFleet (MFleetResult r)
  | _ => False
  end.

Section session.
Context (requests : list RelayRequest).

Definition session_rights : Rights := MkRights
  (fun n f => exists req, req ∈ requests /\ publishes req n f)
  (fun n to => exists h, ConnectNodeRpc h to ∈ requests /\ authenticated h n)
  (fun kind key v => exists req, req ∈ requests /\ answers req kind key v).

(** What a waiting publication returns: the answer of the destination. *)
Definition answered_by_destination (kind : WaiterKind) (target : string) (id : string)
    (v : Completion) : Prop :=
  exists req, req ∈ requests /\ answers req kind (trim target, id) v.

Definition reply_earned (req : RelayRequest) (reply : RelayReply) : Prop :=
  match req, reply with
  | PublishResultRpc _ request, RepliedFrame id =>
      answered_by_destination WaitAck (pr_target_node_id request) id CompletedAck
  | (PublishBindRpc _ _ target | PublishBindV2Rpc _ _ target), RepliedControl c =>
      answered_by_destination WaitBind target (co_frame_id c) (co_result c)
  | (PublishChallengeRpc _ _ target | PublishChallengeV2Rpc _ _ target), RepliedControl c =>
      answered_by_destination WaitChallenge target (co_frame_id c) (co_result c)
  | PublishFleetRpc _ _ target _, RepliedControl c =>
      answered_by_destination WaitFleet target (co_frame_id c) (co_result c)
  | _, _ => True
  end.

(** ** Every handler is sound *)

Abbreviation safe := (RelayLogic.safe session_rights).

Lemma safe_true {A} (p : RProg A) (Post : A -> Prop) :
  (forall a, Post a) -> safe (fun _ => True) p -> safe Post p.
Proof using Type. intros HP. apply safe_weaken. auto. Qed.

Lemma safe_reject target : safe (fun _ => True) (reject_direct_control_only_destination cfg target).
Proof using Type.
  unfold reject_direct_control_only_destination. case_match; [by apply safe_ret|].
  apply safe_lift. intros p _. apply safe_ask; [done..|]. intros fs _.
  case_match; [by apply safe_throw|by apply safe_ret].
Qed.

Lemma safe_require target feature :
  safe (fun _ => True) (require_destination_feature cfg target feature).
Proof using Type.
  unfold require_destination_feature. case_match; [by apply safe_throw|].
  apply safe_lift. intros p _. apply safe_ask; [done..|]. intros s _.
  case_match; [by apply safe_ret|by apply safe_throw].
Qed.

Lemma safe_metric : safe (fun _ => True) (refresh_registry_metric cfg).
Proof using Type.
  unfold refresh_registry_metric. case_match; [by apply safe_ret|].
  apply safe_ask; [done..|]. intros n _. split; [done|]. split; [done|]. by split.
Qed.

Lemma safe_connect h to : ConnectNodeRpc h to ∈ requests -> safe (fun _ => True) (connect_node cfg h to).
Proof using Type.
  intros Hin. unfold connect_node. apply safe_lift. intros n _. apply safe_lift. intros m Hm.
  apply authenticate_request_ok in Hm as [Hm _].
  apply safe_ask; [by exists h|done|]. intros [k g] _. split; [done|].
  intros [| |]; (split; [done|]); (split; [done|]); by split.
Qed.

Lemma safe_register node_id token : safe (fun _ => True) (register_node cfg node_id token).
Proof using Type.
  unfold register_node. do 4 (apply safe_lift; intros ? _).
  apply safe_ask; [done..|]. intros ? _. case_match; [|by apply safe_ret].
  apply safe_lift. intros p _. apply safe_ask; [done..|]. intros [u|] _; [|by split].
  apply (safe_bind _ (fun _ => True)); [apply safe_metric|]. intros ? _. by apply safe_ret.
Qed.

Lemma required_ok value field v : required_node_value value field = Ok v -> v = trim value.
Proof using Type. unfold required_node_value. case_bool_decide; [done|]. by intros [= <-]. Qed.

Lemma safe_publish_task h request :
  PublishTaskRpc h request ∈ requests -> safe (fun _ => True) (publish_task cfg h request).
Proof using Type.
  intros Hin. unfold publish_task. apply safe_lift. intros source Hsource.
  apply authenticate_request_ok in Hsource as [Hauth Hsource].
  apply safe_lift. intros t Ht%ok_or_ok. apply safe_lift. intros n Hn.
  assert (Htarget : names_target request t n).
  { unfold names_target. revert Hn. case_bool_decide; [done|]. by intros [= <-]. }
  clear Hn.
  apply (safe_bind _ (fun _ => True)); [apply safe_reject|]. intros _ _.
  apply (safe_bind _ (fun _ => True)).
  { destruct (0 <? te_deadline_ms t); [apply safe_require|by apply safe_ret]. }
  intros _ _. apply safe_lift. intros task_id _. case_bool_decide; [by apply safe_throw|].
  apply safe_ask; [done..|]. intros id _. apply safe_ask; [done..|]. intros now _.
  apply safe_lift. intros peer _. apply (safe_bind _ (fun _ => True)).
  { destruct (has_registry cfg); [|by apply safe_ret]. split; [done|]. split; [done|]. by split. }
  intros features _. apply safe_ask; [|done|].
  - exists (PublishTaskRpc h request). split; [done|]. exists h. split; [done|]. split; [done|].
    by exists t, features.
  - intros d _. destruct (publication_answer _ _ _ d); by split.
Qed.

Lemma safe_publish_result h request :
  PublishResultRpc h request ∈ requests ->
  safe (fun id => answered_by_destination WaitAck (pr_target_node_id request) id CompletedAck)
    (publish_result cfg h request).
Proof using Type.
  intros Hin. unfold publish_result. destruct (node_auth cfg); [|by apply safe_throw].
  apply safe_lift. intros source Hsource. apply authenticate_request_ok in Hsource as [Hauth Hsource].
  apply safe_lift. intros res Hres%ok_or_ok. apply safe_lift. intros target Ht%required_ok.
  apply (safe_bind _ (fun _ => True)); [apply safe_reject|]. intros _ _.
  apply (safe_bind _ (fun _ => True)).
  { destruct (carries_bytes res); [apply safe_require|by apply safe_ret]. }
  intros _ _. apply safe_lift. intros ? _. apply safe_route_and_wait.
  - done.
  - intros id. exists (PublishResultRpc h request). split; [done|]. exists h. split; [done|].
    split; [done|]. by exists res.
  - intros id v (req & Hreq & Hans). apply safe_ret. exists req. split; [done|].
    rewrite <- Ht. destruct req; simpl in Hans |- *; try done; by destruct Hans as (? & ? & ? & ?).
Qed.

(** The typed publications share their proof. *)
Lemma safe_publish_control {Op} h (operation : option Op) target validate feature kind frame req
    (valid : Op -> Prop) :
  req ∈ requests -> headers_of req = Some h ->
  (forall op, safe (fun _ => valid op) (validate op)) ->
  (forall op source id, operation = Some op -> valid op ->
     let f := frame op source (trim target) id in
     RelayRuntime.frame_id f = id /\ authenticated_source_node_id f = source
     /\ frame_of req source (trim target) id f) ->
  safe (fun c => answered_by_destination kind target (co_frame_id c) (co_result c))
    (publish_control cfg h operation target validate feature kind frame).
Proof using Type.
  intros Hin Hh Hvalid Hframe. unfold publish_control.
  apply safe_lift. intros source Hauth%authenticate_metadata_only_ok.
  apply safe_lift. intros n Hn%required_ok. apply safe_lift. intros op Hop%ok_or_ok.
  apply (safe_bind _ (fun _ => valid op)); [apply Hvalid|]. intros timeout Hv.
  apply (safe_bind _ (fun _ => True)); [apply safe_require|]. intros _ _. subst n.
  apply safe_route_and_wait.
  - intros id. apply Hframe; done.
  - intros id. destruct (Hframe op source id Hop Hv) as (Hid & Hsrc & Hf). exists req. split; [done|].
    exists h. split; [done|]. split; [by rewrite Hsrc|]. by rewrite Hsrc, Hid.
  - intros id v Hans. by apply safe_ret.
Qed.

Lemma safe_within {Op} (validate : Op -> Result unit Status) op :
  safe (fun _ => validate op = Ok tt) (within_25s validate op).
Proof using Type. unfold within_25s. apply safe_lift. intros [] Hv. by apply safe_ret. Qed.

Lemma safe_complete {Res} kind h id (res : option Res) validate message :
  (forall r, res = Some r -> validate r = Ok tt -> exists req, req ∈ requests /\ forall key,
     authenticated h key.1 -> key.2 = trim id ->
     answers req kind key (completed kind (message r))) ->
  safe (fun _ => True) (complete_control_frame cfg kind h id res validate message).
Proof using Type.
  intros Hreq. unfold complete_control_frame.
  apply safe_lift. intros d Hauth%authenticate_metadata_only_ok. apply safe_lift. intros i Hi%required_ok.
  apply safe_lift. intros r Hr%ok_or_ok. apply safe_lift. intros [] Hv.
  apply safe_ask; [|done|].
  - destruct (Hreq r Hr Hv) as (req & Hin & Hans). exists req. split; [done|].
    rewrite (authenticated_trim _ _ Hauth), Hi, trim_trim. by apply Hans.
  - intros [| |] _; [by apply safe_ret|by apply safe_throw..].
Qed.

Lemma safe_ack h id : AckFrameRpc h id ∈ requests -> safe (fun _ => True) (ack_frame cfg h id).
Proof using Type.
  intros Hin. unfold ack_frame. apply safe_lift. intros n _.
  apply safe_lift. intros m Hm. apply authenticate_request_ok in Hm as [Hauth _].
  apply safe_ask; [|done|].
  - exists (AckFrameRpc h id). split; [done|]. simpl. by rewrite (authenticated_trim _ _ Hauth).
  - intros [| |] _; [by apply safe_ret|by apply safe_throw|by apply safe_ret].
Qed.

Lemma safe_health : safe (fun _ => True) (health cfg).
Proof using Type.
  unfold health. apply (safe_bind _ (fun _ => True)); [apply safe_metric|]. intros _ _.
  apply safe_ask; [done..|]. intros [[[healthy connected] status] routed] _.
  apply safe_ask; [done..|]. intros size _. by apply safe_ret.
Qed.

Lemma safe_rmap {A} (Post : A -> Prop) (Post' : RelayReply -> Prop) g p :
  safe Post p -> (forall a, Post a -> Post' (g a)) -> safe Post' (rmap g p).
Proof using Type. intros Hp Hg. eapply safe_bind; [exact Hp|]. intros a Ha. apply safe_ret. by apply Hg. Qed.

Lemma safe_handle req : req ∈ requests -> safe (reply_earned req) (handle cfg req).
Proof using Type.
  intros Hin. destruct req; cbn [handle].
  - eapply safe_rmap; [by apply safe_connect|done].
  - eapply safe_rmap; [by apply safe_register|done].
  - eapply safe_rmap; [by apply safe_publish_task|done].
  - eapply safe_rmap; [by apply safe_publish_result|done].
  - eapply safe_rmap; [eapply safe_publish_control; [exact Hin|done|apply safe_within|]|done].
    intros op source id Hop Hv. split; [done|]. split; [done|]. by exists op.
  - eapply safe_rmap; [eapply safe_publish_control; [exact Hin|done|apply safe_within|]|done].
    intros op source id Hop Hv. split; [done|]. split; [done|]. by exists op.
  - eapply safe_rmap; [eapply safe_complete|done]. intros r Hr Hv. eexists. split; [exact Hin|].
    intros key Hk1 Hk2. repeat split; try done. by exists r.
  - eapply safe_rmap; [eapply safe_publish_control; [exact Hin|done|apply safe_within|]|done].
    intros op source id Hop Hv. split; [done|]. split; [done|]. by exists op.
  - eapply safe_rmap; [eapply safe_publish_control; [exact Hin|done|apply safe_within|]|done].
    intros op source id Hop Hv. split; [done|]. split; [done|]. by exists op.
  - eapply safe_rmap; [eapply safe_complete|done]. intros r Hr Hv. eexists. split; [exact Hin|].
    intros key Hk1 Hk2. repeat split; try done. by exists r.
  - eapply safe_rmap; [eapply (safe_publish_control _ _ _ _ _ _ _ _
      (fun op => validate_fleet_observation_publish op = Ok tt)); [exact Hin|done|..]|done].
    + intros op. apply safe_lift. intros [] Hv. apply safe_ask; [done..|]. intros now _.
      destruct (validate_fleet_observation_deadline deadline_ms now); by split.
    + intros op source id Hop Hv. split; [done|]. split; [done|]. by exists op.
  - eapply safe_rmap; [eapply safe_complete|done]. intros r Hr Hv. eexists. split; [exact Hin|].
    intros key Hk1 Hk2. repeat split; try done. by exists r.
  - eapply safe_rmap; [by apply safe_ack|done].
  - apply (safe_rmap (fun _ => True)); [|done]. unfold ack_task. apply safe_lift. intros n _. apply safe_lift. intros m _.
    by apply safe_throw.
  - eapply safe_rmap; [apply safe_health|done].
Qed.

(** ** Sessions *)

(** The pool before anything happened: a fresh relay, one handler per request. *)
Definition start (w : RelayWorld) : RelayPool RelayReply := MkRelayPool (handle cfg <$> requests) w.

(** A relay that has just started, with a source of trimmed frame ids. *)
Record fresh_world (w : RelayWorld) : Prop := {
  fw_relay : rw_relay w = new_relay;
  fw_ids n : trim (rw_frame_ids w n) = rw_frame_ids w n;
}.

Definition reply_of (i : nat) (reply : RelayReply) : Prop :=
  forall req, requests !! i = Some req -> reply_earned req reply.

Lemma start_inv w : fresh_world w -> PoolInv session_rights reply_of (start w).
Proof using Type.
  intros [Hr Hids].
  assert (Hprog : forall i p, (handle cfg <$> requests) !! i = Some p ->
    calm p /\ sound session_rights (reply_of i) p).
  { intros i p Hi. rewrite list_lookup_fmap in Hi. destruct (requests !! i) as [req|] eqn:Hreq; [|done].
    injection Hi as <-. destruct (safe_handle req (list_elem_of_lookup_2 _ _ _ Hreq)) as [Hc Hs].
    split; [done|]. apply (safe_weaken _ (reply_earned req)); [|done].
    intros a Ha req' Hreq'. congruence. }
  assert (Hnone : forall k key c, waiters k (peers (new_relay (Message := RelayMessage))) !! key = Some c -> False)
    by (intros k key c Hc; destruct k; discriminate (eq_trans (eq_sym Hc) (lookup_empty key))).
  split; simpl.
  - rewrite Hr. split.
    + apply new_relay_inv.
    + apply new_relay_channels.
    + intros n f Hf. by apply elem_of_nil in Hf.
    + intros n f Hf. by apply elem_of_nil in Hf.
    + intros n to (c & Hc & _). discriminate (eq_trans (eq_sym Hc) (lookup_empty n)).
    + intros o Ho. by apply elem_of_nil in Ho.
  - done.
  - intros i p Hi. by apply Hprog.
  - intros i p Hi. apply calm_wait_ok. by eapply Hprog.
  - intros k key c Hc. rewrite Hr in Hc. by destruct (Hnone _ _ _ Hc).
Qed.

Lemma reachable_pool w ttl events :
  fresh_world w -> PoolInv session_rights reply_of (relay_session ttl events (start w)).
Proof using Type. intros Hw. by apply relay_session_inv, start_inv. Qed.

End session.

Definition ended {A} (p : RProg A) : bool :=
  match p with RDone _ | RPanic | RDropped => true | _ => false end.

(** ** Steps to the end *)

(** A program that ends within [n] steps. *)
Fixpoint within {A} (n : nat) (p : RProg A) {struct p} : Prop :=
  match p with
  | RDone _ | RPanic | RDropped => True
  | RCall e k => match n with O => False | S n => forall x, within n (k x) end
  | RWait _ _ _ _ k => match n with O => False | S n => forall a, within n (k a) end
  | RInbound k => match n with O => False | S n => forall x, within n (k x) end
  end.

Lemma within_le {A} (p : RProg A) : forall n m, (n <= m)%nat -> within n p -> within m p.
Proof using Type.
  induction p as [r| | |e k IH|kind ch g t k IH|k IH]; simpl; intros n m Hnm Hp; try done;
    (destruct n as [|n]; [by destruct Hp|]); (destruct m as [|m]; [lia|]); intros x;
    by apply (IH x n m ltac:(lia) (Hp x)).
Qed.

Lemma within_bind {A B} (p : RProg A) (k : A -> RProg B) m : forall n,
  within n p -> (forall a, within m (k a)) -> within (n + m) (rbind p k).
Proof using Type.
  induction p as [[a|e]| | |e c IH|kind ch g t c IH|c IH]; intros n Hp Hk; simpl; try done.
  - eapply within_le, Hk. lia.
  - destruct n as [|n]; [by destruct Hp|]. intros x. by apply IH.
  - destruct n as [|n]; [by destruct Hp|]. intros x. by apply IH.
  - destruct n as [|n]; [by destruct Hp|]. intros x. by apply IH.
Qed.

Lemma within_lift {A B} (r : Result A Status) (k : A -> RProg B) n :
  (forall a, within n (k a)) -> within n (rbind (rlift r) k).
Proof using Type. destruct r; simpl; auto. Qed.

Lemma within_ask {B} e (k : relay_reply e -> RProg B) n :
  (forall x, within n (k x)) -> within (S n) (rbind (ask e) k).
Proof using Type. auto. Qed.

Lemma within_reject target : within 1 (reject_direct_control_only_destination cfg target).
Proof using Type.
  unfold reject_direct_control_only_destination. case_match; [done|]. apply within_lift. intros p.
  apply within_ask. intros fs. by case_match.
Qed.

Lemma within_require target feature : within 1 (require_destination_feature cfg target feature).
Proof using Type.
  unfold require_destination_feature. case_match; [done|]. apply within_lift. intros p.
  apply within_ask. intros s. by case_match.
Qed.

Lemma within_metric : within 2 (refresh_registry_metric cfg).
Proof using Type. unfold refresh_registry_metric. case_match; [done|]. apply within_ask. by intros n x. Qed.

Lemma within_route kind target timeout_ms frame : within 4 (route_and_wait kind target timeout_ms frame).
Proof using Type.
  unfold route_and_wait. apply within_ask. intros id. apply within_ask. intros [d w].
  apply within_lift. intros _. destruct w as [ch|]; [|done]. by intros [v| |]; simpl.
Qed.

Lemma within_control {Op} h (operation : option Op) target validate feature kind frame :
  (forall op, within 1 (validate op)) ->
  within 6 (publish_control cfg h operation target validate feature kind frame).
Proof using Type.
  intros Hv. unfold publish_control. do 3 (apply within_lift; intros ?).
  apply (within_bind _ _ 5 1); [apply Hv|]. intros t.
  apply (within_bind _ _ 4 1); [apply within_require|]. intros [].
  apply (within_bind _ _ 0 4); [apply within_route|]. by intros [id v].
Qed.

Lemma within_complete {Res} kind h id (res : option Res) validate message :
  within 1 (complete_control_frame cfg kind h id res validate message).
Proof using Type.
  unfold complete_control_frame. do 4 (apply within_lift; intros ?). apply within_ask. by intros [].
Qed.

Lemma within_25 {Op} (validate : Op -> Result unit Status) op : within 1 (within_25s validate op).
Proof using Type. unfold within_25s. by apply within_lift. Qed.

Lemma within_rmap {A} (g : A -> RelayReply) p n : within n p -> within n (rmap g p).
Proof using Type.
  intros Hp. apply (within_le _ (n + 0) n); [lia|]. by apply within_bind.
Qed.

Lemma within_publish_task h request : within 6 (publish_task cfg h request).
Proof using Type.
  unfold publish_task. do 3 (apply within_lift; intros ?).
  apply (within_bind _ _ 5 1); [apply within_reject|]. intros [].
  apply (within_bind _ _ 4 1); [case_match; [apply within_require|done]|]. intros [].
  apply within_lift. intros id. case_match; [done|].
  do 2 (apply within_ask; intros ?). apply within_lift. intros p.
  apply (within_bind _ _ 1 1); [by case_match|]. intros fs. apply within_ask. intros d.
  by destruct (publication_answer _ _ _ d).
Qed.

Lemma within_publish_result h request : within 6 (publish_result cfg h request).
Proof using Type.
  unfold publish_result. case_match; [|done]. do 3 (apply within_lift; intros ?).
  apply (within_bind _ _ 5 1); [apply within_reject|]. intros [].
  apply (within_bind _ _ 4 1); [case_match; [apply within_require|done]|]. intros [].
  apply within_lift. intros id. apply (within_bind _ _ 0 4); [apply within_route|]. by intros [i v].
Qed.

Lemma within_handle req : within 6 (handle cfg req).
Proof using Type.
  destruct req; cbn [handle]; apply within_rmap;
    try apply within_publish_task; try apply within_publish_result;
    try (apply within_control; intros op; apply within_25);
    try (apply (within_le _ 1 6); [lia|apply within_complete]).
  - unfold connect_node. do 2 (apply within_lift; intros ?). apply within_ask. intros [k g].
    by intros [].
  - unfold register_node. do 4 (apply within_lift; intros ?). apply within_ask. intros ?.
    case_match; [|done]. apply within_lift. intros p. apply within_ask. intros [u|]; [|done].
    apply (within_bind _ _ 2 2); [apply within_metric|done].
  - apply within_control. intros op. apply within_lift. intros ?. apply within_ask. intros now.
    by destruct (validate_fleet_observation_deadline _ _).
  - apply (within_le _ 1 6); [lia|]. unfold ack_frame. do 2 (apply within_lift; intros ?).
    apply within_ask. by intros [].
  - unfold ack_task. by do 2 (apply within_lift; intros ?).
  - unfold health. apply (within_bind _ _ 4 2); [apply within_metric|]. intros ?.
    apply within_ask. intros [[[h1 h2] h3] h4]. by apply within_ask.
Qed.

(** The steps of a handler whose timer, if it waits, has fired. *)
Definition steps_of (i : nat) (ev : RelayEvent) : bool :=
  match ev with Step j _ true _ => bool_decide (j = i) | _ => false end.

Lemma within_ended {A} (p : RProg A) : within 0 p -> ended p = true.
Proof using Type. by destruct p. Qed.

Lemma event_within ttl ev i n (q : RelayPool RelayReply) p :
  handlers q !! i = Some p -> within n p ->
  exists p', handlers (relay_event ttl ev q) !! i = Some p'
    /\ within (if steps_of i ev then Nat.pred n else n) p'.
Proof using Type.
  intros Hi Hp. pose proof (lookup_lt_Some _ _ _ Hi) as Hlt.
  assert (Hkeep : exists p', handlers q !! i = Some p' /\ within n p') by by exists p.
  destruct ev as [j send timer next|j| |peer|peer]; simpl; try done.
  - destruct (handlers q !! j) as [pj|] eqn:Hj.
    2:{ destruct timer; [|done]. rewrite bool_decide_false by (intros ->; congruence). done. }
    destruct (decide (j = i)) as [->|Hne].
    2:{ destruct (advance_handler ttl pj send timer next (shared q)) as [p' w']. simpl.
        rewrite list_lookup_insert_ne by done. destruct timer; [|done].
        by rewrite bool_decide_false by done. }
    replace pj with p by congruence. rewrite bool_decide_true by done.
    destruct (advance_handler ttl p send timer next (shared q)) as [p' w'] eqn:Ha. simpl.
    exists p'. split; [by apply list_lookup_insert_eq|].
    destruct p as [r| | |e k|kind ch g t k|k]; simpl in Ha; try (injection Ha as <- <-; by destruct timer).
    + destruct n as [|n]; [by destruct Hp|]. destruct (relay_perform ttl e send (shared q)) as [x w].
      injection Ha as <- <-. destruct timer; [apply Hp|]. eapply within_le, Hp. simpl. lia.
    + destruct n as [|n]; [by destruct Hp|]. unfold awaited in Ha.
      destruct (sent_value ch _) as [v|]; [|destruct (waited_for ch _); [destruct timer|]]; simpl in Ha;
        injection Ha as <- <-; try done; destruct timer; simpl; try apply Hp; eapply within_le, Hp; lia.
    + destruct n as [|n]; [by destruct Hp|]. injection Ha as <- <-. destruct timer; [apply Hp|].
      eapply within_le, Hp. simpl. lia.
  - destruct (decide (j = i)) as [->|Hne]; [|by rewrite list_lookup_alter_ne].
    rewrite list_lookup_alter_eq, Hi. exists (drop_handler p). split; [done|].
    destruct p as [r| | |e k|kind ch g t k|k]; simpl in *; try done.
    + by destruct e.
    + by destruct n.
Qed.

Lemma session_within ttl events i : forall n (q : RelayPool RelayReply) p,
  handlers q !! i = Some p -> within n p ->
  exists p', handlers (relay_session ttl events q) !! i = Some p'
    /\ within (n - length (filter (fun ev => steps_of i ev = true) events)) p'.
Proof using Type.
  induction events as [|ev events IH]; intros n q p Hi Hp.
  - simpl. exists p. split; [done|]. by rewrite Nat.sub_0_r.
  - destruct (event_within ttl ev i n q p Hi Hp) as (p1 & Hi1 & Hp1).
    destruct (IH _ _ _ Hi1 Hp1) as (p2 & Hi2 & Hp2). exists p2. split; [done|].
    rewrite filter_cons. destruct (steps_of i ev); simpl; [|done].
    replace (n - S _)%nat with (Nat.pred n - length (filter (fun ev => steps_of i ev = true) events))%nat by lia.
    done.
Qed.

(** C5: a frame only reaches the node it was published for. In every session of
    concurrent handlers, whichever clients go away, a frame that was sent to a
    stream was published by a request of the session whose headers carried the
    configured, unrevoked token of the frame's source, with that request's
    payload and target; and the stream was opened by a request whose headers
    carried the token of that target. The same holds of the frames that wait
    in the mailbox of a node. *)
Theorem frames_reach_their_authenticated_target (requests : list RelayRequest) (w : RelayWorld)
    (ttl : Z) (events : list RelayEvent) (Hw : fresh_world w) :
  let r := rw_relay (shared (relay_session ttl events (start requests w))) in
  (forall to f, OutFrame to f ∈ trace r -> exists n,
     (exists req, req ∈ requests /\ publishes req n f)
     /\ exists h, ConnectNodeRpc h to ∈ requests /\ authenticated h n)
  /\ forall n f, f ∈ mailbox n (peers r) -> exists req, req ∈ requests /\ publishes req n f.
Proof using Type.
  intros r. destruct (pl_relay _ _ _ (reachable_pool requests w ttl events Hw)) as [_ _ _ Hm _ Hs].
  split; [|exact Hm]. intros to f Hf. exact (Hs _ Hf).
Qed.

(** C11: a result or a typed control message is reported as delivered only on the
    word of its destination. When the handler of a publication returned, some
    request of the session, authenticated by its headers as the publication's
    target, acknowledged or completed exactly the frame that the handler names,
    with a result that passed validation; a typed publication returns that
    result. *)
Theorem success_needs_the_destination (requests : list RelayRequest) (w : RelayWorld)
    (ttl : Z) (events : list RelayEvent) (i : nat) (req : RelayRequest) (reply : RelayReply)
    (Hw : fresh_world w) (Hreq : requests !! i = Some req)
    (Hreply : handlers (relay_session ttl events (start requests w)) !! i = Some (RDone (Ok reply))) :
  reply_earned requests req reply.
Proof using Type.
  exact (pl_sound _ _ _ (reachable_pool requests w ttl events Hw) _ _ Hreply req Hreq).
Qed.

(** C9: nothing is left behind. In every session, a waiter in the relay's tables
    belongs to a handler that still waits for its frame or is about to abandon
    it; so when every handler has ended, by returning or because its client
    went away, no table holds a waiter, and all the frames that the relay still
    owns are tasks. *)
Theorem ended_handlers_leave_only_tasks (requests : list RelayRequest) (w : RelayWorld)
    (ttl : Z) (events : list RelayEvent) (Hw : fresh_world w) :
  let q := relay_session ttl events (start requests w) in
  (forall kind key ch, waiters kind (peers (rw_relay (shared q))) !! key = Some ch ->
     exists i p, handlers q !! i = Some p /\ holds p kind key ch)
  /\ (forallb ended (handlers q) = true ->
      (forall kind, waiters kind (peers (rw_relay (shared q))) = ∅)
      /\ forall n id, (n, id) ∈ frame_destinations (peers (rw_relay (shared q))) ->
           exists f t, f ∈ mailbox n (peers (rw_relay (shared q))) /\ fid f = id
             /\ RelayRuntime.task f = Some (MTask t)).
Proof using Type.
  intros q. destruct (reachable_pool requests w ttl events Hw) as [HR _ _ _ Hheld]. fold q in HR, Hheld.
  split; [exact Hheld|]. intros Hend.
  assert (Hnone : forall kind key ch, waiters kind (peers (rw_relay (shared q))) !! key <> Some ch).
  { intros kind key ch Hc. destruct (Hheld _ _ _ Hc) as (i & p & Hi & Hp).
    assert (Hp' : ended p = true).
    { apply (proj1 (forallb_forall _ _) Hend), list_elem_of_In. by apply list_elem_of_lookup_2 in Hi. }
    destruct p; try done; by destruct Hp as [[]|[]]. }
  split.
  - intros kind. apply map_eq. intros key. rewrite lookup_empty. apply eq_None_not_Some.
    intros [ch Hc]. by eapply Hnone.
  - intros n id Hin. destruct (owned_frame _ _ _ _ _ (pi_owned _ (rk_peers _ _ HR)) Hin) as (f & Hf & Hid).
    destruct (rk_mail _ _ HR n f Hf) as (req & _ & h & _ & _ & Hframe).
    destruct (RelayRuntime.task f) as [m|] eqn:Ht.
    + exists f. destruct req; simpl in Hframe; try done;
        [destruct Hframe as (t & features & _ & _ & _ & Hframe)
        |destruct Hframe as (x & _ & _ & _ & Hframe)..];
        apply (f_equal RelayRuntime.task) in Hframe; rewrite Ht in Hframe; simpl in Hframe;
        [|discriminate Hframe..].
      eexists. split; [done|]. split; [done|]. rewrite Ht. exact Hframe.
    + exfalso. destruct (rk_wait _ _ HR n f Hf Ht) as [ch Hc]. by eapply Hnone.
Qed.

(** C24: every handler ends. Whatever happens in between, a handler that made six
    steps, with the timer fired whenever it waited, has ended: the bounded
    waits are the only ones, and there is no retry. *)
Theorem handlers_end (requests : list RelayRequest) (w : RelayWorld) (ttl : Z)
    (events : list RelayEvent) (i : nat) (Hi : (i < length requests)%nat)
    (Hsteps : (6 <= length (filter (fun ev => steps_of i ev = true) events))%nat) :
  exists p, handlers (relay_session ttl events (start requests w)) !! i = Some p /\ ended p = true.
Proof using Type.
  destruct (lookup_lt_is_Some_2 requests i Hi) as [req Hreq].
  destruct (session_within ttl events i 6 (start requests w) (handle cfg req)) as (p & Hp & Hw).
  - simpl. by rewrite list_lookup_fmap, Hreq.
  - apply within_handle.
  - exists p. split; [done|]. apply within_ended. eapply within_le, Hw. lia.
Qed.
End service_facts.

(** ** Concrete sessions *)

(** The lengths of control messages, for the samples. *)
#[local] Instance sample_control_wire : ControlWire := {|
  publish_encoded_len := fun _ => 0;
  fleet_result_encoded_len := fun _ => 0;
|}.

(** Two nodes, each with a token of its own. *)
Definition two_nodes : RelayConfig :=
  MkRelayConfig false
    match Id_new "NodeId" "node-a", Id_new "NodeId" "node-b" with
    | Ok a, Ok b => Some (MkNodeTokenAuth {[a := "token-a"%string; b := "token-b"%string]} ∅)
    | _, _ => None
    end 0.

Definition headers_a : RequestHeaders := MkHeaders (HeaderText "node-a") (HeaderText "token-a").
Definition headers_b : RequestHeaders := MkHeaders (HeaderText "node-b") (HeaderText "token-b").

Definition one_result : TaskResultEnvelope :=
  MkResultEnvelope 1 (Some (MkProtoId "task-1")) None 0 "node-a" 0 0 "" ∅ [].

(** The destination connects, a result is published to it, it acknowledges. *)
Definition result_session : list RelayRequest :=
  [ConnectNodeRpc headers_b 7%nat;
   PublishResultRpc headers_a (MkPublishResult (Some one_result) "node-b" "node-a");
   AckFrameRpc headers_b "relay-1"].

Definition sample_relay_world : RelayWorld :=
  MkRelayWorld new_relay empty_registry 0 (fun n => MkClock 0 1000) (fun _ => "relay-1"%string).

Lemma sample_relay_world_fresh : fresh_world sample_relay_world.
Proof. by split. Qed.

Definition step (i : nat) : RelayEvent := Step i (fun _ => Sent) false InboundEnd.
Definition until_delivered : list RelayEvent := step <$> [0; 1; 1]%nat.
Definition until_ended : list RelayEvent := until_delivered ++ (step <$> [2; 1; 0; 0]%nat).

Abbreviation after_session events :=
  (relay_session 1000 events (start two_nodes result_session sample_relay_world)).

Definition result_frame : Frame :=
  MkFrame "relay-1" None (Some (MResult one_result)) "node-a" "node-b" None None None None None.

Lemma frames_reach_their_authenticated_target_witness :
  trace (rw_relay (shared (after_session until_delivered))) = [OutFrame 7%nat result_frame]
  /\ exists n, (exists req, req ∈ result_session /\ publishes two_nodes req n result_frame)
       /\ exists h, ConnectNodeRpc h 7%nat ∈ result_session /\ authenticated two_nodes h n.
Proof.
  assert (Ht : trace (rw_relay (shared (after_session until_delivered))) = [OutFrame 7%nat result_frame])
    by (vm_compute; reflexivity).
  split; [exact Ht|].
  assert (Hin : OutFrame 7%nat result_frame ∈ trace (rw_relay (shared (after_session until_delivered))))
    by (rewrite Ht; apply list_elem_of_here).
  exact (proj1 (frames_reach_their_authenticated_target two_nodes result_session sample_relay_world
    1000 until_delivered sample_relay_world_fresh) 7%nat result_frame Hin).
Defined.

Definition the_publication : RelayRequest :=
  PublishResultRpc headers_a (MkPublishResult (Some one_result) "node-b" "node-a").

Lemma success_needs_the_destination_witness :
  handlers (after_session until_ended) !! 1%nat = Some (RDone (Ok (RepliedFrame "relay-1")))
  /\ reply_earned two_nodes result_session the_publication (RepliedFrame "relay-1").
Proof.
  assert (Hd : handlers (after_session until_ended) !! 1%nat = Some (RDone (Ok (RepliedFrame "relay-1"))))
    by (vm_compute; reflexivity).
  split; [exact Hd|].
  assert (Hreq : result_session !! 1%nat = Some the_publication) by reflexivity.
  exact (success_needs_the_destination two_nodes result_session sample_relay_world 1000 until_ended
    1%nat the_publication (RepliedFrame "relay-1") sample_relay_world_fresh Hreq Hd).
Defined.

Lemma ended_handlers_leave_only_tasks_witness :
  forallb ended (handlers (after_session until_ended)) = true
  /\ forall kind, waiters kind (peers (rw_relay (shared (after_session until_ended)))) = ∅.
Proof.
  assert (He : forallb ended (handlers (after_session until_ended)) = true) by (vm_compute; reflexivity).
  split; [exact He|].
  exact (proj1 (proj2 (ended_handlers_leave_only_tasks two_nodes result_session sample_relay_world 1000
    until_ended sample_relay_world_fresh) He)).
Defined.

(** The client of the publication goes away while it waits. *)
Definition abandoned : list RelayEvent :=
  until_delivered ++ ClientGone 1%nat :: replicate 6 (Step 1%nat (fun _ => Sent) true InboundEnd).

Lemma handlers_end_witness :
  exists p, handlers (after_session abandoned) !! 1%nat = Some p /\ ended p = true.
Proof.
  exact (handlers_end two_nodes result_session sample_relay_world 1000 abandoned 1%nat
    ltac:(vm_compute; lia) ltac:(vm_compute; lia)).
Defined.
