(* ===== verification/RelayAlone.v ===== *)
(** * Handlers of the relay that run alone

    A handler from its start to its end with nothing in between, as a caller
    sees it that meets no other. A wait is over at once: with the value, if
    it was sent, or with its timeout. *)
From S2P Require Import Prelude Ident StoreModel Policy Security Registry Wire RelayRuntime RelayInv RelayDelivery RelayMessages RelayService RelayLogic RelayServiceFacts.
From stdpp Require Import options.
#[local] Open Scope Z_scope.

Fixpoint run_alone {A} (ttl : Z) (send : nat -> SendOutcome) (p : RProg A) (w : RelayWorld)
    {struct p} : RProg A * RelayWorld :=
  match p with
  | RCall e k => let (x, w) := relay_perform ttl e send w in run_alone ttl send (k x) w
  | RWait _ ch _ _ k =>
      run_alone ttl send (k (default Elapsed (awaited ch true (rw_relay w)))) w
  | _ => (p, w)
  end.

Section alone.
Context (ttl : Z) (send : nat -> SendOutcome).

Abbreviation run := (run_alone ttl send).

Lemma run_alone_bind {A B} (p : RProg A) (k : A -> RProg B) : forall w,
  run (rbind p k) w
  = match run p w with
    | (RDone (Ok a), w') => run (k a) w'
    | (p', w') => (rbind p' k, w')
    end.
Proof.
  induction p as [[a|e]| | |e c IH|kind ch g t c IH|c IH]; intros w; simpl; try done.
  - destruct (relay_perform ttl e send w) as [x w']. apply IH.
Qed.

Lemma run_alone_ok {A B} (p : RProg A) (k : A -> RProg B) w b w' :
  run (rbind p k) w = (RDone (Ok b), w') ->
  exists a w1, run p w = (RDone (Ok a), w1) /\ run (k a) w1 = (RDone (Ok b), w').
Proof.
  rewrite run_alone_bind. destruct (run p w) as [[[a|e]| | |e c|kind ch g t c|c] w1]; try done.
  intros H. by exists a, w1.
Qed.

Lemma run_alone_lift {A} (r : Result A Status) w a w' :
  run (rlift r) w = (RDone (Ok a), w') -> r = Ok a /\ w' = w.
Proof. by intros [= -> ->]. Qed.

(** ** Programs that leave the runtime alone *)

Definition is_runtime (e : RelayEffect) : bool := match e with Runtime _ => true | _ => false end.

Fixpoint quiet {A} (p : RProg A) : Prop :=
  match p with
  | RCall e k => is_runtime e = false /\ forall x, quiet (k x)
  | RWait _ _ _ _ _ | RInbound _ => False
  | RDone _ | RPanic | RDropped => True
  end.

Lemma quiet_bind {A B} (p : RProg A) (k : A -> RProg B) :
  quiet p -> (forall a, quiet (k a)) -> quiet (rbind p k).
Proof.
  intros Hp Hk. induction p as [[a|e]| | |e c IH|kind ch g t c IH|c IH]; simpl in *; try done.
  split; [apply Hp|]. intros x. by apply IH, Hp.
Qed.

Lemma after_op_inv op (r : Relay RelayMessage) : PeersInv (peers r) -> PeersInv (peers (after_op op r)).
Proof. intros H. destruct op; [by apply relay_step_inv|done]. Qed.

(** The ids that the relay will use are trimmed; nothing changes that. *)
Definition ids_trimmed (w : RelayWorld) : Prop := forall n, trim (rw_frame_ids w n) = rw_frame_ids w n.

Lemma perform_ids e w x w' :
  relay_perform ttl e send w = (x, w') -> ids_trimmed w -> ids_trimmed w'.
Proof.
  intros H Hw. destruct e; simpl in H; unfold on_registry in *;
    repeat match type of H with context [let (_, _) := ?m in _] => destruct m end;
    simplify_eq; intros ?; apply Hw.
Qed.

Lemma run_ids {A} (p : RProg A) : forall w, ids_trimmed w -> ids_trimmed (run p w).2.
Proof.
  induction p as [r| | |e c IH|kind ch g t c IH|c IH]; intros w Hw; simpl; try done; [|by apply IH].
  destruct (relay_perform ttl e send w) as [x w'] eqn:E. by eapply IH, perform_ids.
Qed.

Lemma run_inv {A} (p : RProg A) : forall w,
  PeersInv (peers (rw_relay w)) -> PeersInv (peers (rw_relay (run p w).2)).
Proof.
  induction p as [r| | |e c IH|kind ch g t c IH|c IH]; intros w Hw; simpl; try done; [|by apply IH].
  destruct (relay_perform ttl e send w) as [x w'] eqn:E. apply IH.
  destruct e; simpl in E; unfold on_registry in E;
    repeat match type of E with context [let (_, _) := ?m in _] => destruct m end; simplify_eq; try done.
  simpl. by apply after_op_inv.
Qed.

Lemma perform_quiet e w x w' :
  relay_perform ttl e send w = (x, w') -> is_runtime e = false -> rw_relay w' = rw_relay w.
Proof.
  intros H He. destruct e; simpl in H; unfold on_registry in *;
    repeat match type of H with context [let (_, _) := ?m in _] => destruct m end;
    simplify_eq; done.
Qed.

Lemma run_quiet {A} (p : RProg A) : forall w, quiet p -> rw_relay (run p w).2 = rw_relay w.
Proof.
  induction p as [r| | |e c IH|kind ch g t c IH|c IH]; intros w Hp; simpl in Hp |- *; try done.
  destruct (relay_perform ttl e send w) as [x w'] eqn:E.
  rewrite (IH x w') by apply Hp. eapply perform_quiet; [exact E|apply Hp].
Qed.

(** A step of a successful run that leaves the runtime alone. *)
Lemma run_alone_past {A B} (p : RProg A) (k : A -> RProg B) w b w' :
  quiet p -> ids_trimmed w -> run (rbind p k) w = (RDone (Ok b), w') ->
  exists a w1, run p w = (RDone (Ok a), w1) /\ rw_relay w1 = rw_relay w /\ ids_trimmed w1
    /\ run (k a) w1 = (RDone (Ok b), w').
Proof.
  intros Hq Hw (a & w1 & H1 & H)%run_alone_ok. exists a, w1. split; [done|].
  pose proof (run_quiet p w Hq) as E. pose proof (run_ids p w Hw) as I. rewrite H1 in E, I. done.
Qed.
End alone.

(** ** Publishing a task *)

(** A new publication mails its frame to the destination. *)
Lemma publish_new_mails src dest task_id identity routed (frame : RelayFrame RelayMessage) p outcome r q d r1 :
  PeersInv (peers r) -> fid frame = receipt_frame_id p ->
  publish_task_frame src dest task_id identity routed frame p outcome r = (PublishNew q d, r1) ->
  q = p /\ published_tasks (peers r) !! (src, dest, task_id) = None
  /\ mailbox dest (peers r1) = mailbox dest (peers r) ++ [frame].
Proof.
  intros HI Hid H. split; [by destruct (publish_new _ _ _ _ _ _ _ _ _ _ _ _ H)|].
  revert H. unfold publish_task_frame. destruct (is_exact_task_frame frame routed) eqn:Hx; [|done]. cbn [negb].
  destruct (published_tasks (peers r) !! (src, dest, task_id)) as [old|] eqn:Hold.
  { by destruct (bool_decide (envelope old = identity)). }
  destruct (_ || _ : bool) eqn:Hbad; [done|]. rewrite !orb_false_iff in Hbad.
  destruct Hbad as ((((Hfd & Hak) & Hcap) & Hempty) & Hdepth).
  apply bool_decide_eq_false in Hfd, Hak. apply Z.leb_gt in Hcap, Hdepth. apply is_empty_false in Hempty.
  destruct (evict_published (peers r)) as [ok s] eqn:He. destruct ok; [|done]. cbn [negb].
  set (r0 := on_peers (fun _ => record_publication (src, dest, task_id) identity p s) r).
  assert (Hm : mailbox dest (peers r0) = mailbox dest (peers r))
    by (unfold mailbox; by rewrite <- (evict_mailboxes _ _ _ He)).
  assert (Hs : frame_destinations (peers r0) = frame_destinations (peers r)
    /\ acknowledged_frames (peers r0) = acknowledged_frames (peers r)).
  { unfold evict_published in He. destruct (make_room _ _ _) as [ok' [[order tasks] index]].
    injection He as -> <-. done. }
  destruct Hs as [Hs1 Hs2].
  pose proof (route_frame_locked_effect dest frame outcome r0) as [_ Hac].
  destruct (route_frame_locked dest frame outcome r0) as [d' r2] eqn:Hr. cbn [fst] in Hac.
  intros [= <- <- <-]. split; [done|].
  assert (Hd : accepted d' = true).
  { apply Hac. apply andb_true_iff in Hx as [Hone _]. split; rewrite ?Hid, ?Hs1, ?Hs2; try done.
    - intros E. apply Hempty. rewrite <- E, <- Hid. unfold fid. by rewrite trim_trim.
    - unfold mailbox_depth. by rewrite Hm. }
  rewrite <- Hm. exact (proj1 (acceptable_mailboxed _ _ _ _ _ _ Hr Hd)).
Qed.

Section publication.
Context `{W : Wire} `{CW : ControlWire}.
Context (cfg : RelayConfig) (ttl : Z) (send : nat -> SendOutcome).

Abbreviation run := (run_alone ttl send).

Lemma quiet_reject target : quiet (reject_direct_control_only_destination cfg target).
Proof using Type.
  unfold reject_direct_control_only_destination. case_match; [done|].
  apply quiet_bind; [done|]. intros p. split; [done|]. intros fs. simpl. by case_match.
Qed.

Lemma quiet_require target feature : quiet (require_destination_feature cfg target feature).
Proof using Type.
  unfold require_destination_feature. case_match; [done|].
  apply quiet_bind; [done|]. intros p. split; [done|]. intros b. simpl. by case_match.
Qed.

(** The task of a request as it is handed on, with the features of its source. *)
Definition handed_on (features : list string) (t : TaskEnvelope) : TaskEnvelope :=
  with_metadata t (<[AUTHENTICATED_SOURCE_FEATURES_METADATA_KEY := features_to_json features]> (te_metadata t)).

(** What a publication that was answered did. *)
Record task_published (h : RequestHeaders) (request : PublishTaskRequest) (w w' : RelayWorld)
    (response : PublishTaskResponse) (t : TaskEnvelope) (target : string) (f : Frame) : Prop := {
  tp_task : pt_task request = Some t;
  tp_auth : authenticate_request cfg h (pt_source_node_id request) = Ok (trim (pt_source_node_id request));
  tp_target : if bool_decide (trim (pt_target_node_id request) = "")
              then target_node_id_from_task t = Ok target else target = trim (pt_target_node_id request);
  tp_frame : exists features id, f = task_frame id (trim (pt_source_node_id request)) target (handed_on features t)
               /\ trim id = id /\ pd_frame_id response = id;
  tp_mail : mailbox target (peers (rw_relay w')) = mailbox target (peers (rw_relay w)) ++ [f];
}.

(** The relay has no publication of this task by this source. *)
Definition unpublished (source : string) (t : TaskEnvelope) (w : RelayWorld) : Prop :=
  forall i target, te_task_id t = Some i ->
    published_tasks (peers (rw_relay w)) !! (source, target, trim (value i)) = None.

(** A publication under a new identity: its frame is the last of the target's
    mailbox. *)
Lemma publish_task_runs h request w response w' t :
  PeersInv (peers (rw_relay w)) -> ids_trimmed w -> pt_task request = Some t ->
  unpublished (trim (pt_source_node_id request)) t w ->
  run (publish_task cfg h request) w = (RDone (Ok response), w') ->
  exists target f, task_published h request w w' response t target f.
Proof using Type.
  intros HI Hids Ht Hnew H. unfold publish_task in H.
  apply run_alone_ok in H as (source & w1 & [Hauth ->]%run_alone_lift & H).
  pose proof (proj2 (authenticate_request_ok _ _ _ _ Hauth)) as ->.
  rewrite Ht in H. apply run_alone_ok in H as (t0 & w1 & [[= <-] ->]%run_alone_lift & H).
  apply run_alone_ok in H as (target & w1 & [Htarget ->]%run_alone_lift & H).
  apply run_alone_past in H as ([] & w1 & _ & E1 & I1 & H); [|apply quiet_reject|done].
  apply run_alone_past in H as ([] & w2 & _ & E2 & I2 & H);
    [|case_match; [apply quiet_require|done]|done].
  apply run_alone_ok in H as (task_id & w3 & [Hi ->]%run_alone_lift & H). apply ok_or_ok in Hi.
  case_bool_decide as Hblank; [done|].
  apply run_alone_past in H as (id & w3 & [= <- <-] & E3 & I3 & H); [|done..].
  apply run_alone_past in H as (now & w4 & _ & E4 & I4 & H); [|done..].
  apply run_alone_ok in H as (peer & w5 & [_ ->]%run_alone_lift & H).
  apply run_alone_past in H as (features & w6 & _ & E6 & I6 & H); [|by case_match|done].
  assert (E : rw_relay w6 = rw_relay w) by congruence. clear E1 E2 E3 E4 E6 I1 I3 I4 I6.
  set (id := rw_frame_ids w2 0%nat) in *. pose proof (I2 0%nat : trim id = id) as Hids'.
  apply run_alone_ok in H as (delivery & w7 & H7 & [Hans ->]%run_alone_lift).
  cbn in H7. rewrite E in H7. injection H7 as Hdelivery Hw7.
  assert (Hr : rw_relay w7 = (RelayRuntime.publish_task_frame (trim (pt_source_node_id request)) target
    (trim (value task_id)) (MTask (canonical_task_publication_identity t)) (MTask (handed_on features t))
    (task_frame id (trim (pt_source_node_id request)) target (handed_on features t)) (MkReceipt id now)
    (send 0%nat) (rw_relay w)).2) by (rewrite <- Hw7; simpl; by rewrite E).
  fold (handed_on features t) in Hdelivery.
  destruct (RelayRuntime.publish_task_frame _ _ _ _ _ _ _ _ _) as [d r1] eqn:Hpub. simpl in Hdelivery, Hr.
  subst d. pose proof (Hnew task_id target Hi) as Hfree.
  destruct delivery as [q d|q| | |]; try discriminate Hans.
  - apply publish_new_mails in Hpub as (-> & _ & Hm); [|done..].
    injection Hans as <-. exists target. eexists. split; try done.
    + revert Htarget. case_bool_decide; [done|]. by intros [= <-].
    + exists features, id. by split_and!.
    + by rewrite Hr.
  - exfalso. revert Hpub. unfold RelayRuntime.publish_task_frame. rewrite Hfree.
    destruct (is_exact_task_frame _ _); [|done]. cbn [negb].
    destruct (_ || _ : bool); [done|]. destruct (evict_published _) as [[] x]; [|done]. cbn [negb].
    by destruct (route_frame_locked _ _ _ _).
Qed.
End publication.
