(* ===== verification/Routing.v ===== *)
(** * The daemon's router

    keryx-daemon/src/routing.rs: which peers are known, the capability policy,
    the audit of its decisions, the publication of a task to the relay with the
    check of the relay's receipt, and [TaskRouter::send_task], with the SendTask
    and ListPeers handlers of lib.rs. A call is state passing over the store's
    connection, the audit log, and the network, which only the publisher
    touches; the clock, the hash order of an encoding and what the publisher
    answers, and after how long, are arguments. *)
From S2P Require Import Prelude Ident Text Lifecycle StoreModel Api SqlStore Policy Wire Rpc.
From S2P Require Import Program RelayMessages RelayService Daemon.
From stdpp Require Import options.
From Stdlib Require Import Ascii.
#[local] Open Scope Z_scope.

Definition RELAY_TARGET_METADATA_KEYS : list string :=
  ["target_node_id"; "target_node"; "recipient_node_id"; "recipient_node"; "destination_node_id";
   "destination_node"; "node_id"; "keryx.target_node_id"]%string.
Definition CANONICAL_RELAY_TARGET_METADATA_KEY : string := "target_node_id".
(** discovery.rs. *)
Definition SUPPORTED_PROTOCOL_FEATURES : list string :=
  ["absolute_deadlines_v1"; "result_artifact_bytes_v1"]%string.
Definition DEFAULT_SEND_TASK_TIMEOUT_MS : Z := 30000.

(** ** Outcomes *)

Inductive DeliveryRoute : Type := RouteLocal | RouteRelay | RouteAwaitingApproval.

#[export] Instance DeliveryRoute_eq_dec : EqDecision DeliveryRoute.
Proof. solve_decision. Defined.

Definition delivery_route_as_str (r : DeliveryRoute) : string :=
  match r with
  | RouteLocal => "local"
  | RouteRelay => "relay"
  | RouteAwaitingApproval => "awaiting_approval"
  end.

Record RelayRouteReceipt : Type := MkRouteReceipt {
  rr_task_id : TaskId;
  rr_frame_id : string;
  rr_authenticated_source_peer_id : PeerId;
  rr_accepted_destination_peer_id : PeerId;
  rr_accepted_route : string;
  rr_accepted_at_ms : Z;
}.

Record SendTaskOutcome : Type := MkSendOutcome {
  so_task_id : TaskId;
  so_status : string;
  so_routed_to : PeerId;
  so_route : DeliveryRoute;
  so_relay_receipt : option RelayRouteReceipt;
}.

Inductive RoutingError : Type :=
| UnknownPeer (peer_id : string)
| RoutingTimeout (peer_id : string)
| RelayUnavailable
| RelayFailed (peer_id reason : string)
| PolicyDenied (reason : string)
| InvalidEnvelope (reason : string)
| RoutingStore (e : StoreError)
| RoutingValidation (e : ValidationError).

(** ** Redaction *)

(** A word is redacted when it mentions one of these, in any case. *)
Definition SECRET_WORDS : list string := ["token"; "secret"; "password"; "authorization"; "bearer"]%string.

Definition redact_segment (segment : list ascii) : list ascii :=
  let lower := ascii_lower <$> segment in
  if existsb (fun w => contains (bytes_of w) lower) SECRET_WORDS
  then match split_once "="%char segment with
       | Some (key, _) => key ++ bytes_of "=<redacted>"
       | None => match split_once ":"%char segment with
                 | Some (key, _) => key ++ bytes_of ":<redacted>"
                 | None => bytes_of "<redacted>"
                 end
       end
  else segment.

Definition redact_secrets (input : string) : string :=
  of_bytes (join_space (redact_segment <$> split_whitespace (bytes_of input))).

(** ** Peers *)

Record PeerInfo : Type := MkPeerInfo { in_peer_id : PeerId; in_connected : bool; in_local : bool }.

Record PeerDirectory : Type := MkDirectory {
  dir_local_peer_id : PeerId;
  dir_connected_peers : gset string;
  dir_relay_routable_peers : gset string;
}.

Definition new_directory (local : PeerId) : PeerDirectory := MkDirectory local ∅ ∅.

Definition set_member (value : string) (present : bool) (s : gset string) : gset string :=
  if present then {[value]} ∪ s else s ∖ {[value]}.

Definition set_connected_peer (p : PeerId) (connected : bool) (d : PeerDirectory) : PeerDirectory :=
  MkDirectory (dir_local_peer_id d) (set_member (as_str p) connected (dir_connected_peers d))
    (dir_relay_routable_peers d).
Definition set_routable_peer (p : PeerId) (routable : bool) (d : PeerDirectory) : PeerDirectory :=
  MkDirectory (dir_local_peer_id d) (dir_connected_peers d)
    (set_member (as_str p) routable (dir_relay_routable_peers d)).

Definition is_connected (p : PeerId) (d : PeerDirectory) : bool :=
  bool_decide (p = dir_local_peer_id d) || bool_decide (as_str p ∈ dir_connected_peers d).
Definition is_routable (p : PeerId) (d : PeerDirectory) : bool :=
  is_connected p d || bool_decide (as_str p ∈ dir_relay_routable_peers d).

(** The peers of a set; a value that is not a peer id is skipped. *)
Definition peers_of (connected : bool) (l : list string) : list PeerInfo :=
  omap (fun v => match Id_new "PeerId" v with
                 | Ok p => Some (MkPeerInfo p connected false)
                 | Err _ => None
                 end) l.

Definition list_peers (d : PeerDirectory) : list PeerInfo :=
  sort_on String.le (fun i => as_str (in_peer_id i))
    (peers_of true (elements (dir_connected_peers d))
     ++ peers_of false (filter (fun v => v ∉ dir_connected_peers d) (elements (dir_relay_routable_peers d)))
     ++ [MkPeerInfo (dir_local_peer_id d) true true]).

(** ** Policy *)

Inductive RoutingPolicyPermission : Type := PermissionAllow | PermissionDeny | PermissionApprovalRequired.

#[export] Instance RoutingPolicyPermission_eq_dec : EqDecision RoutingPolicyPermission.
Proof. solve_decision. Defined.

Definition permission_as_str (p : RoutingPolicyPermission) : string :=
  match p with
  | PermissionAllow => "allow"
  | PermissionDeny => "deny"
  | PermissionApprovalRequired => "approval_required"
  end.

Record RoutingPolicyDecision : Type := MkDecision {
  rd_permission : RoutingPolicyPermission;
  rd_capability_id : option string;
  rd_reason : string;
}.

Record RoutingPolicy : Type := MkRoutingPolicy {
  default_permission : RoutingPolicyPermission;
  capability_permissions : gmap string RoutingPolicyPermission;
}.

Definition default_policy : RoutingPolicy := MkRoutingPolicy PermissionAllow ∅.

Definition set_permission (capability_id : string) (p : RoutingPolicyPermission) (policy : RoutingPolicy)
    : RoutingPolicy :=
  MkRoutingPolicy (default_permission policy) (<[capability_id := p]> (capability_permissions policy)).

Definition CAPABILITY_KEYS : list string :=
  ["keryx.capability_id"; "capability_id"; "capability"; "skill_id"; "skill"]%string.

(** The first key whose value is not blank. *)
Definition envelope_capability_id (envelope : TaskEnvelope) : option string :=
  head (omap (fun key => present_text (te_metadata envelope !! key)) CAPABILITY_KEYS).

Definition evaluate (policy : RoutingPolicy) (envelope : TaskEnvelope) : RoutingPolicyDecision :=
  let capability_id := envelope_capability_id envelope in
  let permission := default (default_permission policy)
                      (c ← capability_id; capability_permissions policy !! c) in
  let named := default "<unspecified>"%string capability_id in
  MkDecision permission capability_id
    match permission with
    | PermissionAllow => "capability allowed by routing policy"
    | PermissionDeny => "capability " +:+ named +:+ " denied by routing policy"
    | PermissionApprovalRequired => "capability " +:+ named +:+ " requires approval"
    end.

Record RoutingAuditEvent : Type := MkRoutingAudit {
  ra_task_id : TaskId;
  ra_target_peer_id : PeerId;
  ra_capability_id : option string;
  ra_decision : RoutingPolicyPermission;
  ra_reason : string;
}.

Definition audit_event (task_id : TaskId) (target : PeerId) (d : RoutingPolicyDecision)
    : RoutingAuditEvent :=
  MkRoutingAudit task_id target (redact_secrets <$> rd_capability_id d) (rd_permission d)
    (redact_secrets (rd_reason d)).

(** ** Reading envelopes *)

Section routing.
Context `{W : Wire}.

Definition parse_envelope_task_id (envelope : TaskEnvelope) : Result TaskId RoutingError :=
  let? v := ok_or (present_text (value <$> te_task_id envelope))
              (RelayFailed "" "envelope.task_id is required") in
  map_err RoutingValidation (Id_new "TaskId" v).

Definition parse_envelope_idempotency_key (envelope : TaskEnvelope)
    : Result (option IdempotencyKey) StoreError :=
  match te_idempotency_key envelope with
  | None => Ok None
  | Some key =>
      let trimmed := trim (value key) in
      if bool_decide (trimmed = "") then Ok None
      else map_err StoreError.Validation (result_map Some (Id_new "IdempotencyKey" trimmed))
  end.

Definition deadline_from_envelope (envelope : TaskEnvelope) : Result (option Z) RoutingError :=
  if te_deadline_ms envelope <? 0
  then Err (InvalidEnvelope "deadline_ms must be zero or a positive Unix epoch timestamp")
  else Ok (if 0 <? te_deadline_ms envelope then Some (te_deadline_ms envelope) else None).

Definition normalize_timeout (timeout_ms default_timeout_ms : Z) : Z :=
  if timeout_ms <=? 0 then default_timeout_ms else timeout_ms.

(** ** The relay as a publisher *)

(** A publisher: whether it is configured, and what a delivery within a number
    of milliseconds does to the network and answers: [None] if it has not
    answered when the time is over. *)
Record RelayTaskPublisher (Net : Type) : Type := MkPublisher {
  is_configured : bool;
  deliver_task : PeerId -> TaskEnvelope -> Z -> Net
    -> option (Result RelayRouteReceipt RoutingError) * Net;
}.
Arguments MkPublisher {Net}.
Arguments is_configured {Net}.
Arguments deliver_task {Net}.

Definition NoopRelayPublisher {Net} : RelayTaskPublisher Net :=
  MkPublisher false (fun _ _ _ net => (Some (Err RelayUnavailable), net)).

Inductive ConnectError : Type := BadEndpoint (text : string) | NoConnection (text : string).

(** The network, as far as the publisher over gRPC sees it: within a time, a
    connection is made or fails, and a call of PublishTask is answered.
    gRPC's texts, and which texts can be sent as metadata, are its own. *)
Class RelayNetwork (Net : Type) : Type := {
  metadata_text : string -> bool;
  invalid_metadata : string;
  code_text : Code -> string;
  connect_relay : Z -> Net -> option (Result unit ConnectError) * Net;
  call_publish_task : Z -> RequestHeaders -> PublishTaskRequest -> Net
    -> option (Result PublishTaskResponse Status) * Net;
}.

Definition canonicalize_relay_target_metadata (envelope : TaskEnvelope) (target : PeerId) : TaskEnvelope :=
  with_metadata envelope
    (<[CANONICAL_RELAY_TARGET_METADATA_KEY := as_str target]>
      (foldl (fun m key => delete key m) (te_metadata envelope) RELAY_TARGET_METADATA_KEYS)).

Definition validate_relay_receipt (receipt : RelayRouteReceipt) (expected_task_id : TaskId)
    (expected_source expected_destination : PeerId) : Result unit RoutingError :=
  if negb (bool_decide (rr_task_id receipt = expected_task_id))
     || bool_decide (rr_frame_id receipt = "")
     || negb (bool_decide (rr_authenticated_source_peer_id receipt = expected_source))
     || negb (bool_decide (rr_accepted_destination_peer_id receipt = expected_destination))
     || negb (bool_decide (rr_accepted_route receipt = "relay"))
     || (rr_accepted_at_ms receipt <=? 0)
  then Err (RelayFailed (as_str expected_destination) "relay returned an invalid route receipt")
  else Ok tt.

Record GrpcRelayTaskPublisher : Type := MkGrpcPublisher {
  gp_endpoint : string;
  gp_source_peer_id : PeerId;
  gp_node_token : option string;
}.

Definition with_node_token (node_token : string) (p : GrpcRelayTaskPublisher) : GrpcRelayTaskPublisher :=
  MkGrpcPublisher (gp_endpoint p) (gp_source_peer_id p)
    (if bool_decide (trim node_token = "") then None else Some node_token).

(** The receipt in the relay's answer. *)
Definition read_receipt (target : PeerId) (response : PublishTaskResponse)
    : Result RelayRouteReceipt RoutingError :=
  let? task_id := transpose ((fun i => map_err RoutingValidation (Id_new "TaskId" (trim (value i))))
                               <$> pd_task_id response) in
  let? task_id := ok_or task_id (RelayFailed (as_str target)
                                   "relay returned a route receipt without task_id") in
  let? source := map_err RoutingValidation
                   (Id_new "PeerId" (trim (pd_authenticated_source_peer_id response))) in
  let? destination := map_err RoutingValidation
                        (Id_new "PeerId" (trim (pd_accepted_destination_peer_id response))) in
  Ok (MkRouteReceipt task_id (trim (pd_frame_id response)) source destination
        (trim (pd_accepted_route response)) (pd_accepted_at_ms response)).

Section publisher.
Context {Net : Type} `{RelayNetwork Net}.

Definition relay_failed (target : PeerId) (reason : string) : RoutingError :=
  RelayFailed (as_str target) reason.

Definition connect_failed (p : GrpcRelayTaskPublisher) (target : PeerId) (e : ConnectError)
    : RoutingError :=
  relay_failed target
    match e with
    | BadEndpoint text => text
    | NoConnection text => "failed to connect to relay at " +:+ gp_endpoint p +:+ ": " +:+ text
    end.

Definition relay_returned (target : PeerId) (status : Status) : RoutingError :=
  relay_failed target
    ("relay PublishTask returned " +:+ code_text (code status) +:+ ": " +:+ message status).

(** [text.parse()] as a metadata value. *)
Definition metadata_value (target : PeerId) (name text : string) : Result HeaderValue RoutingError :=
  if metadata_text text then Ok (HeaderText text)
  else Err (relay_failed target ("invalid " +:+ name +:+ " metadata: " +:+ invalid_metadata)).

Definition publisher_headers (p : GrpcRelayTaskPublisher) (target : PeerId)
    : Result RequestHeaders RoutingError :=
  let? node_id := metadata_value target "source peer" (as_str (gp_source_peer_id p)) in
  let? node_token := match gp_node_token p with
                     | Some token => metadata_value target "node token" token
                     | None => Ok Absent
                     end in
  Ok (MkHeaders node_id node_token).

Definition grpc_deliver_task (p : GrpcRelayTaskPublisher) (target : PeerId) (envelope : TaskEnvelope)
    (timeout_ms : Z) (net : Net) : option (Result RelayRouteReceipt RoutingError) * Net :=
  match transpose ((fun i => map_err RoutingValidation (Id_new "TaskId" (trim (value i))))
                     <$> te_task_id envelope) with
  | Err e => (Some (Err e), net)
  | Ok None => (Some (Err (InvalidEnvelope "relay task envelope requires task_id")), net)
  | Ok (Some expected_task_id) =>
      let envelope := canonicalize_relay_target_metadata envelope target in
      match connect_relay timeout_ms net with
      | (None, net) => (None, net)
      | (Some (Err e), net) => (Some (Err (connect_failed p target e)), net)
      | (Some (Ok tt), net) =>
          match publisher_headers p target with
          | Err e => (Some (Err e), net)
          | Ok headers =>
              match call_publish_task timeout_ms headers
                      (MkPublishTask (Some envelope) (as_str target) (as_str (gp_source_peer_id p))) net with
              | (None, net) => (None, net)
              | (Some (Err status), net) => (Some (Err (relay_returned target status)), net)
              | (Some (Ok response), net) =>
                  (Some (let? receipt := read_receipt target response in
                         let? _ := validate_relay_receipt receipt expected_task_id
                                     (gp_source_peer_id p) target in
                         Ok receipt), net)
              end
          end
      end
  end.

Definition grpc_publisher (p : GrpcRelayTaskPublisher) : RelayTaskPublisher Net :=
  MkPublisher true (grpc_deliver_task p).
End publisher.

(** ** The router *)

Section router.
Context {Net : Type}.

Record RouterWorld : Type := MkRouterWorld {
  ro_store : Conn;
  ro_net : Net;
  ro_audit_events : list RoutingAuditEvent;
}.

Abbreviation R := (ST RouterWorld RoutingError).

(** A store call; [?] makes a store error a routing error. *)
Definition on_store {A} (m : C A) : R A := fun w =>
  let (r, conn) := m (ro_store w) in
  (map_err RoutingStore r, MkRouterWorld conn (ro_net w) (ro_audit_events w)).

(** A [match] on what a store call returned. *)
Definition match_store {A B} (m : C A) (k : Result A StoreError -> R B) : R B := fun w =>
  let (r, conn) := m (ro_store w) in k r (MkRouterWorld conn (ro_net w) (ro_audit_events w)).

Definition record_audit_event (event : RoutingAuditEvent) : R unit :=
  modify (fun w => MkRouterWorld (ro_store w) (ro_net w) (ro_audit_events w ++ [event])).

Record TaskRouter : Type := MkRouter {
  router_peers : PeerDirectory;
  router_publisher : RelayTaskPublisher Net;
  router_policy : RoutingPolicy;
  default_timeout_ms : Z;
}.

Context (violation : string).

Definition accept_local_task (envelope : TaskEnvelope) : R (TaskId * string) :=
  let! task_id := lift (parse_envelope_task_id envelope) in
  let! idempotency_key := lift (map_err RoutingStore (parse_envelope_idempotency_key envelope)) in
  let! deadline_ms := lift (deadline_from_envelope envelope) in
  let record := with_deadline (new_task_record task_id Pending idempotency_key) deadline_ms in
  let! accepted := on_store (accept_task violation record) in
  ret (task_id, task_status_label (tr_status accepted)).

(** The envelope a remote task is stored and sent with. *)
Definition with_supported_features (envelope : TaskEnvelope) : TaskEnvelope :=
  with_metadata envelope
    (<[AUTHENTICATED_SOURCE_FEATURES_METADATA_KEY := features_to_json SUPPORTED_PROTOCOL_FEATURES]>
       (te_metadata envelope)).

Definition intended_context (router : TaskRouter) (task_id : TaskId) (target : PeerId) (now_ms : Z)
    : TaskTransportContextRecord :=
  MkContext task_id (Some (dir_local_peer_id (router_peers router))) (Some target) target None now_ms.

(** Is the task the one that an earlier attempt meant to send? An error if the
    id is another task's. *)
Definition existing_intent (router : TaskRouter) (record : TaskRecord) (encoded_envelope : bytes)
    (target : PeerId) : R bool :=
  let task_id := tr_id record in
  match_store (get_task task_id) (fun existing =>
    match existing with
    | Ok existing =>
        if negb (bool_decide (existing = record))
        then throw (RoutingStore (StoreError.TaskAlreadyExists task_id)) else
        let! stored_envelope := on_store (get_task_envelope task_id) in
        if negb (bool_decide (en_encoded_envelope stored_envelope = encoded_envelope))
        then throw (RoutingStore (StoreError.TaskEnvelopeConflict task_id)) else
        let! context := on_store (get_transport_context task_id) in
        if negb (bool_decide (tc_expected_executor_peer_id context = Some target))
           || negb (bool_decide (tc_destination_peer_id context = target))
        then throw (RoutingStore (StoreError.TransportContextConflict task_id)) else
        if negb (bool_decide (tc_authenticated_sender_peer_id context
                              = Some (dir_local_peer_id (router_peers router))))
        then throw (RoutingStore (StoreError.TransportContextConflict task_id))
        else ret true
    | Err (StoreError.TaskNotFound _) => ret false
    | Err error => throw (RoutingStore error)
    end).

Definition deliver_within (router : TaskRouter) (target : PeerId) (envelope : TaskEnvelope)
    (timeout_ms : Z) : R RelayRouteReceipt := fun w =>
  let (answer, net) := deliver_task (router_publisher router) target envelope timeout_ms (ro_net w) in
  (match answer with
   | Some answer => answer
   | None => Err (RoutingTimeout (as_str target))
   end, MkRouterWorld (ro_store w) net (ro_audit_events w)).

(** The branch for another peer: the intent is stored, the task delivered, and
    the relay's receipt recorded. *)
Definition send_remote_task (router : TaskRouter) (target : PeerId) (task_id : TaskId)
    (deadline_ms : option Z) (envelope : TaskEnvelope) (timeout_ms : Z) (order : nat) (now_ms : Z)
    : R SendTaskOutcome :=
  let envelope := with_supported_features envelope in
  if negb (is_routable target (router_peers router)) && negb (is_configured (router_publisher router))
  then throw (UnknownPeer (as_str target)) else
  let encoded_envelope := encode_envelope order envelope in
  let! idempotency_key := lift (map_err RoutingStore (parse_envelope_idempotency_key envelope)) in
  let record := with_deadline (new_task_record task_id Pending idempotency_key) deadline_ms in
  let! existing := existing_intent router record encoded_envelope target in
  (if existing then ret tt
   else
     let! _ := on_store (accept_task_with_envelope_and_context violation record
                           (MkEnvelope task_id encoded_envelope now_ms)
                           (intended_context router task_id target now_ms)) in
     ret tt) ;;;
  let timeout := normalize_timeout timeout_ms (default_timeout_ms router) in
  let! receipt := deliver_within router target envelope timeout in
  let! _ := on_store (record_relay_receipt violation task_id (rr_authenticated_source_peer_id receipt)
                        (rr_accepted_destination_peer_id receipt) (rr_frame_id receipt)
                        (rr_accepted_at_ms receipt)) in
  ret (MkSendOutcome task_id "relay_accepted" target RouteRelay (Some receipt)).

(** [TaskRouter::send_task]; [route_task] is the same. *)
Definition send_task (router : TaskRouter) (target : PeerId) (envelope : TaskEnvelope)
    (timeout_ms : Z) (order : nat) (now_ms : Z) : R SendTaskOutcome :=
  let! task_id := lift (parse_envelope_task_id envelope) in
  let! deadline_ms := lift (deadline_from_envelope envelope) in
  let policy_decision := evaluate (router_policy router) envelope in
  let event := audit_event task_id target policy_decision in
  record_audit_event event ;;;
  match rd_permission policy_decision with
  | PermissionDeny => throw (PolicyDenied (ra_reason event))
  | PermissionApprovalRequired =>
      ret (MkSendOutcome task_id "awaiting_approval" target RouteAwaitingApproval None)
  | PermissionAllow =>
      if bool_decide (target = dir_local_peer_id (router_peers router))
      then
        let! (task_id, status) := accept_local_task envelope in
        ret (MkSendOutcome task_id status target RouteLocal None)
      else send_remote_task router target task_id deadline_ms envelope timeout_ms order now_ms
  end.
End router.

(** ** Statuses *)

Definition routing_error_to_status (error : RoutingError) : Status :=
  match error with
  | UnknownPeer peer_id => MkStatus NotFound ("unknown peer: " +:+ peer_id)
  | RoutingTimeout peer_id =>
      MkStatus DeadlineExceeded ("delivery timed out for peer " +:+ peer_id)
  | RelayUnavailable => MkStatus Unavailable "relay is not connected"
  | RelayFailed peer_id reason =>
      let reason := redact_secrets reason in
      if bool_decide (peer_id = "") then invalid_argument reason
      else MkStatus Unavailable ("relay delivery failed for " +:+ peer_id +:+ ": " +:+ reason)
  | PolicyDenied reason => MkStatus PermissionDenied (redact_secrets reason)
  | InvalidEnvelope reason => invalid_argument reason
  | RoutingStore store_error => store_error_to_status store_error
  | RoutingValidation validation_error => invalid_argument (validation_error_text validation_error)
  end.
(** ** The handlers *)

Record SendTaskRequest : Type := MkSendTask {
  sn_envelope : option TaskEnvelope;
  sn_target_peer_id : string;
  sn_timeout_ms : Z;
}.

Record SendTaskResponse : Type := MkSentTask {
  sr_task_id : option ProtoId;
  sr_status : string;
  sr_routed_to : string;
  sr_delivery_route : string;
  sr_relay_frame_id : string;
  sr_authenticated_source_peer_id : string;
  sr_accepted_destination_peer_id : string;
  sr_accepted_route : string;
  sr_accepted_at_ms : Z;
}.

(** [SendTaskResponse] of an outcome. *)
Definition sent_task (outcome : SendTaskOutcome) : SendTaskResponse :=
  let route {A} (absent : A) (f : RelayRouteReceipt -> A) := default absent (f <$> so_relay_receipt outcome) in
  MkSentTask (Some (proto_id (so_task_id outcome))) (so_status outcome) (as_str (so_routed_to outcome))
    (delivery_route_as_str (so_route outcome))
    (route "" rr_frame_id) (route "" (fun r => as_str (rr_authenticated_source_peer_id r)))
    (route "" (fun r => as_str (rr_accepted_destination_peer_id r))) (route "" rr_accepted_route)
    (route 0 rr_accepted_at_ms).

Section handlers.
Context {Net : Type} (violation : string) (cfg : KeryxDaemonConfig) (router : TaskRouter (Net := Net)).

(** The router's world and the daemon's counters. *)
Abbreviation H := (ST (RouterWorld (Net := Net) * Metrics) Status).

Definition on_router {A} (m : ST (RouterWorld (Net := Net)) RoutingError A) : H A := fun s =>
  let (r, w) := m s.1 in (map_err routing_error_to_status r, (w, s.2)).

Definition count_call (c : Counter) : H unit := modify (fun s => (s.1, count_metric c s.2)).

Definition send_task_rpc (authorization : option string) (request : SendTaskRequest) (order : nat)
    (now_ms : Z) : H SendTaskResponse :=
  let! _ := lift (authorize_daemon_request cfg authorization) in
  let! envelope := lift (ok_or (sn_envelope request) (invalid_argument "envelope is required")) in
  if bool_decide (trim (sn_target_peer_id request) = "")
  then throw (invalid_argument "target_peer_id is required") else
  let! target := lift (parse_peer (sn_target_peer_id request)) in
  let! _ := lift (map_err limit_exceeded_to_status
                    (check_envelope_bytes (limits cfg) (encoded_len envelope))) in
  let! _ :=
    if bool_decide (target = local_peer_id cfg)
    then
      let! pending_count := on_router (on_store (count_tasks_by_status Pending)) in
      lift (map_err limit_exceeded_to_status (check_pending_tasks (limits cfg) pending_count))
    else ret tt in
  let! outcome := on_router (send_task violation router target envelope (sn_timeout_ms request)
                               order now_ms) in
  (if bool_decide (so_route outcome = RouteLocal) then count_call TasksSubmitted else ret tt) ;;;
  ret (sent_task outcome).

Record PeerDescriptor : Type := MkPeerDescriptor {
  pe_peer_id : string;
  pe_connected : bool;
  pe_local : bool;
}.

Definition list_peers_rpc : list PeerDescriptor :=
  (fun peer => MkPeerDescriptor (as_str (in_peer_id peer)) (in_connected peer) (in_local peer))
    <$> list_peers (router_peers router).
End handlers.
End routing.
