(* ===== verification/RoutingFacts.v ===== *)
(** * What the router promises

    A task for another peer is stored before it is sent, and every success is
    the relay's word, checked and recorded. The proofs run the router on the
    tables and on the in-memory state that they represent. *)
From S2P Require Import Prelude Ident Text Lifecycle StoreModel Api MemStore MemSpec MemInv Samples SqlStore SqlRel SqlRefine SqlSession.
From S2P Require Import Wire Rpc RelayMessages RelayService Program Daemon DaemonCalls DaemonSession Routing WireSamples.
From stdpp Require Import options.
#[local] Open Scope Z_scope.

(** ** Receipts *)

Record valid_receipt (i : TaskId) (source destination : PeerId) (r : RelayRouteReceipt) : Prop := {
  vr_task : rr_task_id r = i;
  vr_frame : rr_frame_id r <> ""%string;
  vr_trimmed : trim (rr_frame_id r) = rr_frame_id r;
  vr_source : rr_authenticated_source_peer_id r = source;
  vr_destination : rr_accepted_destination_peer_id r = destination;
  vr_route : rr_accepted_route r = "relay"%string;
  vr_time : 0 < rr_accepted_at_ms r;
}.

Lemma validated_receipt r i source destination :
  validate_relay_receipt r i source destination = Ok tt ->
  trim (rr_frame_id r) = rr_frame_id r -> valid_receipt i source destination r.
Proof.
  unfold validate_relay_receipt. intros H Ht. destruct (_ || _) eqn:E; [done|].
  rewrite !orb_false_iff, !negb_false_iff, !bool_decide_eq_true, bool_decide_eq_false, Z.leb_gt in E.
  destruct E as (((((? & ?) & ?) & ?) & ?) & ?). by split.
Qed.

Section delivery.
Context `{W : Wire} {Net : Type} `{!RelayNetwork Net}.

Lemma delivered_receipt p target envelope timeout (net net' : Net) r i :
  grpc_deliver_task p target envelope timeout net = (Some (Ok r), net') ->
  parse_envelope_task_id envelope = Ok i ->
  valid_receipt i (gp_source_peer_id p) target r.
Proof.
  unfold grpc_deliver_task, parse_envelope_task_id, present_text. intros H Hi.
  destruct (te_task_id envelope) as [[v]|]; [|done]. simpl in *.
  case_bool_decide; [done|]. simpl in Hi. destruct (Id_new "TaskId" (trim v)) as [i'|]; simpl in *; [|done].
  injection Hi as ->. destruct (connect_relay timeout net) as [[[[]|]|] net1]; [|done..].
  destruct (publisher_headers p target) as [h|]; [|done].
  destruct (call_publish_task _ _ _ net1) as [[[response|]|] net2]; [|done..].
  destruct (read_receipt target response) as [receipt|] eqn:Hr; [|done].
  destruct (validate_relay_receipt receipt _ _ _) as [[]|] eqn:Hv; [|done].
  injection H as <- <-. apply validated_receipt; [done|]. unfold read_receipt in Hr.
  repeat match type of Hr with context [match ?x with Ok _ => _ | Err _ => _ end] =>
    destruct x; [|done] end.
  injection Hr as <-. apply trim_trim.
Qed.
End delivery.

(** ** The relay's receipt in the store *)

Definition receipt_context (i : TaskId) (source target : PeerId) (r : RelayRouteReceipt)
    : TaskTransportContextRecord :=
  MkContext i (Some source) (Some target) target (Some (rr_frame_id r)) (rr_accepted_at_ms r).

(** What an attempt to send left: the pending task, its bytes, its context. *)
Record intended (s : InMemoryState) (record : TaskRecord) (encoded : bytes) (source target : PeerId)
    : Prop := {
  in_task : tasks s !! tr_id record = Some record;
  in_envelope : exists e, envelopes s !! tr_id record = Some e /\ en_encoded_envelope e = encoded;
  in_context : exists c, transport_contexts s !! tr_id record = Some c
    /\ tc_authenticated_sender_peer_id c = Some source
    /\ tc_expected_executor_peer_id c = Some target /\ tc_destination_peer_id c = target;
}.

Lemma record_receipt_sim violation d w s record encoded source target r :
  Rel d s -> intended s record encoded source target ->
  valid_receipt (tr_id record) source target r ->
  exists c', record_relay_receipt violation (tr_id record) (rr_authenticated_source_peer_id r)
      (rr_accepted_destination_peer_id r) (rr_frame_id r) (rr_accepted_at_ms r) (MkConn d w)
    = (Ok (receipt_context (tr_id record) source target r), c')
  /\ Rel (committed c') (set_context (tr_id record) (receipt_context (tr_id record) source target r) s).
Proof.
  intros HR [_ _ (c & Hc & Hs & He & Ht)] [_ Hf Htrim -> -> _ _].
  assert (Hid : tc_task_id c = tr_id record) by (by apply (rel_context_wf _ _ HR)).
  unfold record_relay_receipt. rewrite Htrim, bool_decide_false by done.
  unfold bind at 1, begin, modify. cbn [committed working].
  unfold bind at 1. rewrite (read_context d d s) by done. rewrite Hc. cbn [ok_or]. rewrite bind_lift_ok.
  rewrite Hs, He, Ht, !bool_decide_true by done. cbn [negb orb andb].
  rewrite (bool_decide_true (Some source = Some source)) by done.
  rewrite !andb_true_r, andb_false_r.
  destruct (_ && (tc_received_at_ms c =? _)) eqn:Hsame.
  - rewrite andb_true_iff, bool_decide_eq_true, Z.eqb_eq in Hsame. destruct Hsame as [Hf' Hat].
    eexists. unfold bind, commit_tx, modify, ret. cbn [committed working].
    assert (c = receipt_context (tr_id record) source target r) as <-.
    { unfold receipt_context. destruct c; simpl in *; congruence. }
    split; [done|]. simpl. replace (set_context (tr_id record) c s) with s; [done|].
    unfold set_context. destruct s; simpl in *. by rewrite insert_id.
  - eexists. split.
    { unfold bind, update, execute, commit_tx, modify, get, ret. simpl. unfold bind. simpl.
      rewrite Hid. reflexivity. }
    simpl. apply (rel_alter_context _ _ _ _ c); try done.
    unfold context_row, receipt_context. simpl. by rewrite He, Ht.
Qed.

(** ** The router on the in-memory state *)

Section router.
Context `{W : Wire} {Net : Type}.

Abbreviation RW := (RouterWorld (Net := Net)).

(** The answer of a call on a store that represents [s], and the state after it. *)
Definition routes {A} (p : Result A RoutingError * RW) (r : Result A RoutingError) (s : InMemoryState)
    (net : Net) (audit : list RoutingAuditEvent) : Prop :=
  p.1 = r /\ Rel (committed (ro_store p.2)) s /\ ro_net p.2 = net /\ ro_audit_events p.2 = audit.

Lemma routes_here {A} (r : Result A RoutingError) c s net audit :
  Rel (committed c) s -> routes (r, MkRouterWorld c net audit) r s net audit.
Proof. by split. Qed.

Lemma routes_bind {A B} (m : ST RW RoutingError A) (k : A -> ST RW RoutingError B) w r s net audit a :
  routes (m w) (Ok a) s net audit ->
  (forall c, Rel (committed c) s -> r (k a (MkRouterWorld c net audit))) -> r (bind m k w).
Proof.
  unfold bind. destruct (m w) as [x [c n l]]. intros (E1 & HR & E2 & E3) Hk. simpl in *. subst.
  by apply Hk.
Qed.

Lemma routes_err {A B} (m : ST RW RoutingError A) (k : A -> ST RW RoutingError B) w s net audit e :
  routes (m w) (Err e) s net audit -> routes (bind m k w) (Err e) s net audit.
Proof.
  unfold bind. destruct (m w) as [x w']. intros (E1 & H). simpl in E1. subst. by split.
Qed.

Lemma routes_store {A} (m : C A) (mm : M A) d w net audit s r s' :
  agrees (m (MkConn d w)) (mm s) -> mm s = (r, s') ->
  routes (on_store m (MkRouterWorld (MkConn d w) net audit)) (map_err RoutingStore r) s' net audit.
Proof.
  unfold agrees, on_store. intros [H1 H2] E. rewrite E in H1, H2. simpl in *.
  destruct (m (MkConn d w)) as [x c]. simpl in *. by subst.
Qed.

(** Is the task there as an earlier attempt stored it? *)
Definition intent_on (s : InMemoryState) (record : TaskRecord) (encoded : bytes) (source target : PeerId)
    : Result bool RoutingError :=
  let i := tr_id record in
  match tasks s !! i with
  | None => Ok false
  | Some t =>
      if negb (bool_decide (t = record)) then Err (RoutingStore (StoreError.TaskAlreadyExists i)) else
      let? e := ok_or (envelopes s !! i) (RoutingStore (StoreError.TaskEnvelopeNotFound i)) in
      if negb (bool_decide (en_encoded_envelope e = encoded))
      then Err (RoutingStore (StoreError.TaskEnvelopeConflict i)) else
      let? c := ok_or (transport_contexts s !! i) (RoutingStore (StoreError.TransportContextNotFound i)) in
      if bool_decide (tc_expected_executor_peer_id c = Some target)
         && bool_decide (tc_destination_peer_id c = target)
         && bool_decide (tc_authenticated_sender_peer_id c = Some source)
      then Ok true else Err (RoutingStore (StoreError.TransportContextConflict i))
  end.

Lemma intent_on_true s record encoded source target :
  intent_on s record encoded source target = Ok true <-> intended s record encoded source target.
Proof.
  unfold intent_on. split.
  - destruct (tasks s !! tr_id record) as [t|] eqn:Ht; [|done].
    case_bool_decide as E; [|done]. simpl. subst t.
    destruct (envelopes s !! tr_id record) as [e|] eqn:He; [|done]. simpl.
    case_bool_decide as E; [|done]. simpl.
    destruct (transport_contexts s !! tr_id record) as [c|] eqn:Hc; [|done]. simpl.
    destruct (_ && _) eqn:H; [|done]. rewrite !andb_true_iff, !bool_decide_eq_true in H.
    intros _. destruct H as [[? ?] ?]. split; [done|by exists e|by exists c].
  - intros [-> (e & -> & <-) (c & -> & Hs & He & Hd)]. simpl. by rewrite !bool_decide_true.
Qed.

Lemma intent_on_false s record encoded source target :
  intent_on s record encoded source target = Ok false -> tasks s !! tr_id record = None.
Proof using Type.
  unfold intent_on. destruct (tasks s !! tr_id record) as [t|]; [|done].
  case_bool_decide; [|done]. simpl. destruct (envelopes s !! _); [|done]. simpl.
  case_bool_decide; [|done]. simpl. destruct (transport_contexts s !! _); [|done]. simpl.
  by destruct (_ && _).
Qed.

Lemma intent_sim (router : TaskRouter (Net := Net)) record encoded target c net audit s :
  Rel (committed c) s ->
  routes (existing_intent router record encoded target (MkRouterWorld c net audit))
    (intent_on s record encoded (dir_local_peer_id (router_peers router)) target) s net audit.
Proof.
  destruct c as [d w]. intros HR. unfold existing_intent, match_store, intent_on. cbn [ro_store ro_net ro_audit_events].
  destruct (get_task_sim d w s HR (tr_id record)) as [H1 H2].
  destruct (get_task (tr_id record) (MkConn d w)) as [x c]. simpl in H1, H2.
  unfold MemStore.get_task, bind, get, lift in H1. simpl in H1. subst x.
  destruct (tasks s !! tr_id record) as [t|]; cbn [ok_or]; [|by apply routes_here].
  case_bool_decide; cbn [negb]; [|by apply routes_here]. destruct c as [d1 w1].
  pose proof (get_envelope_sim d1 w1 s H2 (tr_id record)) as He.
  eapply routes_store in He; [|reflexivity].
  unfold MemStore.get_task_envelope, bind, get, lift in He. simpl in He.
  destruct (envelopes s !! tr_id record) as [e|]; cbn [ok_or map_err] in *; [|by apply routes_err].
  eapply (routes_bind _ _ _ (fun p => routes p _ s net audit)); [exact He|]. intros [d2 w2] HR2. simpl in HR2.
  case_bool_decide; cbn [negb]; [|by apply routes_here].
  pose proof (get_context_sim d2 w2 s HR2 (tr_id record)) as Hc.
  eapply routes_store in Hc; [|reflexivity].
  unfold MemStore.get_transport_context, bind, get, lift in Hc. simpl in Hc.
  destruct (transport_contexts s !! tr_id record) as [c|]; cbn [ok_or map_err] in *; [|by apply routes_err].
  eapply (routes_bind _ _ _ (fun p => routes p _ s net audit)); [exact Hc|]. intros c3 HR3.
  do 3 case_bool_decide; by apply routes_here.
Qed.

(** Storing a new intent. *)
Lemma accept_intent record e c s r s' source target :
  tasks s !! tr_id record = None -> en_task_id e = tr_id record -> tc_task_id c = tr_id record ->
  tc_authenticated_sender_peer_id c = Some source -> tc_expected_executor_peer_id c = Some target ->
  tc_destination_peer_id c = target ->
  MemStore.accept_task_with_envelope_and_context record e c s = (r, s') ->
  match r with
  | Ok _ => intended s' record (en_encoded_envelope e) source target
  | Err _ => s' = s
  end.
Proof using Type.
  intros Ht _ _ Hs He Hd H. unfold MemStore.accept_task_with_envelope_and_context in H.
  op_run H; try done; try congruence.
  unfold set_idempotency_opt. split.
  - destruct (tr_idempotency_key record); simpl; by rewrite lookup_insert_eq.
  - exists e. destruct (tr_idempotency_key record); simpl; by rewrite lookup_insert_eq.
  - exists c. destruct (tr_idempotency_key record); simpl; by rewrite lookup_insert_eq.
Qed.

Lemma intended_set_context s record encoded source target r :
  intended s record encoded source target ->
  intended (set_context (tr_id record) (receipt_context (tr_id record) source target r) s)
    record encoded source target.
Proof using Type.
  intros [? ? _]. split; [done|done|]. eexists. simpl. rewrite lookup_insert_eq. by split_and!.
Qed.
End router.

(** ** A task for another peer *)

Section remote.
Context `{W : Wire} {Net : Type} `{!RelayNetwork Net}.
Context (violation : string) (router : TaskRouter (Net := Net)) (p : GrpcRelayTaskPublisher).
Context (Hpub : router_publisher router = grpc_publisher p).
Context (Hsource : gp_source_peer_id p = dir_local_peer_id (router_peers router)).

Abbreviation source := (dir_local_peer_id (router_peers router)).

(** The record of a task to send, and its envelope as it is stored and sent. *)
Definition outgoing_record (i : TaskId) (envelope : TaskEnvelope) (key : option IdempotencyKey) : TaskRecord :=
  with_deadline (new_task_record i Pending key)
    (if 0 <? te_deadline_ms envelope then Some (te_deadline_ms envelope) else None).
Definition outgoing_bytes (order : nat) (envelope : TaskEnvelope) : bytes :=
  encode_envelope order (with_supported_features envelope).

(** What the relay answered, and after how long, is what the sender is told;
    a receipt goes into the stored context. *)
Definition settles (i : TaskId) (target : PeerId) (s : InMemoryState)
    (answer : option (Result RelayRouteReceipt RoutingError))
    (r : Result SendTaskOutcome RoutingError) (s' : InMemoryState) : Prop :=
  match answer with
  | Some (Ok receipt) =>
      valid_receipt i source target receipt
      /\ r = Ok (MkSendOutcome i "relay_accepted" target RouteRelay (Some receipt))
      /\ s' = set_context i (receipt_context i source target receipt) s
  | Some (Err e) => r = Err e /\ s' = s
  | None => r = Err (RoutingTimeout (as_str target)) /\ s' = s
  end.

Abbreviation deliver := (grpc_deliver_task p).

Lemma settled i target envelope timeout record encoded c net audit s :
  Rel (committed c) s -> parse_envelope_task_id envelope = Ok i -> tr_id record = i ->
  intended s record encoded source target ->
  exists r s',
    routes ((let! receipt := deliver_within router target envelope timeout in
             let! _ := on_store (record_relay_receipt violation i (rr_authenticated_source_peer_id receipt)
                                   (rr_accepted_destination_peer_id receipt) (rr_frame_id receipt)
                                   (rr_accepted_at_ms receipt)) in
             ret (MkSendOutcome i "relay_accepted" target RouteRelay (Some receipt)))
            (MkRouterWorld c net audit)) r s' (deliver target envelope timeout net).2 audit
    /\ settles i target s (deliver target envelope timeout net).1 r s'.
Proof using Hpub Hsource.
  intros HR Hi <- Hin. unfold bind at 1, deliver_within. rewrite Hpub. cbn [grpc_publisher deliver_task ro_net].
  destruct (deliver target envelope timeout net) as [answer net'] eqn:Hd. simpl.
  destruct answer as [[receipt|e]|]; [|by exists (Err e), s; split; [apply routes_here|]
    |by eexists _, s; split; [by apply routes_here|]].
  pose proof (delivered_receipt _ _ _ _ _ _ _ _ Hd Hi) as Hv. rewrite Hsource in Hv.
  destruct c as [d w]. destruct (record_receipt_sim violation d w s record encoded source target receipt)
    as (c' & Hrun & HR'); [done..|].
  eexists _, _. split; [|by split]. unfold bind, on_store. cbn [ro_store ro_net ro_audit_events].
  rewrite Hrun. by apply routes_here.
Qed.

Lemma normal_deadline envelope :
  0 <= te_deadline_ms envelope ->
  deadline_from_envelope envelope
  = Ok (if 0 <? te_deadline_ms envelope then Some (te_deadline_ms envelope) else None).
Proof using Type.
  intros H. unfold deadline_from_envelope. by rewrite (proj2 (Z.ltb_ge _ _) H).
Qed.

(** The state in which the task is delivered, if it is: the one that holds it,
    or the one after storing it. *)
Definition intends (s : InMemoryState) (record : TaskRecord) (encoded : bytes) (target : PeerId)
    (now_ms : Z) : Result InMemoryState RoutingError :=
  let? existing := intent_on s record encoded source target in
  if existing then Ok s
  else
    let (r, s1) := MemStore.accept_task_with_envelope_and_context record
                     (MkEnvelope (tr_id record) encoded now_ms)
                     (intended_context router (tr_id record) target now_ms) s in
    let? _ := map_err RoutingStore r in Ok s1.

Lemma intends_steps s record encoded target now_ms s1 :
  fresh_task record -> intends s record encoded target now_ms = Ok s1 -> steps s s1.
Proof using Type.
  intros Hf. unfold intends. destruct (intent_on _ _ _ _ _) as [[]|]; [by intros [= <-]| |done].
  destruct (MemStore.accept_task_with_envelope_and_context _ _ _ s) as [r s2] eqn:Ha.
  destruct r as [t|e]; simpl; [|done]. intros [= <-].
  eapply (run_op_steps (OpAcceptContext _ _ _) s (Ok (RTask t))); [exact Hf|].
  rewrite run_op_call. unfold reply, bind. simpl. by rewrite Ha.
Qed.

Lemma intends_intended s record encoded target now_ms s1 :
  intends s record encoded target now_ms = Ok s1 -> intended s1 record encoded source target.
Proof using Type.
  unfold intends. destruct (intent_on _ _ _ _ _) as [[]|] eqn:Hi; [|intros H|done].
  - intros [= <-]. by apply intent_on_true.
  - destruct (MemStore.accept_task_with_envelope_and_context _ _ _ s) as [r s2] eqn:Ha.
    eapply (accept_intent _ _ _ _ _ _ source target) in Ha; try done; [|by eapply intent_on_false].
    destruct r; [|done]. by injection H as <-.
Qed.

Lemma intends_again s record encoded target now_ms :
  intended s record encoded source target -> intends s record encoded target now_ms = Ok s.
Proof using Type. intros H%intent_on_true. unfold intends. by rewrite H. Qed.

Lemma intends_conflict s record encoded encoded' target now_ms :
  intended s record encoded source target -> encoded' <> encoded ->
  intends s record encoded' target now_ms
  = Err (RoutingStore (StoreError.TaskEnvelopeConflict (tr_id record))).
Proof using Type.
  intros [Ht (e & He & Hb) _] Hne. unfold intends, intent_on. rewrite Ht, He. simpl.
  rewrite bool_decide_true by done. simpl. rewrite bool_decide_false by congruence. done.
Qed.

Section send.
Context (target : PeerId) (envelope : TaskEnvelope) (timeout_ms : Z) (order : nat) (now_ms : Z).
Context (i : TaskId) (key : option IdempotencyKey).
Context (Hi : parse_envelope_task_id envelope = Ok i) (Hd : 0 <= te_deadline_ms envelope).
Context (Hkey : parse_envelope_idempotency_key envelope = Ok key).

Abbreviation record := (outgoing_record i envelope key).
Abbreviation answer := (deliver target (with_supported_features envelope)
                          (normalize_timeout timeout_ms (default_timeout_ms router))).

(** The run delivered from the state [s1]. *)
Definition settled_run (s1 : InMemoryState) (net : Net) (audit : list RoutingAuditEvent)
    (q : Result SendTaskOutcome RoutingError * RouterWorld (Net := Net)) : Prop :=
  exists r s', routes q r s' (answer net).2 audit /\ settles i target s1 (answer net).1 r s'.

Lemma remote_sim c net audit s :
  Rel (committed c) s -> Inv s ->
  match intends s record (outgoing_bytes order envelope) target now_ms with
  | Err e =>
      routes (send_remote_task violation router target i
                (if 0 <? te_deadline_ms envelope then Some (te_deadline_ms envelope) else None)
                envelope timeout_ms order now_ms (MkRouterWorld c net audit)) (Err e) s net audit
  | Ok s1 =>
      settled_run s1 net audit (send_remote_task violation router target i
                (if 0 <? te_deadline_ms envelope then Some (te_deadline_ms envelope) else None)
                envelope timeout_ms order now_ms (MkRouterWorld c net audit))
  end.
Proof using Hpub Hsource Hi Hkey.
  intros HR HI. unfold send_remote_task. rewrite Hpub. cbn [grpc_publisher is_configured negb].
  rewrite andb_false_r. change (parse_envelope_idempotency_key (with_supported_features envelope))
    with (parse_envelope_idempotency_key envelope). rewrite Hkey. cbn [map_err]. rewrite bind_lift_ok.
  pose proof (intent_sim router record (outgoing_bytes order envelope) target c net audit s HR) as Hsim.
  destruct (intends _ _ _ _ _) as [s1|e] eqn:Hint.
  - assert (Hin := intends_intended _ _ _ _ _ _ Hint). unfold intends in Hint.
    destruct (intent_on _ _ _ _ _) as [[]|]; [injection Hint as ->| |done].
    + eapply (routes_bind _ _ _ (settled_run s1 net audit)); [exact Hsim|].
      intros c1 HR1. cbv beta iota. rewrite bind_ret_l. by apply (settled i target _ _ record (outgoing_bytes order envelope)).
    + eapply (routes_bind _ _ _ (settled_run s1 net audit)); [exact Hsim|].
      intros [d1 w1] HR1. cbv beta iota. rewrite bind_assoc.
      pose proof (accept_context_sim violation d1 w1 s record
        (MkEnvelope i (outgoing_bytes order envelope) now_ms) (intended_context router i target now_ms)
        HR1 HI (proj1 (pending_new _ _ _))) as Ha. cbn [tr_id outgoing_record] in Hint.
      destruct (MemStore.accept_task_with_envelope_and_context _ _ _ s) as [[t|] s2] eqn:Hm; [|done].
      injection Hint as ->.
      apply (routes_store _ (fun _ => (Ok t, s1)) d1 w1 net audit s (Ok t) s1) in Ha; [|done].
      eapply (routes_bind _ _ _ (settled_run s1 net audit)); [exact Ha|].
      intros c2 HR2. cbv beta iota. rewrite bind_ret_l. by apply (settled i target _ _ record (outgoing_bytes order envelope)).
  - unfold intends in Hint. destruct (intent_on _ _ _ _ _) as [[]|] eqn:Hon; [done| |].
    + eapply (routes_bind _ _ _ (fun q => routes q _ _ _ _)); [exact Hsim|].
      intros [d1 w1] HR1.
      pose proof (accept_context_sim violation d1 w1 s record
        (MkEnvelope i (outgoing_bytes order envelope) now_ms) (intended_context router i target now_ms)
        HR1 HI (proj1 (pending_new _ _ _))) as Ha.
      destruct (MemStore.accept_task_with_envelope_and_context _ _ _ s) as [[t|e'] s2] eqn:Hm; [done|].
      injection Hint as <-.
      assert (s2 = s) as ->.
      { eapply (accept_intent _ _ _ _ _ _ source target) in Hm; try done. by eapply intent_on_false. }
      apply (routes_store _ (fun _ => (Err e', s)) d1 w1 net audit s (Err e') s) in Ha; [|done].
      cbv beta iota. rewrite bind_assoc. by apply routes_err.
    + injection Hint as ->. by apply routes_err.
Qed.

Definition the_event : RoutingAuditEvent := audit_event i target (evaluate (router_policy router) envelope).

Lemma allowed_remote c net audit :
  target <> source -> rd_permission (evaluate (router_policy router) envelope) = PermissionAllow ->
  send_task violation router target envelope timeout_ms order now_ms (MkRouterWorld c net audit)
  = send_remote_task violation router target i
      (if 0 <? te_deadline_ms envelope then Some (te_deadline_ms envelope) else None)
      envelope timeout_ms order now_ms (MkRouterWorld c net (audit ++ [the_event])).
Proof using Hi Hd.
  intros Ht Hp. unfold send_task. rewrite Hi, bind_lift_ok, normal_deadline, bind_lift_ok by done.
  cbv zeta. rewrite Hp, bool_decide_false by done. done.
Qed.

Lemma intends_error s encoded e :
  intends s record encoded target now_ms = Err e -> exists err, e = RoutingStore err.
Proof using Type.
  unfold intends. destruct (intent_on _ _ _ _ _) as [[]|e'] eqn:Hon; [done| |].
  - destruct (MemStore.accept_task_with_envelope_and_context _ _ _ s) as [[t|e'] s2]; simpl; [done|].
    intros [= <-]. by eexists.
  - intros [= <-]. unfold intent_on in Hon. destruct (tasks s !! _) as [t|]; [|done].
    case_bool_decide; simpl in Hon; [|injection Hon as <-; by eexists].
    destruct (envelopes s !! _); simpl in Hon; [|injection Hon as <-; by eexists].
    case_bool_decide; simpl in Hon; [|injection Hon as <-; by eexists].
    destruct (transport_contexts s !! _); simpl in Hon; [|injection Hon as <-; by eexists].
    destruct (_ && _); [done|]. injection Hon as <-. by eexists.
Qed.
End send.

Lemma set_context_steps s i t c :
  tasks s !! i = Some t -> tc_task_id c = i -> steps s (set_context i c s).
Proof using Type. intros. apply rtc_once. by eapply step_context. Qed.

Lemma settles_steps i target s answer r s' record encoded :
  tr_id record = i -> intended s record encoded source target -> settles i target s answer r s' ->
  steps s s' /\ intended s' record encoded source target.
Proof using Type.
  intros <- Hin. destruct answer as [[receipt|e]|]; simpl; [|by intros [_ ->]..].
  intros (_ & _ & ->). split; [|by apply intended_set_context].
  by eapply set_context_steps; [apply Hin|].
Qed.

(** The outcomes of a task for another peer. *)
Definition sent_or_refused (target : PeerId) (envelope : TaskEnvelope) (timeout_ms : Z) (order : nat)
    (s : InMemoryState) (net : Net) (r : Result SendTaskOutcome RoutingError) (s' : InMemoryState)
    (net' : Net) : Prop :=
  (s' = s /\ net' = net
   /\ forall o, r = Ok o -> so_route o = RouteAwaitingApproval
        /\ rd_permission (evaluate (router_policy router) envelope) = PermissionApprovalRequired)
  \/ (rd_permission (evaluate (router_policy router) envelope) = PermissionAllow
      /\ exists i key s1,
        parse_envelope_task_id envelope = Ok i /\ parse_envelope_idempotency_key envelope = Ok key
        /\ steps s s1
        /\ intended s1 (outgoing_record i envelope key) (outgoing_bytes order envelope) source target
        /\ let answered := deliver target (with_supported_features envelope)
                             (normalize_timeout timeout_ms (default_timeout_ms router)) net in
           net' = answered.2 /\ settles i target s1 answered.1 r s').

(** Every outcome of a task for another peer. *)
Lemma sends_or_refuses target envelope timeout_ms order now_ms c net audit s :
  target <> source -> Rel (committed c) s -> Inv s ->
  exists r s' net' audit',
    routes (send_task violation router target envelope timeout_ms order now_ms
              (MkRouterWorld c net audit)) r s' net' audit'
    /\ Inv s' /\ steps s s'
    /\ sent_or_refused target envelope timeout_ms order s net r s' net'.
Proof using Hpub Hsource.
  intros Ht HR HI.
  assert (Hrefused : forall r a, routes (send_task violation router target envelope timeout_ms order now_ms
              (MkRouterWorld c net audit)) r s net a ->
      (forall o, r = Ok o -> so_route o = RouteAwaitingApproval
        /\ rd_permission (evaluate (router_policy router) envelope) = PermissionApprovalRequired) ->
      exists r s' net' audit',
        routes (send_task violation router target envelope timeout_ms order now_ms
              (MkRouterWorld c net audit)) r s' net' audit'
        /\ Inv s' /\ steps s s' /\ sent_or_refused target envelope timeout_ms order s net r s' net').
  { intros r a Hr Ho. exists r, s, net, a. split_and!; try done. by left. }
  destruct (parse_envelope_task_id envelope) as [i|e] eqn:Hi.
  2: { eapply Hrefused; [unfold send_task; rewrite Hi; by apply routes_here|done]. }
  destruct (decide (te_deadline_ms envelope < 0)) as [Hneg|Hd].
  { eapply Hrefused; [unfold send_task, deadline_from_envelope;
      rewrite Hi, bind_lift_ok, (proj2 (Z.ltb_lt _ _) Hneg); by apply routes_here|done]. }
  destruct (rd_permission (evaluate (router_policy router) envelope)) eqn:Hp.
  2, 3: eapply Hrefused; [unfold send_task; rewrite Hi, bind_lift_ok, normal_deadline, bind_lift_ok by lia;
    cbv zeta; rewrite Hp; by apply routes_here|naive_solver].
  pose proof (allowed_remote target envelope timeout_ms order now_ms i Hi ltac:(lia) c net audit Ht Hp) as Hrun.
  destruct (parse_envelope_idempotency_key envelope) as [key|e] eqn:Hkey.
  2: { apply (Hrefused (Err (RoutingStore e)) (audit ++ [the_event target envelope i])); [|done].
    rewrite Hrun. unfold send_remote_task.
    rewrite Hpub. cbn [grpc_publisher is_configured negb]. rewrite andb_false_r.
    change (parse_envelope_idempotency_key (with_supported_features envelope))
      with (parse_envelope_idempotency_key envelope). rewrite Hkey. by apply routes_here. }
  pose proof (remote_sim target envelope timeout_ms order now_ms i key Hi Hkey c net
    (audit ++ [the_event target envelope i]) s HR HI) as Hsim.
  rewrite <- Hrun in Hsim. destruct (intends _ _ _ _ _) as [s1|e] eqn:Hint; [|by eapply Hrefused].
  destruct Hsim as (r & s' & Hr & Hset). pose proof (intends_intended _ _ _ _ _ _ Hint) as Hin.
  pose proof (intends_steps _ _ _ _ _ _ (proj1 (pending_new _ _ _)) Hint) as Hs1.
  destruct (settles_steps i target s1 _ r s' (outgoing_record i envelope key) _ eq_refl Hin Hset) as [Hs2 _].
  assert (steps s s') as Hs by (by etrans). eexists r, s', _, _. split; [exact Hr|].
  split; [by eapply Inv_steps|]. split; [done|]. right. split; [done|]. by exists i, key, s1.
Qed.

(** C8: nothing is sent that is not stored, and success is the relay's word.
    [send_task] for another peer, whatever the envelope, the policy, the store
    and the network: either it touches neither the store nor the network, and
    then it fails or the policy asks for an approval; or the policy allowed the
    task, and it was pending in the store, with its bytes and its transport
    context, before the relay was asked. Then the sender is told what the
    relay answered: a receipt that names this task, this node as the
    authenticated source, the target as the destination and a frame, which is
    recorded in the stored context; or the relay's error; or a timeout. After
    any of them the task is still stored as it was sent. *)
Theorem nothing_is_sent_unstored target envelope timeout_ms order now_ms c net audit s :
  target <> source -> Rel (committed c) s -> Inv s ->
  exists r s' net' audit',
    routes (send_task violation router target envelope timeout_ms order now_ms
              (MkRouterWorld c net audit)) r s' net' audit'
    /\ Inv s' /\ steps s s'
    /\ sent_or_refused target envelope timeout_ms order s net r s' net'.
Proof using Hpub Hsource. apply sends_or_refuses. Qed.

(** C32: sending again after a timeout works by luck. The first attempt got no
    answer in time, so the sender cannot know whether the relay has the task;
    the stored intent is there for the retry. Sent again, whatever the first
    attempt did to the network: if the envelope's hash maps happen to be
    iterated over in an order that gives the same bytes, the relay is asked
    again and its answer settles the task that is stored; if they give other
    bytes, the same envelope is refused with TaskEnvelopeConflict and the
    relay is not asked. *)
Theorem retry_depends_on_the_encoding target envelope timeout_ms order now_ms timeout_ms' order' now_ms'
    c net audit s i key :
  target <> source -> Rel (committed c) s -> Inv s ->
  parse_envelope_task_id envelope = Ok i -> 0 <= te_deadline_ms envelope ->
  parse_envelope_idempotency_key envelope = Ok key ->
  rd_permission (evaluate (router_policy router) envelope) = PermissionAllow ->
  let first := send_task violation router target envelope timeout_ms order now_ms
                 (MkRouterWorld c net audit) in
  first.1 = Err (RoutingTimeout (as_str target)) ->
  exists s1,
    Rel (committed (ro_store first.2)) s1
    /\ intended s1 (outgoing_record i envelope key) (outgoing_bytes order envelope) source target
    /\ let again := send_task violation router target envelope timeout_ms' order' now_ms' first.2 in
       if bool_decide (outgoing_bytes order' envelope = outgoing_bytes order envelope)
       then exists r s',
         let answered := deliver target (with_supported_features envelope)
                           (normalize_timeout timeout_ms' (default_timeout_ms router)) (ro_net first.2) in
         routes again r s' answered.2 (ro_audit_events first.2 ++ [the_event target envelope i])
         /\ settles i target s1 answered.1 r s'
       else
         routes again (Err (RoutingStore (StoreError.TaskEnvelopeConflict i))) s1 (ro_net first.2)
           (ro_audit_events first.2 ++ [the_event target envelope i]).
Proof using Hpub Hsource.
  intros Ht HR HI Hi Hd Hkey Hp first Hfirst. subst first.
  rewrite (allowed_remote target envelope timeout_ms order now_ms i Hi Hd c net audit Ht Hp) in *.
  pose proof (remote_sim target envelope timeout_ms order now_ms i key Hi Hkey c net
    (audit ++ [the_event target envelope i]) s HR HI) as Hsim.
  destruct (intends _ _ _ _ _) as [s1|e] eqn:Hint.
  2: { destruct Hsim as [He _]. rewrite Hfirst in He. injection He as <-.
    by destruct (intends_error _ _ _ _ _ _ _ _ Hint). }
  destruct Hsim as (r & s' & (Hr & HR1 & Hnet & Haudit) & Hset). rewrite Hfirst in Hr. subst r.
  pose proof (intends_intended _ _ _ _ _ _ Hint) as Hin.
  pose proof (intends_steps _ _ _ _ _ _ (proj1 (pending_new _ _ _)) Hint) as Hs1.
  destruct (settles_steps i target s1 _ _ s' (outgoing_record i envelope key) _ eq_refl Hin Hset) as [Hs2 Hin'].
  exists s'. split; [done|]. split; [done|]. cbv zeta.
  destruct (send_remote_task _ _ _ _ _ _ _ _ _ _) as [? [c1 net1 audit1]]. simpl in *. subst.
  rewrite (allowed_remote target envelope timeout_ms' order' now_ms' i Hi Hd c1 _ _ Ht Hp).
  pose proof (remote_sim target envelope timeout_ms' order' now_ms' i key Hi Hkey c1
    (deliver target (with_supported_features envelope)
       (normalize_timeout timeout_ms (default_timeout_ms router)) net).2
    ((audit ++ [the_event target envelope i]) ++ [the_event target envelope i]) s' HR1) as Hagain.
  case_bool_decide as Hb.
  - rewrite Hb, (intends_again _ _ _ _ _ Hin') in Hagain. apply Hagain. eapply Inv_steps; [done|by etrans].
  - rewrite (intends_conflict _ _ _ _ _ _ Hin' Hb) in Hagain. apply Hagain.
    eapply Inv_steps; [done|by etrans].
Qed.
End remote.

(** ** A network that answers from a list *)

#[local] Instance scripted : RelayNetwork (list (option (Result PublishTaskResponse Status))) := {
  metadata_text _ := true;
  invalid_metadata := "";
  code_text _ := "";
  connect_relay _ net := (Some (Ok tt), net);
  call_publish_task _ _ _ net := match net with [] => (None, []) | a :: net => (a, net) end;
}.

Definition sample_publisher : GrpcRelayTaskPublisher :=
  MkGrpcPublisher "http://localhost:7000" peer_a (Some "token-a"%string).
Definition sample_router : TaskRouter :=
  MkRouter (new_directory peer_a) (grpc_publisher sample_publisher) default_policy 30000.
Definition sample_answer : PublishTaskResponse :=
  MkPublishedTask (Some (MkProtoId "task-a")) "frame-1" "peer-a" "peer-b" "relay" 500.
Definition sample_receipt : RelayRouteReceipt := MkRouteReceipt task_a "frame-1" peer_a peer_b "relay" 500.
Definition empty_conn : Conn := MkConn empty_db empty_db.

Lemma nothing_is_sent_unstored_witness :
  (send_task "" sample_router peer_b sample_envelope 0 0 100
     (MkRouterWorld empty_conn [Some (Ok sample_answer)] [])).1
  = Ok (MkSendOutcome task_a "relay_accepted" peer_b RouteRelay (Some sample_receipt))
  /\ exists r s' net' audit',
    routes (send_task "" sample_router peer_b sample_envelope 0 0 100
              (MkRouterWorld empty_conn [Some (Ok sample_answer)] [])) r s' net' audit'
    /\ Inv s' /\ steps empty_state s'
    /\ sent_or_refused sample_router sample_publisher peer_b sample_envelope 0 0 empty_state
         [Some (Ok sample_answer)] r s' net'.
Proof.
  split; [vm_compute; reflexivity|].
  exact (nothing_is_sent_unstored "" sample_router sample_publisher eq_refl eq_refl peer_b sample_envelope
           0 0 100 empty_conn [Some (Ok sample_answer)] [] empty_state
           (fun H => ltac:(discriminate H)) Rel_empty Inv_empty).
Defined.

(** Another order of the hash maps: the retry is refused. *)
Lemma retry_depends_on_the_encoding_witness :
  exists s1 net audit,
    routes (send_task "" sample_router peer_b sample_envelope 0 1 200
              (send_task "" sample_router peer_b sample_envelope 0 0 100
                 (MkRouterWorld empty_conn [None; Some (Ok sample_answer)] [])).2)
      (Err (RoutingStore (StoreError.TaskEnvelopeConflict task_a))) s1 net audit.
Proof.
  assert (Hkey : exists key, parse_envelope_idempotency_key sample_envelope = Ok key) by (eexists; vm_compute; reflexivity).
  destruct Hkey as [key Hkey].
  destruct (retry_depends_on_the_encoding "" sample_router sample_publisher eq_refl eq_refl peer_b
    sample_envelope 0 0 100 0 1 200 empty_conn [None; Some (Ok sample_answer)] [] empty_state task_a key
    (fun H => ltac:(discriminate H)) Rel_empty Inv_empty ltac:(vm_compute; reflexivity) ltac:(vm_compute; discriminate)
    Hkey ltac:(vm_compute; reflexivity) ltac:(vm_compute; reflexivity)) as (s1 & _ & _ & H).
  rewrite bool_decide_false in H by (vm_compute; discriminate). eexists _, _, _. exact H.
Defined.
