(* ===== verification/RelayNode.v ===== *)
(** * The edge node

    keryx-relay/src/node.rs: the process next to a daemon that keeps a stream
    to the relay open. It hands the frames of the stream to the daemon or to
    the installed control handlers and settles them with the relay, carries
    the daemon's results out, and reconnects with a growing, jittered delay.
    The daemon and the relay it calls, over connections that may fail, are the
    class [EdgePeers]; the installed control handlers are parameters. *)
From S2P Require Import Prelude Ident Text StoreModel Wire Rpc RelayRuntime RelayMessages RelayService.
From stdpp Require Import options.
#[local] Open Scope Z_scope.

(** ** Delays *)

(** Durations are in nanoseconds; those that occur are far below
    [Duration::MAX], where [saturating_mul] would stop. *)
Definition MILLISECOND : Z := 1000000.
Definition DURATION_MAX : Z := 18446744073709551615 * 1000000000 + 999999999.
Definition duration_saturating_mul (d n : Z) : Z := Z.min (d * n) DURATION_MAX.

Definition RELAY_RECONNECT_INITIAL_DELAY : Z := 250 * MILLISECOND.
Definition RELAY_RECONNECT_MAX_DELAY : Z := 5000 * MILLISECOND.

Record RelayReconnectPolicy : Type := MkReconnect {
  initial_delay : Z;
  max_delay : Z;
  jitter_seed : Z;
}.

Definition default_reconnect (seed : Z) : RelayReconnectPolicy :=
  MkReconnect RELAY_RECONNECT_INITIAL_DELAY RELAY_RECONNECT_MAX_DELAY seed.

Definition next_reconnect_delay (current maximum : Z) : Z :=
  Z.min (duration_saturating_mul current 2) maximum.

(** FNV-1a over the bytes. *)
Definition stable_jitter_seed (value : string) : Z :=
  foldl (fun hash byte => as_u64 (Z.lxor hash (byte_of byte) * 0x100000001b3))
    0xcbf29ce484222325 (bytes_of value).

Definition jittered_delay (base maximum seed attempt : Z) : Z :=
  let mixed := as_u64 (as_u64 (seed + as_u64 (attempt * 0x9e3779b97f4a7c15)) * 0xbf58476d1ce4e5b9) in
  let percent := 80 + mixed mod 41 in
  Z.min (duration_saturating_mul base percent / 100) maximum.

(** ** The supervisor *)

(** What happens to a run of the stream, and to the sleep after it. *)
Inductive RunEnd : Type := RunEnded | ShutdownInRun.
Inductive SleepEnd : Type := Slept | ShutdownInSleep.

(** The delays slept, for the rounds that happen; a round is a run and the
    sleep after it. *)
Fixpoint supervise (policy : RelayReconnectPolicy) (delay retry_attempt : Z)
    (rounds : list (RunEnd * SleepEnd)) : list Z :=
  match rounds with
  | [] | (ShutdownInRun, _) :: _ => []
  | (RunEnded, slept) :: rounds =>
      let sleep_delay := jittered_delay delay (max_delay policy) (jitter_seed policy) retry_attempt in
      sleep_delay ::
        match slept with
        | ShutdownInSleep => []
        | Slept => supervise policy (next_reconnect_delay delay (max_delay policy))
                     (u32_saturating_add retry_attempt 1) rounds
        end
  end.

Definition supervise_relay_stream (policy : RelayReconnectPolicy) (rounds : list (RunEnd * SleepEnd))
    : list Z :=
  supervise policy (Z.min (initial_delay policy) (max_delay policy)) 0 rounds.

(** ** Control handlers *)

Record AuthenticatedDirectContext : Type := MkDirectContext {
  dc_authenticated_source_node_id : string;
  dc_destination_node_id : string;
  dc_relay_frame_id : string;
}.

Definition from_authenticated_relay_frame (frame : Frame) : AuthenticatedDirectContext :=
  MkDirectContext (authenticated_source_node_id frame) (destination_node_id frame) (frame_id frame).

(** What a handler answers: an error, or nothing within its time. *)
Inductive Handled (R : Type) : Type := Answered (r : R) | HandlerFailed | TimedOut.
Arguments Answered {R} r.
Arguments HandlerFailed {R}.
Arguments TimedOut {R}.

Abbreviation Handler Op R := (AuthenticatedDirectContext -> Op -> Handled R).

Record DirectControlHandlers : Type := MkHandlers {
  h_bind_v1 : option (Handler NodescaleIdentityBindV1 NodescaleIdentityBindResult);
  h_bind_v2 : option (Handler NodescaleIdentityBindV2 NodescaleIdentityBindResult);
  h_challenge_v1 : option (Handler NodescaleIdentityChallengeV1 NodescaleIdentityChallengeResult);
  h_challenge_v2 : option (Handler NodescaleIdentityChallengeV2 NodescaleIdentityChallengeResult);
  h_fleet : option (Handler FleetObservationPublishV1 FleetObservationPublishResultV1);
}.

(** The checks of the five dispatch functions, then the installed handler. *)
Definition dispatch {Op R} (handler : option (Handler Op R)) (required : Op -> bool)
    (context : AuthenticatedDirectContext) (operation : Op) : Handled R :=
  if negb (blank (dc_authenticated_source_node_id context))
     && negb (blank (dc_destination_node_id context))
     && negb (blank (dc_relay_frame_id context))
     && required operation
  then match handler with
       | Some handle => handle context operation
       | None => HandlerFailed
       end
  else HandlerFailed.

Definition dispatch_fleet_observation_publish (h : DirectControlHandlers) :=
  dispatch (h_fleet h) (fun op => is_some (fp_request op)).
Definition dispatch_nodescale_identity_bind_v1 (h : DirectControlHandlers) :=
  dispatch (h_bind_v1 h) (fun op => negb (blank (b1_operation_id op))).
Definition dispatch_nodescale_identity_bind_v2 (h : DirectControlHandlers) :=
  dispatch (h_bind_v2 h) (fun op => negb (blank (b2_operation_id op)) && negb (blank (b2_provider_binding_id op))).
Definition dispatch_nodescale_identity_challenge_v1 (h : DirectControlHandlers) :=
  dispatch (h_challenge_v1 h) (fun op => negb (blank (c1_operation_id op))).
Definition dispatch_nodescale_identity_challenge_v2 (h : DirectControlHandlers) :=
  dispatch (h_challenge_v2 h)
    (fun op => negb (blank (c2_operation_id op)) && negb (blank (c2_provider_binding_id op))).

Inductive LocalTypedControlDispatch : Type :=
| DispatchBind (r : NodescaleIdentityBindResult)
| DispatchChallenge (r : NodescaleIdentityChallengeResult)
| DispatchFleet (r : FleetObservationPublishResultV1).

Definition map_handled {A B} (f : A -> B) (h : Handled A) : Handled B :=
  match h with Answered a => Answered (f a) | HandlerFailed => HandlerFailed | TimedOut => TimedOut end.

(** The payload of the kind its field holds. *)
Definition bind_v1_of (frame : Frame) : option NodescaleIdentityBindV1 :=
  match nodescale_identity_bind_v1 frame with Some (MBindV1 m) => Some m | _ => None end.
Definition bind_v2_of (frame : Frame) : option NodescaleIdentityBindV2 :=
  match nodescale_identity_bind_v2 frame with Some (MBindV2 m) => Some m | _ => None end.
Definition challenge_v1_of (frame : Frame) : option NodescaleIdentityChallengeV1 :=
  match nodescale_identity_challenge_v1 frame with Some (MChallengeV1 m) => Some m | _ => None end.
Definition challenge_v2_of (frame : Frame) : option NodescaleIdentityChallengeV2 :=
  match nodescale_identity_challenge_v2 frame with Some (MChallengeV2 m) => Some m | _ => None end.
Definition fleet_of (frame : Frame) : option FleetObservationPublishV1 :=
  match fleet_observation_publish_v1 frame with Some (MFleet m) => Some m | _ => None end.
Definition task_of (frame : Frame) : option TaskEnvelope :=
  match task frame with Some (MTask m) => Some m | _ => None end.
Definition result_of (frame : Frame) : option TaskResultEnvelope :=
  match result frame with Some (MResult m) => Some m | _ => None end.

(** [None] for a frame that carries no typed control. *)
Definition dispatch_relay_typed_control_for_local (h : DirectControlHandlers) (frame : Frame)
    : option (Handled LocalTypedControlDispatch) :=
  let context := from_authenticated_relay_frame frame in
  match fleet_of frame with
  | Some op => Some (map_handled DispatchFleet (dispatch_fleet_observation_publish h context op))
  | None =>
  match challenge_v2_of frame with
  | Some op => Some (map_handled DispatchChallenge (dispatch_nodescale_identity_challenge_v2 h context op))
  | None =>
  match challenge_v1_of frame with
  | Some op => Some (map_handled DispatchChallenge (dispatch_nodescale_identity_challenge_v1 h context op))
  | None =>
  match bind_v2_of frame with
  | Some op => Some (map_handled DispatchBind (dispatch_nodescale_identity_bind_v2 h context op))
  | None =>
  match bind_v1_of frame with
  | Some op => Some (map_handled DispatchBind (dispatch_nodescale_identity_bind_v1 h context op))
  | None => None
  end end end end end.

Definition direct_control_rejection (is_challenge is_fleet_observation timed_out : bool)
    : LocalTypedControlDispatch :=
  let reason := if timed_out then "direct-control handler timed out" else "direct-control handler failed" in
  let code := if timed_out then "handler_timeout" else "handler_failed" in
  if is_challenge then DispatchChallenge (MkChallengeResult 2 false "" "" 0 0 reason code)
  else if is_fleet_observation then DispatchFleet (MkFleetResult 4 false None reason code)
  else DispatchBind (MkBindResult 3 false "" 0 0 reason code).

(** ** Calls to the daemon and to the relay *)

Inductive NodeError : Type :=
| NodePayloadCount | NodeWrongDestination | NodeNoDaemon | NodeDaemonUnavailable | NodeNoPayload
| NodeBadMetadata | NodeRelayUnavailable
| NodeDaemonRefused (s : Status) | NodeRelayRefused (s : Status).

(** Connections are made or not; a call is answered with a status also when its
    transport fails; a call within a time may not be answered. *)
Class EdgePeers (Net : Type) : Type := {
  valid_metadata : string -> bool;
  relay_connect : Net -> bool * Net;
  relay_call : RelayRequest -> Net -> Result RelayReply Status * Net;
  relay_call_within : Z -> RelayRequest -> Net -> option (Result RelayReply Status) * Net;
  daemon_connect : Net -> bool * Net;
  daemon_submit_remote_task : string -> SubmitRemoteTaskRequest -> Net -> Result SubmitTaskResponse Status * Net;
  daemon_ingest_remote_result : string -> IngestRemoteResultRequest -> Net
    -> Result IngestRemoteResultResponse Status * Net;
  daemon_claim_next_result_delivery : string -> ClaimNextResultDeliveryRequest -> Net
    -> Result ClaimNextResultDeliveryResponse Status * Net;
  daemon_ack_result_delivery : string -> AckResultDeliveryRequest -> Net -> Result unit Status * Net;
  daemon_fail_result_delivery : string -> FailResultDeliveryRequest -> Net -> Result unit Status * Net;
}.

Definition DIRECT_CONTROL_COMPLETION_TIMEOUT_MS : Z := 5000.

Record EdgeNode : Type := MkEdgeNode {
  registry_peer_id : string;
  node_token : option string;
  has_daemon_endpoint : bool;
  daemon_token : option string;
  control_handlers : DirectControlHandlers;
}.

Section node.
Context {Net : Type} `{EdgePeers Net}.
Context (n : EdgeNode).

Abbreviation N := (ST Net NodeError).

Definition add_node_auth_metadata : Result RequestHeaders NodeError :=
  if negb (valid_metadata (registry_peer_id n)) then Err NodeBadMetadata
  else match node_token n with
       | None => Ok (MkHeaders (HeaderText (registry_peer_id n)) Absent)
       | Some token =>
           if valid_metadata token
           then Ok (MkHeaders (HeaderText (registry_peer_id n)) (HeaderText token))
           else Err NodeBadMetadata
       end.

(** The token of [DaemonTokenInterceptor]. *)
Definition daemon_authorization : Result string NodeError :=
  let? token := ok_or (daemon_token n) NodeDaemonUnavailable in
  if valid_metadata ("Bearer " +:+ token) then Ok ("Bearer " +:+ token) else Err NodeDaemonUnavailable.

Definition connected (connect : Net -> bool * Net) (e : NodeError) : N unit := fun net =>
  let (b, net) := connect net in (if b then Ok tt else Err e, net).

(** A call over an open channel; the token goes with it. *)
Definition to_relay (request : RequestHeaders -> RelayRequest) : N RelayReply :=
  let! headers := lift add_node_auth_metadata in
  fun net => let (answer, net) := relay_call (request headers) net in (map_err NodeRelayRefused answer, net).

(** [connect_authenticated_daemon]. *)
Definition connect_authenticated_daemon : N string :=
  connected daemon_connect NodeDaemonUnavailable ;;; lift daemon_authorization.

Definition to_daemon {A} (call : Net -> Result A Status * Net) : N A := fun net =>
  let (answer, net) := call net in (map_err NodeDaemonRefused answer, net).

(** ** The stream *)

Definition validate_relay_frame_exactly_one_payload (frame : Frame) : Result unit NodeError :=
  if has_exactly_one_relay_payload frame then Ok tt else Err NodePayloadCount.

(** A handler that fails or is too slow makes a rejection. *)
Definition dispatch_relay_typed_control_for_local_bounded (frame : Frame)
    : Result (option LocalTypedControlDispatch) NodeError :=
  let? _ := validate_relay_frame_exactly_one_payload frame in
  let is_challenge := is_some (nodescale_identity_challenge_v1 frame)
                      || is_some (nodescale_identity_challenge_v2 frame) in
  let is_bind := is_some (nodescale_identity_bind_v1 frame)
                 || is_some (nodescale_identity_bind_v2 frame) in
  let is_fleet_observation := is_some (fleet_observation_publish_v1 frame) in
  if negb is_challenge && negb is_bind && negb is_fleet_observation then Ok None
  else if negb (bool_decide (destination_node_id frame = registry_peer_id n))
  then Err NodeWrongDestination
  else
    match dispatch_relay_typed_control_for_local (control_handlers n) frame with
    | None => Ok None
    | Some (Answered dispatch) => Ok (Some dispatch)
    | Some HandlerFailed => Ok (Some (direct_control_rejection is_challenge is_fleet_observation false))
    | Some TimedOut => Ok (Some (direct_control_rejection is_challenge is_fleet_observation true))
    end.

Definition completion_request (headers : RequestHeaders) (frame_id : string)
    (dispatch : LocalTypedControlDispatch) : RelayRequest :=
  match dispatch with
  | DispatchChallenge result => CompleteChallengeRpc headers frame_id (Some result)
  | DispatchBind result => CompleteBindRpc headers frame_id (Some result)
  | DispatchFleet result => CompleteFleetRpc headers frame_id (Some result)
  end.

Definition complete_local_typed_control (frame_id : string) (dispatch : LocalTypedControlDispatch) : N unit :=
  let! headers := lift add_node_auth_metadata in
  let request := completion_request headers frame_id dispatch in
  fun net =>
    let (answer, net) := relay_call_within DIRECT_CONTROL_COMPLETION_TIMEOUT_MS request net in
    (match answer with
     | Some (Ok _) => Ok tt
     | Some (Err status) => Err (NodeRelayRefused status)
     | None => Err NodeRelayUnavailable
     end, net).

(** The daemon's part: a task or a result. *)
Definition hand_to_daemon (frame : Frame) : N unit :=
  if negb (has_daemon_endpoint n) then throw NodeNoDaemon else
  let! authorization := connect_authenticated_daemon in
  match task_of frame, result_of frame with
  | Some task, _ =>
      let! _ := to_daemon (daemon_submit_remote_task authorization
        (MkSubmitRemote (Some task) (authenticated_source_node_id frame)
           (destination_node_id frame) (frame_id frame))) in
      ret tt
  | None, Some result =>
      let! _ := to_daemon (daemon_ingest_remote_result authorization
        (MkIngest (Some result) (authenticated_source_node_id frame)
           (destination_node_id frame) (frame_id frame))) in
      ret tt
  | None, None => throw NodeNoPayload
  end.

(** The body of the loop of [run_relay_stream_with_direct_control_handlers]. *)
Definition handle_frame (frame : Frame) : N unit :=
  let! dispatched := lift (dispatch_relay_typed_control_for_local_bounded frame) in
  match dispatched with
  | Some dispatch => complete_local_typed_control (frame_id frame) dispatch
  | None =>
      hand_to_daemon frame ;;;
      connected relay_connect NodeRelayUnavailable ;;;
      let! _ := to_relay (fun headers => AckFrameRpc headers (frame_id frame)) in
      ret tt
  end.

(** One run of the stream, given the frames it brings until it closes. *)
Definition run_relay_stream (to : StreamSender) (frames : list Frame) : N unit :=
  connected relay_connect NodeRelayUnavailable ;;;
  let! _ := to_relay (fun headers => ConnectNodeRpc headers to) in
  for_each handle_frame frames.

(** ** Results out *)

Definition MAX_RESULT_DELIVERY_ATTEMPTS : Z := 10.

Definition publish_result_failure_is_permanent (c : Code) : bool :=
  match c with
  | InvalidArgument | Unauthenticated | PermissionDenied | NotFound | AlreadyExists
  | FailedPrecondition | OutOfRange | Unimplemented | DataLoss => true
  | _ => false
  end.

Definition result_delivery_failure_should_dead_letter (c : Code) (attempt_count : Z) : bool :=
  publish_result_failure_is_permanent c
  || (MAX_RESULT_DELIVERY_ATTEMPTS <=? u32_saturating_add attempt_count 1).

Definition result_delivery_retry_delay_ms (delivery_id : string) (attempt_count : Z) : Z :=
  let MAX_DELAY_MS := 60000 in
  let multiplier := Z.shiftl 1 (Z.min attempt_count 6) in
  let base_ms := Z.min (Z.min (1000 * multiplier) i64_max) MAX_DELAY_MS in
  jittered_delay (base_ms * MILLISECOND) (MAX_DELAY_MS * MILLISECOND)
    (stable_jitter_seed delivery_id) attempt_count / MILLISECOND.

(** One tick of [run_result_delivery_worker_with_retry_delay]. *)
Definition delivery_tick (retry_delay_ms : string -> Z -> Z) (authorization : string) : N unit :=
  let delivery_worker := "edge-" +:+ registry_peer_id n in
  let! delivery := to_daemon (daemon_claim_next_result_delivery authorization
                                (MkClaimDelivery delivery_worker 30000)) in
  if negb (nd_has_delivery delivery) then ret tt
  else
    let! headers := lift add_node_auth_metadata in
    let publish_request := MkPublishResult (nd_result delivery) (nd_target_peer_id delivery)
                             (registry_peer_id n) in
    let! published := fun net =>
      let (answer, net) := relay_call (PublishResultRpc headers publish_request) net in (Ok answer, net) in
    match published with
    | Ok _ =>
        to_daemon (daemon_ack_result_delivery authorization
          (MkAckDelivery (nd_delivery_id delivery) delivery_worker (nd_lease_expires_at_ms delivery)))
    | Err error =>
        to_daemon (daemon_fail_result_delivery authorization
          (MkFailDelivery (nd_delivery_id delivery) delivery_worker (message error)
             (retry_delay_ms (nd_delivery_id delivery) (nd_attempt_count delivery))
             (result_delivery_failure_should_dead_letter (code error) (nd_attempt_count delivery))
             (nd_lease_expires_at_ms delivery)))
    end.

Definition run_result_delivery_worker (ticks : nat) : N unit :=
  connected relay_connect NodeRelayUnavailable ;;;
  let! authorization := connect_authenticated_daemon in
  for_each (fun _ => delivery_tick result_delivery_retry_delay_ms authorization) (seq 0 ticks).
End node.

(** ** Registration *)

(** The features that a node registers, once, when it starts. *)
Definition node_protocol_features (daemon_task_consumer : bool) (h : DirectControlHandlers) : list string :=
  (["absolute_deadlines_v1"%string; "result_artifact_bytes_v1"%string]
   ++ (if daemon_task_consumer then ["daemon_task_consumer_v1"%string] else [])
   ++ (if h_bind_v1 h then ["nodescale_identity_bind_v1"%string] else [])
   ++ (if h_challenge_v1 h then ["nodescale.identity.challenge.v1"%string] else [])
   ++ (if h_bind_v2 h then ["nodescale_identity_bind_v2"%string] else [])
   ++ (if h_challenge_v2 h then ["nodescale.identity.challenge.v2"%string] else [])
   ++ (if h_fleet h then ["fleet.observation.publish.v1"%string] else []))%list.
