(* ===== verification/RelayNodeFacts.v ===== *)
(** * What the edge node does

    Its delays stay within their bounds, and every frame that the relay keeps
    for it is settled by what it does with the frame. *)
From S2P Require Import Prelude Ident StoreModel Samples WireSamples Policy Security Registry Wire RelayRuntime RelayInv RelayDelivery RelayTrace RelayMessages RelayService RelayLogic RelayServiceFacts RelayAlone RelayNode.
From stdpp Require Import options.
#[local] Open Scope Z_scope.

(** ** Delays *)

Lemma jittered_within base maximum seed attempt :
  0 <= base -> base * 120 <= DURATION_MAX ->
  Z.min (base * 80 / 100) maximum <= jittered_delay base maximum seed attempt
    <= Z.min (base * 120 / 100) maximum.
Proof.
  intros Hb Hd. unfold jittered_delay, duration_saturating_mul.
  set (percent := 80 + _ mod 41).
  assert (80 <= percent <= 120) as Hp.
  { unfold percent. pose proof (Z.mod_pos_bound
      (as_u64 (as_u64 (seed + as_u64 (attempt * 11400714819323198485)) * 13787848793156543929)) 41). lia. }
  rewrite (Z.min_l (base * percent)) by nia.
  pose proof (Z.div_le_mono (base * 80) (base * percent) 100).
  pose proof (Z.div_le_mono (base * percent) (base * 120) 100). nia.
Qed.

(** The delay before jitter of the [k]th reconnection. *)
Definition backoff (policy : RelayReconnectPolicy) (k : nat) : Z :=
  Z.min (initial_delay policy * 2 ^ Z.of_nat k) (max_delay policy).

(** A policy whose delays a [Duration] can hold. *)
Record sensible (policy : RelayReconnectPolicy) : Prop := {
  se_initial : 0 <= initial_delay policy;
  se_max : 0 <= max_delay policy;
  se_range : max_delay policy * 120 <= DURATION_MAX;
}.

Lemma backoff_next policy k : sensible policy ->
  next_reconnect_delay (backoff policy k) (max_delay policy) = backoff policy (S k).
Proof.
  intros [Hi Hm Hr]. unfold next_reconnect_delay, duration_saturating_mul, backoff.
  rewrite Nat2Z.inj_succ, Z.pow_succ_r by lia. pose proof (Z.pow_pos_nonneg 2 (Z.of_nat k)).
  unfold DURATION_MAX in *. nia.
Qed.

Lemma supervise_delay policy (Hs : sensible policy) rounds : forall k0 attempt k d,
  supervise policy (backoff policy k0) attempt rounds !! k = Some d ->
  let base := backoff policy (k0 + k) in
  Z.min (base * 80 / 100) (max_delay policy) <= d <= Z.min (base * 120 / 100) (max_delay policy).
Proof.
  induction rounds as [|[run slept] rounds IH]; intros k0 attempt k d; [done|].
  destruct run; [|done]. cbn [supervise]. destruct k as [|k]; cbn [lookup list_lookup].
  - intros [= <-]. rewrite Nat.add_0_r. apply jittered_within; destruct Hs; unfold backoff.
    + pose proof (Z.pow_pos_nonneg 2 (Z.of_nat k0)). nia.
    + lia.
  - destruct slept; [|done]. rewrite (backoff_next policy k0 Hs). intros H.
    replace (k0 + S k)%nat with (S k0 + k)%nat by lia. exact (IH _ _ _ _ H).
Qed.

(** The attempts of a result delivery wait for this long before jitter. *)
Definition retry_backoff_ms (attempt_count : Z) : Z :=
  Z.min (1000 * 2 ^ Z.min attempt_count 6) 60000.

Lemma retry_backoff_cases attempt_count : 0 <= attempt_count ->
  let base := Z.min (Z.min (1000 * Z.shiftl 1 (Z.min attempt_count 6)) i64_max) 60000 in
  base = retry_backoff_ms attempt_count /\ 1000 <= base <= 60000
  /\ exists c, base = 1000 * c.
Proof.
  intros Ha base. unfold base, retry_backoff_ms.
  assert (Z.min attempt_count 6 ∈ [0; 1; 2; 3; 4; 5; 6]) as Hin.
  { rewrite !elem_of_cons. lia. }
  rewrite !elem_of_cons, elem_of_nil in Hin.
  destruct Hin as [-> | [-> | [-> | [-> | [-> | [-> | [-> | []]]]]]]];
    (split; [reflexivity|]; split; [vm_compute; by split|]);
    [by exists 1|by exists 2|by exists 4|by exists 8|by exists 16|by exists 32|by exists 60].
Qed.

(** C30: delays are bounded. Whatever the runs of the stream do, the [k]th sleep
    of the supervisor lasts between 80 and 120 percent of the initial delay
    doubled [k] times, and never more than the maximum: with the default
    policy between 200 ms and 5 s. It only depends on how often the stream
    ended, not on how long it held. The delay before a result is published
    again is between 80 and 120 percent of a second doubled with each attempt,
    at most a minute. *)
Theorem reconnect_delays_are_bounded :
  (forall policy rounds k d, sensible policy ->
     supervise_relay_stream policy rounds !! k = Some d ->
     let base := backoff policy k in
     Z.min (base * 80 / 100) (max_delay policy) <= d <= Z.min (base * 120 / 100) (max_delay policy))
  /\ (forall seed rounds k d,
     supervise_relay_stream (default_reconnect seed) rounds !! k = Some d ->
     200 * MILLISECOND <= d <= RELAY_RECONNECT_MAX_DELAY)
  /\ (forall delivery_id attempt_count, 0 <= attempt_count ->
     let base := retry_backoff_ms attempt_count in
     base * 80 / 100 <= result_delivery_retry_delay_ms delivery_id attempt_count
       <= Z.min (base * 120 / 100) 60000).
Proof.
  assert (Hall : forall policy rounds k d, sensible policy ->
     supervise_relay_stream policy rounds !! k = Some d ->
     let base := backoff policy k in
     Z.min (base * 80 / 100) (max_delay policy) <= d <= Z.min (base * 120 / 100) (max_delay policy)).
  { intros policy rounds k d Hs H. apply (supervise_delay policy Hs rounds 0 0 k d).
    unfold backoff. by rewrite Z.pow_0_r, Z.mul_1_r. }
  split; [exact Hall|]. split.
  - intros seed rounds k d H. apply Hall in H; [|by split]. unfold backoff in H. simpl in H.
    pose proof (Z.pow_pos_nonneg 2 (Z.of_nat k)).
    unfold RELAY_RECONNECT_INITIAL_DELAY, RELAY_RECONNECT_MAX_DELAY, MILLISECOND in *.
    pose proof (Z.div_le_mono (250000000 * 80) (Z.min (250 * 1000000 * 2 ^ Z.of_nat k) (5000 * 1000000) * 80) 100).
    change (250000000 * 80 / 100) with 200000000 in *. lia.
  - intros id n Hn. destruct (retry_backoff_cases n Hn) as (Hbase & Hr & c & Hc).
    unfold result_delivery_retry_delay_ms. simpl in Hbase, Hr, Hc |- *. rewrite Hbase in *.
    pose proof (jittered_within (retry_backoff_ms n * MILLISECOND) (60000 * MILLISECOND) (stable_jitter_seed id) n)
      as Hj. rewrite Hc in Hj |- *. set (d := jittered_delay _ _ _ _) in *.
    unfold DURATION_MAX, MILLISECOND in *.
    replace (1000 * c * 1000000 * 80) with (800 * c * 1000000 * 100) in Hj by lia.
    replace (1000 * c * 1000000 * 120) with (1200 * c * 1000000 * 100) in Hj by lia.
    rewrite !Z.div_mul in Hj by lia.
    replace (1000 * c * 80) with (800 * c * 100) by lia. replace (1000 * c * 120) with (1200 * c * 100) by lia.
    rewrite !Z.div_mul by lia. specialize (Hj ltac:(lia) ltac:(lia)).
    pose proof (Z.div_le_lower_bound d 1000000 (800 * c)).
    pose proof (Z.div_lt_upper_bound d 1000000 (Z.min (1200 * c) 60000 + 1)). lia.
Qed.

(** ** Frames and the node they wait for *)

Section frames.
Context `{W : Wire} `{CW : ControlWire}.
Context (cfg : RelayConfig) (ttl : Z) (send : nat -> SendOutcome).

(** A run of the handler answers [true], and the frame is gone. *)
Definition settled_by (req : RelayRequest) (n : string) (f : Frame) (w : RelayWorld) : Prop :=
  let (p, w') := run_alone ttl send (handle cfg req) w in
  p = RDone (Ok (RepliedFlag true))
  /\ forall m, mailbox m (peers (rw_relay w'))
     = if decide (n = m) then filter (fun g => other_frame (fid f) g = true) (mailbox m (peers (rw_relay w)))
       else mailbox m (peers (rw_relay w)).

(** Credentials that satisfy the relay are accepted by it. *)
Lemma authenticated_accepts h n :
  authenticated cfg h n ->
  n <> ""%string /\ trim n = n
  /\ authenticate_metadata_only cfg h = Ok n /\ authenticate_request cfg h n = Ok n
  /\ exists raw, node_id_from_metadata h = Ok raw /\ trim raw = n.
Proof using Type.
  intros Ha. pose proof (authenticated_trim _ _ _ Ha) as Htrim.
  destruct Ha as (auth & node & token & Hauth & Hn & Hr & Ht & Hid & Htok).
  assert (Hne : n <> ""%string).
  { intros ->. pose proof (id_valid node) as Hv. rewrite Hn in Hv. by vm_compute in Hv. }
  assert (Hmeta : authenticate_metadata_only cfg h = Ok n).
  { unfold authenticate_metadata_only, configured_auth. rewrite Hauth. unfold is_configured.
    rewrite bool_decide_false by (intros E; by rewrite E, lookup_empty in Ht). cbn [negb ok_or].
    unfold present_text. rewrite Hid. rewrite bool_decide_false by done. cbn [ok_or].
    unfold parse_node_id. rewrite <- Hn, Id_new_as_str. cbn [map_err].
    unfold authenticate_optional. rewrite bool_decide_false by done. rewrite Ht, Htok.
    by rewrite relay_constant_time_eq_spec, bool_decide_true. }
  split; [done|]. split; [done|]. split; [done|]. split.
  - unfold authenticate_request. rewrite Htrim, bool_decide_false by done. rewrite Hmeta.
    by rewrite bool_decide_true.
  - unfold node_id_from_metadata. destruct (hd_node_id h) as [|text|]; try done. simpl in Hid.
    injection Hid as Hid. rewrite Hid, bool_decide_false by done. by exists n.
Qed.

(** What the relay checks of a result before it settles a control frame. *)
Definition valid_dispatch (d : LocalTypedControlDispatch) : Prop :=
  match d with
  | DispatchBind r => validate_nodescale_identity_bind_result r = Ok tt
  | DispatchChallenge r => validate_nodescale_identity_challenge_result r = Ok tt
  | DispatchFleet r => validate_fleet_observation_result r = Ok tt
  end.

Definition dispatch_kind (d : LocalTypedControlDispatch) : WaiterKind :=
  match d with
  | DispatchBind _ => WaitBind
  | DispatchChallenge _ => WaitChallenge
  | DispatchFleet _ => WaitFleet
  end.

(** ** Settling *)

Lemma completion_accepted kind (v : Completion (Message := RelayMessage)) n id (r : Relay RelayMessage) :
  PeersInv (peers r) -> n <> ""%string -> trim n = n -> id <> ""%string -> trim id = id ->
  is_Some (waiters kind (peers r) !! (n, id)) ->
  let p := complete_control kind v n id r in
  p.1 = ControlAccepted
  /\ forall m, mailbox m (peers p.2)
     = if decide (n = m) then filter (fun g => other_frame id g = true) (mailbox m (peers r))
       else mailbox m (peers r).
Proof using Type.
  intros HI Hn Htrim Hid Hti [c Hc] p. subst p.
  assert (Hp : (complete_control kind v n id r).1 = ControlAccepted).
  { unfold complete_control. rewrite Htrim, Hti. unfold is_empty. rewrite !bool_decide_false by done.
    cbn [orb]. rewrite Hc. rewrite bool_decide_true; [done|].
    assert (Hfd : (n, id) ∈ frame_destinations (peers r)).
    { eapply (owned_waiter _ _ (fun k => waiters k (peers r)) kind); [apply HI|by eexists]. }
    by destruct kind. }
  split; [done|]. intros m. destruct (complete_control kind v n id r) as [d r'] eqn:E. simpl in Hp. subst d.
  destruct (complete_control_accepted _ _ _ _ _ _ HI E) as (_ & _ & _ & Hpeers & _). simpl.
  rewrite Hpeers, abandon_is, Htrim, Hti. exact (mbox_alter _ (mailboxes (peers r)) n m eq_refl).
Qed.

Lemma acknowledgement_accepted n f (r : Relay RelayMessage) :
  PeersInv (peers r) -> n <> ""%string -> trim n = n -> f ∈ mailbox n (peers r) -> control_kind f = WaitAck ->
  let p := RelayRuntime.ack_frame n (RelayRuntime.frame_id f) r in
  p.1 = AckAccepted
  /\ forall m, mailbox m (peers p.2)
     = if decide (n = m) then filter (fun g => other_frame (fid f) g = true) (mailbox m (peers r))
       else mailbox m (peers r).
Proof using Type.
  intros HI Hn Htrim Hf Hk p. pose proof (pi_owned _ HI) as How.
  assert (Hown : (n, fid f) ∈ frame_destinations (peers r)).
  { apply (ow_owned _ _ _ How). by apply list_elem_of_fmap_2. }
  assert (Heff : ack_effect n (fid f) r p).
  { pose proof (ack_frame_effect n (RelayRuntime.frame_id f) r HI) as H. by rewrite Htrim in H. }
  destruct Heff as [c Hc Hno|r' _ Ha _ _].
  - destruct (Hno Hn Hown) as (kind & Hkind & Hw). exfalso. apply Hkind.
    destruct (ow_waiter _ _ _ How kind n (fid f) Hw) as (g & Hg & Hgid & <-).
    by rewrite (same_fid _ _ _ n g f How Hg Hf Hgid).
  - split; [done|]. intros m. destruct Ha. simpl.
    change (mailbox m (peers r')) with (mbox (mailboxes (peers r')) m).
    rewrite ab_mailboxes. by apply mbox_alter.
Qed.

Lemma acknowledgement_settles h n f w :
  authenticated cfg h n -> PeersInv (peers (rw_relay w)) -> f ∈ mailbox n (peers (rw_relay w)) ->
  control_kind f = WaitAck -> settled_by (AckFrameRpc h (RelayRuntime.frame_id f)) n f w.
Proof using Type.
  intros Ha HI Hf Hk. destruct (authenticated_accepts h n Ha) as (Hn & Htrim & _ & Hreq & raw & Hraw & Hrn).
  assert (Hreq' : authenticate_request cfg h raw = Ok n).
  { revert Hreq. unfold authenticate_request. by rewrite Hrn, Htrim. }
  pose proof (acknowledgement_accepted n f (rw_relay w) HI Hn Htrim Hf Hk) as [Hans Hmail].
  unfold settled_by. cbn [handle]. unfold rmap, ack_frame. rewrite Hraw. cbn [rlift rbind].
  rewrite Hreq'. cbn. rewrite Hans. by split.
Qed.

Lemma completion_settles h n f d w :
  authenticated cfg h n -> PeersInv (peers (rw_relay w)) -> f ∈ mailbox n (peers (rw_relay w)) ->
  dispatch_kind d = control_kind f -> valid_dispatch d ->
  settled_by (completion_request h (RelayRuntime.frame_id f) d) n f w.
Proof using Type.
  intros Ha HI Hf Hk Hv. destruct (authenticated_accepts h n Ha) as (Hn & Htrim & Hmeta & _).
  pose proof (pi_owned _ HI) as How. destruct (ow_payload _ _ _ How n f Hf) as [_ Hid].
  assert (Hw : is_Some (waiters (dispatch_kind d) (peers (rw_relay w)) !! (n, trim (RelayRuntime.frame_id f)))).
  { rewrite Hk. apply (ow_control _ _ _ How n f Hf). rewrite <- Hk. by destruct d. }
  assert (Hreq : required_node_value (RelayRuntime.frame_id f) "frame_id" = Ok (fid f))
    by (unfold required_node_value; by rewrite bool_decide_false).
  assert (answers : forall kind v, is_Some (waiters kind (peers (rw_relay w)) !! (n, fid f)) ->
    let p := complete_control kind v n (fid f) (rw_relay w) in
    p.1 = ControlAccepted /\ forall m, mailbox m (peers p.2)
      = if decide (n = m) then filter (fun g => other_frame (fid f) g = true) (mailbox m (peers (rw_relay w)))
        else mailbox m (peers (rw_relay w)))
    by (intros kind v; apply completion_accepted; [done..|apply trim_trim]).
  unfold settled_by.
  destruct d; cbn [handle completion_request dispatch_kind valid_dispatch] in *; unfold rmap,
    complete_nodescale_identity_bind, complete_nodescale_identity_challenge, complete_fleet_observation,
    complete_control_frame; rewrite Hmeta; cbn [rlift rbind]; rewrite Hreq; cbn [rlift rbind ok_or];
    rewrite Hv; cbn.
  - destruct (answers WaitBind (CompletedBind (MBindResult r)) Hw) as [Hans Hm].
    unfold RelayRuntime.complete_nodescale_identity_bind. rewrite Hans. by split.
  - destruct (answers WaitChallenge (CompletedChallenge (MChallengeResult r)) Hw) as [Hans Hm].
    unfold RelayRuntime.complete_nodescale_identity_challenge. rewrite Hans. by split.
  - destruct (answers WaitFleet (CompletedFleet (MFleetResult r)) Hw) as [Hans Hm].
    unfold RelayRuntime.complete_fleet_observation. rewrite Hans. by split.
Qed.

(** ** Dispatch *)

(** The relay's word for the size of the rejection of a fleet observation. *)
Definition rejections_fit : Prop :=
  forall timed_out r, direct_control_rejection false true timed_out = DispatchFleet r ->
    fleet_result_encoded_len r <= MAX_FLEET_OBSERVATION_CONTROL_BYTES.

Lemma rejection_valid is_challenge is_fleet timed_out :
  rejections_fit -> valid_dispatch (direct_control_rejection is_challenge is_fleet timed_out).
Proof using Type.
  intros Hfit. destruct is_challenge; [by destruct timed_out|]. destruct is_fleet; [|by destruct timed_out].
  specialize (Hfit timed_out). unfold direct_control_rejection in *. simpl.
  specialize (Hfit _ eq_refl). unfold validate_fleet_observation_result.
  rewrite (proj2 (Z.ltb_ge _ _)) by done. by destruct timed_out.
Qed.

(** What the node makes of a frame. *)
Definition dispatched_as (nd : EdgeNode) (f : Frame) : Prop :=
  match dispatch_relay_typed_control_for_local_bounded nd f with
  | Err _ => False
  | Ok None => control_kind f = WaitAck /\ is_some (task_of f) || is_some (result_of f) = true
  | Ok (Some d) =>
      dispatch_kind d = control_kind f
      /\ (dispatch_relay_typed_control_for_local (control_handlers nd) f = Some (Answered d)
          \/ exists c o timed_out, d = direct_control_rejection c o timed_out)
  end.

(** The goal names one of the six rejections. *)
Ltac rejected :=
  first [exists true, false, false; reflexivity|exists true, false, true; reflexivity
        |exists false, true, false; reflexivity|exists false, true, true; reflexivity
        |exists false, false, false; reflexivity|exists false, false, true; reflexivity].

Lemma frame_dispatched nd req f :
  publishes cfg req (registry_peer_id nd) f -> dispatched_as nd f.
Proof using Type.
  intros (h & _ & _ & Hf). unfold dispatched_as.
  destruct req; simpl in Hf; try done.
  { by destruct Hf as (t & fs & _ & _ & _ & ->). }
  { by destruct Hf as (x & _ & _ & _ & ->). }
  all: destruct Hf as (x & _ & _ & _ & ->);
    unfold dispatch_relay_typed_control_for_local_bounded; simpl; rewrite bool_decide_true by done;
    unfold dispatch_relay_typed_control_for_local; simpl;
    match goal with |- context [map_handled _ ?h] => destruct h; simpl end;
    (split; [done|]); first [by left|right; rejected].
Qed.

(** C12: a frame fits the node it waits for. In every session of the relay, take a
    frame in the mailbox of a node whose headers the relay accepts. The node's
    checks pass. If the frame carries a task or a result, it goes to the
    daemon, and the acknowledgement that the node then sends is accepted and
    takes exactly this frame out of the mailbox. Otherwise its one payload is a
    control operation, it goes to the handler of its kind, and the completion
    that the node sends is of the kind that the publisher waits for: if the
    result passes validation, it is accepted and takes the frame out. The
    result that the node makes up for a handler that is missing, fails or is
    too slow always passes. *)
Theorem frames_fit_their_node (requests : list RelayRequest) (w : RelayWorld)
    (events : list RelayEvent) (nd : EdgeNode) (h : RequestHeaders) (f : Frame)
    (Hw : fresh_world w) (Hfit : rejections_fit)
    (Hnode : authenticated cfg h (registry_peer_id nd)) :
  let n := registry_peer_id nd in
  let world := shared (relay_session ttl events (start cfg requests w)) in
  f ∈ mailbox n (peers (rw_relay world)) ->
  match dispatch_relay_typed_control_for_local_bounded nd f with
  | Err _ => False
  | Ok None =>
      is_some (task_of f) || is_some (result_of f) = true
      /\ settled_by (AckFrameRpc h (RelayRuntime.frame_id f)) n f world
  | Ok (Some d) =>
      dispatch_kind d = control_kind f
      /\ (valid_dispatch d -> settled_by (completion_request h (RelayRuntime.frame_id f) d) n f world)
      /\ (dispatch_relay_typed_control_for_local (control_handlers nd) f <> Some (Answered d) ->
          valid_dispatch d)
  end.
Proof using Type.
  intros n world Hf.
  destruct (pl_relay _ _ _ (reachable_pool cfg requests w ttl events Hw)) as [HI _ _ Hm _ _].
  destruct (Hm n f Hf) as (req & _ & Hpub). apply frame_dispatched in Hpub. unfold dispatched_as in Hpub.
  destruct (dispatch_relay_typed_control_for_local_bounded nd f) as [[d|]|]; [|split|done].
  - destruct Hpub as [Hk Hd]. split; [done|]. split; [by apply completion_settles|].
    intros Hne. destruct Hd as [Hd|(c & o & t & ->)]; [done|]. by apply rejection_valid.
  - apply Hpub.
  - apply acknowledgement_settles; [done..|]. apply Hpub.
Qed.
End frames.

(** ** The sample session, and a node without handlers *)

Definition no_handlers : DirectControlHandlers := MkHandlers None None None None None.
Definition node_b : EdgeNode := MkEdgeNode "node-b" (Some "token-b"%string) true (Some "daemon-token"%string) no_handlers.

#[local] Instance node_control_wire : ControlWire := {|
  publish_encoded_len := fun _ => 0;
  fleet_result_encoded_len := fun _ => 0;
|}.

Lemma reconnect_delays_are_bounded_witness :
  supervise_relay_stream (default_reconnect 7) (replicate 6 (RunEnded, Slept)) !! 5%nat
    = Some 5000000000
  /\ 200 * MILLISECOND <= 5000000000 <= RELAY_RECONNECT_MAX_DELAY.
Proof.
  assert (H : supervise_relay_stream (default_reconnect 7) (replicate 6 (RunEnded, Slept)) !! 5%nat
    = Some 5000000000) by (vm_compute; reflexivity).
  split; [exact H|].
  exact (proj1 (proj2 reconnect_delays_are_bounded) 7 _ 5%nat 5000000000 H).
Defined.

Lemma sample_rejections_fit : rejections_fit.
Proof. intros t r _. vm_compute. discriminate. Qed.

Lemma sample_node_authenticated : authenticated two_nodes headers_b (registry_peer_id node_b).
Proof. apply authenticate_metadata_only_ok. vm_compute. reflexivity. Qed.

Lemma frames_fit_their_node_witness :
  result_frame ∈ mailbox "node-b" (peers (rw_relay (shared (after_session until_delivered))))
  /\ settled_by two_nodes 1000 (fun _ => Sent) (AckFrameRpc headers_b "relay-1") "node-b" result_frame
       (shared (after_session until_delivered)).
Proof.
  assert (Hf : result_frame ∈ mailbox "node-b" (peers (rw_relay (shared (after_session until_delivered))))).
  { assert (Hm : mailbox "node-b" (peers (rw_relay (shared (after_session until_delivered)))) = [result_frame])
      by (vm_compute; reflexivity).
    rewrite Hm. apply list_elem_of_here. }
  split; [exact Hf|].
  exact (proj2 (frames_fit_their_node two_nodes 1000 (fun _ => Sent) result_session sample_relay_world
    until_delivered node_b headers_b result_frame sample_relay_world_fresh sample_rejections_fit
    sample_node_authenticated Hf)).
Defined.
