(* ===== verification/Federation.v ===== *)
(** * Nodes that meet through the relay

    The networks that Routing and RelayNode leave open, built from the other
    parts of this library: the relay of RelayService behind a publisher, and
    the relay and the daemon of a node behind its edge process. A call may be
    lost on its way there or on its way back. The handlers that a call reaches
    run alone; what others do happens between the calls. *)
From S2P Require Import Prelude Ident Lifecycle StoreModel Api SqlStore Artifacts Policy Security Registry Wire Rpc Program ResultArtifacts Daemon DaemonTransfers.
From S2P Require Import RelayRuntime RelayMessages RelayService RelayAlone Routing RelayNode.
From stdpp Require Import options.
#[local] Open Scope Z_scope.

(** What becomes of a call. *)
Inductive Fate : Type := Arrives | RequestLost | AnswerLost.

Definition transport_error : Status := MkStatus Unavailable "transport error".

(** Fates are used up one by one; later calls arrive. *)
Definition fate (l : list Fate) : Fate := default Arrives (head l).

Section federation.
Context `{W : Wire} `{CW : ControlWire}.
Context (relay_cfg : RelayConfig) (ttl : Z) (send : nat -> SendOutcome).
(** Which texts can be sent as metadata, and gRPC's texts. *)
Context (text_ok : string -> bool) (bad_text : string) (text_of_code : Code -> string).

(** ** A relay behind a publisher *)

Record RelayNet : Type := MkRelayNet { rn_relay : RelayWorld; rn_fates : list Fate }.

(** What the client of a handler hears. *)
Definition heard (p : RProg RelayReply) : Result RelayReply Status :=
  match p with
  | RDone r => r
  | RInbound _ => Ok RepliedStream
  | _ => Err transport_error
  end.

(** A call that reaches the relay. *)
Definition relay_handles (request : RelayRequest) (w : RelayWorld) : Result RelayReply Status * RelayWorld :=
  let (p, w) := run_alone ttl send (RelayService.handle relay_cfg request) w in (heard p, w).

Definition published_answer (r : Result RelayReply Status) : Result PublishTaskResponse Status :=
  match r with
  | Ok (RepliedTask response) => Ok response
  | Ok _ => Err transport_error
  | Err s => Err s
  end.

#[export] Instance published_to_relay : RelayNetwork RelayNet := {
  metadata_text := text_ok;
  invalid_metadata := bad_text;
  code_text := text_of_code;
  connect_relay _ net :=
    (match fate (rn_fates net) with
     | Arrives => Some (Ok tt)
     | RequestLost => Some (Err (NoConnection bad_text))
     | AnswerLost => None
     end, MkRelayNet (rn_relay net) (tail (rn_fates net)));
  call_publish_task _ headers request net :=
    let rest := tail (rn_fates net) in
    let (answer, w) := relay_handles (PublishTaskRpc headers request) (rn_relay net) in
    match fate (rn_fates net) with
    | Arrives => (Some (published_answer answer), MkRelayNet w rest)
    | RequestLost => (None, MkRelayNet (rn_relay net) rest)
    | AnswerLost => (None, MkRelayNet w rest)
    end;
}.

(** ** A relay and a daemon behind an edge node *)

Context (sha256 : bytes -> string) (sha256_digest : forall b, is_digest (sha256 b) = true).
Context (violation row_not_found blob_dir : string).
Context (daemon_cfg : KeryxDaemonConfig).

Record EdgeNet : Type := MkEdgeNet {
  en_relay : RelayWorld;
  en_daemon : World Conn;
  en_files : gmap BlobPath bytes;
  en_fates : list Fate;
}.

Definition spend (net : EdgeNet) : EdgeNet :=
  MkEdgeNet (en_relay net) (en_daemon net) (en_files net) (tail (en_fates net)).

(** A call with its fate: [f] is what it does where it arrives. *)
Definition edge_call {A} (f : EdgeNet -> Result A Status * EdgeNet) (net : EdgeNet)
    : option (Result A Status) * EdgeNet :=
  let (answer, net') := f (spend net) in
  match fate (en_fates net) with
  | Arrives => (Some answer, net')
  | RequestLost => (None, spend net)
  | AnswerLost => (None, net')
  end.

Definition lost_is_error {A} (p : option (Result A Status) * EdgeNet) : Result A Status * EdgeNet :=
  (default (Err transport_error) p.1, p.2).

Definition edge_connects (net : EdgeNet) : bool * EdgeNet :=
  (match fate (en_fates net) with Arrives => true | _ => false end, spend net).

Definition at_relay (request : RelayRequest) (net : EdgeNet) : Result RelayReply Status * EdgeNet :=
  let (answer, w) := relay_handles request (en_relay net) in
  (answer, MkEdgeNet w (en_daemon net) (en_files net) (en_fates net)).

(** A task handler of the daemon; a panic breaks the call. *)
Definition at_daemon (authorization : string) (request : DaemonRequest) (net : EdgeNet)
    : Result DaemonResponse Status * EdgeNet :=
  let (answer, w) := run (H := sql_daemon violation)
                       (serve sha256 daemon_cfg (Some authorization) request) (en_daemon net) in
  (default (Err transport_error) answer, MkEdgeNet (en_relay net) w (en_files net) (en_fates net)).

Definition submitted_answer (r : Result DaemonResponse Status) : Result SubmitTaskResponse Status :=
  match r with
  | Ok (RespSubmitted response) => Ok response
  | Ok _ => Err transport_error
  | Err s => Err s
  end.

(** A handler over the disk, at the next reading of the clock and in the next
    order of the hash maps. *)
Definition at_disk {A} (authorization : string) (m : nat -> Z -> ST Disk Status A) (net : EdgeNet)
    : Result A Status * EdgeNet :=
  match authorize_daemon_request daemon_cfg (Some authorization) with
  | Err s => (Err s, net)
  | Ok _ =>
      let 'MkWorld c clock orders metrics cancellation lock := en_daemon net in
      let (answer, dk) := m (orders 0%nat) (clock 0%nat) (MkDisk c (en_files net)) in
      (answer, MkEdgeNet (en_relay net)
                 (MkWorld (conn dk) (fun n => clock (S n)) (fun n => orders (S n)) metrics cancellation lock)
                 (files dk) (en_fates net))
  end.

#[export] Instance edge_network : EdgePeers EdgeNet := {
  valid_metadata := text_ok;
  relay_connect := edge_connects;
  relay_call request net := lost_is_error (edge_call (at_relay request) net);
  relay_call_within _ request net := edge_call (at_relay request) net;
  daemon_connect := edge_connects;
  daemon_submit_remote_task authorization request net :=
    let (answer, net) := lost_is_error (edge_call (at_daemon authorization (ReqSubmitRemoteTask request)) net) in
    (submitted_answer answer, net);
  daemon_ingest_remote_result authorization request net :=
    lost_is_error (edge_call (at_disk authorization (fun order _ =>
      ingest_remote_result sha256 sha256_digest violation row_not_found daemon_cfg blob_dir request order)) net);
  daemon_claim_next_result_delivery authorization request net :=
    lost_is_error (edge_call (at_disk authorization (fun _ now =>
      DaemonTransfers.claim_next_result_delivery request now)) net);
  daemon_ack_result_delivery authorization request net :=
    lost_is_error (edge_call (at_disk authorization (fun _ now =>
      DaemonTransfers.ack_result_delivery request now)) net);
  daemon_fail_result_delivery authorization request net :=
    lost_is_error (edge_call (at_disk authorization (fun _ now =>
      DaemonTransfers.fail_result_delivery request now)) net);
}.
End federation.
