(* ===== verification/FederationFacts.v ===== *)
(** * Runs over the network of nodes

    What a publisher's success, an accepted submission and a frame that was
    handed on leave behind, on the tables and on the in-memory state. *)
From S2P Require Import Prelude Ident Text Lifecycle StoreModel Api MemStore MemSpec MemInv Samples SqlStore SqlRel SqlRefine SqlSession.
From S2P Require Import Artifacts Policy Security Registry Wire Rpc Program ProgramFacts ResultArtifacts Daemon DaemonCalls DaemonSession DaemonFacts WireSamples.
From S2P Require Import RelayRuntime RelayInv RelayDelivery RelayTrace RelayMessages RelayService RelayLogic RelayServiceFacts RelayAlone.
From S2P Require Import Routing RoutingFacts RelayNode RelayNodeFacts Federation.
From stdpp Require Import options.
#[local] Open Scope Z_scope.

(** ** Identifiers as texts *)

Lemma id_trim {kind} (i : Id kind) : trim (as_str i) = as_str i.
Proof. apply valid_id_trim, Is_true_true, id_valid. Qed.

Lemma id_nonempty {kind} (i : Id kind) : as_str i <> ""%string.
Proof. intros E. pose proof (id_valid i) as Hv. by rewrite E in Hv. Qed.

(** ** The origin's part *)

Section origin.
Context `{W : Wire} `{CW : ControlWire}.
Context (relay_cfg : RelayConfig) (ttl : Z) (send : nat -> SendOutcome).
Context (text_ok : string -> bool) (bad_text : string) (text_of_code : Code -> string).

#[local] Instance the_relay : RelayNetwork RelayNet :=
  published_to_relay relay_cfg ttl send text_ok bad_text text_of_code.

Lemma handled_reply request w reply w' :
  relay_handles relay_cfg ttl send request w = (Ok reply, w') ->
  reply = RepliedStream
  \/ run_alone ttl send (RelayService.handle relay_cfg request) w = (RDone (Ok reply), w').
Proof using Type.
  unfold relay_handles. destruct (run_alone _ _ _ _) as [[r| | |e k|kind ch g t k|k] w1]; simpl; try done.
  - intros [= -> ->]. by right.
  - intros [= <- _]. by left.
Qed.

Lemma handles_inv request w :
  PeersInv (peers (rw_relay w)) -> PeersInv (peers (rw_relay (relay_handles relay_cfg ttl send request w).2)).
Proof using Type.
  intros HI. unfold relay_handles.
  pose proof (run_inv ttl send (RelayService.handle relay_cfg request) w HI) as H.
  by destruct (run_alone _ _ _ _).
Qed.

(** What the publisher hands to the relay, for this target. *)
Definition sent_task (envelope : TaskEnvelope) (target : PeerId) : TaskEnvelope :=
  canonicalize_relay_target_metadata (with_supported_features envelope) target.

Lemma delivered_is_mailed p target envelope timeout net r net' :
  PeersInv (peers (rw_relay (rn_relay net))) -> ids_trimmed (rn_relay net) ->
  unpublished (as_str (gp_source_peer_id p)) envelope (rn_relay net) ->
  grpc_deliver_task p target envelope timeout net = (Some (Ok r), net') ->
  PeersInv (peers (rw_relay (rn_relay net'))) /\ exists features,
    mailbox (as_str target) (peers (rw_relay (rn_relay net')))
    = mailbox (as_str target) (peers (rw_relay (rn_relay net)))
      ++ [task_frame (rr_frame_id r) (as_str (gp_source_peer_id p)) (as_str target)
            (handed_on features (canonicalize_relay_target_metadata envelope target))].
Proof using Type.
  intros HI Hids Hnew H. unfold grpc_deliver_task in H.
  destruct (transpose _) as [[i|]|]; [|done..]. simpl in H.
  destruct (fate (rn_fates net)); [|done..]. simpl in H.
  destruct (publisher_headers p target) as [headers|]; [|done]. simpl in H.
  destruct (relay_handles _ _ _ _ _) as [answer w] eqn:Hh. simpl in H.
  match type of Hh with relay_handles _ _ _ ?request ?v = _ =>
    pose proof (handles_inv request v HI) as HI'; rewrite Hh in HI'; simpl in HI' end.
  destruct (fate (tail (rn_fates net))); [|done..].
  destruct (published_answer answer) as [response|] eqn:Ha; [|done].
  destruct (read_receipt target response) as [receipt|] eqn:Hr; [|done].
  destruct (validate_relay_receipt _ _ _ _) as [[]|]; [|done]. injection H as <- <-. simpl.
  split; [done|]. destruct answer as [[| |response'| | |]|]; try done. injection Ha as ->.
  apply handled_reply in Hh as [Hh|Hh]; [done|]. cbn [RelayService.handle] in Hh.
  apply run_alone_ok in Hh as (response' & w1 & Hh & [= -> ->]).
  set (t := canonicalize_relay_target_metadata envelope target) in *.
  eapply (publish_task_runs relay_cfg ttl send _ _ _ _ _ t) in Hh as (n & f & [_ _ Hn Hf Hm]); try done.
  2: { cbn [pt_source_node_id]. rewrite id_trim. exact Hnew. }
  cbn [pt_target_node_id pt_source_node_id] in *. rewrite !id_trim in *.
  rewrite bool_decide_false in Hn by apply id_nonempty. subst n.
  destruct Hf as (features & id & -> & Htrim & Hid). exists features.
  assert (rr_frame_id receipt = id) as ->; [|done].
  revert Hr. unfold read_receipt.
  repeat match goal with |- context [match ?x with Ok _ => _ | Err _ => _ end] => destruct x; [|done] end.
  intros [= <-]. simpl. by rewrite Hid.
Qed.
End origin.

(** ** A handler on the tables and on the in-memory state *)

Section same_runs.
Context `{W : Wire} (violation : string).

(** Room for 64-bit counts where the program calls the store. *)
Fixpoint stores_fit {E A} (p : Prog E A) (b : World InMemoryState) {struct p} : Prop :=
  match p with
  | Call e k =>
      match e with Store _ => roomy b | _ => True end
      /\ stores_fit (k (perform e b).1) (perform e b).2
  | _ => True
  end.

Lemma perform_same e a b x a' y b' :
  SameWorld a b -> match e with Store _ => roomy b | _ => True end -> sane_clock b -> daemon_effect e ->
  perform (H := sql_daemon violation) e a = (x, a') -> perform e b = (y, b') ->
  x = y /\ SameWorld a' b'.
Proof using Type.
  intros HS Hroom Hc He Ha Hb. destruct e as [| |op| |k0|now fails| | | |]; [| |by eapply (perform_sim violation (Store op))| | | | | | |];
    destruct HS; destruct a as [conn clock orders m k lock], b as [s clock' orders' m' k' lock'];
    simpl in *; subst; simplify_eq; try by (split; [done|by split]).
  split; [|by split]. by rewrite (retained_sim _ _ same_store).
Qed.

Lemma run_same {E A} (p : Prog E A) : forall a b,
  SameWorld a b -> sane_clock b -> every_call daemon_effect sane_reply p -> stores_fit p b ->
  (run (H := sql_daemon violation) p a).1 = (run p b).1
  /\ SameWorld (run (H := sql_daemon violation) p a).2 (run p b).2.
Proof using Type.
  induction p as [r| |e k IH]; intros a b HS Hc Hp Hfit; [done..|].
  destruct Hp as [He Hk]. destruct Hfit as [Hroom Hfit]. simpl.
  destruct (perform e a) as [x a1] eqn:Ha, (perform e b) as [y b1] eqn:Hb.
  destruct (perform_same _ _ _ _ _ _ _ HS Hroom Hc He Ha Hb) as [-> HS1].
  destruct (perform_sane _ _ _ _ Hc Hb) as [Hx Hc1]. apply IH; [done|done|by apply Hk|done].
Qed.

Lemma run_sane_clock {E A} (p : Prog E A) : forall b : World InMemoryState,
  sane_clock b -> sane_clock (run p b).2.
Proof using Type.
  induction p as [r| |e k IH]; intros b Hc; simpl; try done.
  destruct (perform e b) as [x b1] eqn:Hb. by apply IH, (perform_sane _ _ _ _ Hc Hb).
Qed.

Lemma stores_fit_bind {E A B} (p : Prog E A) (k : A -> Prog E B) : forall b,
  stores_fit p b ->
  match run p b with (Some (Ok a), b') => stores_fit (k a) b' | _ => True end ->
  stores_fit (bindP p k) b.
Proof using Type.
  induction p as [[a|e]| |e c IH]; intros b Hp Hk; simpl in *; try done.
  destruct Hp as [Hroom Hp]. split; [done|]. destruct (perform e b) as [x b']. simpl in *. by apply IH.
Qed.

Lemma stores_fit_map_err {E E' A} (f : E -> E') (p : Prog E A) : forall b,
  stores_fit p b -> stores_fit (map_errP f p) b.
Proof using Type.
  induction p as [r| |e c IH]; intros b Hp; simpl in *; try done. split; [apply Hp|]. by apply IH, Hp.
Qed.

Lemma stores_fit_handle {E E' A B} (p : Prog E A) (k : Result A E -> Prog E' B) : forall b,
  stores_fit p b -> match run p b with (Some r, b') => stores_fit (k r) b' | _ => True end ->
  stores_fit (handleP p k) b.
Proof using Type.
  induction p as [r| |e c IH]; intros b Hp Hk; simpl in *; try done.
  destruct Hp as [Hroom Hp]. split; [done|]. destruct (perform e b) as [x b']. simpl in *. by apply IH.
Qed.

Lemma stores_fit_finally {E A} f (p : Prog E A) : (forall op, f <> Store op) -> forall b,
  stores_fit p b -> stores_fit (finally f p) b.
Proof using Type.
  intros Hf. induction p as [r| |e c IH]; intros b Hp; simpl in *; try done.
  - split; [|done]. destruct f; try done. by destruct (Hf op).
  - split; [|done]. destruct f; try done. by destruct (Hf op).
  - split; [apply Hp|]. by apply IH, Hp.
Qed.

Lemma stores_fit_lock {E A} (p : Prog E A) b :
  stores_fit p (set_lock true b) -> stores_fit (with_submission_lock p) b.
Proof using Type. destruct b. intros Hp. split; [done|]. by apply stores_fit_finally. Qed.
End same_runs.

(** ** The executor's daemon *)

Section executor.
Context `{W : Wire} (violation : string).
Context (cfg : KeryxDaemonConfig).

Lemma stores_fit_lift {E A B} (r : Result A E) (k : A -> Prog E B) b :
  (forall a, r = Ok a -> stores_fit (k a) b) -> stores_fit (bindP (liftP r) k) b.
Proof using Type. destruct r; simpl; auto. Qed.

Lemma roomy_same (b b' : World InMemoryState) : w_store b' = w_store b -> roomy b -> roomy b'.
Proof using Type. unfold roomy. by intros ->. Qed.

Lemma capacity_fit envelope (b : World InMemoryState) : roomy b -> stores_fit (check_capacity cfg envelope) b.
Proof using Type.
  intros Hb. unfold check_capacity. apply stores_fit_bind; [by split|].
  destruct (run (store _) b) as [[[n|e]|] b'] eqn:Hq; [|done..].
  apply run_store_inv in Hq as (s' & Hq & ->). apply call_query in Hq; [|done]. subst s'.
  rewrite with_store_same. unfold check_limit. apply stores_fit_lift. intros [] _. by destruct b.
Qed.

Lemma submit_remote_fit r (b : World InMemoryState) : roomy b -> stores_fit (submit_remote_task cfg r) b.
Proof using Type.
  intros Hb. unfold submit_remote_task. do 4 (apply stores_fit_lift; intros ? _).
  case_match; [done|]. apply stores_fit_lift; intros key _.
  destruct b as [s clock orders m c l]. split; [done|]. split; [done|]. simpl.
  apply stores_fit_lift; intros deadline _. apply stores_fit_bind.
  2: { by destruct (run _ _) as [[[x|]|] [s2 ? ? ? ? ?]]. }
  apply stores_fit_map_err. unfold accept_pending_remote_task_with_backpressure, check_limit.
  apply stores_fit_lift; intros [] _. apply stores_fit_lock.
  set (w := set_lock _ _). assert (Hw : roomy w) by done. apply stores_fit_handle; [by split|].
  destruct (run (store _) w) as [[known|] w1] eqn:Hrun; [|done].
  apply run_store_inv in Hrun as (s1 & Hq & ->). apply call_query in Hq as Hs; [|done].
  subst s1. rewrite with_store_same. destruct known as [t|e]; [by split|].
  simpl in Hq. unfold MemStore.get_task, bind, get, lift in Hq. simpl in Hq.
  destruct (tasks s !! _); [done|]. simpl in Hq. injection Hq as <-.
  apply stores_fit_bind; [by apply capacity_fit|].
  destruct (run _ _) as [[[[]|]|] w1] eqn:Hrun; [|done..].
  apply check_capacity_ok in Hrun as ->. apply stores_fit_bind; [by split|].
  by destruct (run _ _) as [[[x|]|] [s2 ? ? ? ? ?]].
Qed.

Lemma run_accept_context record envelope context (w : World InMemoryState) t w' :
  run (store (OpAcceptContext record envelope context)) w = (Some (Ok t), w') ->
  MemStore.accept_task_with_envelope_and_context record envelope context (w_store w) = (Ok t, w_store w').
Proof using Type.
  rewrite run_store. simpl. destruct (MemStore.accept_task_with_envelope_and_context _ _ _ _) as [x s'].
  intros [= -> <-]. by rewrite store_with_store.
Qed.

(** What an accepted submission offered to the store. *)
Lemma submit_remote_task_ok r (w : World InMemoryState) resp w' :
  run (submit_remote_task cfg r) w = (Some (Ok resp), w') ->
  exists e i sender k d t, sm_envelope r = Some e
  /\ parse_required_task_id (te_task_id e) = Ok i
  /\ parse_peer (sm_authenticated_sender_peer_id r) = Ok sender
  /\ parse_peer (sm_destination_peer_id r) = Ok (local_peer_id cfg)
  /\ parse_optional_idempotency_key (te_idempotency_key e) = Ok k
  /\ Wire.deadline_from_envelope e = Ok d
  /\ MemStore.accept_task_with_envelope_and_context (offered i k d) (offered_envelope i e w)
       (MkContext i (Some sender) None (local_peer_id cfg) (Some (sm_relay_frame_id r)) (w_clock w 0%nat))
       (w_store w) = (Ok t, w_store w').
Proof using Type.
  unfold submit_remote_task, accept_pending_remote_task_with_backpressure, check_limit. intros H. run_ok H.
  case_bool_decide as Hlocal; [|done]. cbn [negb] in H. run_ok H. rename Hrun5 into H.
  apply run_handle_ok in H as (known & w1 & Hk & H). apply run_store_inv in Hk as (s1 & Hk & ->).
  apply call_query in Hk as Hs; [|done]. subst s1. rewrite with_store_same in H.
  subst. apply ok_or_ok in Hrun. destruct w as [s clock orders m c l].
  eexists _, _, _, _, _, _. split_and!; try done.
  destruct known as [t|e]; [by apply run_accept_context in H|]. destruct e; try done.
  apply run_bind_ok in H as ([] & w1 & Hc & H). apply check_capacity_ok in Hc as ->.
  apply run_bind_ok in H as (t & w1 & Ha & H). apply run_accept_context in Ha.
  destruct w1. by injection H as <- <-.
Qed.

(** What the store holds of a delivered task. *)
Record delivered (s : InMemoryState) (record : TaskRecord) (task_bytes : bytes) (sender local : PeerId)
    (frame : string) : Prop := {
  de_task : tasks s !! tr_id record = Some record;
  de_envelope : exists e, envelopes s !! tr_id record = Some e /\ en_encoded_envelope e = task_bytes;
  de_context : exists c, transport_contexts s !! tr_id record = Some c
    /\ tc_authenticated_sender_peer_id c = Some sender /\ tc_destination_peer_id c = local
    /\ tc_relay_frame_id c = Some frame;
}.

Lemma accepted_is_delivered record e sender x local frame now_ms s t s' :
  MemStore.accept_task_with_envelope_and_context record e
    (MkContext (tr_id record) (Some sender) x local (Some frame) now_ms) s = (Ok t, s') ->
  t = record /\ expected_executor s' (tr_id record) = x
  /\ delivered s' record (en_encoded_envelope e) sender local frame.
Proof using Type.
  intros H. unfold MemStore.accept_task_with_envelope_and_context in H. op_run H.
  - unfold same_delivered_envelope, same_transport_identity in *.
    rewrite !andb_true_iff, !bool_decide_eq_true in *. destruct_and!. subst. unfold expected_executor.
    split; [done|]. split; [by rewrite C1|]. split; [done|by eexists|eexists; by split_and!].
  - unfold same_delivered_envelope, same_transport_identity in *.
    rewrite !andb_true_iff, !bool_decide_eq_true in *. destruct_and!. subst. unfold expected_executor. simpl in *.
    rewrite lookup_insert_eq. split; [done|]. split; [done|]. split; [done|by eexists|].
    eexists. simpl. rewrite lookup_insert_eq. by split_and!.
  - unfold set_idempotency_opt, expected_executor. split; [done|].
    split; [destruct (tr_idempotency_key t); simpl; by rewrite lookup_insert_eq|]. split.
    + destruct (tr_idempotency_key t); simpl; by rewrite lookup_insert_eq.
    + exists e. destruct (tr_idempotency_key t); simpl; by rewrite lookup_insert_eq.
    + eexists. destruct (tr_idempotency_key t); simpl; rewrite lookup_insert_eq; by split_and!.
Qed.

(** An accepted submission leaves its task, its bytes and where it came from. *)
Lemma submitted_is_delivered r (w : World InMemoryState) resp w' :
  run (submit_remote_task cfg r) w = (Some (Ok resp), w') ->
  exists e i sender k, sm_envelope r = Some e
  /\ parse_required_task_id (te_task_id e) = Ok i
  /\ parse_peer (sm_authenticated_sender_peer_id r) = Ok sender
  /\ parse_peer (sm_destination_peer_id r) = Ok (local_peer_id cfg)
  /\ parse_optional_idempotency_key (te_idempotency_key e) = Ok k
  /\ delivered (w_store w') (outgoing_record i e k) (encode_envelope (w_orders w 0%nat) e) sender
       (local_peer_id cfg) (sm_relay_frame_id r).
Proof using Type.
  intros (e & i & sender & k & d & t & He & Hi & Hs & Hl & Hk & Hd & Ha)%submit_remote_task_ok.
  exists e, i, sender, k. do 5 (split; [done|]).
  assert (offered i k d = outgoing_record i e k) as Ho.
  { revert Hd. unfold Wire.deadline_from_envelope. case_match; [done|]. by intros [= <-]. }
  rewrite Ho in Ha. by apply (accepted_is_delivered (outgoing_record i e k)) in Ha as (_ & _ & Ha).
Qed.

(** The store has the task, but not as a delivery with these bytes left it. *)
Definition held_differently (s : InMemoryState) (i : TaskId) (task_bytes : bytes) : Prop :=
  exists t, tasks s !! i = Some t
  /\ (tr_status t <> Pending
      \/ exists e, envelopes s !! i = Some e /\ en_encoded_envelope e <> task_bytes).

Lemma held_task_conflicts record envelope context s :
  held_differently s (tr_id record) (en_encoded_envelope envelope) ->
  exists e, MemStore.accept_task_with_envelope_and_context record envelope context s = (Err e, s).
Proof using Type.
  intros (t & Ht & Hd). destruct (MemStore.accept_task_with_envelope_and_context _ _ _ s) as [r s'] eqn:H.
  unfold MemStore.accept_task_with_envelope_and_context in H. op_run H; try (by eexists); try congruence.
  all: exfalso; unfold same_delivered_envelope in *;
    rewrite !andb_true_iff, !bool_decide_eq_true in *; destruct_and!;
    destruct Hd as [Hd|(e' & He' & Hd)]; congruence.
Qed.

Lemma refused_submission r e i (w : World InMemoryState) :
  sm_envelope r = Some e -> parse_required_task_id (te_task_id e) = Ok i ->
  held_differently (w_store w) i (encode_envelope (w_orders w 0%nat) e) ->
  exists st w', run (submit_remote_task cfg r) w = (Some (Err st), w') /\ w_store w' = w_store w.
Proof using Type.
  intros He Hi Hd. pose proof Hd as (t & Ht & _). unfold submit_remote_task. rewrite He. cbn [ok_or].
  rewrite run_bind, run_lift, Hi, run_bind, run_lift.
  rewrite run_bind, run_lift. destruct (parse_peer _) as [sender|]; [|by eexists _, _].
  rewrite run_bind, run_lift. destruct (parse_peer _) as [local|]; [|by eexists _, _].
  case_bool_decide; [|by eexists _, _]. cbn [negb].
  rewrite run_bind, run_lift. destruct (parse_optional_idempotency_key _) as [k|]; [|by eexists _, _].
  rewrite run_order, run_now, run_bind, run_lift.
  destruct (Wire.deadline_from_envelope _) as [d|]; [|destruct w; by eexists _, _].
  rewrite run_bind, run_map_err. unfold accept_pending_remote_task_with_backpressure. rewrite run_bind.
  match goal with |- context[run (check_limit ?r) ?w] =>
    destruct (run_check_limit r w) as ([u|err'] & -> & Ho) end; [|destruct w; by eexists _, _].
  rewrite run_lock, run_handle, run_store. simpl.
  rewrite Ht. cbn [ok_or]. simpl.
  match goal with |- context [MemStore.accept_task_with_envelope_and_context ?a ?b ?c ?d] =>
    destruct (held_task_conflicts a b c d Hd) as [err ->] end.
  simpl. by eexists _, _.
Qed.
End executor.

(** ** A node hands on what waits for it *)

Section edge.
Context `{W : Wire} `{CW : ControlWire}.
Context (relay_cfg : RelayConfig) (ttl : Z) (send : nat -> SendOutcome).
Context (text_ok : string -> bool).
Context (sha256 : bytes -> string) (sha256_digest : forall b, is_digest (sha256 b) = true).
Context (violation row_not_found blob_dir : string) (daemon_cfg : KeryxDaemonConfig).

#[local] Instance the_edge : EdgePeers EdgeNet :=
  edge_network relay_cfg ttl send text_ok sha256 sha256_digest violation row_not_found blob_dir daemon_cfg.

Lemma answered_call {A} (f : EdgeNet -> Result A Status * EdgeNet) net a net' :
  lost_is_error (edge_call f net) = (Ok a, net') -> f (spend net) = (Ok a, net').
Proof using Type.
  unfold edge_call. destruct (f (spend net)) as [answer net1]. destruct (fate (en_fates net)); simpl; [|done..].
  by intros [= -> ->].
Qed.

Lemma edge_connected (connect : EdgeNet -> bool * EdgeNet) e net u net' :
  connect = edge_connects -> connected connect e net = (Ok u, net') -> net' = spend net.
Proof using Type. intros -> H. unfold connected, edge_connects in H. destruct (fate _); [by injection H as <-|done..]. Qed.

(** The acknowledgement of a frame that waits for the node takes it out. *)
Lemma acknowledged nd headers f w reply w' :
  add_node_auth_metadata nd = Ok headers ->
  PeersInv (peers (rw_relay w)) -> f ∈ mailbox (trim (registry_peer_id nd)) (peers (rw_relay w)) ->
  control_kind f = WaitAck ->
  relay_handles relay_cfg ttl send (AckFrameRpc headers (RelayRuntime.frame_id f)) w = (Ok reply, w') ->
  forall m, mailbox m (peers (rw_relay w'))
    = if decide (trim (registry_peer_id nd) = m)
      then filter (fun g => other_frame (fid f) g = true) (mailbox m (peers (rw_relay w)))
      else mailbox m (peers (rw_relay w)).
Proof using Type.
  intros Hh HI Hf Hk H. unfold relay_handles in H.
  assert (Ha : authenticated relay_cfg headers (trim (registry_peer_id nd))).
  { revert H. cbn [RelayService.handle]. unfold rmap, RelayService.ack_frame.
    assert (node_id_from_metadata headers = Ok (trim (registry_peer_id nd))
      \/ exists e, node_id_from_metadata headers = Err e) as [-> | [e ->]]; [|cbn [rlift rbind]|done].
    - unfold add_node_auth_metadata in Hh. destruct (valid_metadata _); [|done].
      unfold node_id_from_metadata.
      assert (hd_node_id headers = HeaderText (registry_peer_id nd)) as ->.
      { destruct (node_token nd); [destruct (valid_metadata _)|]; naive_solver. }
      cbv zeta. case_bool_decide; eauto.
    - destruct (authenticate_request _ _ _) as [n|] eqn:Hn; [|done]. intros _.
      apply authenticate_request_ok in Hn as [Hn ->]. by rewrite trim_trim in Hn. }
  pose proof (acknowledgement_settles relay_cfg ttl send headers _ f w Ha HI Hf Hk) as Hset.
  unfold settled_by in Hset. destruct (run_alone _ _ _ w) as [p w1]. injection H as _ <-. apply Hset.
Qed.

(** A call that the daemon answered, on the in-memory state. *)
Lemma daemon_answered authorization request net resp net' b :
  SameWorld (en_daemon net) b -> sane_clock b -> roomy b ->
  at_daemon sha256 violation daemon_cfg authorization (ReqSubmitRemoteTask request) net
    = (Ok (RespSubmitted resp), net') ->
  exists b', run (submit_remote_task daemon_cfg request) b = (Some (Ok resp), b')
  /\ SameWorld (en_daemon net') b' /\ en_relay net' = en_relay net.
Proof using Type.
  intros HS Hc Hroom H. unfold at_daemon in H.
  destruct (run (H := sql_daemon violation) _ _) as [answer w] eqn:Hrun. injection H as Ha <-.
  destruct answer as [answer|]; [|done]. simpl in Ha. subst answer.
  unfold serve in Hrun. apply run_bind_ok in Hrun as ([] & w1 & [_ ->]%run_lift_ok & Hrun).
  cbn [Daemon.handle] in Hrun. unfold respond in Hrun.
  apply run_bind_ok in Hrun as (resp' & w1 & Hrun & [[= <-] <-]%run_ret_ok).
  pose proof (run_same violation (submit_remote_task daemon_cfg request) _ b HS Hc
    (submit_remote_task_sound _ _) (submit_remote_fit _ _ _ Hroom)) as [E1 E2].
  rewrite Hrun in E1, E2. destruct (run (submit_remote_task daemon_cfg request) b) as [x b'].
  simpl in *. subst x. by exists b'.
Qed.

Lemma submission_answered authorization request net resp net' :
  to_daemon (daemon_submit_remote_task authorization request) net = (Ok resp, net') ->
  at_daemon sha256 violation daemon_cfg authorization (ReqSubmitRemoteTask request) (spend net)
    = (Ok (RespSubmitted resp), net').
Proof using Type.
  unfold to_daemon. cbn [daemon_submit_remote_task the_edge edge_network].
  destruct (lost_is_error (A := DaemonResponse) _) as [answer net1] eqn:H. intros Hd.
  destruct answer as [[]|]; try done. injection Hd as -> ->. by apply answered_call in H.
Qed.

Lemma relay_answered nd request net reply net' :
  to_relay nd request net = (Ok reply, net') ->
  exists headers, add_node_auth_metadata nd = Ok headers
  /\ relay_handles relay_cfg ttl send (request headers) (en_relay net) = (Ok reply, en_relay net')
  /\ en_daemon net' = en_daemon net.
Proof using Type.
  intros (headers & net1 & [Hh ->]%lift_inv & H)%bind_ok_inv. exists headers. split; [done|].
  cbn [relay_call the_edge edge_network] in H. destruct (lost_is_error (A := RelayReply) _) as [answer net1] eqn:Hc. destruct answer as [r|]; [|done].
  injection H as -> ->. apply answered_call in Hc. unfold at_relay in Hc. simpl in Hc.
  destruct (relay_handles _ _ _ _ _) as [answer w] eqn:Hr. injection Hc as -> <-. done.
Qed.

(** The node handed a task frame on: its daemon accepted the task and the
    relay let the frame go. *)
Lemma handed_task nd id source target t net net' b :
  let f := task_frame id source target t in
  PeersInv (peers (rw_relay (en_relay net))) ->
  f ∈ mailbox (trim (registry_peer_id nd)) (peers (rw_relay (en_relay net))) ->
  SameWorld (en_daemon net) b -> sane_clock b -> roomy b ->
  handle_frame nd f net = (Ok tt, net') ->
  exists resp b', run (submit_remote_task daemon_cfg (MkSubmitRemote (Some t) source target id)) b
      = (Some (Ok resp), b')
  /\ SameWorld (en_daemon net') b'
  /\ forall m, mailbox m (peers (rw_relay (en_relay net')))
    = if decide (trim (registry_peer_id nd) = m)
      then filter (fun g => other_frame (fid f) g = true) (mailbox m (peers (rw_relay (en_relay net))))
      else mailbox m (peers (rw_relay (en_relay net))).
Proof using Type.
  intros f HI Hf HS Hc Hroom H. unfold handle_frame in H.
  change (dispatch_relay_typed_control_for_local_bounded nd f) with (Ok (E := NodeError) (@None LocalTypedControlDispatch)) in H.
  rewrite bind_lift_ok in H. apply bind_ok_inv in H as ([] & net1 & H1 & H).
  apply bind_ok_inv in H as ([] & net2 & H2 & H). apply edge_connected in H2 as ->; [|done].
  apply bind_ok_inv in H as (reply & net3 & H3 & [= <-]).
  unfold hand_to_daemon in H1. destruct (has_daemon_endpoint nd); [|done]. cbn [negb] in H1.
  apply bind_ok_inv in H1 as (authorization & net2 & Ha & H1).
  apply bind_ok_inv in Ha as ([] & net4 & Ha & [Hauth ->]%lift_inv). apply edge_connected in Ha as ->; [|done].
  cbn [task_of task f task_frame] in H1. apply bind_ok_inv in H1 as (resp & net4 & Hd & [= <-]).
  apply submission_answered in Hd. apply (daemon_answered _ _ (spend (spend net)) _ _ b) in Hd as (b' & Hrun & HS' & Hrelay);
    [|done..].
  apply relay_answered in H3 as (headers & Hh & H3 & Hdaemon). cbn [spend en_relay en_daemon] in *.
  exists resp, b'. split; [done|]. split; [by rewrite Hdaemon|]. rewrite Hrelay in H3.
  exact (acknowledged nd headers f (en_relay net) reply _ Hh HI Hf eq_refl H3).
Qed.
End edge.
