(* ===== verification/Crossing.v ===== *)
(** * From one daemon to another

    A task that was sent successfully waits at the relay for its target, and
    the target's node hands it, unchanged, to its daemon, whose store then
    holds the same task as the sender's; unless the daemon no longer has the
    task as it was delivered, in which case the frame is refused for ever. *)
From S2P Require Import Prelude Ident Text Lifecycle StoreModel Api MemStore MemSpec MemInv Samples SqlStore SqlRel SqlRefine SqlSession.
From S2P Require Import Artifacts Policy Security Registry Wire Rpc Program ProgramFacts ResultArtifacts Daemon DaemonCalls DaemonSession DaemonFacts DaemonResults WireSamples.
From S2P Require Import RelayRuntime RelayInv RelayDelivery RelayTrace RelayMessages RelayService RelayLogic RelayServiceFacts RelayAlone.
From S2P Require Import Routing RoutingFacts RelayNode RelayNodeFacts Federation FederationFacts.
From stdpp Require Import options.
#[local] Open Scope Z_scope.

Section moved.
Context `{W : Wire} `{CW : ControlWire}.
Context (relay_cfg : RelayConfig) (ttl : Z) (send : nat -> SendOutcome).
Context (text_ok : string -> bool).
Context (sha256 : bytes -> string) (sha256_digest : forall b, is_digest (sha256 b) = true).
Context (violation row_not_found blob_dir : string) (daemon_cfg : KeryxDaemonConfig).

#[local] Instance the_edge : EdgePeers EdgeNet :=
  edge_network relay_cfg ttl send text_ok sha256 sha256_digest violation row_not_found blob_dir daemon_cfg.

(** ** A task that moved on *)

(** A node's daemon that holds [s], its relay being [w]. *)
Definition stands_at (w : RelayWorld) (s : InMemoryState) (net : EdgeNet) : Prop :=
  en_relay net = w
  /\ exists b, SameWorld (en_daemon net) b /\ sane_clock b /\ roomy b /\ w_store b = s.

(** What the daemon encodes the envelope of its next submission to. *)
Definition encoded_at (net : EdgeNet) (t : TaskEnvelope) : bytes :=
  encode_envelope (w_orders (en_daemon net) 0%nat) t.

Lemma refused_call authorization r e i w s net :
  sm_envelope r = Some e -> parse_required_task_id (te_task_id e) = Ok i ->
  held_differently s i (encoded_at net e) -> stands_at w s net ->
  exists st net', to_daemon (daemon_submit_remote_task authorization r) net
      = (Err (NodeDaemonRefused st), net') /\ stands_at w s net'.
Proof using Type.
  intros He Hi Hd (Hw & b & HS & Hc & Hroom & Hstore).
  assert (Hcall : exists st net', at_daemon sha256 violation daemon_cfg authorization (ReqSubmitRemoteTask r) (spend net)
    = (Err st, net') /\ stands_at w s net').
  { unfold at_daemon, serve. rewrite run_bind, run_lift.
    destruct (authorize_daemon_request _ _) as [u|st].
    2: { eexists _, _. split; [reflexivity|]. split; [done|by exists b]. }
    cbn [Daemon.handle spend en_daemon]. unfold respond. rewrite run_bind.
    destruct (refused_submission daemon_cfg r e i b) as (st & b' & Hrun & Hb'); [done|done| |].
    { rewrite Hstore, <- (same_orders _ _ HS). exact Hd. }
    pose proof (run_same violation (submit_remote_task daemon_cfg r) _ b HS Hc
      (submit_remote_task_sound _ _) (submit_remote_fit _ _ _ Hroom)) as [E1 E2].
    pose proof (run_sane_clock (submit_remote_task daemon_cfg r) b Hc) as Hc'.
    rewrite Hrun in E1, E2, Hc'.
    destruct (run (submit_remote_task daemon_cfg r) (en_daemon net)) as [x a']. simpl in E1, E2, Hc' |- *. subst x.
    eexists _, _. split; [reflexivity|]. split; [done|]. exists b'. split_and!; try done; [|congruence].
    unfold roomy. by rewrite Hb'. }
  destruct Hcall as (st & net' & Hcall & Hnet').
  unfold to_daemon. cbn [daemon_submit_remote_task the_edge edge_network]. unfold edge_call. rewrite Hcall.
  destruct (fate (en_fates net)); simpl; eexists _, _; (split; [reflexivity|]); try done.
  split; [done|by exists b].
Qed.

(** The frame of a task that the daemon does not hold as it was delivered is
    refused, whatever becomes of the calls. *)
Lemma refused_frame nd id source target t i w s net :
  parse_required_task_id (te_task_id t) = Ok i ->
  held_differently s i (encoded_at net t) -> stands_at w s net ->
  exists e net', handle_frame nd (task_frame id source target t) net = (Err e, net') /\ stands_at w s net'.
Proof using Type.
  intros Hi Hd Hnet. unfold handle_frame.
  change (dispatch_relay_typed_control_for_local_bounded nd (task_frame id source target t))
    with (Ok (E := NodeError) (@None LocalTypedControlDispatch)).
  rewrite bind_lift_ok.
  assert (H : exists e net', hand_to_daemon nd (task_frame id source target t) net = (Err e, net')
    /\ stands_at w s net').
  { unfold hand_to_daemon. destruct (has_daemon_endpoint nd); [|by eexists _, _]. cbn [negb].
    assert (Hsp : stands_at w s (spend net)) by exact Hnet.
    unfold connect_authenticated_daemon, bind at 1 2, connected, edge_connects. cbn [daemon_connect the_edge edge_network].
    unfold edge_connects. destruct (fate (en_fates net)); [|by eexists _, _..].
    unfold lift. destruct (daemon_authorization nd) as [authorization|e]; [|by eexists _, _].
    cbn [task_of task task_frame].
    destruct (refused_call authorization (MkSubmitRemote (Some t) source target id) t i w s (spend net))
      as (st & net' & Hcall & Hnet'); [done..|].
    eexists _, _. erewrite bind_err by exact Hcall. by split. }
  destruct H as (e & net' & H & Hnet'). eexists _, _. erewrite bind_err by exact H. by split.
Qed.

(** What happens around a frame: the node's stream brings it first, the relay
    does other things than settling it, the daemon moves on. *)
Inductive meanwhile (nd : EdgeNode) (f : Frame) (net : EdgeNet) : EdgeNet -> Prop :=
| mw_stream rest r net' :
    for_each (handle_frame nd) (f :: rest) net = (r, net') -> meanwhile nd f net net'
| mw_relay ops w fates :
    (forall op, op ∈ ops -> RelayDelivery.settles op (trim (registry_peer_id nd)) f = false) ->
    rw_relay w = relay_run ops (rw_relay (en_relay net)) ->
    meanwhile nd f net (MkEdgeNet w (en_daemon net) (en_files net) fates)
| mw_daemon a files :
    (forall s, stands_at (en_relay net) s net -> exists s', extends s s'
       /\ stands_at (en_relay net) s' (MkEdgeNet (en_relay net) a files (en_fates net))) ->
    meanwhile nd f net (MkEdgeNet (en_relay net) a files (en_fates net)).

(** The frame waits, and the daemon is done with its task. *)
Definition poisoned (nd : EdgeNode) (f : Frame) (i : TaskId) (net : EdgeNet) : Prop :=
  PeersInv (peers (rw_relay (en_relay net)))
  /\ f ∈ mailbox (trim (registry_peer_id nd)) (peers (rw_relay (en_relay net)))
  /\ exists s t, stands_at (en_relay net) s net /\ tasks s !! i = Some t /\ is_terminal (tr_status t) = true.

Lemma refused_stream nd id source target t i w s rest net :
  parse_required_task_id (te_task_id t) = Ok i ->
  held_differently s i (encoded_at net t) -> stands_at w s net ->
  exists e net', for_each (handle_frame nd) (task_frame id source target t :: rest) net = (Err e, net')
    /\ stands_at w s net'.
Proof using Type.
  intros Hi Hd Hnet. destruct (refused_frame nd id source target t i w s net) as (e & net' & H & Hnet');
    [done..|]. exists e, net'. split; [|done]. cbn [for_each]. by apply bind_err.
Qed.

Lemma ended_held_differently s i t task_bytes :
  tasks s !! i = Some t -> is_terminal (tr_status t) = true -> held_differently s i task_bytes.
Proof using Type. intros Ht H. exists t. split; [done|]. left. intros E. by rewrite E in H. Qed.

Lemma meanwhile_poisoned nd id source target t i net net' :
  parse_required_task_id (te_task_id t) = Ok i ->
  let f := task_frame id source target t in
  poisoned nd f i net -> meanwhile nd f net net' -> poisoned nd f i net'.
Proof using Type.
  intros Hi f (HI & Hf & s & t0 & Hnet & Ht & Hterm) H. destruct H as [rest r net' H|ops w fates Hops Hw|a files H].
  - destruct (refused_stream nd id source target t i (en_relay net) s rest net) as (e & net1 & H' & Hnet');
      [done|by eapply ended_held_differently|done|].
    fold f in H'. rewrite H in H'. injection H' as _ <-.
    pose proof (proj1 Hnet') as E. split; [by rewrite E|]. split; [by rewrite E|].
    exists s, t0. split; [|done]. by rewrite E.
  - split; simpl; rewrite Hw; [by apply relay_run_inv|]. split; [by apply unsettled_stays_run|].
    exists s, t0. split; [|done]. destruct Hnet as [_ Hb]. by split.
  - destruct (H s Hnet) as (s' & Hs & Hnet'). split; [done|]. split; [done|].
    destruct (ex_tasks _ _ Hs i t0 Ht) as (t1 & Ht1 & Hev). exists s', t1. split; [done|]. split; [done|].
    by rewrite (te_terminal _ _ Hev Hterm).
Qed.

(** C33: a task that was delivered but not acknowledged blocks its node. Take a
    frame that carries a task, waiting at the relay for a node, and suppose
    that the node's daemon has the task already: the acknowledgement was lost.
    If a worker took the task since then, or if the daemon happens to encode
    the envelope in another order of its metadata, then, whatever becomes of
    the calls, the node's stream ends with an error at this frame, and the
    relay and the store are as they were: the redelivery is not taken as the
    repetition it is. Once the task has ended this is for ever: in any sequence
    of runs of the stream, of calls that the relay gets and do not settle this
    frame, and of moves of the daemon, the frame stays, and no run gets past it
    to a frame behind it. *)
Theorem redelivered_task_blocks_the_stream nd id source target t i :
  parse_required_task_id (te_task_id t) = Ok i ->
  let f := task_frame id source target t in
  (forall s rest net, stands_at (en_relay net) s net -> held_differently s i (encoded_at net t) ->
     exists e net', for_each (handle_frame nd) (f :: rest) net = (Err e, net')
       /\ stands_at (en_relay net) s net')
  /\ (forall net net', poisoned nd f i net -> rtc (meanwhile nd f) net net' ->
     f ∈ mailbox (trim (registry_peer_id nd)) (peers (rw_relay (en_relay net')))
     /\ forall rest, exists e net'', for_each (handle_frame nd) (f :: rest) net' = (Err e, net'')
       /\ en_relay net'' = en_relay net').
Proof using Type.
  intros Hi f. split; [by intros; eapply refused_stream|].
  intros net net' Hp Hr. assert (poisoned nd f i net') as (_ & Hf & s & t0 & Hnet & Ht & Hterm).
  { induction Hr as [net|net net1 net' H _ IH]; [done|]. by eapply IH, meanwhile_poisoned. }
  split; [done|]. intros rest.
  destruct (refused_stream nd id source target t i (en_relay net') s rest net') as (e & net'' & H & Hnet');
    [done|by eapply ended_held_differently|done|]. exists e, net''. split; [done|apply Hnet'].
Qed.
End moved.

(** ** From the sender to the executor *)

Lemma same_ids `{W : Wire} (envelope : TaskEnvelope) i j :
  parse_envelope_task_id envelope = Ok i -> parse_required_task_id (te_task_id envelope) = Ok j -> i = j.
Proof.
  unfold parse_envelope_task_id, parse_required_task_id, parse_required_id, present_text.
  destruct (te_task_id envelope) as [[v]|]; simpl; [|done]. case_bool_decide; [done|]. simpl.
  destruct (Id_new "TaskId" (trim v)); simpl; [|done]. by intros [= ->] [= ->].
Qed.

Lemma same_keys `{W : Wire} (envelope : TaskEnvelope) k l :
  parse_envelope_idempotency_key envelope = Ok k ->
  parse_optional_idempotency_key (te_idempotency_key envelope) = Ok l -> k = l.
Proof.
  unfold parse_envelope_idempotency_key, parse_optional_idempotency_key.
  destruct (te_idempotency_key envelope) as [[v]|]; simpl; [|by intros [= <-] [= <-]].
  case_bool_decide; [by intros [= <-] [= <-]|].
  destruct (Id_new "IdempotencyKey" (trim v)); simpl; [|done]. by intros [= ->] [= ->].
Qed.

Lemma parse_peer_text `{W : Wire} (p : PeerId) q : parse_peer (as_str p) = Ok q -> q = p.
Proof. unfold parse_peer. rewrite id_trim, Id_new_as_str. by intros [= ->]. Qed.

Section crossing.
Context `{W : Wire} `{CW : ControlWire}.
Context (relay_cfg : RelayConfig) (ttl : Z) (send : nat -> SendOutcome).
Context (text_ok : string -> bool) (bad_text : string) (text_of_code : Code -> string).
Context (sha256 : bytes -> string) (sha256_digest : forall b, is_digest (sha256 b) = true).
Context (violation row_not_found blob_dir : string) (daemon_cfg : KeryxDaemonConfig).

#[local] Instance sender_net : RelayNetwork RelayNet :=
  published_to_relay relay_cfg ttl send text_ok bad_text text_of_code.
#[local] Instance executor_net : EdgePeers EdgeNet :=
  edge_network relay_cfg ttl send text_ok sha256 sha256_digest violation row_not_found blob_dir daemon_cfg.

Context (router : TaskRouter (Net := RelayNet)) (p : GrpcRelayTaskPublisher).
Context (Hpub : router_publisher router = grpc_publisher p).
Context (Hsource : gp_source_peer_id p = dir_local_peer_id (router_peers router)).

Abbreviation source := (dir_local_peer_id (router_peers router)).

(** A task that was sent is stored at home and waits at the relay. *)
Record crossing (target : PeerId) (envelope : TaskEnvelope) (order : nat) (net net' : RelayNet)
    (s' : InMemoryState) (i : TaskId) (key : option IdempotencyKey) (receipt : RelayRouteReceipt)
    (t : TaskEnvelope) : Prop := {
  cr_id : parse_envelope_task_id envelope = Ok i;
  cr_key : parse_envelope_idempotency_key envelope = Ok key;
  cr_intended : intended s' (outgoing_record i envelope key) (outgoing_bytes order envelope) source target;
  cr_context : transport_contexts s' !! i = Some (receipt_context i source target receipt);
  cr_task : exists features, t = handed_on features (sent_task envelope target);
  cr_mailed : mailbox (as_str target) (peers (rw_relay (rn_relay net')))
    = mailbox (as_str target) (peers (rw_relay (rn_relay net)))
      ++ [task_frame (rr_frame_id receipt) (as_str source) (as_str target) t];
  cr_peers : PeersInv (peers (rw_relay (rn_relay net')));
}.

Lemma sent_is_crossing target envelope timeout_ms order now_ms c net audit s outcome w' :
  target <> source -> Rel (committed c) s -> Inv s ->
  PeersInv (peers (rw_relay (rn_relay net))) -> ids_trimmed (rn_relay net) ->
  unpublished (as_str source) envelope (rn_relay net) ->
  send_task violation router target envelope timeout_ms order now_ms (MkRouterWorld c net audit)
    = (Ok outcome, w') ->
  so_route outcome <> RouteAwaitingApproval ->
  exists s' i key receipt t, Rel (committed (ro_store w')) s'
    /\ crossing target envelope order net (ro_net w') s' i key receipt t.
Proof using Hpub Hsource.
  intros Ht HR HI HP Hids Hnew H Hroute.
  destruct (sends_or_refuses violation router p Hpub Hsource target envelope timeout_ms order now_ms c net audit s
    Ht HR HI) as (r & s' & net' & audit' & (Hr & HR' & Hnet & _) & _ & _ & Hout).
  rewrite H in Hr, HR', Hnet. simpl in Hr, HR', Hnet. subst r net'.
  destruct Hout as [(_ & _ & Ho)|(_ & i & key & s1 & Hi & Hk & _ & Hin & Hnet' & Hset)].
  { by destruct (Ho outcome eq_refl). }
  cbv zeta in Hnet'. set (timeout := normalize_timeout _ _) in *.
  destruct (grpc_deliver_task p target (with_supported_features envelope) timeout net) as [answer net1] eqn:Hd.
  simpl in Hset, Hnet'. destruct answer as [[receipt|e]|]; [|by destruct Hset..].
  destruct Hset as (_ & _ & Hs'). rewrite <- Hsource in Hnew.
  destruct (delivered_is_mailed relay_cfg ttl send text_ok bad_text text_of_code p target
    (with_supported_features envelope) timeout net receipt net1 HP Hids Hnew Hd) as (HP' & features & Hm).
  exists s', i, key, receipt, (handed_on features (sent_task envelope target)).
  split; [done|]. rewrite Hs'. split; try done.
  - exact (intended_set_context _ _ _ _ _ receipt Hin).
  - simpl. by rewrite lookup_insert_eq.
  - by exists features.
  - by rewrite Hnet', Hm, Hsource.
  - by rewrite Hnet'.
Qed.

(** The executor's node handed the task on. *)
Lemma crossing_arrives target envelope order net net' s i key receipt t nd ops (enet enet' : EdgeNet) b :
  crossing target envelope order net net' s i key receipt t ->
  let f := task_frame (rr_frame_id receipt) (as_str source) (as_str target) t in
  rw_relay (en_relay enet) = relay_run ops (rw_relay (rn_relay net')) ->
  (forall op, op ∈ ops -> RelayDelivery.settles op (as_str target) f = false) ->
  trim (registry_peer_id nd) = as_str target ->
  SameWorld (en_daemon enet) b -> sane_clock b -> roomy b ->
  handle_frame nd f enet = (Ok tt, enet') ->
  exists b', SameWorld (en_daemon enet') b'
    /\ local_peer_id daemon_cfg = target
    /\ delivered (w_store b') (outgoing_record i envelope key) (encode_envelope (w_orders b 0%nat) t)
         source target (rr_frame_id receipt)
    /\ f ∉ mailbox (as_str target) (peers (rw_relay (en_relay enet'))).
Proof using Type.
  intros [Hi Hk _ _ (features & Ht) Hm HP] f Hrelay Hops Hnode HS Hc Hroom H.
  assert (Hf : f ∈ mailbox (trim (registry_peer_id nd)) (peers (rw_relay (en_relay enet)))).
  { rewrite Hnode, Hrelay. apply unsettled_stays_run; [done| |done]. rewrite Hm. apply elem_of_app. right. by left. }
  assert (HP' : PeersInv (peers (rw_relay (en_relay enet)))) by (rewrite Hrelay; by apply relay_run_inv).
  destruct (handed_task relay_cfg ttl send text_ok sha256 sha256_digest violation row_not_found blob_dir daemon_cfg
    nd _ _ _ t enet enet' b HP' Hf HS Hc Hroom H) as (resp & b' & Hrun & HS' & Hmail).
  apply submitted_is_delivered in Hrun as (e & j & sender & l & [= <-] & Hj & Hs & Hl & Hkey & Hd).
  cbn [sm_authenticated_sender_peer_id sm_destination_peer_id sm_relay_frame_id] in *.
  apply parse_peer_text in Hs, Hl. subst sender. rewrite Hl in Hd.
  assert (te_task_id t = te_task_id envelope /\ te_idempotency_key t = te_idempotency_key envelope
    /\ te_deadline_ms t = te_deadline_ms envelope) as (Et & Ek & Ed) by by rewrite Ht.
  rewrite Et in Hj. rewrite Ek in Hkey. rewrite <- (same_ids _ _ _ Hi Hj), <- (same_keys _ _ _ Hk Hkey) in Hd.
  exists b'. split; [done|]. split; [done|]. split.
  - unfold outgoing_record in Hd |- *. by rewrite Ed in Hd.
  - rewrite Hmail, Hnode, decide_True by done. intros [Hother _]%list_elem_of_filter.
    unfold other_frame in Hother. by rewrite bool_decide_true in Hother.
Qed.

(** C7: a task that was sent reaches its executor. When [send_task] for another
    peer succeeds over the relay, for a task that the relay has not published
    yet, then the sender's store holds the pending task with its envelope and
    the relay's receipt, and the last frame of the target's mailbox carries
    that envelope, with the target and the features of the source in its
    metadata and all else as it was given. Whatever the relay does until then
    apart from settling this frame: when the node of the target handles the
    frame without an error, its daemon is the target, and its store holds the
    same pending task record as the sender's, the envelope, the sender as
    authenticated by the relay, and the frame; and the frame has left the
    mailbox. *)
Theorem sent_task_reaches_the_executor target envelope timeout_ms order now_ms c net audit s outcome w' :
  target <> source -> Rel (committed c) s -> Inv s ->
  PeersInv (peers (rw_relay (rn_relay net))) -> ids_trimmed (rn_relay net) ->
  unpublished (as_str source) envelope (rn_relay net) ->
  send_task violation router target envelope timeout_ms order now_ms (MkRouterWorld c net audit)
    = (Ok outcome, w') ->
  so_route outcome <> RouteAwaitingApproval ->
  exists s' i key receipt t,
    Rel (committed (ro_store w')) s' /\ crossing target envelope order net (ro_net w') s' i key receipt t
    /\ let f := task_frame (rr_frame_id receipt) (as_str source) (as_str target) t in
      forall nd ops (enet enet' : EdgeNet) b,
        rw_relay (en_relay enet) = relay_run ops (rw_relay (rn_relay (ro_net w'))) ->
        (forall op, op ∈ ops -> RelayDelivery.settles op (as_str target) f = false) ->
        trim (registry_peer_id nd) = as_str target ->
        SameWorld (en_daemon enet) b -> sane_clock b -> roomy b ->
        handle_frame nd f enet = (Ok tt, enet') ->
        exists b', SameWorld (en_daemon enet') b'
          /\ local_peer_id daemon_cfg = target
          /\ delivered (w_store b') (outgoing_record i envelope key) (encode_envelope (w_orders b 0%nat) t)
               source target (rr_frame_id receipt)
          /\ f ∉ mailbox (as_str target) (peers (rw_relay (en_relay enet'))).
Proof using Hpub Hsource.
  intros Ht HR HI HP Hids Hnew H Hroute.
  destruct (sent_is_crossing _ _ _ _ _ _ _ _ _ _ _ Ht HR HI HP Hids Hnew H Hroute)
    as (s' & i & key & receipt & t & HR' & Hcr).
  exists s', i, key, receipt, t. split; [done|]. split; [done|]. intros f nd ops enet enet' b.
  exact (crossing_arrives target envelope order net (ro_net w') s' i key receipt t nd ops enet enet' b Hcr).
Qed.
End crossing.

(** ** A task that crosses, and one that is redelivered *)

#[local] Instance crossing_control_wire : ControlWire := {|
  publish_encoded_len := fun _ => 0;
  fleet_result_encoded_len := fun _ => 0;
|}.

(** The two peers at the relay, and the executor's daemon and node. *)
Definition two_peers : RelayConfig :=
  MkRelayConfig false
    match Id_new "NodeId" "peer-a", Id_new "NodeId" "peer-b" with
    | Ok a, Ok b => Some (MkNodeTokenAuth {[a := "token-a"%string; b := "token-b"%string]} ∅)
    | _, _ => None
    end 0.

Definition executor_config : KeryxDaemonConfig :=
  MkConfig peer_b 300000 default_retry_policy default_limits (Some "secret"%string) 30000.
Definition executor_node : EdgeNode :=
  MkEdgeNode "peer-b" (Some "token-b"%string) true (Some "secret"%string) no_handlers.

Definition always_sent (n : nat) : SendOutcome := Sent.
#[local] Instance two_peers_net : RelayNetwork RelayNet :=
  published_to_relay two_peers 1000 always_sent (fun _ => true) "" (fun _ => ""%string).
Definition the_router : TaskRouter (Net := RelayNet) :=
  MkRouter (new_directory peer_a) (grpc_publisher sample_publisher) default_policy 30000.
Definition first_relay : RelayWorld :=
  MkRelayWorld new_relay empty_registry 0 (fun n => MkClock 500 1000) (fun _ => "relay-1"%string).

Definition sent : Result SendTaskOutcome RoutingError * RouterWorld (Net := RelayNet) :=
  send_task "" the_router peer_b sample_envelope 0 0 100 (MkRouterWorld empty_conn (MkRelayNet first_relay []) []).

#[local] Instance executor_peers : EdgePeers EdgeNet :=
  edge_network two_peers 1000 always_sent (fun _ => true) sample_sha sample_sha_digest "" "" "blobs" executor_config.

(** The executor's network: the relay as it is after the task was sent. *)
Definition after_sending : RelayWorld := rn_relay (ro_net sent.2).
Definition crossing_task : TaskEnvelope := handed_on [] (sent_task sample_envelope peer_b).
Definition crossing_frame : Frame := task_frame "relay-1" "peer-a" "peer-b" crossing_task.
Definition executor_at (fates : list Fate) : EdgeNet :=
  MkEdgeNet after_sending (sample_world empty_conn) ∅ fates.

Lemma crossing_ready :
  PeersInv (peers (rw_relay first_relay)) /\ ids_trimmed first_relay
  /\ unpublished "peer-a" sample_envelope first_relay.
Proof. split; [exact (reachable_inv [])|]. by split. Qed.

Lemma sample_clock {S} (s : S) : sane_clock (sample_world s).
Proof. intros n. simpl. lia. Qed.

(** The network after the executor's node handled the frame. *)
Definition crossed : EdgeNet := (handle_frame executor_node crossing_frame (executor_at [])).2.

Lemma sent_task_reaches_the_executor_witness :
  handle_frame executor_node crossing_frame (executor_at []) = (Ok tt, crossed)
  /\ exists i key b, SameWorld (en_daemon crossed) b
     /\ delivered (w_store b) (outgoing_record i sample_envelope key)
          (encode_envelope 0 crossing_task) peer_a peer_b "relay-1".
Proof.
  assert (Hrun : handle_frame executor_node crossing_frame (executor_at []) = (Ok tt, crossed))
    by (unfold crossed; refine (pair_of_fst _ _ _); vm_compute; reflexivity).
  split; [exact Hrun|].
  assert (Hsent : exists outcome, sent.1 = Ok outcome /\ so_route outcome <> RouteAwaitingApproval)
    by (eexists; split; [vm_compute; reflexivity|discriminate]).
  destruct Hsent as (outcome & Hsent & Hroute). destruct crossing_ready as (HP & Hids & Hnew).
  assert (Hmail : mailbox (as_str peer_b) (peers (rw_relay (rn_relay (ro_net sent.2)))) = [crossing_frame])
    by (vm_compute; reflexivity).
  destruct (sent_task_reaches_the_executor two_peers 1000 always_sent (fun _ => true) "" (fun _ => ""%string)
    sample_sha sample_sha_digest "" "" "blobs" executor_config the_router sample_publisher eq_refl eq_refl
    peer_b sample_envelope 0 0 100 empty_conn (MkRelayNet first_relay []) [] empty_state outcome sent.2
    (fun H => ltac:(discriminate H)) Rel_empty Inv_empty HP Hids Hnew (pair_of_fst _ _ Hsent) Hroute)
    as (s' & i & key & receipt & t & _ & Hcr & Harrives).
  pose proof (cr_mailed _ _ _ _ _ _ _ _ _ _ _ Hcr) as Hm.
  assert (crossing_frame = task_frame (rr_frame_id receipt) "peer-a" "peer-b" t) as Hf.
  { rewrite Hmail in Hm. exact (f_equal (hd crossing_frame) Hm). }
  injection Hf as Hid Ht. subst t. cbv zeta in Harrives. rewrite <- Hid in Harrives.
  assert (Hroom : roomyb (sample_world empty_state) = true) by (vm_compute; reflexivity).
  destruct (Harrives executor_node [] (executor_at []) crossed (sample_world empty_state) eq_refl
    ltac:(intros op H; inversion H) ltac:(vm_compute; reflexivity) sample_same (sample_clock _)
    (roomyb_ok _ Hroom) Hrun) as (b & HS & _ & Hd & _).
  exists i, key, b. split; [exact HS|exact Hd].
Defined.

(** The daemon's handlers, one after the other. *)
Definition serves {S} `{DaemonStore S} (requests : list DaemonRequest) (w : World S) : World S :=
  foldl (fun w r => (run (serve sample_sha executor_config header r) w).2) w requests.

(** [stores_fit], evaluated. *)
Fixpoint stores_fitb {E A} (p : Prog E A) (b : World InMemoryState) {struct p} : bool :=
  match p with
  | Call e k =>
      match e with Store _ => roomyb b | _ => true end
      && stores_fitb (k (perform e b).1) (perform e b).2
  | _ => true
  end.

Lemma stores_fitb_ok {E A} (p : Prog E A) : forall b, stores_fitb p b = true -> stores_fit p b.
Proof.
  induction p as [r| |e k IH]; intros b; cbn [stores_fitb stores_fit]; [done..|].
  rewrite andb_true_iff. intros [Hb Hk]. split; [|by apply IH]. destruct e; try done. by apply roomyb_ok.
Qed.

Fixpoint serves_fit (requests : list DaemonRequest) (b : World InMemoryState) : bool :=
  match requests with
  | [] => roomyb b
  | r :: requests =>
      stores_fitb (serve sample_sha executor_config header r) b && serves_fit requests (serves [r] b)
  end.

Lemma serves_same requests : forall a b,
  SameWorld a b -> sane_clock b -> serves_fit requests b = true ->
  exists b', b' = serves requests b /\ SameWorld (serves (H := sql_daemon "") requests a) b'
    /\ sane_clock b' /\ roomy b'.
Proof.
  induction requests as [|r requests IH]; intros a b HS Hc; cbn [serves_fit].
  - intros Hb%roomyb_ok. by exists b.
  - rewrite andb_true_iff. intros [Hr%stores_fitb_ok Hrest].
    destruct (run_same "" (serve sample_sha executor_config header r) a b HS Hc (serve_sound _ _ _ _) Hr) as [_ HS'].
    apply (IH _ _ HS'); [by apply run_sane_clock|done].
Qed.

(** A delivery whose acknowledgement is lost; then a worker does the task. *)
Definition lost_ack : EdgeNet :=
  (handle_frame executor_node crossing_frame (executor_at [Arrives; Arrives; Arrives; RequestLost])).2.
Definition delivery_call : DaemonRequest :=
  ReqSubmitRemoteTask (MkSubmitRemote (Some crossing_task) "peer-a" "peer-b" "relay-1").
Definition worker_calls : list DaemonRequest :=
  [ReqClaimTask (MkClaimTask (Some (MkProtoId "task-a")) (Some (MkProtoId "worker-a")) 1000);
   ReqCompleteTask (MkCompleteTask (Some (MkProtoId "task-a")) (Some (MkProtoId "lease-task-a-120"))
     (Some (MkProtoId "worker-a")) 5 ∅ [])].
Definition worked : EdgeNet :=
  MkEdgeNet after_sending (serves (H := sql_daemon "") worker_calls (en_daemon lost_ack)) ∅ [].

(** The daemon as the lost acknowledgement leaves it, and after the worker. *)
Lemma lost_ack_daemon :
  en_daemon lost_ack = serves (H := sql_daemon "") [delivery_call] (sample_world empty_conn).
Proof. vm_compute. reflexivity. Qed.

Lemma serves_app {S} `{DaemonStore S} l l' (w : World S) : serves (l ++ l') w = serves l' (serves l w).
Proof. apply foldl_app. Qed.

Lemma stands_after requests net :
  en_relay net = after_sending ->
  en_daemon net = serves (H := sql_daemon "") requests (sample_world empty_conn) ->
  serves_fit requests (sample_world empty_state) = true ->
  stands_at after_sending (w_store (serves requests (sample_world empty_state))) net.
Proof.
  intros Hr Hd Hfit. split; [done|]. rewrite Hd.
  destruct (serves_same requests _ _ sample_same (sample_clock _) Hfit) as (b & -> & HS & Hc & Hb).
  exact (ex_intro _ _ (conj HS (conj Hc (conj Hb eq_refl)))).
Qed.

Lemma stands_lost_ack :
  stands_at after_sending (w_store (serves [delivery_call] (sample_world empty_state))) lost_ack.
Proof. apply stands_after; [vm_compute; reflexivity|exact lost_ack_daemon|vm_compute; reflexivity]. Qed.

Lemma stands_worked :
  stands_at after_sending (w_store (serves (delivery_call :: worker_calls) (sample_world empty_state))) worked.
Proof.
  apply stands_after; [reflexivity| |vm_compute; reflexivity].
  cbn [worked en_daemon]. by rewrite lost_ack_daemon, (serves_app [delivery_call] worker_calls).
Qed.

Lemma after_sending_inv : PeersInv (peers (rw_relay after_sending)).
Proof.
  destruct crossing_ready as (HP & Hids & Hnew).
  assert (Hsent : exists outcome, sent.1 = Ok outcome /\ so_route outcome <> RouteAwaitingApproval)
    by (eexists; split; [vm_compute; reflexivity|discriminate]).
  destruct Hsent as (outcome & Hsent & Hroute).
  destruct (sent_is_crossing two_peers 1000 always_sent (fun _ => true) "" (fun _ => ""%string) ""
    the_router sample_publisher eq_refl eq_refl
    peer_b sample_envelope 0 0 100 empty_conn (MkRelayNet first_relay []) [] empty_state outcome sent.2
    (fun H => ltac:(discriminate H)) Rel_empty Inv_empty HP Hids Hnew (pair_of_fst _ _ Hsent) Hroute)
    as (s' & i & key & receipt & t & _ & Hcr).
  exact (cr_peers _ _ _ _ _ _ _ _ _ _ _ Hcr).
Qed.

Lemma redelivered_task_blocks_the_stream_witness :
  poisoned executor_node crossing_frame task_a worked
  /\ (exists e net, for_each (handle_frame executor_node) [crossing_frame] lost_ack = (Err e, net)
       /\ stands_at after_sending (w_store (serves [delivery_call] (sample_world empty_state))) net)
  /\ forall rest, exists e net, for_each (handle_frame executor_node) (crossing_frame :: rest) worked = (Err e, net)
       /\ en_relay net = after_sending.
Proof.
  assert (Hi : parse_required_task_id (te_task_id crossing_task) = Ok task_a) by (vm_compute; reflexivity).
  assert (Hmail : mailbox (trim (registry_peer_id executor_node)) (peers (rw_relay after_sending)) = [crossing_frame])
    by (vm_compute; reflexivity).
  assert (Hp : poisoned executor_node crossing_frame task_a worked).
  { split; [exact after_sending_inv|]. split.
    - change (en_relay worked) with after_sending. rewrite Hmail. apply list_elem_of_here.
    - assert (Ht : exists t, tasks (w_store (serves (delivery_call :: worker_calls) (sample_world empty_state))) !! task_a
        = Some t /\ is_terminal (tr_status t) = true) by (eexists; split; vm_compute; reflexivity).
      destruct Ht as (t & Ht & Hterm). eexists _, t. split; [exact stands_worked|]. by split. }
  assert (Hd : held_differently (w_store (serves [delivery_call] (sample_world empty_state))) task_a
    (encoded_at lost_ack crossing_task)).
  { set (s := w_store (serves [delivery_call] (sample_world empty_state))).
    assert (Ht : is_Some (tasks s !! task_a)) by (vm_compute; by eexists).
    assert (He : (bool_decide (en_encoded_envelope <$> envelopes s !! task_a
      = Some (encoded_at lost_ack crossing_task))) = false) by (vm_compute; reflexivity).
    apply bool_decide_eq_false in He.
    assert (Hs : is_Some (envelopes s !! task_a)) by (vm_compute; by eexists).
    destruct Ht as [t Ht], Hs as [e Hs]. exists t. split; [exact Ht|]. right. exists e. split; [exact Hs|].
    rewrite Hs in He. intros E. apply He. exact (f_equal Some E). }
  destruct (redelivered_task_blocks_the_stream two_peers 1000 always_sent (fun _ => true) sample_sha sample_sha_digest
    "" "" "blobs" executor_config executor_node "relay-1" "peer-a" "peer-b" crossing_task task_a Hi) as [Hone Hall].
  split; [exact Hp|]. split.
  - assert (Hr : en_relay lost_ack = after_sending) by (exact (proj1 stands_lost_ack)).
    specialize (Hone (w_store (serves [delivery_call] (sample_world empty_state))) [] lost_ack).
    rewrite Hr in Hone. exact (Hone stands_lost_ack Hd).
  - intros rest. exact (proj2 (Hall worked worked Hp (rtc_refl _ _)) rest).
Defined.
