(* ===== verification/Incoming.v ===== *)
(** * Tasks from a relay channel

    The daemon's path for tasks that come through a channel instead of the
    task service (keryx-daemon/src/incoming.rs): the gate of allowed senders,
    the acceptance, and the lease for a local worker, as a program of the
    effects of Program. *)
From S2P Require Import Prelude Ident Text Lifecycle StoreModel Api Wire Rpc Program Daemon.
From S2P Require Import Policy Security Registry RelayRuntime RelayMessages RelayService.
From stdpp Require Import pretty options.
#[local] Open Scope Z_scope.

Record IncomingRelayTask : Type := MkIncoming {
  in_frame_id : string;
  in_sender_node_id : string;
  in_envelope : TaskEnvelope;
}.

(** A frame that carries anything else than one task is not a task. *)
Definition from_relay_frame (sender_node_id : string) (frame : Frame) : Result IncomingRelayTask string :=
  let exact_task_payload :=
    is_some (task frame)
    && negb (is_some (result frame))
    && negb (is_some (nodescale_identity_bind_v1 frame))
    && negb (is_some (nodescale_identity_challenge_v1 frame))
    && negb (is_some (nodescale_identity_bind_v2 frame))
    && negb (is_some (nodescale_identity_challenge_v2 frame))
    && negb (is_some (fleet_observation_publish_v1 frame)) in
  match exact_task_payload, task frame with
  | true, Some (MTask t) => Ok (MkIncoming (frame_id frame) sender_node_id t)
  | _, _ => Err "relay task extraction requires exactly one task payload"%string
  end.

(** ** Senders *)

Class SenderAllowlist (L : Type) : Type := is_allowed : L -> string -> bool.

Record StaticSenderAllowlist : Type := MkAllowlist { allowed : gset string }.

Definition no_senders : StaticSenderAllowlist := MkAllowlist ∅.
Definition with_nodes (nodes : list string) (l : StaticSenderAllowlist) : StaticSenderAllowlist :=
  MkAllowlist (allowed l ∪ list_to_set nodes).
Definition allow (sender_node_id : string) (l : StaticSenderAllowlist) : StaticSenderAllowlist :=
  MkAllowlist ({[sender_node_id]} ∪ allowed l).

#[export] Instance static_allowlist : SenderAllowlist StaticSenderAllowlist :=
  fun l sender_node_id => bool_decide (sender_node_id ∈ allowed l).

(** ** The handler *)

Record IncomingDispatchConfig : Type := MkDispatch {
  local_worker_id : option AgentId;
  dispatch_lease_duration_ms : Z;
}.

Definition default_dispatch : IncomingDispatchConfig := MkDispatch None 0.
Definition auto_dispatch (worker_id : AgentId) (lease_duration_ms : Z) : IncomingDispatchConfig :=
  MkDispatch (Some worker_id) lease_duration_ms.

Inductive IncomingHandleResult : Type :=
| Accepted (task_id : TaskId) (dispatched : bool) (lease_id : option LeaseId)
| RejectedSender (sender_node_id : string)
| InvalidEnvelope (message : string)
| IncomingStore (e : StoreError).

Section incoming.
Context `{W : Wire}.

Definition parse_envelope_task_id (envelope : TaskEnvelope) : Result TaskId string :=
  let? v := ok_or (present_text (value <$> te_task_id envelope)) "envelope.task_id is required"%string in
  map_err validation_error_text (Id_new "TaskId" v).

Definition parse_envelope_idempotency_key (envelope : TaskEnvelope) : Result (option IdempotencyKey) string :=
  match te_idempotency_key envelope with
  | None => Ok None
  | Some key =>
      let trimmed := trim (value key) in
      if bool_decide (trimmed = "") then Ok None
      else result_map Some (map_err validation_error_text (Id_new "IdempotencyKey" trimmed))
  end.

Definition deadline_from_envelope (envelope : TaskEnvelope) : Result (option Z) string :=
  if te_deadline_ms envelope <? 0
  then Err "deadline_ms must be zero or a positive Unix epoch timestamp"%string
  else Ok (if 0 <? te_deadline_ms envelope then Some (te_deadline_ms envelope) else None).

(** [None] where the source expects the id to be valid. *)
Definition new_lease_id (task_id : TaskId) (leased_at_ms : Z) : option LeaseId :=
  match Id_new "LeaseId" ("lease-" +:+ as_str task_id +:+ "-" +:+ pretty leased_at_ms) with
  | Ok lease_id => Some lease_id
  | Err _ => None
  end.

Context (cfg : KeryxDaemonConfig).

Definition dispatch_to_local_worker (task_id : TaskId) (worker_id : AgentId)
    (lease_duration_ms default_lease_duration_ms : Z) : Prog StoreError LeaseId :=
  let duration_ms := if lease_duration_ms <=? 0 then default_lease_duration_ms else lease_duration_ms in
  do! leased_at_ms := unix_ms_now in
  let expires_at_ms := i64_saturating_add leased_at_ms duration_ms in
  match new_lease_id task_id leased_at_ms with
  | None => Panic
  | Some lease_id =>
      let lease := new_lease lease_id task_id worker_id leased_at_ms expires_at_ms in
      do! _ := store (OpLeaseForPeer task_id lease (local_peer_id cfg)) in
      retP lease_id
  end.

(** The early returns are errors of this body. *)
Definition incoming_body {L} `{SenderAllowlist L} (shutdown_is_active : bool) (allowlist : L)
    (dispatch : IncomingDispatchConfig) (incoming : IncomingRelayTask)
    : Prog IncomingHandleResult IncomingHandleResult :=
  if shutdown_is_active then throwP (IncomingStore (StoreError.Database "daemon is shutting down")) else
  if negb (is_allowed allowlist (in_sender_node_id incoming))
  then throwP (RejectedSender (in_sender_node_id incoming)) else
  do! task_id := liftP (map_err InvalidEnvelope (parse_envelope_task_id (in_envelope incoming))) in
  do! idempotency_key := liftP (map_err InvalidEnvelope (parse_envelope_idempotency_key (in_envelope incoming))) in
  do! deadline_ms := liftP (map_err InvalidEnvelope (deadline_from_envelope (in_envelope incoming))) in
  do! order := hash_order in
  let encoded_envelope := encode_envelope order (in_envelope incoming) in
  let record := with_deadline (new_task_record task_id Pending idempotency_key) deadline_ms in
  do! received_at_ms := unix_ms_now in
  let envelope_record := MkEnvelope task_id encoded_envelope received_at_ms in
  do! authenticated_sender_peer_id :=
    liftP (map_err (fun e => InvalidEnvelope (validation_error_text e))
             (Id_new "PeerId" (in_sender_node_id incoming))) in
  let transport_context :=
    MkContext task_id (Some authenticated_sender_peer_id) (Some (local_peer_id cfg)) (local_peer_id cfg)
      (Some (in_frame_id incoming)) received_at_ms in
  do! accepted := map_errP IncomingStore
    (accept_pending_remote_task_with_backpressure cfg record envelope_record transport_context) in
  do! _ := count TasksSubmitted in
  match local_worker_id dispatch with
  | None => retP (Accepted (tr_id accepted) false None)
  | Some worker_id =>
      handleP (dispatch_to_local_worker (tr_id accepted) worker_id
                 (dispatch_lease_duration_ms dispatch) (lease_default_ttl_ms cfg)) (fun dispatched =>
        match dispatched with
        | Ok lease =>
            do! _ := count TasksClaimed in
            retP (Accepted (tr_id accepted) true (Some lease))
        | Err (StoreError.TaskDeadlineExpired _ _ _) => retP (Accepted (tr_id accepted) false None)
        | Err error => throwP (IncomingStore error)
        end)
  end.

Definition either {A} (r : Result A A) : A := match r with Ok a | Err a => a end.

Definition handle_incoming_task {L E} `{SenderAllowlist L} (shutdown_is_active : bool) (allowlist : L)
    (dispatch : IncomingDispatchConfig) (incoming : IncomingRelayTask) : Prog E IncomingHandleResult :=
  handleP (incoming_body shutdown_is_active allowlist dispatch incoming) (fun r => retP (either r)).

(** What wakes the loop: a task, with the state of the shutdown flag then; the
    end of the channel; a change of the stop flag; the end of its sender. *)
Inductive LoopEvent : Type :=
| NextTask (shutdown_is_active : bool) (incoming : IncomingRelayTask)
| SourceClosed
| StopChanged (stop : bool)
| StopDropped.

(** [IncomingTaskLoop::spawn]: what a task comes to is not looked at. *)
Fixpoint incoming_task_loop {L E} `{SenderAllowlist L} (allowlist : L) (dispatch : IncomingDispatchConfig)
    (events : list LoopEvent) : Prog E unit :=
  match events with
  | NextTask shutdown_is_active incoming :: events =>
      do! _ := handle_incoming_task shutdown_is_active allowlist dispatch incoming in
      incoming_task_loop allowlist dispatch events
  | StopChanged false :: events => incoming_task_loop allowlist dispatch events
  | SourceClosed :: _ | StopChanged true :: _ | StopDropped :: _ | [] => retP tt
  end.
End incoming.
