(* ===== verification/IncomingFacts.v ===== *)
(** * What becomes of an incoming task

    The handler of incoming tasks, run with nothing in between: every outcome,
    and the state it leaves. *)
From S2P Require Import Prelude Ident Text Lifecycle StoreModel Api MemStore MemSpec MemInv MemLease Samples Wire Rpc Program ProgramFacts Daemon DaemonCalls DaemonSession DaemonFacts WireSamples.
From S2P Require Import Routing RoutingFacts Incoming Federation FederationFacts.
From stdpp Require Import options.
#[local] Open Scope Z_scope.

Section acceptance.
Context `{W : Wire} (cfg : KeryxDaemonConfig).

Lemma accept_context_error record envelope context s e s' :
  MemStore.accept_task_with_envelope_and_context record envelope context s = (Err e, s') -> s' = s.
Proof using Type.
  intros H. unfold MemStore.accept_task_with_envelope_and_context in H. by op_run H.
Qed.

(** The acceptance with its limits: as the store's, or refused with nothing
    changed. *)
Lemma accept_remote_runs record envelope context (w : World InMemoryState) :
  exists o w', run (accept_pending_remote_task_with_backpressure cfg record envelope context) w = (Some o, w')
  /\ w_clock w' = w_clock w
  /\ match o with
     | Ok t => MemStore.accept_task_with_envelope_and_context record envelope context (w_store w) = (Ok t, w_store w')
     | Err _ => w_store w' = w_store w
     end.
Proof using Type.
  unfold accept_pending_remote_task_with_backpressure. rewrite run_bind.
  match goal with |- context[run (check_limit ?r) w] =>
    destruct (run_check_limit r w) as ([u|err'] & -> & Ho) end; [|by eexists _, _].
  rewrite run_lock, run_handle, run_store. set (w1 := set_lock true w).
  match goal with |- context [@call ?S ?D ?o ?s] => set (known := @call S D o s) end.
  assert (Hq : known.2 = w_store w1).
  { destruct known as [r s] eqn:Hc. by apply call_query in Hc. }
  rewrite Hq, with_store_same.
  assert (Haccept : exists o w', run (store (OpAcceptContext record envelope context)) w1 = (Some o, w')
    /\ w_clock w' = w_clock w /\ match o with
      | Ok t => MemStore.accept_task_with_envelope_and_context record envelope context (w_store w) = (Ok t, w_store w')
      | Err _ => w_store w' = w_store w end).
  { rewrite run_store. eexists _, _. split; [reflexivity|]. split; [done|].
    change (call (OpAcceptContext record envelope context) (w_store w1))
      with (MemStore.accept_task_with_envelope_and_context record envelope context (w_store w)).
    destruct (MemStore.accept_task_with_envelope_and_context _ _ _ _) as [[t|e] s] eqn:Ha; [done|].
    by apply accept_context_error in Ha. }
  destruct Haccept as (o & w2 & Hrun & Hclock & Ho'). cbn [answer] in o, Hrun.
  destruct known.1 as [t|[]]; try (by eexists _, _).
  - rewrite Hrun. by eexists _, _.
  - rewrite run_bind. destruct (run_check_capacity cfg envelope w1) as ([u'|err'] & -> & _); [|by eexists _, _].
    rewrite run_bind. cbn [answer]. rewrite Hrun. destruct o as [t|e]; [|by eexists _, _].
    rewrite run_notify. eexists _, _. by split.
Qed.
End acceptance.

(** ** The handler *)

Section handler.
Context `{W : Wire} (cfg : KeryxDaemonConfig).
Context {L : Type} `{!SenderAllowlist L}.

Definition local_lease (i : TaskId) (worker : AgentId) (duration_ms at_ms : Z) (lid : LeaseId) : LeaseRecord :=
  new_lease lid i worker at_ms
    (i64_saturating_add at_ms (if duration_ms <=? 0 then lease_default_ttl_ms cfg else duration_ms)).

(** A pending task that is reserved for this daemon: only its id and its
    deadline keep it from the local worker. *)
Lemma dispatch_runs t i worker duration_ms (w : World InMemoryState) :
  Inv (w_store w) -> tasks (w_store w) !! i = Some t -> tr_status t = Pending ->
  expected_executor (w_store w) i = Some (local_peer_id cfg) ->
  let at_ms := w_clock w 0%nat in
  run (dispatch_to_local_worker cfg i worker duration_ms (lease_default_ttl_ms cfg)) w
  = match Incoming.new_lease_id i at_ms with
    | None => (None, tick w)
    | Some lid =>
        if deadline_passed t at_ms
        then (Some (Err (StoreError.TaskDeadlineExpired i (default 0 (tr_deadline_ms t)) at_ms)),
              with_store (tick w) (commit i Pending TaskTimedOut (with_status t Failed) None (w_store w)))
        else (Some (Ok lid),
              with_store (tick w) (leased i t (local_lease i worker duration_ms at_ms lid) (w_store w)))
    end.
Proof using Type.
  intros HI Ht Hs He at_ms. unfold dispatch_to_local_worker. rewrite run_now. fold at_ms.
  destruct (Incoming.new_lease_id i at_ms) as [lid|]; [|done]. cbv zeta. rewrite run_bind, run_store.
  fold (local_lease i worker duration_ms at_ms lid). change (w_store (tick w)) with (w_store w).
  assert (Hl : leases (w_store w) !! i = None) by (eapply pending_not_leased; [done..|]; by rewrite Hs).
  assert (Hp : peer_allowed (w_store w) i (Some (local_peer_id cfg)) = true).
  { unfold peer_allowed. rewrite He. by apply bool_decide_eq_true. }
  match goal with |- context [call (OpLeaseForPeer i ?l ?p) ?s] =>
    change (call (OpLeaseForPeer i l p) s) with (lease_task_with_peer_guard i l (Some p) s) end.
  destruct (deadline_passed t at_ms) eqn:Hd.
  - rewrite (lease_task_overdue _ _ _ _ t worker) by done. done.
  - rewrite (lease_task_granted _ _ _ _ t worker) by done. done.
Qed.

(** What accepting the task [incoming] at [w] left, given what was answered:
    whether it was handed to the local worker, or that the handler panicked. *)
Definition taken_in (dispatch : IncomingDispatchConfig) (incoming : IncomingRelayTask)
    (w : World InMemoryState) (i : TaskId) (answer : option (bool * option LeaseId)) (s' : InMemoryState) : Prop :=
  exists key sender s1,
    let record := outgoing_record i (in_envelope incoming) key in
    let at_ms := w_clock w 1%nat in
    Incoming.parse_envelope_task_id (in_envelope incoming) = Ok i
    /\ Incoming.parse_envelope_idempotency_key (in_envelope incoming) = Ok key
    /\ as_str sender = trim (in_sender_node_id incoming)
    /\ delivered s1 record (encode_envelope (w_orders w 0%nat) (in_envelope incoming)) sender
         (local_peer_id cfg) (in_frame_id incoming)
    /\ match local_worker_id dispatch with
       | None => answer = Some (false, None) /\ s' = s1
       | Some worker =>
           match Incoming.new_lease_id i at_ms with
           | None => answer = None /\ s' = s1
           | Some lid =>
               if deadline_passed record at_ms
               then answer = Some (false, None)
                    /\ s' = commit i Pending TaskTimedOut (with_status record Failed) None s1
               else answer = Some (true, Some lid)
                    /\ s' = leased i record
                              (local_lease i worker (dispatch_lease_duration_ms dispatch) at_ms lid) s1
           end
       end.

Definition decided (shutdown_is_active : bool) (allowlist : L) (dispatch : IncomingDispatchConfig)
    (incoming : IncomingRelayTask) (w : World InMemoryState) (o : option IncomingHandleResult)
    (w' : World InMemoryState) : Prop :=
  let permitted := shutdown_is_active = false /\ is_allowed allowlist (in_sender_node_id incoming) = true in
  match o with
  | Some (RejectedSender n) =>
      shutdown_is_active = false /\ n = in_sender_node_id incoming /\ is_allowed allowlist n = false /\ w' = w
  | Some (InvalidEnvelope _) => permitted /\ w_store w' = w_store w
  | Some (IncomingStore _) => w_store w' = w_store w
  | Some (Accepted i dispatched lease) =>
      permitted /\ taken_in dispatch incoming w i (Some (dispatched, lease)) (w_store w')
  | None => permitted /\ exists i, taken_in dispatch incoming w i None (w_store w')
  end.

Lemma accepted_inv record e c s t s' :
  fresh_task record -> Inv s ->
  MemStore.accept_task_with_envelope_and_context record e c s = (Ok t, s') -> Inv s'.
Proof using Type.
  intros Hf HI H. eapply Inv_steps; [exact HI|].
  eapply (run_op_steps (OpAcceptContext record e c) s (Ok (RTask t))); [exact Hf|].
  rewrite run_op_call. unfold reply, bind. simpl. by rewrite H.
Qed.

Lemma body_decided shutdown_is_active allowlist dispatch incoming (w : World InMemoryState) :
  Inv (w_store w) ->
  let p := run (incoming_body cfg shutdown_is_active allowlist dispatch incoming) w in
  decided shutdown_is_active allowlist dispatch incoming w (either <$> p.1) p.2.
Proof using Type.
  intros HI p. subst p. unfold incoming_body. destruct shutdown_is_active; [done|].
  destruct (is_allowed allowlist (in_sender_node_id incoming)) eqn:Hal; [|done]. cbn [negb].
  rewrite run_bind, run_lift. destruct (Incoming.parse_envelope_task_id _) as [i|] eqn:Hi; [|done]. cbn [map_err].
  rewrite run_bind, run_lift.
  destruct (Incoming.parse_envelope_idempotency_key _) as [key|] eqn:Hkey; [|done]. cbn [map_err].
  rewrite run_bind, run_lift. destruct (Incoming.deadline_from_envelope _) as [d|] eqn:Hd; [|done]. cbn [map_err].
  rewrite run_order, run_now, run_bind, run_lift.
  destruct (Id_new "PeerId" _) as [sender|] eqn:Hs; [|by destruct w]. cbn [map_err].
  assert (Hrec : with_deadline (new_task_record i Pending key) d = outgoing_record i (in_envelope incoming) key).
  { revert Hd. unfold Incoming.deadline_from_envelope. case_match; [done|]. by intros [= <-]. }
  rewrite Hrec, run_bind, run_map_err. set (w1 := tick (next_order w)).
  match goal with |- context [run (accept_pending_remote_task_with_backpressure cfg ?r ?e ?c) w1] =>
    destruct (accept_remote_runs cfg r e c w1) as (o & w2 & -> & Hclock & Ho) end.
  destruct o as [t|err]; simpl option_map; cbn iota beta; [|by destruct w].
  apply accepted_inv in Ho as HI'; [|by apply pending_new|by destruct w].
  apply (accepted_is_delivered (outgoing_record i (in_envelope incoming) key)) in Ho as (-> & Hexp & Hdel).
  set (record := outgoing_record i (in_envelope incoming) key) in *. change (tr_id record) with i in *.
  cbn [snd]. rewrite run_count. set (w3 := counted TasksSubmitted w2).
  assert (Hclock3 : w_clock w3 0%nat = w_clock w 1%nat) by (change (w_clock w2 0%nat = w_clock w 1%nat); by rewrite Hclock).
  assert (Hstore3 : w_store w3 = w_store w2) by (subst w3; by destruct w2).
  rewrite <- Hstore3 in *.
  destruct (local_worker_id dispatch) as [worker|] eqn:Hw.
  2: { split; [done|]. exists key, sender, (w_store w3). rewrite Hw. apply Id_new_ok in Hs. by split_and!. }
  rewrite run_handle, (dispatch_runs record) by (done || apply Hdel). rewrite Hclock3.
  assert (Hid : as_str sender = trim (in_sender_node_id incoming)) by (by apply Id_new_ok in Hs).
  destruct (Incoming.new_lease_id i (w_clock w 1%nat)) as [lid|] eqn:Hlid.
  2: { split; [done|]. exists i, key, sender, (w_store w3). cbv zeta. rewrite Hw, Hlid. by split_and!. }
  destruct (deadline_passed record (w_clock w 1%nat)) eqn:Hdl.
  - split; [done|]. exists key, sender, (w_store w3). cbv zeta. rewrite Hw, Hlid.
    change (outgoing_record i (in_envelope incoming) key) with record. rewrite Hdl.
    by split_and!.
  - rewrite run_count. split; [done|]. exists key, sender, (w_store w3). cbv zeta. rewrite Hw, Hlid.
    change (outgoing_record i (in_envelope incoming) key) with record. rewrite Hdl.
    by split_and!.
Qed.

(** C23: what becomes of an incoming task. Run alone on a well-formed store, the
    handler ends. It refuses a sender that is not allowed before it does
    anything; an envelope that it cannot read and an error of the store, of the
    shutdown or of a limit leave the store as it was. It answers that it
    accepted the task only if it did: the store then holds the pending record,
    the envelope and the context, with the sender, this daemon and the frame.
    With a local worker, the task then runs under that worker's lease, or, if
    its deadline had passed, it has timed out and was not handed on. The one
    way to panic is a task id that makes the lease id too long; then the task
    was accepted, and waits. *)
Theorem incoming_tasks_are_decided {E} shutdown_is_active allowlist dispatch incoming (w : World InMemoryState) :
  Inv (w_store w) ->
  exists o w',
    run (handle_incoming_task (E := E) cfg shutdown_is_active allowlist dispatch incoming) w = (Ok <$> o, w')
    /\ decided shutdown_is_active allowlist dispatch incoming w o w'.
Proof using Type.
  intros HI. pose proof (body_decided shutdown_is_active allowlist dispatch incoming w HI) as Hb.
  unfold handle_incoming_task. rewrite run_handle.
  destruct (run (incoming_body cfg _ _ _ _) w) as [[r|] w']; eexists _, w'; (split; [|exact Hb]); done.
Qed.
End handler.

(** ** A task for a local worker *)

Definition trusting : StaticSenderAllowlist := with_nodes ["peer-b"%string] no_senders.
Definition sample_incoming : IncomingRelayTask := MkIncoming "frame-1" "peer-b" sample_envelope.
Definition sample_dispatch : IncomingDispatchConfig := auto_dispatch worker_a 1000.

(** The first frame is accepted and handed to the worker, a stranger's is not. *)
Lemma incoming_tasks_are_decided_witness :
  (run (handle_incoming_task (E := Status) sample_config false trusting sample_dispatch sample_incoming)
     (sample_world empty_state)).1
  = Some (Ok (Accepted task_a true (Some (MkId "lease-task-a-110" I))))
  /\ (exists w', decided sample_config false trusting sample_dispatch sample_incoming (sample_world empty_state)
       (Some (Accepted task_a true (Some (MkId "lease-task-a-110" I)))) w')
  /\ decided sample_config false no_senders sample_dispatch sample_incoming (sample_world empty_state)
       (Some (RejectedSender "peer-b")) (sample_world empty_state).
Proof.
  assert (Hrun : (run (handle_incoming_task (E := Status) sample_config false trusting sample_dispatch sample_incoming)
     (sample_world empty_state)).1
    = Some (Ok (Accepted task_a true (Some (MkId "lease-task-a-110" I))))) by (vm_compute; reflexivity).
  split; [exact Hrun|]. split; [|by split_and!].
  destruct (incoming_tasks_are_decided (E := Status) sample_config false trusting sample_dispatch sample_incoming
    (sample_world empty_state) Inv_empty) as (o & w' & Ho & Hd).
  rewrite Ho in Hrun. destruct o as [o|]; [|discriminate]. injection Hrun as ->.
  exists w'. exact Hd.
Defined.
