(* ===== verification/FleetBridge.v ===== *)
(** * The bridge to the Fleet process

    keryx-relay/src/fleet_observation_bridge.rs: a handler of fleet
    observations that asks a local process over a Unix socket. Observations are
    JSON without duplicate members. The JSON text format is a library's: a
    class gives what its parser reads and its printer writes. *)
From S2P Require Import Prelude Ident StoreModel Policy Security Registry Wire RelayRuntime RelayMessages RelayService RelayNode.
From stdpp Require Import options.
From Stdlib Require Import Strings.Byte.
#[local] Open Scope Z_scope.

Definition MAX_FLEET_OBSERVATION_BRIDGE_FRAME_BYTES : Z := 128 * 1024.
Definition SCHEMA : string := "fleet.remote-observation-internal.v1".

(** ** JSON *)

(** [serde_json::Number]; a float is its 64 bits. *)
Inductive Number : Type := PosInt (n : Z) | NegInt (n : Z) | Float (bits : Z).

(** [serde_json::Value]; the members of an object are in the order of their keys. *)
Inductive Json : Type :=
| JNull | JBool (b : bool) | JNumber (n : Number) | JString (s : string)
| JArray (l : list Json) | JObject (m : list (string * Json)).

(** What the parser hands to a visitor, members in the order of the text. *)
Inductive Raw : Type :=
| RNull | RBool (b : bool) | RI64 (n : Z) | RU64 (n : Z) | RF64 (bits : Z) | RString (s : string)
| RSeq (l : list Raw) | RMap (m : list (string * Raw)).

Definition number_from_i64 (n : Z) : Number := if n <? 0 then NegInt n else PosInt n.

(** Not all bits of the exponent are set. *)
Definition is_finite (bits : Z) : bool := negb (Z.land (Z.shiftr bits 52) 2047 =? 2047).

(** [BTreeMap::insert] and [get]. *)
Fixpoint json_insert (k : string) (v : Json) (m : list (string * Json)) : list (string * Json) :=
  match m with
  | [] => [(k, v)]
  | (k', v') :: m' =>
      match String.compare k k' with
      | Lt => (k, v) :: m
      | Eq => (k, v) :: m'
      | Gt => (k', v') :: json_insert k v m'
      end
  end.

Fixpoint json_get (k : string) (m : list (string * Json)) : option Json :=
  match m with
  | [] => None
  | (k', v) :: m => if bool_decide (k = k') then Some v else json_get k m
  end.

(** [UniqueJsonVisitor]. *)
Fixpoint unique_json (r : Raw) {struct r} : Result Json string :=
  match r with
  | RNull => Ok JNull
  | RBool b => Ok (JBool b)
  | RI64 n => Ok (JNumber (number_from_i64 n))
  | RU64 n => Ok (JNumber (PosInt n))
  | RF64 bits => if is_finite bits then Ok (JNumber (Float bits)) else Err "non-finite JSON number"%string
  | RString s => Ok (JString s)
  | RSeq l =>
      let? values :=
        (fix go (l : list Raw) : Result (list Json) string :=
          match l with
          | [] => Ok []
          | r :: l => let? v := unique_json r in let? vs := go l in Ok (v :: vs)
          end) l in
      Ok (JArray values)
  | RMap m =>
      let? values :=
        (fix go (m : list (string * Raw)) (values : list (string * Json)) : Result (list (string * Json)) string :=
          match m with
          | [] => Ok values
          | (key, r) :: m =>
              if json_get key values then Err "duplicate JSON object member"%string
              else let? v := unique_json r in go m (json_insert key v values)
          end) m [] in
      Ok (JObject values)
  end.

(** A [Value] of its own: the last of equal members stays. *)
Fixpoint plain_json (r : Raw) {struct r} : Json :=
  match r with
  | RNull => JNull
  | RBool b => JBool b
  | RI64 n => JNumber (number_from_i64 n)
  | RU64 n => JNumber (PosInt n)
  | RF64 bits => if is_finite bits then JNumber (Float bits) else JNull
  | RString s => JString s
  | RSeq l => JArray (plain_json <$> l)
  | RMap m =>
      JObject ((fix go (m : list (string * Raw)) (values : list (string * Json)) : list (string * Json) :=
          match m with
          | [] => values
          | (key, r) :: m => go m (json_insert key (plain_json r) values)
          end) m [])
  end.

Class JsonLib : Type := {
  (** A whole text; the parser's own errors. *)
  read_json : bytes -> option Raw;
  write_json : Json -> bytes;
}.

Section bridge.
Context `{JsonLib}.

Definition parse_unique_json (input : bytes) : option Json :=
  r ← read_json input; match unique_json r with Ok v => Some v | Err _ => None end.

Definition parse_value (input : bytes) : option Json := plain_json <$> read_json input.

(** ** The socket *)

Record SocketMetadata : Type := MkSocket { is_socket : bool; so_uid : Z; so_mode : Z }.

Definition validate_socket_metadata (metadata : SocketMetadata) (expected_uid : Z) : bool :=
  is_socket metadata && (so_uid metadata =? expected_uid) && (Z.land (so_mode metadata) 63 =? 0).

(** The process and what it meets: the path's metadata, whether a connection is
    made and by whom it is answered, the bytes of the answer to a payload, and
    whether all of this is in time. *)
Record FleetPeer : Type := MkFleetPeer {
  effective_uid : Z;
  symlink_metadata : option SocketMetadata;
  peer_uid : option Z;
  answer_to : bytes -> option bytes;
  in_time : bool;
}.

Definition to_be_bytes (n : Z) : bytes :=
  (fun s => default x00 (Byte.of_N (Z.to_N (Z.land (Z.shiftr n s) 255)))) <$> [24; 16; 8; 0].
Definition from_be_bytes (l : bytes) : Z :=
  foldl (fun acc b => acc * 256 + Z.of_N (Byte.to_N b)) 0 l.

Definition frame_bounds (n : Z) : bool := (0 <? n) && (n <=? MAX_FLEET_OBSERVATION_BRIDGE_FRAME_BYTES).

(** [read_exact] fails when the stream ends before. *)
Definition read_exact (n : nat) (l : bytes) : option (bytes * bytes) :=
  if (n <=? length l)%nat then Some (take n l, drop n l) else None.

Definition transact (peer : FleetPeer) (request : Json) : option Json :=
  let payload := write_json request in
  let len := Z.of_nat (length payload) in
  if negb (frame_bounds len) then None else
  if negb (in_time peer) then None else
  metadata ← symlink_metadata peer;
  if negb (validate_socket_metadata metadata (effective_uid peer)) then None else
  uid ← peer_uid peer;
  if negb (uid =? effective_uid peer) then None else
  received ← answer_to peer (to_be_bytes (Z.land len 4294967295) ++ payload);
  '(header, received) ← read_exact 4 received;
  let length := from_be_bytes header in
  if negb (frame_bounds length) then None else
  '(response, _) ← read_exact (Z.to_nat length) received;
  parse_value response.

(** ** Messages *)

Definition as_string (v : Json) : option string := match v with JString s => Some s | _ => None end.
Definition as_bool (v : Json) : option bool := match v with JBool b => Some b | _ => None end.
Definition as_u64 (v : Json) : option Z := match v with JNumber (PosInt n) => Some n | _ => None end.

Record BridgeResponse : Type := MkResponse {
  rs_schema : string;
  rs_kind : string;
  rs_ok : bool;
  rs_result : Json;
}.

(** The members of an object, or the elements of an array, for a derived
    [Deserialize] that denies unknown fields; [None] for one that is missing. *)
Definition struct_fields (names : list string) (v : Json) : option (list (option Json)) :=
  match v with
  | JObject m =>
      if forallb (fun kv => bool_decide (kv.1 ∈ names)) m then Some ((fun name => json_get name m) <$> names)
      else None
  | JArray l =>
      if (length l <=? length names)%nat then Some ((fun i => l !! i) <$> seq 0 (length names)) else None
  | _ => None
  end.

Definition bridge_response (v : Json) : option BridgeResponse :=
  match struct_fields ["schema"; "kind"; "ok"; "result"]%string v with
  | Some [schema; kind; ok; result] =>
      schema ← schema ≫= as_string;
      kind ← kind ≫= as_string;
      ok ← ok ≫= as_bool;
      Some (MkResponse schema kind ok (default JNull result))
  | _ => None
  end.

Definition authority_epoch (v : Json) : option FleetObservationAuthorityEpochV1 :=
  match struct_fields ["binding_id"; "authenticated_peer_id"; "binding_generation"; "projection_generation"]%string v with
  | Some [binding_id; authenticated_peer_id; binding_generation; projection_generation] =>
      binding_id ← binding_id ≫= as_string;
      authenticated_peer_id ← authenticated_peer_id ≫= as_string;
      binding_generation ← binding_generation ≫= as_u64;
      projection_generation ← projection_generation ≫= as_u64;
      Some (MkEpoch binding_id authenticated_peer_id binding_generation projection_generation)
  | _ => None
  end.

(** [json!] of an object. *)
Definition json_object (l : list (string * Json)) : Json :=
  JObject (foldl (fun m kv => json_insert kv.1 kv.2 m) [] l).

Definition selector_json (selector : FleetObservationSelectorV1) : Json :=
  json_object [("source"%string, JString (se_source selector));
               ("network_id"%string, JString (se_network_id selector));
               ("device_id"%string, JString (se_device_id selector))].

Definition epoch_json (epoch : FleetObservationAuthorityEpochV1) : Json :=
  json_object [("binding_id"%string, JString (ep_binding_id epoch));
               ("authenticated_peer_id"%string, JString (ep_authenticated_peer_id epoch));
               ("binding_generation"%string, JNumber (PosInt (ep_binding_generation epoch)));
               ("projection_generation"%string, JNumber (PosInt (ep_projection_generation epoch)))].

Definition with_context (context : AuthenticatedDirectContext) (request : Json) : Json :=
  json_object [("authenticated_context"%string,
                json_object [("sender_peer_id"%string, JString (dc_authenticated_source_node_id context))]);
               ("request"%string, request)].

Definition bridge_request (context : AuthenticatedDirectContext) (operation : FleetObservationPublishV1)
    : option Json :=
  request ← fp_request operation;
  match request with
  | Acquire selector =>
      selector ← selector;
      Some (with_context context (json_object [("schema"%string, JString SCHEMA);
              ("kind"%string, JString "acquire"); ("selector"%string, selector_json selector)]))
  | PublishSample publish =>
      selector ← sa_selector publish;
      epoch ← sa_authority_epoch publish;
      if bool_decide (sa_observation_json publish = [])
         || (MAX_FLEET_OBSERVATION_JSON_BYTES <? Z.of_nat (length (sa_observation_json publish))) then None else
      observation ← parse_unique_json (sa_observation_json publish);
      Some (with_context context (json_object [("schema"%string, JString SCHEMA);
              ("kind"%string, JString "publish"); ("selector"%string, selector_json selector);
              ("authority_epoch"%string, epoch_json epoch); ("observation"%string, observation)]))
  end.

Definition request_rejected : FleetObservationPublishResultV1 :=
  MkFleetResult 4 false None "request rejected" "authority_rejected".

Definition bridge_result (response : BridgeResponse) : option FleetObservationPublishResultV1 :=
  if negb (bool_decide (rs_schema response = SCHEMA)) then None else
  if negb (rs_ok response) then Some request_rejected else
  if bool_decide (rs_kind response = "acquire"%string) then
    epoch ← authority_epoch (rs_result response);
    Some (MkFleetResult 1 true (Some epoch) "" "")
  else if bool_decide (rs_kind response = "publish"%string) then
    let outcome := match rs_result response with JObject m => json_get "outcome" m ≫= as_string | _ => None end in
    Some (if bool_decide (outcome = Some "published"%string) then MkFleetResult 2 true None "" ""
          else if bool_decide (outcome = Some "already_recorded"%string) then MkFleetResult 3 true None "" ""
          else request_rejected)
  else None.

(** The handler of the edge node; [HandlerFailed] is an error. *)
Definition handle_fleet_observation_publish (peer : FleetPeer)
    : Handler FleetObservationPublishV1 FleetObservationPublishResultV1 := fun context operation =>
  match (request ← bridge_request context operation;
         response ← transact peer request;
         response ← bridge_response response;
         bridge_result response) with
  | Some result => Answered result
  | None => HandlerFailed
  end.
End bridge.
