(* ===== verification/FleetBridgeFacts.v ===== *)
(** * What the bridge lets through

    Observations without duplicate members are read as they are, others are
    refused; and every request names the authenticated sender. *)
From S2P Require Import Prelude Ident StoreModel Policy Security Registry Wire RelayRuntime RelayMessages RelayService RelayNode FleetBridge.
From stdpp Require Import options.
From Stdlib Require Import Strings.Byte.
#[local] Open Scope Z_scope.

(** ** Maps by key *)

Lemma json_get_insert k k' v m :
  json_get k (json_insert k' v m) = if bool_decide (k = k') then Some v else json_get k m.
Proof.
  induction m as [|[k1 v1] m IH]; cbn [json_insert json_get]; [done|].
  destruct (String.compare k' k1) eqn:Hc; cbn [json_get].
  - apply String.compare_eq_iff in Hc as ->. by case_bool_decide.
  - done.
  - rewrite IH. destruct (decide (k = k1)) as [<-|Hne].
    + rewrite (bool_decide_true (k = k)) by done. rewrite bool_decide_false; [done|]. intros <-.
      pose proof (String.compare_antisym k k) as Ha. by rewrite Hc in Ha.
    + by rewrite (bool_decide_false (k = k1)).
Qed.

(** ** JSON without duplicates *)

(** The inner loops of [unique_json] and [plain_json]. *)
Fixpoint unique_seq (l : list Raw) : Result (list Json) string :=
  match l with
  | [] => Ok []
  | r :: l => let? v := unique_json r in let? vs := unique_seq l in Ok (v :: vs)
  end.
Fixpoint unique_members (m : list (string * Raw)) (values : list (string * Json))
    : Result (list (string * Json)) string :=
  match m with
  | [] => Ok values
  | (key, r) :: m =>
      if json_get key values then Err "duplicate JSON object member"%string
      else let? v := unique_json r in unique_members m (json_insert key v values)
  end.
Fixpoint plain_members (m : list (string * Raw)) (values : list (string * Json)) : list (string * Json) :=
  match m with
  | [] => values
  | (key, r) :: m => plain_members m (json_insert key (plain_json r) values)
  end.

Lemma unique_seq_eq l : unique_json (RSeq l) = let? values := unique_seq l in Ok (JArray values).
Proof. done. Qed.
Lemma unique_map_eq m : unique_json (RMap m) = let? values := unique_members m [] in Ok (JObject values).
Proof. done. Qed.
Lemma plain_map_eq m : plain_json (RMap m) = JObject (plain_members m []).
Proof. done. Qed.

(** The keys of every object are distinct, and every number is finite. *)
Fixpoint readable (r : Raw) : bool :=
  match r with
  | RF64 bits => is_finite bits
  | RSeq l => forallb readable l
  | RMap m => bool_decide (NoDup m.*1) && forallb (fun kv => readable kv.2) m
  | _ => true
  end.

Section raw_induction.
Context (P : Raw -> Prop).
Context (Pleaf : forall r, match r with RSeq _ | RMap _ => True | _ => P r end).
Context (Pseq : forall l, Forall P l -> P (RSeq l)).
Context (Pmap : forall m, Forall (fun kv => P kv.2) m -> P (RMap m)).

Fixpoint raw_induction (r : Raw) : P r :=
  match r with
  | RSeq l => Pseq l ((fix go l : Forall P l :=
      match l with [] => Forall_nil_2 _ | r :: l => Forall_cons_2 _ _ _ (raw_induction r) (go l) end) l)
  | RMap m => Pmap m ((fix go m : Forall (fun kv => P kv.2) m :=
      match m with [] => Forall_nil_2 _ | kv :: m => Forall_cons_2 _ _ _ (raw_induction kv.2) (go m) end) m)
  | r => Pleaf r
  end.
End raw_induction.

(** A result that is [Ok a] if [b] holds, and an error otherwise. *)
Definition decides {A} (b : bool) (a : A) (r : Result A string) : Prop :=
  if b then r = Ok a else exists e, r = Err e.

Abbreviation reads r := (decides (readable r) (plain_json r) (unique_json r)).

Lemma unique_seq_decides l :
  Forall (fun r => reads r) l -> decides (forallb readable l) (plain_json <$> l) (unique_seq l).
Proof.
  unfold decides. induction 1 as [|r l Hr _ IH]; [done|]. cbn [forallb unique_seq]. csimpl.
  destruct (readable r); simpl; [|by destruct Hr as [e ->]; eexists]. rewrite Hr.
  destruct (forallb readable l); [by rewrite IH|]. destruct IH as [e ->]. by eexists.
Qed.

Lemma unique_members_decides m : Forall (fun kv => reads kv.2) m -> forall values,
  decides (bool_decide (NoDup m.*1) && bool_decide (Forall (fun k => json_get k values = None) m.*1)
           && forallb (fun kv => readable kv.2) m) (plain_members m values) (unique_members m values).
Proof.
  unfold decides. induction 1 as [|[k r] m Hr _ IH]; intros values; [done|].
  cbn [forallb unique_members plain_members]. csimpl. simpl in Hr.
  destruct (json_get k values) as [old|] eqn:Hk.
  { rewrite (bool_decide_false (Forall _ _)), andb_false_r; [by eexists|].
    intros [H _]%Forall_cons. congruence. }
  destruct (readable r); simpl.
  2: { rewrite !andb_false_r. destruct Hr as [e ->]. by eexists. }
  rewrite Hr. specialize (IH (json_insert k (plain_json r) values)).
  match goal with |- if ?b then _ else _ => match type of IH with if ?c then _ else _ =>
    assert (b = c) as ->; [|exact IH] end end.
  f_equal. rewrite <- !bool_decide_and. apply bool_decide_ext. rewrite NoDup_cons, !Forall_cons, !Forall_forall.
  split.
  - intros [[Hni Hnd] [_ Hall]]. split; [done|]. intros k' Hk'. rewrite json_get_insert.
    rewrite bool_decide_false by (by intros ->). by apply Hall.
  - intros [Hnd Hall]. assert (k ∉ m.*1) as Hni.
    { intros Hin. specialize (Hall k Hin). by rewrite json_get_insert, bool_decide_true in Hall. }
    split_and!; try done. intros k' Hk'. specialize (Hall k' Hk'). rewrite json_get_insert in Hall.
    by rewrite bool_decide_false in Hall by (by intros ->).
Qed.

Lemma unique_json_decides r : reads r.
Proof.
  apply (raw_induction (fun r => reads r)); clear r; [intros r|intros l IH|intros m IH].
  - destruct r as [|b|n|n|bits|s|l|m]; [reflexivity..| |reflexivity|exact I|exact I].
    cbn [readable plain_json unique_json]. unfold decides. destruct (is_finite bits); [reflexivity|by eexists].
  - rewrite unique_seq_eq. pose proof (unique_seq_decides l IH) as H. unfold decides in *.
    cbn [readable plain_json]. destruct (forallb readable l); [by rewrite H|]. destruct H as [e ->]. by eexists.
  - rewrite unique_map_eq, plain_map_eq. pose proof (unique_members_decides m IH []) as H. unfold decides in *.
    cbn [readable]. rewrite (bool_decide_true (Forall _ _)), andb_true_r in H by (by apply Forall_forall).
    destruct (_ && _); [by rewrite H|]. destruct H as [e ->]. by eexists.
Qed.

Section facts.
Context `{JsonLib} `{ControlWire}.

(** Observations are read as any JSON is, if no object has two members of one
    name; else not at all. *)
Lemma unique_is_plain input :
  parse_unique_json input = r ← read_json input; if readable r then Some (plain_json r) else None.
Proof using Type.
  unfold parse_unique_json. destruct (read_json input) as [r|]; [|done]. simpl.
  pose proof (unique_json_decides r) as Hr. unfold decides in Hr.
  destruct (readable r); [by rewrite Hr|]. by destruct Hr as [e ->].
Qed.

(** ** Requests *)

Definition member (k : string) (v : option Json) : option Json :=
  match v with Some (JObject m) => json_get k m | _ => None end.

Lemma member_object k l :
  member k (Some (json_object l)) = foldl (fun acc kv => if bool_decide (k = kv.1) then Some kv.2 else acc) None l.
Proof using Type.
  simpl. assert (Hgen : forall m acc, json_get k m = acc ->
    json_get k (foldl (fun m kv => json_insert kv.1 kv.2 m) m l)
    = foldl (fun acc kv => if bool_decide (k = kv.1) then Some kv.2 else acc) acc l); [|by apply Hgen].
  induction l as [|[k' v] l IH]; intros m acc Hm; [done|]. simpl. apply IH. by rewrite json_get_insert, Hm.
Qed.

Lemma context_request context r :
  member "request" (Some (with_context context r)) = Some r
  /\ member "sender_peer_id" (member "authenticated_context" (Some (with_context context r)))
     = Some (JString (dc_authenticated_source_node_id context)).
Proof using Type.
  unfold with_context. rewrite !member_object. split; [done|].
  change (member "sender_peer_id" (Some (json_object [("sender_peer_id"%string,
    JString (dc_authenticated_source_node_id context))])) = Some (JString (dc_authenticated_source_node_id context))).
  by rewrite member_object.
Qed.

(** The request names the authenticated source of the frame, and what the
    operation says; its observation is a text without duplicate members. *)
Record asks (context : AuthenticatedDirectContext) (operation : FleetObservationPublishV1) (q : Json) : Prop := {
  as_sender : member "sender_peer_id" (member "authenticated_context" (Some q))
    = Some (JString (dc_authenticated_source_node_id context));
  as_observation : forall sample, fp_request operation = Some (PublishSample sample) ->
    Z.of_nat (length (sa_observation_json sample)) <= MAX_FLEET_OBSERVATION_JSON_BYTES
    /\ exists raw, read_json (sa_observation_json sample) = Some raw /\ readable raw = true
       /\ member "observation" (member "request" (Some q)) = Some (plain_json raw)
       /\ member "kind" (member "request" (Some q)) = Some (JString "publish");
  as_acquire : forall selector, fp_request operation = Some (Acquire selector) ->
    member "observation" (member "request" (Some q)) = None
    /\ member "kind" (member "request" (Some q)) = Some (JString "acquire");
}.

Lemma bridge_request_asks context operation q :
  bridge_request context operation = Some q -> asks context operation q.
Proof using Type.
  unfold bridge_request. destruct (fp_request operation) as [[[selector|]|sample]|] eqn:Hop; simpl; try done.
  - intros [= <-]. split; [apply context_request|intros sample; by rewrite Hop|].
    intros _ _. rewrite (proj1 (context_request _ _)), !member_object. done.
  - destruct (sa_selector sample) as [selector|]; [|done]. destruct (sa_authority_epoch sample) as [epoch|]; [|done].
    simpl. destruct (_ || _) eqn:Hb; [done|]. rewrite unique_is_plain.
    destruct (read_json (sa_observation_json sample)) as [raw|] eqn:Hraw; [|done]. simpl.
    destruct (readable raw) eqn:Hr; [|done]. intros [= <-].
    split; [apply context_request| |intros selector'; by rewrite Hop].
    intros sample'. rewrite Hop. intros [= <-]. apply orb_false_iff in Hb as [_ Hlen].
    apply Z.ltb_ge in Hlen. split; [done|]. exists raw. split; [done|]. split; [done|].
    rewrite (proj1 (context_request _ _)), !member_object. done.
Qed.

(** ** Answers *)

(** The process that is asked: this user's, behind a socket that is only his. *)
Definition own_process (peer : FleetPeer) : Prop :=
  peer_uid peer = Some (effective_uid peer)
  /\ exists s, symlink_metadata peer = Some s /\ is_socket s = true /\ so_uid s = effective_uid peer
     /\ Z.land (so_mode s) 63 = 0.

Lemma transact_asks peer q v :
  transact peer q = Some v ->
  own_process peer /\ frame_bounds (Z.of_nat (length (write_json q))) = true.
Proof using Type.
  unfold transact. destruct (frame_bounds _); [|done]. cbn [negb]. destruct (in_time peer); [|done]. cbn [negb].
  destruct (symlink_metadata peer) as [s|] eqn:Hs; [|done]. cbn [mbind option_bind].
  destruct (validate_socket_metadata s _) eqn:Hv; [|done]. cbn [negb].
  destruct (peer_uid peer) as [uid|] eqn:Hu; [|done]. cbn [mbind option_bind].
  destruct (uid =? _) eqn:He; [|done]. intros _.
  unfold validate_socket_metadata in Hv. rewrite !andb_true_iff, !Z.eqb_eq in Hv. apply Z.eqb_eq in He as ->.
  destruct Hv as [[? ?] ?]. split; [|done]. split; [done|]. by exists s.
Qed.

(** What the relay makes of the result. *)
Definition passes (r : FleetObservationPublishResultV1) : Prop :=
  validate_fleet_observation_result r
  = match fr_authority_epoch r with
    | Some epoch => validate_fleet_observation_authority_epoch epoch
    | None => Ok tt
    end.

Lemma bridge_result_spec response r :
  bridge_result response = Some r ->
  rs_schema response = SCHEMA
  /\ fr_accepted r && negb (rs_ok response) = false
  /\ (fleet_result_encoded_len r <= MAX_FLEET_OBSERVATION_CONTROL_BYTES -> passes r).
Proof using Type.
  unfold bridge_result. case_bool_decide as Hs; [|done]. cbn [negb].
  assert (Hpass : forall r, r = request_rejected \/ (exists d, (d = 2 \/ d = 3) /\ r = MkFleetResult d true None "" "")
    \/ (exists epoch, r = MkFleetResult 1 true (Some epoch) "" "") ->
    fleet_result_encoded_len r <= MAX_FLEET_OBSERVATION_CONTROL_BYTES -> passes r).
  { intros r0 Hr Hlen. unfold passes, validate_fleet_observation_result. rewrite (proj2 (Z.ltb_ge _ _) Hlen).
    by destruct Hr as [->|[(d & [-> | ->] & ->)|(epoch & ->)]]. }
  destruct (rs_ok response); cbn [negb]; [|intros [= <-]; split_and!; [done..|apply Hpass; by left]].
  case_bool_decide.
  - destruct (authority_epoch _) as [epoch|]; [|done]. intros [= <-].
    split_and!; [done..|]. apply Hpass. right. right. by exists epoch.
  - case_bool_decide; [|done]. intros [= <-]. split; [done|]. split; [by rewrite andb_false_r|]. apply Hpass.
    case_bool_decide; [right; left; exists 2; by split; [left|]|].
    case_bool_decide; [right; left; exists 3; by split; [right|]|by left].
Qed.

(** C26: what the bridge lets through. When the handler of fleet observations
    answers, it has asked a process of the same user behind a socket that no
    one else may use, with a request in bounds that names the authenticated
    source of the frame, whatever the operation says; a published observation
    is a text in which no object has two members of one name, at any depth,
    and it is passed on as the parser reads it. The answer was one of the
    expected schema, and is a success only if the process said so. The relay
    accepts the answer, except that it checks an acquired epoch itself. *)
Theorem bridge_speaks_for_the_source peer context operation r :
  handle_fleet_observation_publish peer context operation = Answered r ->
  exists q response, asks context operation q
    /\ own_process peer /\ frame_bounds (Z.of_nat (length (write_json q))) = true
    /\ transact peer q ≫= bridge_response = Some response
    /\ rs_schema response = SCHEMA
    /\ (fr_accepted r = true -> rs_ok response = true)
    /\ (fleet_result_encoded_len r <= MAX_FLEET_OBSERVATION_CONTROL_BYTES -> passes r).
Proof using Type.
  unfold handle_fleet_observation_publish.
  destruct (bridge_request context operation) as [q|] eqn:Hq; [|done]. simpl.
  destruct (transact peer q) as [v|] eqn:Hv; [|done]. simpl.
  destruct (bridge_response v) as [response|] eqn:Hr; [|done]. simpl.
  destruct (bridge_result response) as [r0|] eqn:Hres; [|done]. intros [= <-].
  destruct (transact_asks _ _ _ Hv) as [Hown Hb]. destruct (bridge_result_spec _ _ Hres) as (Hs & Hok & Hpass).
  exists q, response. rewrite Hv. split_and!; try done; [by apply bridge_request_asks|].
  intros Ha. rewrite Ha in Hok. by destruct (rs_ok response).
Qed.
End facts.

(** ** An observation that is published *)

Definition observation : Raw := RMap [("observed_at_ms"%string, RU64 1)].
Definition doubled : Raw := RMap [("resources"%string, RMap [("cpu"%string, RU64 1); ("cpu"%string, RU64 2)])].
Definition response_of (kind : string) (result : Raw) : Raw :=
  RMap [("schema"%string, RString SCHEMA); ("kind"%string, RString kind); ("ok"%string, RBool true);
        ("result"%string, result)].
Definition published_answer : Raw := response_of "publish" (RMap [("outcome"%string, RString "published")]).
Definition acquired_answer : Raw :=
  response_of "acquire" (RSeq [RString "binding-1"; RString "peer-a"; RU64 7; RU64 9]).

(** Texts of one byte. *)
#[local] Instance sample_json : JsonLib := {|
  read_json input :=
    match input with
    | [x01] => Some observation | [x02] => Some doubled
    | [x03] => Some published_answer | [x04] => Some acquired_answer
    | _ => None
    end;
  write_json _ := [x05];
|}.
#[local] Instance bridge_control_wire : ControlWire := {|
  publish_encoded_len := fun _ => 0;
  fleet_result_encoded_len := fun _ => 0;
|}.

Definition fleet_process (answer : Byte.byte) : FleetPeer :=
  MkFleetPeer 1000 (Some (MkSocket true 1000 384)) (Some 1000) (fun _ => Some [x00; x00; x00; x01; answer]) true.
Definition frame_context : AuthenticatedDirectContext := MkDirectContext "peer-a" "peer-b" "frame-1".
Definition publish_of (text : bytes) : FleetObservationPublishV1 :=
  MkFleetPublish (Some (PublishSample (MkSample (Some (MkSelector "nodescale" "network-1" "device-1"))
    (Some (MkEpoch "binding-1" "peer-a" 7 9)) text []))).

(** Published once, with its members once; refused with a member twice. *)
Lemma bridge_speaks_for_the_source_witness :
  handle_fleet_observation_publish (fleet_process x03) frame_context (publish_of [x01])
    = Answered (MkFleetResult 2 true None "" "")
  /\ handle_fleet_observation_publish (fleet_process x03) frame_context (publish_of [x02]) = HandlerFailed
  /\ exists q response, asks frame_context (publish_of [x01]) q
     /\ transact (fleet_process x03) q ≫= bridge_response = Some response /\ rs_ok response = true.
Proof.
  assert (Hrun : handle_fleet_observation_publish (fleet_process x03) frame_context (publish_of [x01])
    = Answered (MkFleetResult 2 true None "" "")) by (vm_compute; reflexivity).
  split; [exact Hrun|]. split; [vm_compute; reflexivity|].
  destruct (bridge_speaks_for_the_source (fleet_process x03) frame_context (publish_of [x01]) _ Hrun)
    as (q & response & Hq & _ & _ & Hresponse & _ & Hok & _).
  exists q, response. split; [exact Hq|]. split; [exact Hresponse|]. exact (Hok eq_refl).
Defined.

(** The kind of the answer is not compared with the kind of the request. *)
Lemma answer_of_another_kind :
  handle_fleet_observation_publish (fleet_process x04) frame_context (publish_of [x01])
  = Answered (MkFleetResult 1 true (Some (MkEpoch "binding-1" "peer-a" 7 9)) "" "").
Proof. vm_compute. reflexivity. Qed.
