(* ===== verification/Shutdown.v ===== *)
(** * The daemon's shutdown

    keryx-daemon/src/lib.rs: [ShutdownState], the guard that every handler
    enters first, and [KeryxDaemonRuntime::shutdown], which waits for the
    handlers to leave, for a bounded time, and closes the store. The counter
    and the flag are sequentially consistent atomics, so each access is a step
    of its own, and requests, the shutdown and tests interleave step by step. *)
From S2P Require Import Prelude StoreModel Wire.
From stdpp Require Import options.
#[local] Open Scope Z_scope.

(** ** State *)

Record ShutdownState : Type := MkShutdown {
  shutting_down : bool;
  in_flight_rpcs : Z;
  grpc_shutdown : bool;
}.

Definition new_shutdown : ShutdownState := MkShutdown false 0 false.

Definition mark_shutting_down (s : ShutdownState) : ShutdownState :=
  MkShutdown true (in_flight_rpcs s) (grpc_shutdown s).
Definition signal_grpc_stop (s : ShutdownState) : ShutdownState :=
  MkShutdown (shutting_down s) (in_flight_rpcs s) true.

(** [fetch_add] and [fetch_sub] on an [AtomicUsize] wrap around. *)
Definition fetch_add (n : Z) (s : ShutdownState) : ShutdownState :=
  MkShutdown (shutting_down s) (as_u64 (in_flight_rpcs s + n)) (grpc_shutdown s).

(** ** The guard *)

(** Where a request is: the four accesses of [RpcInFlightGuard::enter]; in its
    handler, which the guard's [Drop] ends whether it returns, panics or is
    dropped; or at its end. *)
Inductive RpcThread : Type :=
| EnterCheck | EnterAdd | EnterRecheck | EnterUndo
| RpcRefused (s : Status) | RpcRunning | RpcEnded.

Definition shutting_down_status : Status := MkStatus Unavailable "daemon is shutting down".

Definition rpc_step (t : RpcThread) (s : ShutdownState) : RpcThread * ShutdownState :=
  match t with
  | EnterCheck => (if shutting_down s then RpcRefused shutting_down_status else EnterAdd, s)
  | EnterAdd => (EnterRecheck, fetch_add 1 s)
  | EnterRecheck => (if shutting_down s then EnterUndo else RpcRunning, s)
  | EnterUndo => (RpcRefused shutting_down_status, fetch_add (-1) s)
  | RpcRunning => (RpcEnded, fetch_add (-1) s)
  | RpcRefused _ | RpcEnded => (t, s)
  end.

(** ** Draining *)

(** Where [shutdown] is; [deadline] is what it computed from its first reading
    of the clock. Between the loop and the close it stops the discovery. *)
Inductive Drain : Type :=
| DrainNotStarted
| DrainMark (deadline : Z)
| DrainSignal (deadline : Z)
| DrainLoad (deadline : Z)
| DrainClock (deadline : Z)
| DrainClose (timed_out : bool)
| DrainDone (timed_out : bool).

Record DaemonProcess : Type := MkProcess {
  pr_shutdown : ShutdownState;
  pr_store_open : bool;
  pr_rpcs : list RpcThread;
  pr_drain : Drain;
}.

Definition start_process : DaemonProcess := MkProcess new_shutdown true [] DrainNotStarted.

Definition drain_step (timeout now : Z) (p : DaemonProcess) : DaemonProcess :=
  let s := pr_shutdown p in
  let go d := MkProcess s (pr_store_open p) (pr_rpcs p) d in
  match pr_drain p with
  | DrainNotStarted => go (DrainMark (now + timeout))
  | DrainMark deadline =>
      MkProcess (mark_shutting_down s) (pr_store_open p) (pr_rpcs p) (DrainSignal deadline)
  | DrainSignal deadline =>
      MkProcess (signal_grpc_stop s) (pr_store_open p) (pr_rpcs p) (DrainLoad deadline)
  | DrainLoad deadline =>
      go (if in_flight_rpcs s =? 0 then DrainClose false else DrainClock deadline)
  | DrainClock deadline => go (if deadline <=? now then DrainClose true else DrainLoad deadline)
  | DrainClose timed_out => MkProcess s false (pr_rpcs p) (DrainDone timed_out)
  | DrainDone _ => p
  end.

(** ** Interleavings *)

(** A request arrives, the [i]th request takes its next step, [shutdown] takes
    its next step at a reading of the clock, or someone else marks the daemon
    as shutting down ([mark_shutting_down], [initiate_shutdown]). *)
Inductive ProcessEvent : Type :=
| RequestArrives
| RequestMoves (i : nat)
| ShutdownMoves (now : Z)
| MarkedElsewhere (signal : bool).

Definition process_event (timeout : Z) (p : DaemonProcess) (ev : ProcessEvent) : DaemonProcess :=
  match ev with
  | RequestArrives => MkProcess (pr_shutdown p) (pr_store_open p) (pr_rpcs p ++ [EnterCheck]) (pr_drain p)
  | RequestMoves i =>
      match pr_rpcs p !! i with
      | Some t =>
          let (t, s) := rpc_step t (pr_shutdown p) in
          MkProcess s (pr_store_open p) (<[i := t]> (pr_rpcs p)) (pr_drain p)
      | None => p
      end
  | ShutdownMoves now => drain_step timeout now p
  | MarkedElsewhere signal =>
      let s := mark_shutting_down (pr_shutdown p) in
      MkProcess (if signal then signal_grpc_stop s else s) (pr_store_open p) (pr_rpcs p) (pr_drain p)
  end.

Definition process_run (timeout : Z) (events : list ProcessEvent) (p : DaemonProcess) : DaemonProcess :=
  foldl (process_event timeout) p events.

(** ** Invariant *)

(** The requests that the counter counts. *)
Definition counted (t : RpcThread) : bool :=
  match t with EnterRecheck | EnterUndo | RpcRunning => true | _ => false end.
Definition running (t : RpcThread) : bool := match t with RpcRunning => true | _ => false end.
Definition count_of (l : list RpcThread) : nat := length (List.filter counted l).

(** How far the shutdown must have come. *)
Definition marked (d : Drain) : bool :=
  match d with DrainNotStarted | DrainMark _ => false | _ => true end.
Definition drained (d : Drain) : bool :=
  match d with DrainClose false | DrainDone false => true | _ => false end.

Record ProcessInv (p : DaemonProcess) : Prop := {
  pi_count : in_flight_rpcs (pr_shutdown p) = as_u64 (Z.of_nat (count_of (pr_rpcs p)));
  pi_marked : marked (pr_drain p) = true -> shutting_down (pr_shutdown p) = true;
  pi_open : pr_store_open p = match pr_drain p with DrainDone _ => false | _ => true end;
  pi_drained : drained (pr_drain p) = true -> Forall (fun t => running t = false) (pr_rpcs p);
}.

Lemma count_app l t : count_of (l ++ [t]) = (count_of l + count_of [t])%nat.
Proof. unfold count_of. by rewrite List.filter_app, length_app. Qed.

Lemma count_insert l i t u : l !! i = Some t ->
  (count_of (<[i := u]> l) + count_of [t] = count_of l + count_of [u])%nat.
Proof.
  intros Hi. rewrite (insert_take_drop l i u) by (by eapply lookup_lt_Some).
  rewrite <- (take_drop_middle l i t Hi) at 3. unfold count_of.
  rewrite !List.filter_app, !length_app. simpl.
  destruct (counted t), (counted u); simpl; lia.
Qed.

Lemma count_le l : (count_of l <= length l)%nat.
Proof. apply List.filter_length_le. Qed.

Lemma count_zero l : count_of l = 0%nat -> Forall (fun t => running t = false) l.
Proof.
  intros Hc%length_zero_iff_nil. apply Forall_forall. intros t Ht.
  destruct (running t) eqn:Hr; [|done]. destruct t; try done.
  apply list_elem_of_In in Ht.
  assert (Hin : In RpcRunning (List.filter counted l)) by by apply filter_In.
  by rewrite Hc in Hin.
Qed.

(** ** Every interleaving keeps it *)

Lemma as_u64_add_l n m : as_u64 (as_u64 n + m) = as_u64 (n + m).
Proof. unfold as_u64. apply Zplus_mod_idemp_l. Qed.

(** What a step of a request does to the counter, and when it runs. *)
Lemma rpc_step_spec t s t' s' : rpc_step t s = (t', s') ->
  shutting_down s' = shutting_down s
  /\ in_flight_rpcs s' = (if Nat.eqb (count_of [t]) (count_of [t']) then in_flight_rpcs s
       else as_u64 (in_flight_rpcs s + Z.of_nat (count_of [t']) - Z.of_nat (count_of [t])))
  /\ (running t' = true -> running t = false -> shutting_down s = false).
Proof.
  unfold rpc_step. destruct t; intros [= <- <-]; destruct (shutting_down s) eqn:E; simpl;
    split_and!; try done; f_equal; unfold count_of; simpl; lia.
Qed.

Lemma rpc_step_counts l i t s t' s' :
  l !! i = Some t -> rpc_step t s = (t', s') ->
  in_flight_rpcs s = as_u64 (Z.of_nat (count_of l)) ->
  in_flight_rpcs s' = as_u64 (Z.of_nat (count_of (<[i := t']> l))).
Proof.
  intros Hi (_ & Hc & _)%rpc_step_spec Hs. pose proof (count_insert l i t t' Hi) as Hcount.
  rewrite Hc. destruct (Nat.eqb_spec (count_of [t]) (count_of [t'])) as [He|_].
  - rewrite Hs. do 2 f_equal. lia.
  - rewrite Hs, <- Z.add_sub_assoc, as_u64_add_l. f_equal. lia.
Qed.

Lemma process_event_inv timeout p ev :
  Z.of_nat (length (pr_rpcs p)) <= u64_max -> ProcessInv p -> ProcessInv (process_event timeout p ev).
Proof.
  intros Hlen [Hc Hm Ho Hd]. destruct ev as [|i|now|signal]; simpl.
  - split; simpl; try done.
    + rewrite count_app, Hc. simpl. by rewrite Nat.add_0_r.
    + intros H. apply Forall_app_2; [by apply Hd|]. by apply Forall_singleton.
  - destruct (pr_rpcs p !! i) as [t|] eqn:Hi; [|by split].
    destruct (rpc_step t (pr_shutdown p)) as [t' s'] eqn:Hs.
    destruct (rpc_step_spec _ _ _ _ Hs) as (Hf & _ & Hrun). split; simpl; try done.
    + by eapply rpc_step_counts.
    + rewrite Hf. exact Hm.
    + intros H. pose proof (Hd H) as Hall. apply Forall_insert; [done|].
      destruct (running t') eqn:Hr; [|done].
      rewrite Hrun in Hm; [|done|by eapply (Forall_lookup_1 _ _ _ _ Hall)].
      destruct (pr_drain p); try done; by discriminate Hm.
  - destruct (pr_drain p) as [|d|d|d|d|b|b] eqn:Hdr; simpl; try (by split; simpl; auto); unfold drain_step;
      rewrite Hdr; try (by split; simpl; auto).
    + destruct (Z.eqb_spec (in_flight_rpcs (pr_shutdown p)) 0) as [H0|]; [|by split].
      split; simpl; try done. intros _. apply count_zero. rewrite Hc in H0.
      pose proof (count_le (pr_rpcs p)). unfold as_u64, u64_max in *.
      rewrite Z.mod_small in H0 by lia. lia.
    + destruct (d <=? now); by split.
    + split; rewrite ?Hdr; auto.
  - destruct signal; split; simpl; auto.
Qed.

Lemma process_event_grows timeout p ev :
  (length (pr_rpcs (process_event timeout p ev)) <= S (length (pr_rpcs p)))%nat.
Proof.
  destruct ev as [|i|now|signal]; simpl; try lia.
  - rewrite length_app. simpl. lia.
  - destruct (pr_rpcs p !! i) as [t|]; simpl; [|lia].
    destruct (rpc_step t _). simpl. rewrite length_insert. lia.
  - unfold drain_step. destruct (pr_drain p); simpl; lia.
Qed.

Lemma process_run_inv timeout events : forall p,
  Z.of_nat (length (pr_rpcs p) + length events) <= u64_max ->
  ProcessInv p -> ProcessInv (process_run timeout events p).
Proof.
  induction events as [|ev events IH]; simpl; intros p Hlen HI; [done|].
  pose proof (process_event_grows timeout p ev).
  apply IH; [lia|]. apply process_event_inv; [lia|done].
Qed.

Lemma start_process_inv : ProcessInv start_process.
Proof. split; simpl; try done. Qed.

(** ** The drain ends *)

(** The steps that a shutdown still takes once the clock passed its deadline. *)
Definition remaining (d : Drain) : nat :=
  match d with
  | DrainNotStarted => 7 | DrainMark _ => 5 | DrainSignal _ => 4 | DrainLoad _ => 3
  | DrainClock _ => 2 | DrainClose _ => 1 | DrainDone _ => 0
  end.
Definition deadline_of (d : Drain) : option Z :=
  match d with
  | DrainMark d | DrainSignal d | DrainLoad d | DrainClock d => Some d
  | _ => None
  end.

(** The steps of the shutdown in a run, all at or after the time [d]. *)
Definition is_shutdown_step (ev : ProcessEvent) : bool :=
  match ev with ShutdownMoves _ => true | _ => false end.
Definition steps_after (d : Z) (events : list ProcessEvent) : Prop :=
  Forall (fun ev => match ev with ShutdownMoves now => d <= now | _ => True end) events.

Lemma drain_progress timeout events : forall p d,
  pr_drain p <> DrainNotStarted -> default d (deadline_of (pr_drain p)) = d ->
  steps_after d events ->
  (remaining (pr_drain (process_run timeout events p))
   <= remaining (pr_drain p) - length (filter (fun ev => is_shutdown_step ev = true) events))%nat.
Proof.
  induction events as [|ev events IH]; intros p d Hs Hd Hall; [simpl; lia|].
  apply Forall_cons_1 in Hall as [Hev Hall].
  change (process_run timeout (ev :: events) p) with (process_run timeout events (process_event timeout p ev)).
  rewrite filter_cons.
  assert (Hother : pr_drain (process_event timeout p ev) = pr_drain p -> is_shutdown_step ev = false ->
    (remaining (pr_drain (process_run timeout events (process_event timeout p ev)))
     <= remaining (pr_drain p) - length (filter (fun ev => is_shutdown_step ev = true) events))%nat).
  { intros He _. rewrite <- He. apply (IH _ d); by rewrite ?He. }
  destruct ev as [|i|now|signal]; simpl is_shutdown_step; try by apply Hother.
  - apply Hother; [|done]. simpl. destruct (pr_rpcs p !! i) as [t|]; [|done]. by destruct (rpc_step t _).
  - rewrite decide_True by done. simpl process_event. clear Hother. simpl length.
    assert (Hstep : pr_drain (drain_step timeout now p) <> DrainNotStarted
      /\ default d (deadline_of (pr_drain (drain_step timeout now p))) = d
      /\ (remaining (pr_drain (drain_step timeout now p)) <= remaining (pr_drain p) - 1)%nat).
    { unfold drain_step. destruct (pr_drain p) as [|e|e|e|e|b|b] eqn:E; simpl in Hd |- *;
        rewrite ?E; simpl; try done; try (split_and!; first [done|simpl; lia]).
      - destruct (_ =? 0); simpl; split_and!; done || lia.
      - subst e. destruct (Z.leb_spec d now); simpl; [|lia]. split_and!; done || lia. }
    destruct Hstep as (H1 & H2 & H3). pose proof (IH _ d H1 H2 Hall). lia.
Qed.

Lemma drained_stays timeout ev p :
  drained (pr_drain p) = true -> drained (pr_drain (process_event timeout p ev)) = true.
Proof.
  destruct ev as [|i|now|signal]; simpl; try done.
  - destruct (pr_rpcs p !! i) as [t|]; [|done]. by destruct (rpc_step t _).
  - unfold drain_step. destruct (pr_drain p) as [|d|d|d|d|[]|[]] eqn:E; simpl; rewrite ?E; done.
Qed.

Lemma drained_run timeout events : forall p,
  drained (pr_drain p) = true -> drained (pr_drain (process_run timeout events p)) = true.
Proof. induction events as [|ev events IH]; simpl; intros p Hp; [done|]. by apply IH, drained_stays. Qed.

(** C25: a store that was closed after a drain has no handlers. Requests enter,
    run and leave in any interleaving with [shutdown], access by access, fewer
    than 2^64 of them. The counter is at every moment the number of requests
    that counted themselves. If [shutdown] saw it at zero, no request is in its
    handler, then or at any later time, although requests keep arriving: so
    once the store is closed, a handler only runs if the drain timed out. And
    the drain ends: once the clock has passed the deadline, five more steps of
    [shutdown] close the store, whatever the requests do. *)
Theorem drained_store_has_no_handlers (timeout : Z) (events more : list ProcessEvent)
    (Hlen : Z.of_nat (length (events ++ more)) <= u64_max) :
  let p := process_run timeout events start_process in
  let q := process_run timeout more p in
  in_flight_rpcs (pr_shutdown p) = Z.of_nat (count_of (pr_rpcs p))
  /\ (drained (pr_drain p) = true -> Forall (fun t => running t = false) (pr_rpcs q))
  /\ (forall t, t ∈ pr_rpcs q -> running t = true -> pr_store_open q = false ->
        pr_drain q = DrainDone true)
  /\ (forall d, deadline_of (pr_drain p) = Some d -> steps_after d more ->
        (5 <= length (filter (fun ev => is_shutdown_step ev = true) more))%nat ->
        pr_store_open q = false).
Proof.
  intros p q. rewrite length_app in Hlen.
  assert (Hp : ProcessInv p) by (apply process_run_inv; [simpl; lia|apply start_process_inv]).
  assert (Hgrow : (length (pr_rpcs p) <= length events)%nat).
  { enough (H : forall l p0, (length (pr_rpcs (process_run timeout l p0)) <= length (pr_rpcs p0) + length l)%nat)
      by apply (H events start_process).
    induction l as [|ev l IH]; intros p0; simpl; [lia|]. pose proof (process_event_grows timeout p0 ev).
    pose proof (IH (process_event timeout p0 ev)). unfold process_run in *. lia. }
  assert (Hq : ProcessInv q) by (apply process_run_inv; [lia|done]).
  split_and!.
  - rewrite (pi_count _ Hp). pose proof (count_le (pr_rpcs p)). unfold as_u64, u64_max in *.
    apply Z.mod_small. lia.
  - intros Hd. apply (pi_drained _ Hq). by apply drained_run.
  - intros t Ht Hr Ho. pose proof (pi_open _ Hq) as Hopen. rewrite Ho in Hopen.
    pose proof (pi_drained _ Hq) as Hno.
    destruct (pr_drain q) as [| | | | | |[]] eqn:E; try done.
    pose proof (proj1 (Forall_forall _ _) (Hno eq_refl) t Ht). congruence.
  - intros d Hd Hafter Hsteps.
    assert (Hrem : remaining (pr_drain q) = 0%nat).
    { pose proof (drain_progress timeout more p d) as H. unfold q.
      destruct (pr_drain p); try done; simpl in H; specialize (H ltac:(done) ltac:(by injection Hd) Hafter); lia. }
    rewrite (pi_open _ Hq). by destruct (pr_drain q).
Qed.

(** Two requests meet the shutdown: one was let in and is waited for, the other
    passed its first check before the mark and is turned away. *)
Definition two_requests : list ProcessEvent :=
  [RequestArrives; RequestMoves 0; RequestMoves 0; RequestMoves 0;
   RequestArrives; RequestMoves 1;
   ShutdownMoves 0; ShutdownMoves 0; ShutdownMoves 0; ShutdownMoves 0; ShutdownMoves 1;
   RequestMoves 1; RequestMoves 1; RequestMoves 1; RequestMoves 0; ShutdownMoves 2].

Lemma drained_store_has_no_handlers_witness :
  pr_rpcs (process_run 30 two_requests start_process) = [RpcEnded; RpcRefused shutting_down_status]
  /\ pr_drain (process_run 30 two_requests start_process) = DrainClose false
  /\ Forall (fun t => running t = false)
       (pr_rpcs (process_run 30 [RequestArrives; ShutdownMoves 3; RequestMoves 2]
                   (process_run 30 two_requests start_process))).
Proof.
  split; [vm_compute; reflexivity|]. split; [vm_compute; reflexivity|].
  exact (proj1 (proj2 (drained_store_has_no_handlers 30 two_requests
    [RequestArrives; ShutdownMoves 3; RequestMoves 2] ltac:(vm_compute; discriminate)))
    ltac:(vm_compute; reflexivity)).
Defined.
